(* ===== verification/_CoqProject ===== *)
-Q . S2P
Prelude.v
JsNumber.v
NumberText.v
Enums.v
Conditions.v
QuietHours.v
JsParse.v
Regex.v
TriggerStateMachine.v
Location.v
Env.v
Contracts.v
Table.v
OpenMeteoTypes.v
World.v
Samples.v
Effects.v
RedisService.v
Throttler.v
Weather.v
Outbox.v
Watcher.v
Ledger.v
Async.v
Cycle.v
CycleProps.v
Alerts.v
Fleet.v
Format.v
DeliveryLog.v
Channels.v
Notifier.v
Deliveries.v
Consumer.v
Attempt.v
Arrival.v
Shutdown.v
Pipeline.v
Crypto.v
Auth.v
OpenMeteo.v
AuthSessions.v
AuthAccounts.v
Triggers.v
TriggersProps.v
Users.v
Admin.v
AccountsProps.v
Requests.v
Resets.v
History.v
TelegramBot.v
Bots.v
Http.v
HttpProps.v
Session.v
Settings.v
Health.v
Metrics.v
