(* ===== verification/Prelude.v ===== *)
(** * Weather Notify: a verification development

    Weather Notify lets a user describe weather conditions for a place and
    sends an alert when they hold. Three services share a PostgreSQL database,
    Redis and RabbitMQ:

    - [apps/core-api]: accounts, sessions, triggers, history, administration
      and the Telegram bot, over HTTP;
    - [apps/watcher]: on a schedule, reads the active triggers of its shard,
      fetches one weather snapshot per location, runs the state machine of
      each trigger and stages the alerts in an outbox table that a relay
      publishes to the broker;
    - [apps/notifier]: consumes one queue per channel, claims each delivery in
      the database, sends it, and retries through delayed queues or parks it.

    [libs/domain] holds the pure decisions, [libs/contracts] the messages,
    [libs/common] Redis and the publisher. The files below translate this
    TypeScript; definitions keep the names of the code.

    ** How the code is modelled

    [World] (World.v) is everything the services share: the clock, the tables
    as lists of rows, the keys of Redis with their deadlines, the broker, and
    the log of what was sent outside. Code with effects is a function
    [World -> outcome A * World] (Effects.v) with the notations [let*] and
    [do*]; exceptions are values, with [catch] and [finally]. Each remote call
    (an SQL statement or transaction, a Redis command or script, a publish, an
    HTTP request) is one [io], atomic, and how it goes is decided by an oracle:
    it answers, it fails before or after taking effect, or the process dies
    before or after, and any time passes meanwhile. Theorems that do not fix
    the oracle hold for every sequence of faults; theorems about a fault-free
    run assume [oracle w = []].

    Where the code of one process runs next to itself or to another's, its
    functions are translated a second time as resumptions (Async.v): a [Proc]
    has settled or is suspended at a remote call with what follows. Their
    names start with [async_], and each is proved to be the sequential
    function when nothing runs next to it ([alone_...]). Step relations then
    interleave them at every call: the workers, renewals and timer of a poll
    cycle (Cycle.v), a fleet of watchers with their relays (Fleet.v), the
    attempts on one delivery (Deliveries.v), the handlers of one queue with
    its shutdown (Shutdown.v), all of these around one broker
    (Pipeline.v), the refresh requests for one token (Requests.v), the
    presentations of one reset link (Resets.v), the replicas of the bot
    (Bots.v), and the holders of a lock (RedisService.v). The other requests
    of core-api are interleaved at whole operations; concrete runs show what
    a finer interleaving of some of them breaks (Requests.v, Resets.v).
    Hashing a password and comparing one are calls too: they are awaited, take
    time, and other requests run meanwhile. A reading of the clock happens in
    the step that follows the call before it.
    Numbers of JavaScript are binary64 values (JsNumber.v); the 32-bit
    arithmetic of the location hash is written out on [Z].

    ** Files

    - Prelude.v: tactics. JsNumber.v, NumberText.v, JsParse.v: doubles, how
      they print and how texts are read as numbers. Regex.v: patterns and
      their matcher. Enums.v: [libs/domain/src/enums.ts].
    - Conditions.v, QuietHours.v, TriggerStateMachine.v, Location.v: the
      modules of [libs/domain/src] of those names, and
      [apps/watcher/src/sharding.ts]. Contracts.v: [libs/contracts/src].
    - Env.v: [libs/common/src/config/env.ts], the schemas and the validator.
      Settings.v: what each service reads from the validated configuration.
      Health.v: [libs/common/src/health] and the probes of the services.
      Metrics.v: [libs/common/src/metrics], [libs/common/src/logging] and the
      series of the services.
    - Table.v: what the code uses of the database client on a table.
      World.v, Effects.v: above. Samples.v: rows for the concrete runs.
    - RedisService.v: [libs/common/src/redis/redis.service.ts].
    - Throttler.v: [libs/common/src/redis/redis-throttler.storage.ts].
    - Weather.v, Outbox.v, Watcher.v: [apps/watcher/src], one call after
      another. Async.v: resumptions and rely-guarantee reasoning about them.
      Cycle.v: the poll cycle with its workers in flight, CycleProps.v its
      properties; Ledger.v: what a firing adds to the outbox and the broker,
      row by row; Alerts.v: what a cycle does when nothing is in its way;
      Fleet.v: any number of watcher processes.
    - Format.v, DeliveryLog.v, Channels.v, Notifier.v, Consumer.v:
      [apps/notifier/src]. Deliveries.v: concurrent attempts on one delivery.
      Attempt.v: a reference for one attempt and that the code implements
      it; Arrival.v: the way of an alert from the cycle to its owner.
      Shutdown.v: prefetch, handlers in flight and [onModuleDestroy].
      Pipeline.v: watchers, broker and notifiers as one system.
    - Crypto.v: hashing, password hashing and signed tokens, as a class with
      the laws the code relies on. Auth.v: [apps/core-api/src/auth];
      AuthSessions.v, AuthAccounts.v: its properties.
    - Triggers.v, TriggersProps.v: [apps/core-api/src/triggers].
    - Users.v, Admin.v, AccountsProps.v: [users/users.service.ts], the guards,
      [admin/admin.service.ts].
    - Requests.v: requests of the API next to each other; Resets.v: reset
      links and guesses in flight together.
    - History.v: [notifications] and [pinned-cities].
      TelegramBot.v: [users/telegram-bot.service.ts], Bots.v: its replicas,
      from [onModuleInit] to [onModuleDestroy].
      OpenMeteoTypes.v, OpenMeteo.v: the lookups of [open-meteo].
    - Http.v: the controllers, the refresh cookie and the validation of
      requests, composed with the limiter and the guards into one function
      per request; HttpProps.v: what holds on every route. Session.v: a
      client that keeps refreshing.

    ** What the theorems show

    - An alert is not lost and not repeated: a firing that does not
      succeed changes nothing and one that does stages all of its channels, a
      staged event is staged or with the broker for
      ever, the relay drains, an acknowledged message was sent, is waiting in
      a retry queue or was parked, a delivery has one owner at a time, and
      once an attempt has reported it as sent no later one sends it, unless a
      final failure is recorded over it in between (Watcher.v, Fleet.v,
      Outbox.v, Consumer.v, Deliveries.v). Put together: from the outbox on, an event is
      always somewhere until its delivery is recorded or parked (Pipeline.v).
    - And it arrives: when calls answer, a cycle steps every active trigger of
      its shard once, the triggers that are due fire exactly once and no
      others do, and nothing else changes (Alerts.v); an attempt does what its
      reference says, on every state of the log and for users and triggers
      that are gone too (Attempt.v); and an alert that is due reaches its owner on each channel
      or is logged with the reason it cannot (Arrival.v).
    - Concurrency inside a process: a pass polls each location once, with a
      bounded number in flight, and ends after finitely many steps whatever
      the renewal timer does in between; with one worker it is the sequential
      [runCycle], which ties the two translations together (CycleProps.v); the consumer loses no message, keeps
      to its prefetch and shuts down in bounded time (Shutdown.v).
    - What the watcher stores refines the abstract state machine; alerts of a
      trigger respect its cooldown however its conditions flap; the shards
      cover the active triggers exactly once, and split no location as long as
      every row carries the bucket of its coordinates (TriggerStateMachine.v, Watcher.v,
      Location.v).
    - The lock that elects one replica excludes the others under any
      interleaving and any lost reply (RedisService.v).
    - Sessions and accounts: a refresh token is spent once, by concurrent
      requests too, and its replay ends every session; a reset link that was
      answered answers no presentation that begins later, and takes the account
      back; guesses one after another are bounded while Redis answers, and a
      failed one reveals nothing, the calls it makes included; a deleted account leaves no row and its tokens are refused, an
      administrator remains whatever is requested one after another
      (AuthSessions.v, Requests.v, AuthAccounts.v, Resets.v, AccountsProps.v).
    - Triggers stay well formed, belong to their owner and read back as
      written (TriggersProps.v); the retention sweep ends and removes what has
      expired and nothing else (History.v); the bot skips no update, whichever
      replica leads, and one that is told to stop ends (TelegramBot.v,
      Bots.v); a client is let through at most the configured
      number of times per window (Throttler.v); equivalent lookups share one
      call to the upstream (OpenMeteo.v).
    - Starting up: validation decides every environment, a watcher that starts
      has a worker and a shard of its own, the API starts only with settings
      under which sessions are kept, and the retry delays are the ones that
      were written (Env.v, Settings.v). Readiness tells the truth about the
      dependencies (Health.v).
    - The surface as a whole: no guarded route answers or leaves a trace
      without a token that verifies, a request of a signed-in user outside the
      administration changes no row of another account (HttpProps.v), and a session that is refreshed in time stays
      open through the limiter, the cookie and the rotation (Session.v).
    - Some theorems describe defects of the code: a message whose user was
      deleted wedges its consumer and stalls the queue behind it, a worker
      that fails releases the lock under the others, a late release frees
      the claim of another consumer, a failed copy overwrites a delivery that
      was sent, a setting left empty turns the relay off, a move that patches
      one coordinate keeps the old bucket, two administrators who remove each
      other at once leave none, two creations at once exceed the limit of
      triggers, a replay detected while the first refresh is still being
      answered leaves its session alive, two presentations of a reset link at
      once both reset the password, guesses sent together exceed the limit of
      ten, a role change locks the user out for
      the lifetime of an access token, and a bot that is told to stop sleeps
      out a delay it begins afterwards.

    ** Fuel

    Loops over data are structural. [prune_loop] has one round per stored
    notification and one more, and is proved not to run out of them. The
    number of passes of the bot before a shutdown is an argument; its
    theorems hold for every number.

    ** Not modelled

    Modules and bootstrap other than the global guard and pipe, the settings
    and the health checks (framework wiring), the log lines and the values of
    the metrics (output only). Of the modelled
    parts: a channel that the broker client reopens inside a running
    notifier, handlers that outlive the close of theirs (the process exits
    next), and the interleaving of two requests of core-api inside one
    operation. Case folding and
    trimming of texts are those of ASCII. *)

From Stdlib Require Export ZArith Lia.
From stdpp Require Export base decidable gmap strings pretty numbers option tactics.
From stdpp Require Export list.

(** ** Tactics *)

(** Case analysis on every [match]/[if] of the goal or of hypothesis [H],
    remembering the equation. *)
Ltac case_all := repeat (case_match; simplify_eq/=).

Ltac case_in H :=
  repeat match type of H with
         | context [match ?x with _ => _ end] => destruct x eqn:?; simplify_eq/=
         end.

(** Turn boolean integer tests into propositions. *)
Ltac bool_to_prop :=
  repeat match goal with
         | H : (_ <? _)%Z = true |- _ => apply Z.ltb_lt in H
         | H : (_ <? _)%Z = false |- _ => apply Z.ltb_ge in H
         | H : (_ <=? _)%Z = true |- _ => apply Z.leb_le in H
         | H : (_ <=? _)%Z = false |- _ => apply Z.leb_gt in H
         | H : (_ =? _)%Z = true |- _ => apply Z.eqb_eq in H
         | H : (_ =? _)%Z = false |- _ => apply Z.eqb_neq in H
         | H : andb _ _ = true |- _ => apply andb_true_iff in H; destruct H
         | H : orb _ _ = false |- _ => apply orb_false_iff in H; destruct H
         | H : negb _ = true |- _ => apply negb_true_iff in H
         | H : negb _ = false |- _ => apply negb_false_iff in H
         end.

(** Integer goals with division and remainder. *)
Ltac zdivmod := Z.div_mod_to_equations; lia.

(** An element of a list and what [omap] makes of the rest. *)
Lemma omap_split {A B} (f : A -> option B) (l : list A) i x :
  l !! i = Some x ->
  exists l1 l2, omap f l = l1 ++ option_list (f x) ++ l2 /\
    (forall y, omap f (<[i:=y]> l) = l1 ++ option_list (f y) ++ l2) /\ omap f (delete i l) = l1 ++ l2.
Proof.
  intros Hi. exists (omap f (take i l)), (omap f (drop (S i) l)).
  assert (forall z, omap f (take i l ++ z :: drop (S i) l) = omap f (take i l) ++ option_list (f z) ++ omap f (drop (S i) l)) as Hz.
  { intros z. rewrite omap_app. f_equal. cbn. by destruct (f z). }
  split_and!.
  - rewrite <- Hz. by rewrite take_drop_middle.
  - intros y. rewrite insert_take_drop by (by eapply lookup_lt_Some). apply Hz.
  - by rewrite delete_take_drop, omap_app.
Qed.
