(* ===== verification/JsNumber.v ===== *)
(** * JavaScript numbers

    A [number] of the source is an IEEE-754 binary64 value. It is the
    [spec_float] of the Standard Library with precision 53 and exponent range
    1024, whose operations are the correctly rounded ones, so that NaN, the
    infinities and rounding behave as in the source. Whole numbers become
    doubles that compare as the integers they denote. *)

From S2P Require Import Prelude.
From Stdlib Require Import SpecFloat.

#[global] Open Scope Z_scope.

Module Num.

(** A binary64 value. *)
Definition number := spec_float.

Definition prec : Z := 53.
Definition emax : Z := 1024.

(** The operators [+], [-], [*], [/] and [Math.abs] on numbers. *)
Definition add : number -> number -> number := SFadd prec emax.
Definition sub : number -> number -> number := SFsub prec emax.
Definition mul : number -> number -> number := SFmul prec emax.
Definition div : number -> number -> number := SFdiv prec emax.
Definition abs : number -> number := SFabs.

(** The comparisons [<], [<=], [>], [>=] and [===]; all are false on NaN. *)
Definition ltb (x y : number) : bool := SFltb x y.
Definition leb (x y : number) : bool := SFleb x y.
Definition gtb (x y : number) : bool := SFltb y x.
Definition geb (x y : number) : bool := SFleb y x.
Definition eqb (x y : number) : bool := SFeqb x y.

(** An integer literal, rounded to the nearest binary64 value. *)
Definition of_Z (z : Z) : number := binary_normalize prec emax z 0 false.

(** A decimal literal [a / b] with [b] a power of ten: both are exact for the
    literals of the source and the division is correctly rounded, so this is
    the double nearest to the literal. *)
Definition lit (a b : Z) : number := div (of_Z a) (of_Z b).

Definition is_nan (x : number) : bool :=
  match x with S754_nan => true | _ => false end.

Definition is_finite (x : number) : bool :=
  match x with S754_finite _ _ _ | S754_zero _ => true | _ => false end.

(** [Math.floor] of a finite number, as the integer it denotes; [None] for
    NaN and the infinities, which [Math.floor] returns unchanged. *)
Definition floor (x : number) : option Z :=
  match x with
  | S754_zero _ => Some 0
  | S754_finite s m e =>
      let v := if s then Z.neg m else Z.pos m in
      Some (if 0 <=? e then v * 2 ^ e else v / 2 ^ (- e))
  | _ => None
  end.

#[global] Instance number_eq_dec : EqDecision number.
Proof. solve_decision. Defined.

(** Swapping the operands of a comparison inverts it. *)
Lemma SFcompare_swap (x y : number) :
  SFcompare y x = CompOpp <$> SFcompare x y.
Proof.
  destruct x as [[]|[]| |[] m e], y as [[]|[]| |[] m' e']; cbn; try done.
  all: rewrite (Z.compare_antisym e e'); destruct (e ?= e'); cbn; try done.
  all: change (Pos.compare_cont Eq ?a ?b) with (a ?= b)%positive.
  all: by rewrite (Pos.compare_antisym m m').
Qed.

Lemma SFcompare_None (x y : number) :
  SFcompare x y = None <-> is_nan x = true \/ is_nan y = true.
Proof. destruct x as [[]|[]| |[] ??], y as [[]|[]| |[] ??]; cbn; naive_solver. Qed.

(** On numbers other than NaN [>] is the negation of [<=]. *)
Lemma gtb_negb_leb (x y : number) :
  is_nan x = false -> is_nan y = false -> gtb x y = negb (leb x y).
Proof.
  intros Hx Hy. unfold gtb, leb, SFltb, SFleb. rewrite (SFcompare_swap x y).
  destruct (SFcompare x y) as [[]|] eqn:E; try done.
  apply SFcompare_None in E as [?|?]; congruence.
Qed.

(** On numbers other than NaN [>=] is the negation of [<]. *)
Lemma geb_negb_ltb (x y : number) :
  is_nan x = false -> is_nan y = false -> geb x y = negb (ltb x y).
Proof.
  intros Hx Hy. unfold geb, ltb, SFltb, SFleb. rewrite (SFcompare_swap x y).
  destruct (SFcompare x y) as [[]|] eqn:E; try done.
  apply SFcompare_None in E as [?|?]; congruence.
Qed.

(** ** Whole numbers *)

Lemma digits_bounds p : 2 ^ (Z.pos (digits2_pos p) - 1) <= Z.pos p < 2 ^ Z.pos (digits2_pos p).
Proof.
  induction p as [p IH|p IH|]; cbn [digits2_pos]; [| |done].
  all: rewrite Pos2Z.inj_succ; replace (Z.succ (Z.pos (digits2_pos p)) - 1) with (Z.pos (digits2_pos p)) by lia.
  all: rewrite Z.pow_succ_r by lia.
  all: replace (2 ^ Z.pos (digits2_pos p)) with (2 * 2 ^ (Z.pos (digits2_pos p) - 1)) in *
      by (rewrite <- Z.pow_succ_r by lia; f_equal; lia).
  all: lia.
Qed.

Lemma digits_unique p d : 0 < d -> 2 ^ (d - 1) <= Z.pos p < 2 ^ d -> Z.pos (digits2_pos p) = d.
Proof.
  intros Hd Hp. pose proof (digits_bounds p) as Hb.
  destruct (Z.lt_trichotomy (Z.pos (digits2_pos p)) d) as [Hlt|[?|Hgt]]; [exfalso|done|exfalso].
  - assert (2 ^ Z.pos (digits2_pos p) <= 2 ^ (d - 1)) by (apply Z.pow_le_mono_r; lia). lia.
  - assert (2 ^ d <= 2 ^ (Z.pos (digits2_pos p) - 1)) by (apply Z.pow_le_mono_r; lia). lia.
Qed.

Lemma shr_1_half r : 0 <= shr_m r -> shr_m (shr_1 r) = shr_m r / 2 /\ 0 <= shr_m (shr_1 r).
Proof.
  destruct r as [m b s]. cbn. destruct m as [|[p|p|]|]; cbn; intros Hm; try (split; [done|lia]); try lia.
  - split; [|lia]. apply Z.div_unique with 1; lia.
  - split; [|lia]. apply Z.div_unique with 0; lia.
Qed.

Lemma iter_shr p r :
  0 <= shr_m r -> shr_m (iter_pos shr_1 p r) = shr_m r / 2 ^ Z.pos p /\ 0 <= shr_m (iter_pos shr_1 p r).
Proof.
  revert r. induction p as [p IH|p IH|]; intros r Hr; cbn [iter_pos].
  - destruct (shr_1_half r Hr) as [H1 H1']. destruct (IH _ H1') as [H2 H2']. destruct (IH _ H2') as [H3 H3'].
    split; [|done]. rewrite H3, H2, H1, !Z.div_div by lia. f_equal.
    replace (Z.pos p~1) with (1 + Z.pos p + Z.pos p) by lia. rewrite !(Z.pow_add_r 2) by lia. lia.
  - destruct (IH _ Hr) as [H2 H2']. destruct (IH _ H2') as [H3 H3'].
    split; [|done]. rewrite H3, H2, !Z.div_div by lia. f_equal.
    replace (Z.pos p~0) with (Z.pos p + Z.pos p) by lia. by rewrite Z.pow_add_r by lia.
  - by apply shr_1_half.
Qed.

Lemma fexp_value e : -1021 <= e -> fexp prec emax e = e - 53.
Proof. unfold fexp, emin, prec, emax. lia. Qed.

(** Shifting does nothing to a mantissa of 53 bits. *)
Lemma shr_fexp_53 m e :
  2 ^ 52 <= m < 2 ^ 53 -> -1074 <= e -> shr_fexp prec emax m e loc_Exact = ({| shr_m := m; shr_r := false; shr_s := false |}, e).
Proof.
  intros Hm He. unfold shr_fexp. destruct m as [|p|p]; [lia| |lia]. cbn [Zdigits2].
  rewrite (digits_unique p 53) by lia. rewrite fexp_value by lia. by replace (53 + e - 53 - e) with 0 by lia.
Qed.

Lemma round_aux_53 m e :
  2 ^ 52 <= Z.pos m < 2 ^ 53 -> -1074 <= e ->
  binary_round_aux prec emax false (Z.pos m) e loc_Exact =
    if e <=? 971 then S754_finite false m e else S754_infinity false.
Proof. intros Hm He. unfold binary_round_aux. rewrite shr_fexp_53 by lia. cbn -[shr_fexp Z.leb]. rewrite shr_fexp_53 by lia. done. Qed.

Lemma iter_xO m k : Z.pos (Pos.iter xO m k) = Z.pos m * 2 ^ Z.pos k.
Proof.
  induction k as [|k IH] using Pos.peano_ind; [cbn; lia|].
  rewrite Pos.iter_succ, Pos2Z.inj_xO, IH, Pos2Z.inj_succ, Z.pow_succ_r by lia. lia.
Qed.

Lemma shr_fexp_long p n :
  Z.pos (digits2_pos p) = 53 + Z.pos n ->
  exists r, shr_fexp prec emax (Z.pos p) 0 loc_Exact = (r, Z.pos n) /\ shr_m r = Z.pos p / 2 ^ Z.pos n.
Proof.
  intros Hd. unfold shr_fexp, shr_record_of_loc. unfold Zdigits2. rewrite Hd, fexp_value by lia.
  replace (53 + Z.pos n + 0 - 53 - 0) with (Z.pos n) by lia. eexists. split; [done|].
  by destruct (iter_shr n {| shr_m := Z.pos p; shr_r := false; shr_s := false |}) as [Hr _]; [cbn; lia|].
Qed.

(** A positive integer as a double: a mantissa of 53 bits, exact below 2^53. *)
Lemma of_Z_shape z :
  0 < z ->
  of_Z z = S754_infinity false /\ 2 ^ 53 <= z \/
  exists m e, of_Z z = S754_finite false m e /\ 2 ^ 52 <= Z.pos m < 2 ^ 53 /\
    (e < 0 \/ z < 2 ^ 53 -> e <= 0 /\ Z.pos m = z * 2 ^ (- e)).
Proof.
  destruct z as [|p|p]; [lia| |lia]. intros _. unfold of_Z, binary_normalize, binary_round.
  pose proof (digits_bounds p) as Hb. set (d := Z.pos (digits2_pos p)) in *. rewrite Z.add_0_r, fexp_value by lia.
  unfold shl_align. rewrite Z.sub_0_r. destruct (d - 53) as [|n|k] eqn:Hd.
  - assert (d = 53) as E by lia. rewrite E in Hb. rewrite round_aux_53 by lia. right. exists p, 0. split_and!; lia || done.
  - unfold binary_round_aux. destruct (shr_fexp_long p n) as (r & -> & Hr); [unfold d in Hd; lia|].
    assert (2 ^ 52 <= shr_m r < 2 ^ 53) as Hm1.
    { rewrite Hr. split.
      - apply Z.div_le_lower_bound; [lia|]. replace (2 ^ Z.pos n * 2 ^ 52) with (2 ^ (d - 1)); [lia|].
        rewrite <- Z.pow_add_r by lia. f_equal. lia.
      - apply Z.div_lt_upper_bound; [lia|]. replace (2 ^ Z.pos n * 2 ^ 53) with (2 ^ d); [lia|].
        rewrite <- Z.pow_add_r by lia. f_equal. lia. }
    assert (2 ^ 53 <= Z.pos p) as Hlong by (assert (2 ^ 53 <= 2 ^ (d - 1)) by (apply Z.pow_le_mono_r; lia); lia).
    set (m2 := round_nearest_even _ _).
    assert (2 ^ 52 <= m2 <= 2 ^ 53) as Hm2 by (unfold m2, round_nearest_even; repeat case_match; lia).
    destruct (decide (m2 = 2 ^ 53)) as [E|Hne].
    + rewrite E. change (shr_fexp prec emax (2 ^ 53) (Z.pos n) loc_Exact) with
        (shr {| shr_m := 2 ^ 53; shr_r := false; shr_s := false |} (Z.pos n) (fexp prec emax (54 + Z.pos n) - Z.pos n)).
      rewrite fexp_value by lia. replace (54 + Z.pos n - 53 - Z.pos n) with 1 by lia. cbn -[Z.leb emax prec].
      change (emax - prec) with 971. destruct (Z.pos n + 1 <=? 971) eqn:Hle; [|left; by split]. apply Z.leb_le in Hle. right. eexists _, _. split_and!; try done; try lia.
    + rewrite shr_fexp_53 by lia. cbn -[Z.leb emax prec]. change (emax - prec) with 971. destruct m2 as [|m|]; [lia| |lia].
      destruct (Z.pos n <=? 971) eqn:Hle; [|left; by split]. apply Z.leb_le in Hle. right. eexists _, _. split_and!; try done; try lia.
  - assert (Z.pos (Pos.iter xO p k) = Z.pos p * 2 ^ Z.pos k) as Hk by apply iter_xO.
    assert (2 ^ 52 <= Z.pos (Pos.iter xO p k) < 2 ^ 53) as Hm.
    { rewrite Hk. replace (2 ^ 52) with (2 ^ (d - 1) * 2 ^ Z.pos k) by (rewrite <- Z.pow_add_r by lia; f_equal; lia).
      replace (2 ^ 53) with (2 ^ d * 2 ^ Z.pos k) by (rewrite <- Z.pow_add_r by lia; f_equal; lia). nia. }
    rewrite round_aux_53 by lia. rewrite (proj2 (Z.leb_le _ _)) by lia. right. eexists _, _. split_and!; try done; try lia.
Qed.
(** What a whole double denotes, over 2^-52. *)
Lemma of_Z_value z :
  0 < z ->
  of_Z z = S754_infinity false /\ 2 ^ 53 <= z \/
  exists m e v, of_Z z = S754_finite false m e /\ 2 ^ 52 <= Z.pos m < 2 ^ 53 /\ -52 <= e /\
    floor (of_Z z) = Some v /\ v * 2 ^ 52 = Z.pos m * 2 ^ (e + 52) /\ (z < 2 ^ 53 -> v = z).
Proof.
  intros Hz. destruct (of_Z_shape z Hz) as [?|(m & e & Heq & Hm & Hexact)]; [by left|right].
  assert (-52 <= e) as He.
  { destruct (decide (-52 <= e)); [done|]. exfalso. destruct (Hexact ltac:(lia)) as [_ Hx].
    assert (2 ^ 53 <= 2 ^ (- e)) by (apply Z.pow_le_mono_r; lia). nia. }
  rewrite Heq. destruct (decide (0 <= e)) as [Hpos|Hneg].
  - exists m, e, (Z.pos m * 2 ^ e). split_and!; try done; try lia.
    + cbn. by rewrite (proj2 (Z.leb_le _ _)).
    + rewrite Z.pow_add_r by lia. lia.
    + intros Hlt. destruct (Hexact (or_intror Hlt)) as [Hle ->]. replace e with 0 by lia. cbn. lia.
  - destruct (Hexact ltac:(lia)) as [_ Hx]. exists m, e, z. split_and!; try done; try lia.
    + cbn. rewrite (proj2 (Z.leb_gt _ _)) by lia. by rewrite Hx, Z.div_mul by lia.
    + rewrite Hx, <- Z.mul_assoc, <- Z.pow_add_r by lia. do 2 f_equal. lia.
Qed.

Lemma ltb_of_Z_0 z : 0 < z -> ltb (of_Z 0) (of_Z z) = true.
Proof. intros Hz. by destruct (of_Z_shape z Hz) as [[-> _]|(m & e & -> & _)]. Qed.

(** Whole doubles compare as the integers they denote. *)
Lemma ltb_of_Z a b :
  0 <= a -> 0 <= b -> is_finite (of_Z b) = true -> ltb (of_Z a) (of_Z b) = true ->
  exists x y, floor (of_Z a) = Some x /\ floor (of_Z b) = Some y /\ 0 <= x < y.
Proof.
  intros Ha Hb Hfin Hlt. destruct (decide (b = 0)) as [->|Hb0].
  { exfalso. destruct (decide (a = 0)) as [->|Ha0]; [done|].
    destruct (of_Z_shape a) as [[E _]|(m & e & E & _)]; [lia|by rewrite E in Hlt..]. }
  destruct (of_Z_value b) as [[E _]|(m2 & e2 & y & E2 & Hm2 & He2 & Hy & Hv2 & _)]; [lia|by rewrite E in Hfin|].
  destruct (decide (a = 0)) as [->|Ha0].
  { exists 0, y. split_and!; try done. nia. }
  destruct (of_Z_value a) as [[E _]|(m1 & e1 & x & E1 & Hm1 & He1 & Hx & Hv1 & _)]; [lia|by rewrite E, E2 in Hlt|].
  assert (0 < 2 ^ (e1 + 52)) as Hp1 by lia. exists x, y. split_and!; try done; [nia|].
  rewrite E1, E2 in Hlt. unfold ltb, SFltb in Hlt. cbn in Hlt.
  destruct (e1 ?= e2) eqn:He; [apply Z.compare_eq in He|apply (proj1 (Z.compare_lt_iff _ _)) in He|done].
  - subst e2. destruct (m1 ?= m2)%positive eqn:Hm; change (Pos.compare_cont Eq m1 m2) with (m1 ?= m2)%positive in Hlt;
      rewrite Hm in Hlt; try done. assert (Z.pos m1 < Z.pos m2) by exact Hm.
    assert (Z.pos m1 * 2 ^ (e1 + 52) < Z.pos m2 * 2 ^ (e1 + 52)) by (apply Z.mul_lt_mono_pos_r; lia). lia.
  - assert (2 * 2 ^ (e1 + 52) <= 2 ^ (e2 + 52)).
    { rewrite <- Z.pow_succ_r by lia. apply Z.pow_le_mono_r; lia. }
    assert (Z.pos m1 * 2 ^ (e1 + 52) < 2 ^ 53 * 2 ^ (e1 + 52)) by (apply Z.mul_lt_mono_pos_r; lia).
    assert (2 ^ 52 * 2 ^ (e2 + 52) <= Z.pos m2 * 2 ^ (e2 + 52)) by (apply Z.mul_le_mono_nonneg_r; lia). lia.
Qed.

End Num.

Abbreviation number := Num.number.
