(* ===== verification/NumberText.v ===== *)
(** * The text of a number

    [String(x)] and template literals on numbers: the shortest decimal that
    reads back as the same double, and the closest one among those. *)

From S2P Require Import Prelude JsNumber.
From Stdlib Require Import SpecFloat.

Module NumText.

(** Doubles as fractions [p / q]. *)
Definition two_up (e : Z) : Z := 2 ^ Z.max e 0.
Definition two_down (e : Z) : Z := 2 ^ Z.max (- e) 0.

(** [v < 10^n] for [v = p / q]. *)
Definition below_pow10 (p q n : Z) : bool :=
  if 0 <=? n then p <? 10 ^ n * q else p * 10 ^ (- n) <? q.

(** The [n] with [10^(n-1) <= v < 10^n]. A double lies between [10^-324] and
    [10^309], so the fuel of 400 steps from zero is never used up. *)
Fixpoint climb (fuel : nat) (p q n : Z) : Z :=
  match fuel with
  | O => n
  | S fuel => if below_pow10 p q n then n else climb fuel p q (n + 1)
  end.

Fixpoint descend (fuel : nat) (p q n : Z) : Z :=
  match fuel with
  | O => n
  | S fuel => if below_pow10 p q (n - 1) then descend fuel p q (n - 1) else n
  end.

Definition magnitude (p q : Z) : Z :=
  if below_pow10 p q 0 then descend 400 p q 0 else climb 400 p q 0.

(** [s * 10^j] with the denominator cleared: numerator and denominator. *)
Definition scaled (s j : Z) : Z * Z := if 0 <=? j then (s * 10 ^ j, 1) else (s, 10 ^ (- j)).

(** Whether the decimal [s * 10^j] rounds to the double [m * 2^e]: it lies
    between the midpoints to the neighbours, the ends included for an even
    significand (ties go to even). *)
Definition reads_back (m e s j : Z) : bool :=
  let u := two_up e in
  let q := 4 * two_down e in
  let low := if (m =? 2 ^ 52) && (-1074 <? e) then (4 * m - 1) * u else (4 * m - 2) * u in
  let high := (4 * m + 2) * u in
  let '(a, b) := scaled s j in
  if Z.even m then (low * b <=? a * q) && (a * q <=? high * b)
  else (low * b <? a * q) && (a * q <? high * b).

(** The shortest digits: [(s, k, n)] stands for [s * 10^(n-k)] with [k]
    digits. Seventeen digits always suffice. *)
Fixpoint shortest (fuel : nat) (m e k n : Z) : Z * Z * Z :=
  let p := m * two_up e in
  let q := two_down e in
  let '(a, b) := scaled p (k - n) in
  let s := a / (b * q) in
  match fuel with
  | O => (s, k, n)
  | S fuel =>
      match reads_back m e s (n - k), reads_back m e (s + 1) (n - k) with
      | true, true =>
          let r := 2 * (a mod (b * q)) - b * q in
          (if (r <? 0) || ((r =? 0) && Z.even s) then s else s + 1, k, n)
      | true, false => (s, k, n)
      | false, true => if s + 1 =? 10 ^ k then (1, 1, n + 1) else (s + 1, k, n)
      | false, false => shortest fuel m e (k + 1) n
      end
  end.

Fixpoint zeros (n : nat) : string :=
  match n with O => "" | S n => "0" +:+ zeros n end.

Definition layout (s k n : Z) : string :=
  let digits := pretty s in
  if (k <=? n) && (n <=? 21) then digits +:+ zeros (Z.to_nat (n - k))
  else if (0 <? n) && (n <=? 21) then
    String.substring 0 (Z.to_nat n) digits +:+ "." +:+ String.substring (Z.to_nat n) (Z.to_nat (k - n)) digits
  else if (-6 <? n) && (n <=? 0) then "0." +:+ zeros (Z.to_nat (- n)) +:+ digits
  else
    let exponent := (if n - 1 <? 0 then "e-" else "e+") +:+ pretty (Z.abs (n - 1)) in
    if k =? 1 then digits +:+ exponent
    else String.substring 0 1 digits +:+ "." +:+ String.substring 1 (Z.to_nat (k - 1)) digits +:+ exponent.

(** [String(x)] *)
Definition to_string (x : number) : string :=
  match x with
  | S754_nan => "NaN"
  | S754_infinity s => if s then "-Infinity" else "Infinity"
  | S754_zero _ => "0"
  | S754_finite sign m e =>
      let p := Z.pos m * two_up e in
      let q := two_down e in
      let '(s, k, n) := shortest 17 (Z.pos m) e 1 (magnitude p q) in
      (if sign then "-" else "") +:+ layout s k n
  end.

Example to_string_samples :
  map to_string
    [Num.of_Z 0; Num.of_Z (-4); Num.lit 213 10; Num.lit 1 10; Num.add (Num.lit 1 10) (Num.lit 2 10);
     Num.lit 5 10000000; Num.of_Z (10 ^ 21); Num.of_Z 123456789; Num.lit (-1) 3; Num.of_Z (10 ^ 23);
     Num.lit 1 1000000]
  = ["0"; "-4"; "21.3"; "0.1"; "0.30000000000000004"; "5e-7"; "1e+21"; "123456789"; "-0.3333333333333333"; "1e+23";
     "0.000001"].
Proof. vm_compute. reflexivity. Qed.

End NumText.
