(* ===== verification/Enums.v ===== *)
(** * The domain's vocabulary ([libs/domain/src/enums.ts])

    Each enumeration of the domain as an inductive type with the source's
    constructors, decidable equality, and the text it has on the wire. *)

From S2P Require Import Prelude.

Inductive Metric :=
  TEMPERATURE | APPARENT_TEMP | WIND_SPEED | PRECIPITATION | HUMIDITY | SEVERE.

Inductive Operator := GT | GTE | LT | LTE | EQ.

Inductive ConditionLogic := AND | OR.

Inductive TriggerState := ARMED | FIRED.

Inductive Channel := TELEGRAM | EMAIL | WEB_PUSH.

Inductive NotifStatus := PENDING | SENT | FAILED.

(** [Role] is an enumeration of the schema only; the domain does not use it. *)
Inductive Role := USER | ADMIN.

#[global] Instance Metric_eq_dec : EqDecision Metric.
Proof. solve_decision. Defined.
#[global] Instance Operator_eq_dec : EqDecision Operator.
Proof. solve_decision. Defined.
#[global] Instance ConditionLogic_eq_dec : EqDecision ConditionLogic.
Proof. solve_decision. Defined.
#[global] Instance TriggerState_eq_dec : EqDecision TriggerState.
Proof. solve_decision. Defined.
#[global] Instance Channel_eq_dec : EqDecision Channel.
Proof. solve_decision. Defined.
#[global] Instance NotifStatus_eq_dec : EqDecision NotifStatus.
Proof. solve_decision. Defined.
#[global] Instance Role_eq_dec : EqDecision Role.
Proof. solve_decision. Defined.

(** Every channel, in the order of the declaration. *)
Definition all_channels : list Channel := [TELEGRAM; EMAIL; WEB_PUSH].

Lemma elem_of_all_channels (c : Channel) : c ∈ all_channels.
Proof. destruct c; set_solver. Qed.

#[export] Hint Resolve elem_of_all_channels : core.
