(* ===== verification/Conditions.v ===== *)
(** * Condition evaluation ([libs/domain/src/weather/condition-evaluator.ts]) *)

From S2P Require Import Prelude JsNumber Enums.

Record WeatherSnapshot := {
  temperature : number;
  apparentTemp : number;
  humidity : number;
  windSpeed : number;
  precipitation : number;
  weatherCode : number;
}.

Record ConditionResult := { cr_matched : bool; cr_observedValue : number }.

(** WMO codes the SEVERE metric matches on. *)
Definition SEVERE_WEATHER_CODES : list number :=
  Num.of_Z <$> [65; 67; 75; 82; 86; 95; 96; 99].

(** [Set.has] compares with SameValueZero, which on numbers is [===] except
    that NaN equals itself; the set holds no NaN, so [===] decides it. *)
Definition isSevereWeatherCode (code : number) : bool :=
  existsb (fun c => Num.eqb c code) SEVERE_WEATHER_CODES.

Definition EQ_TOLERANCE : number := Num.lit 5 10.

Definition metricValue (snapshot : WeatherSnapshot) (metric : Metric) : number :=
  match metric with
  | TEMPERATURE => temperature snapshot
  | APPARENT_TEMP => apparentTemp snapshot
  | WIND_SPEED => windSpeed snapshot
  | PRECIPITATION => precipitation snapshot
  | HUMIDITY => humidity snapshot
  | SEVERE => weatherCode snapshot
  end.

Definition compare (value : number) (operator : Operator) (threshold : number) : bool :=
  match operator with
  | GT => Num.gtb value threshold
  | GTE => Num.geb value threshold
  | LT => Num.ltb value threshold
  | LTE => Num.leb value threshold
  | EQ => Num.leb (Num.abs (Num.sub value threshold)) EQ_TOLERANCE
  end.

Definition evaluateCondition (snapshot : WeatherSnapshot) (metric : Metric)
    (operator : Operator) (threshold : number) : ConditionResult :=
  if decide (metric = SEVERE) then
    {| cr_matched := isSevereWeatherCode (weatherCode snapshot);
       cr_observedValue := weatherCode snapshot |}
  else
    let observedValue := metricValue snapshot metric in
    {| cr_matched := compare observedValue operator threshold;
       cr_observedValue := observedValue |}.

(** The interface [ConditionSpec]: what evaluation reads of a condition. The
    callers pass richer records (a row with its [id]), so the evaluator is
    generic in the condition type, as [T extends ConditionSpec] is. *)
Class ConditionSpec (T : Type) := {
  metric : T -> Metric;
  operator : T -> Operator;
  threshold : T -> number;
}.

(** [EvaluatedCondition<T>] is [T & {matched, observedValue}]: the condition
    with its own fields kept and the two results added. *)
Record EvaluatedCondition (T : Type) := {
  base : T;
  matched : bool;
  observedValue : number;
}.
Arguments base {T}.
Arguments matched {T}.
Arguments observedValue {T}.

Record ConditionsResult (T : Type) := {
  all_matched : bool;
  results : list (EvaluatedCondition T);
}.
Arguments all_matched {T}.
Arguments results {T}.

Section Evaluate.
Context {T : Type} `{ConditionSpec T}.

Definition evaluate_one (snapshot : WeatherSnapshot) (c : T) : EvaluatedCondition T :=
  let r := evaluateCondition snapshot (metric c) (operator c) (threshold c) in
  {| base := c; matched := cr_matched r; observedValue := cr_observedValue r |}.

Definition evaluateConditions (snapshot : WeatherSnapshot) (conditions : list T)
    (logic : ConditionLogic) : ConditionsResult T :=
  let results := map (evaluate_one snapshot) conditions in
  let matched :=
    if Nat.eqb (length conditions) 0 then false
    else if decide (logic = OR) then existsb matched results
    else forallb matched results in
  {| all_matched := matched; results := results |}.

(** ** Properties *)

(** A condition holds on a snapshot, independently of any list around it. *)
Definition holds (snapshot : WeatherSnapshot) (c : T) : Prop :=
  cr_matched (evaluateCondition snapshot (metric c) (operator c) (threshold c)) = true.

Lemma forallb_evaluated (s : WeatherSnapshot) (cs : list T) :
  forallb matched (map (evaluate_one s) cs) = true <-> Forall (holds s) cs.
Proof.
  induction cs as [|c cs IH]; [by cbn; split|].
  cbn [map forallb]. by rewrite andb_true_iff, IH, Forall_cons.
Qed.

Lemma existsb_evaluated (s : WeatherSnapshot) (cs : list T) :
  existsb matched (map (evaluate_one s) cs) = true <-> Exists (holds s) cs.
Proof.
  induction cs as [|c cs IH]; [by cbn; rewrite Exists_nil|].
  cbn [map existsb]. by rewrite orb_true_iff, IH, Exists_cons.
Qed.

(** The combined verdict: AND asks every condition, OR asks for one, and an
    empty list never matches, under either logic. *)
Lemma evaluateConditions_matched (s : WeatherSnapshot) (cs : list T) (logic : ConditionLogic) :
  all_matched (evaluateConditions s cs logic) = true <->
  cs <> [] /\ (if decide (logic = OR) then Exists (holds s) cs else Forall (holds s) cs).
Proof.
  unfold evaluateConditions; cbn. destruct cs as [|c cs]; [cbn; naive_solver|].
  cbn [length Nat.eqb]. case_decide.
  - rewrite existsb_evaluated. naive_solver.
  - rewrite forallb_evaluated. naive_solver.
Qed.

End Evaluate.

(** ** The comparison operators *)

(** On numbers other than NaN the strict and the weak operators are
    complementary, so a reading at a threshold is on exactly one side of it;
    on NaN no operator holds, so a reading that is not a number never matches
    a condition. *)
Theorem compare_complementary (value threshold : number) :
  (Num.is_nan value = false -> Num.is_nan threshold = false ->
    compare value GT threshold = negb (compare value LTE threshold) /\
    compare value GTE threshold = negb (compare value LT threshold)) /\
  (Num.is_nan value = true -> forall op, compare value op threshold = false).
Proof.
  split.
  - intros Hv Ht. split; [by apply Num.gtb_negb_leb|by apply Num.geb_negb_ltb].
  - intros Hv op. destruct value; try done. by destruct op, threshold as [[]|[]| |[] ??].
Qed.

Lemma compare_complementary_witness :
  compare (Num.lit (-5) 10) GT (Num.of_Z 0) = negb (compare (Num.lit (-5) 10) LTE (Num.of_Z 0)) /\
  (forall op, compare (Num.div (Num.of_Z 0) (Num.of_Z 0)) op (Num.of_Z 0) = false).
Proof.
  split.
  - destruct (compare_complementary (Num.lit (-5) 10) (Num.of_Z 0)) as [Hc _].
    apply Hc; vm_compute; reflexivity.
  - destruct (compare_complementary (Num.div (Num.of_Z 0) (Num.of_Z 0)) (Num.of_Z 0)) as [_ Hnan].
    apply Hnan. vm_compute. reflexivity.
Defined.
