(* ===== verification/QuietHours.v ===== *)
(** * Quiet hours ([libs/domain/src/quiet-hours.ts])

    Times are milliseconds since the epoch, as [Date.getTime()] gives them.
    The calendar arithmetic of [Intl.DateTimeFormat] depends on the runtime's
    time-zone database, so it is a parameter of the model (class [Intl]). *)

From S2P Require Import Prelude JsNumber.
From Stdlib Require Import Ascii.

(** ** Digits *)

Definition digit (c : ascii) : option Z :=
  let n := Z.of_N (N_of_ascii c) in
  if (48 <=? n) && (n <=? 57) then Some (n - 48) else None.

Definition digit_char (d : Z) : ascii := ascii_of_N (Z.to_N (48 + d)).

Lemma digit_spec (c : ascii) (d : Z) :
  digit c = Some d <-> 0 <= d <= 9 /\ c = digit_char d.
Proof.
  unfold digit, digit_char. split.
  - case_match eqn:E; [|done]. intros [= <-]. bool_to_prop.
    split; [lia|]. replace (48 + (Z.of_N (N_of_ascii c) - 48)) with (Z.of_N (N_of_ascii c)) by lia.
    by rewrite N2Z.id, ascii_N_embedding.
  - intros [Hd ->]. rewrite N_ascii_embedding by lia. rewrite Z2N.id by lia.
    replace ((48 <=? 48 + d) && (48 + d <=? 57)) with true.
    + f_equal. lia.
    + symmetry. apply andb_true_iff. lia.
Qed.

(** [Number(value)] for the digit strings the formatter emits; [None] is NaN,
    the answer for any other text. *)
Fixpoint digits_value (acc : Z) (s : string) : option Z :=
  match s with
  | EmptyString => Some acc
  | String c s' => d ← digit c; digits_value (10 * acc + d) s'
  end.

Definition Number_digits (s : string) : option Z := digits_value 0 s.
Arguments Number_digits : simpl never.

(** ** The HH:MM parser *)

(** [/^(\d{2}):(\d{2})$/], then the range check. *)
Definition parseHHMM (value : string) : option Z :=
  match value with
  | String a (String b (String sep (String c (String d EmptyString)))) =>
      if Ascii.eqb sep ":" then
        a ← digit a; b ← digit b; c ← digit c; d ← digit d;
        let h := 10 * a + b in
        let min := 10 * c + d in
        if (23 <? h) || (59 <? min) then None else Some (h * 60 + min)
      else None
  | _ => None
  end.

(** The text of a minute of the day. *)
Definition formatHHMM (m : Z) : string :=
  let h := m / 60 in
  let min := m mod 60 in
  String (digit_char (h / 10)) (String (digit_char (h mod 10)) (String ":"
    (String (digit_char (min / 10)) (String (digit_char (min mod 10)) EmptyString)))).

(** ** The clock of a time zone *)

(** [new Intl.DateTimeFormat('en-US', {...opts, timeZone}).formatToParts(now)]:
    the (type, value) parts, or [None] when the constructor throws because the
    zone is not known to the runtime. *)
Class Intl := {
  formatToParts : string -> Z -> option (list (string * string));
}.

Section Clock.
Context `{Intl}.

Definition formatParts (now : Z) (timeZone : string) : option (list (string * string)) :=
  match formatToParts timeZone now with
  | Some parts => Some parts
  | None => formatToParts "UTC" now
  end.

(** [parts.find((p) => p.type === ty)?.value ?? '0']. *)
Definition part_value (ty : string) (parts : list (string * string)) : string :=
  match List.find (fun p => bool_decide (p.1 = ty)) parts with
  | Some p => p.2
  | None => "0"
  end.

(** [value || 'UTC'] on a nullable string. *)
Definition zone_or_utc (timezone : option string) : string :=
  match timezone with
  | None | Some "" => "UTC"
  | Some z => z
  end.

(** [None] stands for NaN and, in the outer option, for the exception of a
    runtime without UTC. *)
Definition localMinutes (now : Z) (timezone : option string) : option (option Z) :=
  parts ← formatParts now (zone_or_utc timezone);
  let h := Number_digits (part_value "hour" parts) in
  let min := Number_digits (part_value "minute" parts) in
  Some (h ← h; min ← min; Some (Z.rem h 24 * 60 + min)).

(** A comparison with NaN is false. *)
Definition nan_ltb (x : option Z) (y : Z) : bool :=
  match x with Some x => x <? y | None => false end.
Definition nan_geb (x : option Z) (y : Z) : bool :=
  match x with Some x => y <=? x | None => false end.

(** [!value] on a nullable string. *)
Definition falsy (s : option string) : bool :=
  match s with None | Some "" => true | _ => false end.

(** [None] only when the formatter itself throws on UTC. *)
Definition isWithinQuietHours (now : Z) (start end_ timezone : option string) : option bool :=
  if falsy start || falsy end_ then Some false
  else
    match start ≫= parseHHMM, end_ ≫= parseHHMM with
    | Some startMin, Some endMin =>
        if startMin =? endMin then Some false
        else
          nowMin ← localMinutes now timezone;
          Some (if startMin <? endMin
                then nan_geb nowMin startMin && nan_ltb nowMin endMin
                else nan_geb nowMin startMin || nan_ltb nowMin endMin)
    | _, _ => Some false
    end.

End Clock.

(** What the code relies on from the formatter: UTC is always known, and the
    parts hold an hour in 0..24 and a minute in 0..59 as digits. *)
Class IntlLaws `{Intl} : Prop := {
  utc_known : forall now, is_Some (formatToParts "UTC" now);
  parts_hour : forall tz now parts, formatToParts tz now = Some parts ->
    exists h, Number_digits (part_value "hour" parts) = Some h /\ 0 <= h <= 24;
  parts_minute : forall tz now parts, formatToParts tz now = Some parts ->
    exists m, Number_digits (part_value "minute" parts) = Some m /\ 0 <= m <= 59;
}.

(** ** Properties of the parser *)

(** A text of two digits denotes them. *)
Lemma digit_char_digit (d : Z) : 0 <= d <= 9 -> digit (digit_char d) = Some d.
Proof. intros Hd. by apply digit_spec. Qed.

#[export] Hint Resolve digit_char_digit : core.

Lemma parseHHMM_format (m : Z) : 0 <= m < 1440 -> parseHHMM (formatHHMM m) = Some m.
Proof.
  intros Hm. unfold parseHHMM, formatHHMM. cbn [Ascii.eqb Bool.eqb].
  rewrite !digit_char_digit by zdivmod. cbn.
  case_match eqn:E; [|f_equal; zdivmod].
  apply orb_true_iff in E as [E|E]; bool_to_prop; exfalso; zdivmod.
Qed.

(** What the parser accepts, by its digits. *)
Lemma parseHHMM_inv (s : string) (m : Z) :
  parseHHMM s = Some m ->
  exists a b c d, s = String a (String b (String ":" (String c (String d EmptyString)))) /\
    exists h1 h2 m1 m2, digit a = Some h1 /\ digit b = Some h2 /\ digit c = Some m1 /\
      digit d = Some m2 /\ 10 * h1 + h2 <= 23 /\ 10 * m1 + m2 <= 59 /\
      m = (10 * h1 + h2) * 60 + (10 * m1 + m2).
Proof.
  intros Hp. unfold parseHHMM in Hp.
  do 5 (destruct s as [|? s]; [done|]). destruct s; [|done].
  destruct (Ascii.eqb _ _) eqn:Esep; [|done]. apply Ascii.eqb_eq in Esep as ->.
  repeat match type of Hp with
         | (_ ← digit ?c; _) = _ => destruct (digit c) as [?|] eqn:?; [cbn in Hp|done]
         end.
  case_match eqn:E; [done|]. simplify_eq/=. bool_to_prop.
  do 4 eexists. split; [done|]. eauto 15.
Qed.

Lemma parseHHMM_range (s : string) (m : Z) : parseHHMM s = Some m -> 0 <= m < 1440.
Proof.
  intros (a & b & c & d & -> & h1 & h2 & m1 & m2 & Ha & Hb & Hc & Hd & Hh & Hm & ->)%parseHHMM_inv.
  apply digit_spec in Ha as [? _], Hb as [? _], Hc as [? _], Hd as [? _]. lia.
Qed.

(** The HH:MM parser accepts exactly the texts of the 1440 minutes of a
    day and returns the minute: parsing and printing are inverse. *)
Theorem parseHHMM_roundtrip (s : string) (m : Z) :
  parseHHMM s = Some m <-> 0 <= m < 1440 /\ s = formatHHMM m.
Proof.
  split; [|by intros [Hm ->]; apply parseHHMM_format].
  intros (a & b & c & d & -> & h1 & h2 & m1 & m2 & Ha & Hb & Hc & Hd & Hh & Hm & ->)%parseHHMM_inv.
  apply digit_spec in Ha as [? ->], Hb as [? ->], Hc as [? ->], Hd as [? ->].
  split; [lia|]. unfold formatHHMM.
  replace (((10 * h1 + h2) * 60 + (10 * m1 + m2)) / 60) with (10 * h1 + h2) by zdivmod.
  replace (((10 * h1 + h2) * 60 + (10 * m1 + m2)) mod 60) with (10 * m1 + m2) by zdivmod.
  repeat f_equal; zdivmod.
Qed.

(** ** The validator of the profile route *)

(** [/^([01]\d|2[0-3]):[0-5]\d$/] of [update-profile.dto.ts]. *)
Definition HHMM (s : string) : bool :=
  match s with
  | String a (String b (String sep (String c (String d EmptyString)))) =>
      ((Ascii.eqb a "0" || Ascii.eqb a "1") && bool_decide (is_Some (digit b)) ||
       Ascii.eqb a "2" && (Ascii.eqb b "0" || Ascii.eqb b "1" || Ascii.eqb b "2" || Ascii.eqb b "3")) &&
      Ascii.eqb sep ":" &&
      (Ascii.eqb c "0" || Ascii.eqb c "1" || Ascii.eqb c "2" ||
       Ascii.eqb c "3" || Ascii.eqb c "4" || Ascii.eqb c "5") &&
      bool_decide (is_Some (digit d))
  | _ => false
  end.

(** A character test against one digit. *)
Lemma digit_eqb (c : ascii) (d : Z) :
  0 <= d <= 9 -> Ascii.eqb c (digit_char d) = bool_decide (digit c = Some d).
Proof.
  intros Hd. destruct (Ascii.eqb_spec c (digit_char d)) as [->|Hne].
  - by rewrite bool_decide_true by auto.
  - rewrite bool_decide_false; [done|]. intros Hc%digit_spec. naive_solver.
Qed.

(** The route that stores quiet hours accepts a bound exactly when the
    parser of the watcher understands it, so a stored window is never silently
    ignored as malformed. *)
Theorem HHMM_iff_parsed (s : string) : HHMM s = true <-> is_Some (parseHHMM s).
Proof.
  unfold HHMM, parseHHMM.
  do 5 (destruct s as [|? s]; [split; [done|by intros [? ?]]|]).
  destruct s; [|split; [done|by intros [? ?]]].
  change "0"%char with (digit_char 0). change "1"%char with (digit_char 1).
  change "2"%char with (digit_char 2). change "3"%char with (digit_char 3).
  change "4"%char with (digit_char 4). change "5"%char with (digit_char 5).
  rewrite !digit_eqb by lia.
  destruct (Ascii.eqb _ ":") eqn:?; [|rewrite andb_false_r; split; [done|by intros [? ?]]].
  destruct (digit a) as [h1|] eqn:Ha; [|cbn; split; [done|by intros [? ?]]].
  destruct (digit a0) as [h2|] eqn:Hb; cbn; [|rewrite !andb_false_r; split; [done|by intros [? ?]]].
  destruct (digit a2) as [m1|] eqn:Hc; cbn; [|rewrite !andb_false_r; split; [done|by intros [? ?]]].
  destruct (digit a3) as [m2|] eqn:Hd; cbn; [|rewrite !andb_false_r; split; [done|by intros [? ?]]].
  apply digit_spec in Ha as [? _], Hb as [? _], Hc as [? _], Hd as [? _].
  rewrite !andb_true_r.
  case_match eqn:E.
  - split; [|by intros [? ?]]. intros Hacc. exfalso.
    rewrite !andb_true_iff, !orb_true_iff, !andb_true_iff, !orb_true_iff, !bool_decide_eq_true in Hacc.
    apply orb_true_iff in E as [E|E]; bool_to_prop; naive_solver lia.
  - split; [by eauto|]. intros _. bool_to_prop.
    rewrite !andb_true_iff, !orb_true_iff, !andb_true_iff, !orb_true_iff, !bool_decide_eq_true.
    assert (h1 = 0 \/ h1 = 1 \/ h1 = 2) as [->|[->| ->]] by lia;
      assert (m1 = 0 \/ m1 = 1 \/ m1 = 2 \/ m1 = 3 \/ m1 = 4 \/ m1 = 5) as Hm1 by lia.
    all: try (assert (h2 = 0 \/ h2 = 1 \/ h2 = 2 \/ h2 = 3) by lia).
    all: naive_solver.
Qed.

(** ** Properties of the window *)

(** A window on the 24-hour circle: [n] lies at most [e - s] minutes after
    [s], both differences taken around midnight. *)
Definition in_window (s e n : Z) : bool := (n - s) mod 1440 <? (e - s) mod 1440.

Section Window.
Context `{IntlLaws}.

(** The formatter always answers, if need be for UTC. *)
Lemma formatParts_total (now : Z) (tz : string) : is_Some (formatParts now tz).
Proof.
  unfold formatParts. destruct (formatToParts tz now); [by eauto|]. apply utc_known.
Qed.

(** The local clock is a minute of the day: never NaN, never 24:00. *)
Lemma localMinutes_range (now : Z) (tz : option string) :
  exists n, localMinutes now tz = Some (Some n) /\ 0 <= n < 1440.
Proof.
  unfold localMinutes.
  destruct (formatParts_total now (zone_or_utc tz)) as [parts Hparts].
  rewrite Hparts; cbn. unfold formatParts in Hparts.
  assert (exists tz, formatToParts tz now = Some parts) as [tz' Htz'].
  { destruct (formatToParts _ now) eqn:E in Hparts; simplify_eq; eauto. }
  destruct (parts_hour _ _ _ Htz') as (h & -> & Hh).
  destruct (parts_minute _ _ _ Htz') as (m & -> & Hm). cbn.
  eexists. split; [done|]. pose proof (Z.rem_bound_pos h 24). lia.
Qed.

(** Quiet hours are membership in a window on the clock circle: for a
    start and an end that parse, the answer is whether the local minute lies
    in [start, end) going forward around midnight. Windows that wrap are
    covered by the same formula and a window with equal bounds is empty. *)
Theorem isWithinQuietHours_window (now : Z) (start end_ : string) (tz : option string) (s e : Z) :
  parseHHMM start = Some s -> parseHHMM end_ = Some e ->
  exists n, localMinutes now tz = Some (Some n) /\ 0 <= n < 1440 /\
    isWithinQuietHours now (Some start) (Some end_) tz = Some (in_window s e n).
Proof.
  intros Hs He. destruct (localMinutes_range now tz) as (n & Hn & Hr).
  exists n. split_and!; [done|lia|lia|].
  assert (falsy (Some start) = false /\ falsy (Some end_) = false) as [Hfs Hfe].
  { split; [by destruct start|by destruct end_]. }
  unfold isWithinQuietHours. rewrite Hfs, Hfe. cbn. rewrite Hs, He, Hn. cbn.
  apply parseHHMM_range in Hs, He. unfold in_window.
  destruct (Z.eqb_spec s e) as [->|Hne].
  - f_equal. symmetry. apply Z.ltb_ge. rewrite Z.sub_diag, Z.mod_0_l by lia.
    apply Z.mod_pos_bound. lia.
  - destruct (Z.ltb_spec s e); f_equal; apply eq_true_iff_eq.
    + rewrite andb_true_iff, Z.leb_le, !Z.ltb_lt. zdivmod.
    + rewrite orb_true_iff, Z.leb_le, !Z.ltb_lt. zdivmod.
Qed.

(** A missing or malformed bound disables the window. *)
Lemma isWithinQuietHours_malformed (now : Z) (start end_ tz : option string) :
  start ≫= parseHHMM = None \/ end_ ≫= parseHHMM = None ->
  isWithinQuietHours now start end_ tz = Some false.
Proof.
  unfold isWithinQuietHours. intros [-> | ->]; case_match; try done; by case_match.
Qed.

(** The question always has an answer. *)
Lemma isWithinQuietHours_total (now : Z) (start end_ tz : option string) :
  is_Some (isWithinQuietHours now start end_ tz).
Proof.
  unfold isWithinQuietHours. destruct (localMinutes_range now tz) as (n & -> & _).
  case_all; eauto.
Qed.

End Window.

(** ** A formatter for the examples: UTC and zones at a fixed offset *)

Definition two_digits (n : Z) : string :=
  String (digit_char (n / 10)) (String (digit_char (n mod 10)) EmptyString).

(** Knows UTC and ["Etc/GMT-2"] (two hours ahead); any other zone throws. *)
Definition sample_formatToParts (tz : string) (now : Z) : option (list (string * string)) :=
  let clock (offset : Z) :=
    let m := (now / 60000 + offset) mod 1440 in
    [("hour", two_digits (m / 60)); ("literal", ":"); ("minute", two_digits (m mod 60))] in
  if decide (tz = "UTC") then Some (clock 0)
  else if decide (tz = "Etc/GMT-2") then Some (clock 120)
  else None.

Definition sample_intl : Intl := {| formatToParts := sample_formatToParts |}.

Lemma Number_two_digits (n : Z) : 0 <= n < 100 -> Number_digits (two_digits n) = Some n.
Proof.
  intros Hn. unfold Number_digits, two_digits. cbn [digits_value].
  rewrite digit_char_digit by zdivmod. cbn [mbind option_bind].
  rewrite digit_char_digit by zdivmod. cbn. f_equal. zdivmod.
Qed.

#[global] Instance sample_intl_laws : @IntlLaws sample_intl.
Proof.
  split; cbn; unfold sample_formatToParts.
  - intros now. by rewrite decide_True.
  - intros tz now parts Hp. case_decide; [|case_decide]; simplify_eq; cbn;
      (eexists; split; [apply Number_two_digits|]); zdivmod.
  - intros tz now parts Hp. case_decide; [|case_decide]; simplify_eq; cbn;
      (eexists; split; [apply Number_two_digits|]); zdivmod.
Qed.

(** Quiet from 22:00 to 07:00 at 23:30 local time, two hours ahead of UTC. *)
Lemma isWithinQuietHours_window_witness :
  @isWithinQuietHours sample_intl 77400000 (Some "22:00") (Some "07:00") (Some "Etc/GMT-2") = Some true /\
  (exists n, @localMinutes sample_intl 77400000 (Some "Etc/GMT-2") = Some (Some n) /\ 0 <= n < 1440 /\
    @isWithinQuietHours sample_intl 77400000 (Some "22:00") (Some "07:00") (Some "Etc/GMT-2")
      = Some (in_window 1320 420 n)).
Proof.
  split; [vm_compute; reflexivity|].
  apply (@isWithinQuietHours_window sample_intl _ 77400000 "22:00" "07:00" (Some "Etc/GMT-2") 1320 420);
    vm_compute; reflexivity.
Defined.
