(* ===== verification/JsParse.v ===== *)
(** * Reading numbers

    [Number(text)] of JavaScript and [text.trim()], used for everything the
    services read from their environment. White space is that of ASCII. *)

From S2P Require Import Prelude JsNumber QuietHours.
From Stdlib Require Import Ascii SpecFloat.

(** ** White space *)

Definition is_space (c : ascii) : bool :=
  bool_decide (c ∈ [" "%char; "009"%char; "010"%char; "011"%char; "012"%char; "013"%char]).

(** [s.trim()] on ASCII. *)
Fixpoint trim_left (s : string) : string :=
  match s with String c s' => if is_space c then trim_left s' else s | EmptyString => "" end.
Definition trim (s : string) : string := String.rev (trim_left (String.rev (trim_left s))).

(** [s.split(sep)] on one character. *)
Fixpoint split_on (sep : ascii) (s : string) : list string :=
  match s with
  | EmptyString => [""]
  | String c s' =>
      if Ascii.eqb c sep then "" :: split_on sep s'
      else match split_on sep s' with [] => [String c ""] | p :: ps => String c p :: ps end
  end.

(** [s.length]: UTF-16 code units of a text in UTF-8. *)
Fixpoint js_length (s : string) : nat :=
  match s with
  | EmptyString => 0
  | String c s' =>
      let b := N_of_ascii c in
      ((if (128 <=? b)%N && (b <? 192)%N then 0 else if (240 <=? b)%N then 2 else 1) + js_length s')%nat
  end.

(** [s.startsWith(prefix)]. *)
Definition startsWith (prefix s : string) : bool := String.prefix prefix s.

(** ** Correct rounding of a fraction *)

(** The double nearest to [m / q]: the quotient to many more bits than a
    double holds, and a last bit that is set when it is not exact. *)
Definition ratio (m q : Z) : number :=
  let s := Z.max 0 (1200 + Z.log2 q - Z.log2 m) in
  let sticky := if (m * 2 ^ s) mod q =? 0 then 0 else 1 in
  binary_normalize Num.prec Num.emax (2 * (m * 2 ^ s / q) + sticky) (- s - 1) false.

(** The double nearest to [m * 10 ^ e]. *)
Definition decimal_value (m e : Z) : number :=
  if 0 <=? e then Num.of_Z (m * 10 ^ e) else ratio m (10 ^ (- e)).

(** ** The grammar *)

(** A run of digits of the base [b] behind [acc]: its value, its length and
    what follows it. *)
Fixpoint scan (dig : ascii -> option Z) (b acc : Z) (n : nat) (s : string) : Z * nat * string :=
  match s with
  | String c s' =>
      match dig c with
      | Some d => scan dig b (b * acc + d) (S n) s'
      | None => (acc, n, s)
      end
  | EmptyString => (acc, n, EmptyString)
  end.

Definition in_base (b : Z) (c : ascii) : option Z :=
  let n := Z.of_N (N_of_ascii c) in
  let d := if (48 <=? n) && (n <=? 57) then n - 48
           else if (97 <=? n) && (n <=? 102) then n - 87
           else if (65 <=? n) && (n <=? 70) then n - 55
           else b in
  if d <? b then Some d else None.

(** Digits to the end of the text, at least one. *)
Definition whole (b : Z) (s : string) : option Z :=
  match scan (in_base b) b 0 0 s with
  | (v, S _, EmptyString) => Some v
  | _ => None
  end.

(** An optional exponent to the end of the text. *)
Definition exponent (s : string) : option Z :=
  match s with
  | EmptyString => Some 0
  | String c s' =>
      if Ascii.eqb c "e" || Ascii.eqb c "E" then
        match s' with
        | String "+" s'' => whole 10 s''
        | String "-" s'' => Z.opp <$> whole 10 s''
        | _ => whole 10 s'
        end
      else None
  end.

Definition unsigned_decimal (s : string) : option number :=
  if String.eqb s "Infinity" then Some (S754_infinity false) else
  let '(i, n, rest) := scan digit 10 0 0 s in
  let '(m, k, rest) :=
    match rest with
    | String "." rest' => scan digit 10 i 0 rest'
    | _ => (i, 0%nat, rest)
    end in
  if (n + k =? 0)%nat then None
  else x ← exponent rest; Some (decimal_value m (x - Z.of_nat k)).

Definition or_nan (x : option number) : number := default S754_nan x.

(** [Number(text)]. *)
Definition Number (text : string) : number :=
  match trim text with
  | EmptyString => Num.of_Z 0
  | String "0" (String ("x" | "X") s) => or_nan (Num.of_Z <$> whole 16 s)
  | String "0" (String ("o" | "O") s) => or_nan (Num.of_Z <$> whole 8 s)
  | String "0" (String ("b" | "B") s) => or_nan (Num.of_Z <$> whole 2 s)
  | String "+" s => or_nan (unsigned_decimal s)
  | String "-" s => or_nan (SFopp <$> unsigned_decimal s)
  | s => or_nan (unsigned_decimal s)
  end.
Arguments Number : simpl never.

(** [Number.isInteger(x)]. *)
Definition isInteger (x : number) : bool :=
  match x with
  | S754_zero _ => true
  | S754_finite _ m e => (0 <=? e) || (Z.pos m mod 2 ^ (- e) =? 0)
  | _ => false
  end.

Definition number_eq (x y : number) : bool := bool_decide (x = y).

Example Number_samples :
  Forall (fun t => number_eq (Number t.1) t.2 = true)
    [(" 5000 ", Num.of_Z 5000); ("", Num.of_Z 0); ("0x1F", Num.of_Z 31); ("5.25", Num.lit 525 100); (".5e1", Num.of_Z 5);
     ("-0", S754_zero true); ("5s", S754_nan); ("0.1", Num.lit 1 10); ("1e400", S754_infinity false); ("1e-400", S754_zero false);
     ("-Infinity", S754_infinity true); ("0o17", Num.of_Z 15); ("+0x1", S754_nan); ("1_000", S754_nan); (".", S754_nan);
     ("5.", Num.of_Z 5); ("1.7976931348623157e308", S754_finite false 9007199254740991 971);
     ("4.9e-324", S754_finite false 1 (-1074)); ("2.4e-324", S754_zero false); ("e5", S754_nan); ("9007199254740993", Num.of_Z 9007199254740992)].
Proof. repeat constructor. Qed.

(** ** Digit strings read as the integer they denote *)

Fixpoint all_chars (p : ascii -> bool) (s : string) : bool :=
  match s with EmptyString => true | String c s' => p c && all_chars p s' end.

Lemma all_chars_rev p s1 s2 : all_chars p (String.rev_app s1 s2) = all_chars p s1 && all_chars p s2.
Proof. revert s2. induction s1 as [|c s1 IH]; intros s2; cbn; [done|]. rewrite IH. cbn. by destruct (p c), (all_chars p s1). Qed.

Lemma rev_app_rev s1 s2 s3 : String.rev_app (String.rev_app s1 s2) s3 = String.rev_app s2 (s1 +:+ s3).
Proof. revert s2. induction s1 as [|c s1 IH]; intros s2; cbn; [done|]. by rewrite IH. Qed.

Lemma app_empty (s : string) : s +:+ "" = s.
Proof. induction s as [|c s IH]; [done|]. exact (f_equal (String c) IH). Qed.

Lemma trim_left_id s : all_chars (fun c => negb (is_space c)) s = true -> trim_left s = s.
Proof. destruct s as [|c s]; cbn; [done|]. by destruct (is_space c). Qed.

Lemma trim_id s : all_chars (fun c => negb (is_space c)) s = true -> trim s = s.
Proof.
  intros Hs. unfold trim, String.rev. rewrite (trim_left_id s Hs), trim_left_id.
  - rewrite rev_app_rev. apply app_empty.
  - rewrite all_chars_rev, Hs. done.
Qed.

Definition decimal_digits : list ascii :=
  ["0"%char; "1"%char; "2"%char; "3"%char; "4"%char; "5"%char; "6"%char; "7"%char; "8"%char; "9"%char].

Lemma digit_cases c d : digit c = Some d -> c ∈ decimal_digits.
Proof.
  change decimal_digits with (digit_char <$> seqZ 0 10). intros [Hd ->]%digit_spec. apply list_elem_of_fmap. exists d. rewrite elem_of_seqZ. auto with lia.
Qed.

Lemma digits_chars s acc v : digits_value acc s = Some v -> all_chars (fun c => bool_decide (c ∈ decimal_digits)) s = true.
Proof.
  revert acc. induction s as [|c s IH]; intros acc; cbn; [done|]. destruct (digit c) as [d|] eqn:Hd; cbn; [|done].
  intros Hv. rewrite (IH _ Hv), bool_decide_true by by eapply digit_cases. done.
Qed.

Lemma all_chars_impl (p q : ascii -> bool) s : (forall c, p c = true -> q c = true) -> all_chars p s = true -> all_chars q s = true.
Proof.
  intros Hpq. induction s as [|c s IH]; cbn; [done|]. intros [Hc Hs]%andb_true_iff. by rewrite Hpq, IH.
Qed.

Lemma scan_digits s acc n v : digits_value acc s = Some v -> scan digit 10 acc n s = (v, (n + String.length s)%nat, "").
Proof.
  revert acc n. induction s as [|c s IH]; intros acc n; cbn -[Z.mul].
  - intros [= ->]. by rewrite Nat.add_0_r.
  - destruct (digit c) as [d|]; cbn -[Z.mul]; [|done]. intros Hv. rewrite (IH _ _ Hv). do 2 f_equal. lia.
Qed.

(** [Number] on a digit string. *)
Lemma Number_of_digits s v : s <> "" -> Number_digits s = Some v -> Number s = Num.of_Z v.
Proof.
  intros Hne Hv. unfold Number_digits in Hv. pose proof (digits_chars _ _ _ Hv) as Hc.
  assert (unsigned_decimal s = Some (Num.of_Z v)) as Hu.
  { unfold unsigned_decimal. rewrite (scan_digits _ _ _ _ Hv). destruct s as [|c s]; [done|].
    assert (String.eqb (String c s) "Infinity" = false) as ->.
    { cbn in Hc. apply andb_true_iff in Hc as [Hc _]. apply bool_decide_eq_true in Hc. cbn in Hc.
      repeat (apply elem_of_cons in Hc as [->|Hc]; [done|]). by apply not_elem_of_nil in Hc. }
    cbn. unfold decimal_value. cbn. by rewrite Z.mul_1_r. }
  unfold Number. rewrite trim_id.
  2: { eapply all_chars_impl; [|exact Hc]. intros c Hin%bool_decide_eq_true. cbn in Hin.
       repeat (apply elem_of_cons in Hin as [->|Hin]; [done|]). by apply not_elem_of_nil in Hin. }
  destruct s as [|c s]; [done|]. cbn in Hc. apply andb_true_iff in Hc as [Hc Hs]. apply bool_decide_eq_true in Hc.
  apply elem_of_cons in Hc as [->|Hc].
  2: { repeat (apply elem_of_cons in Hc as [->|Hc]; [by rewrite Hu|]). by apply not_elem_of_nil in Hc. }
  destruct s as [|c s]; [by rewrite Hu|]. cbn in Hs. apply andb_true_iff in Hs as [Hc Hs]. apply bool_decide_eq_true in Hc.
  repeat (apply elem_of_cons in Hc as [->|Hc]; [by rewrite Hu|]). by apply not_elem_of_nil in Hc.
Qed.

Lemma digits_value_nonneg (s : string) (acc v : Z) :
  0 <= acc -> digits_value acc s = Some v -> 0 <= v.
Proof.
  revert acc. induction s as [|c s IH]; intros acc Hacc; cbn; [naive_solver|].
  destruct (digit c) as [d|] eqn:Hd; cbn; [|done].
  apply digit_spec in Hd as [? _]. apply IH. lia.
Qed.
