(* ===== verification/Regex.v ===== *)
(** * Regular expressions

    The patterns of the environment schemas: their language, a matcher by
    derivatives, and that the two agree. A pattern is anchored at both ends,
    as [/^...$/] is. *)

From S2P Require Import Prelude.
From Stdlib Require Import Ascii.

Inductive regex :=
  | Nothing
  | Blank
  | One (p : ascii -> bool)
  | Cat (r1 r2 : regex)
  | Or (r1 r2 : regex)
  | Star (r : regex).

(** The language of a pattern. *)
Inductive matches : regex -> list ascii -> Prop :=
  | m_blank : matches Blank []
  | m_one p c : p c = true -> matches (One p) [c]
  | m_cat r1 r2 s1 s2 : matches r1 s1 -> matches r2 s2 -> matches (Cat r1 r2) (s1 ++ s2)
  | m_or_l r1 r2 s : matches r1 s -> matches (Or r1 r2) s
  | m_or_r r1 r2 s : matches r2 s -> matches (Or r1 r2) s
  | m_star_nil r : matches (Star r) []
  | m_star_cons r s1 s2 : matches r s1 -> matches (Star r) s2 -> matches (Star r) (s1 ++ s2).

(** [r+], [r{n}] and [r{n,n+1}]. *)
Definition plus (r : regex) : regex := Cat r (Star r).
Fixpoint power (r : regex) (n : nat) : regex := match n with O => Blank | S n => Cat r (power r n) end.
Definition once_more (r : regex) (n : nat) : regex := Or (power r n) (power r (S n)).

(** ** The matcher *)

Fixpoint nullable (r : regex) : bool :=
  match r with
  | Nothing | One _ => false
  | Blank | Star _ => true
  | Cat r1 r2 => nullable r1 && nullable r2
  | Or r1 r2 => nullable r1 || nullable r2
  end.

(** What is left to match after the character [c]. *)
Fixpoint derive (c : ascii) (r : regex) : regex :=
  match r with
  | Nothing | Blank => Nothing
  | One p => if p c then Blank else Nothing
  | Cat r1 r2 => if nullable r1 then Or (Cat (derive c r1) r2) (derive c r2) else Cat (derive c r1) r2
  | Or r1 r2 => Or (derive c r1) (derive c r2)
  | Star r => Cat (derive c r) (Star r)
  end.

Fixpoint accepts (r : regex) (s : list ascii) : bool :=
  match s with [] => nullable r | c :: s' => accepts (derive c r) s' end.

(** [pattern.test(text)]. *)
Definition test (r : regex) (text : string) : bool := accepts r (String.list_ascii_of_string text).

(** ** They agree *)

Lemma nullable_matches r : nullable r = true <-> matches r [].
Proof.
  split.
  - induction r as [| |p|r1 IH1 r2 IH2|r1 IH1 r2 IH2|r IH]; cbn; try done; intros H; [constructor| | |constructor].
    + apply andb_true_iff in H as [H1 H2]. apply (m_cat r1 r2 [] []); auto.
    + apply orb_true_iff in H as [H1|H2]; [by apply m_or_l, IH1|by apply m_or_r, IH2].
  - intros Hm. remember [] as s eqn:Hs. induction Hm as [|p c Hp|r1 r2 s1 s2 _ IH1 _ IH2|r1 r2 s _ IH|r1 r2 s _ IH|r|r s1 s2 _ _ _ _];
      cbn; try done; subst.
    + apply app_nil in Hs as [-> ->]. by rewrite IH1, IH2.
    + by rewrite IH.
    + rewrite IH by done. apply orb_true_r.
Qed.

Lemma matches_cons_star r c s :
  matches (Star r) (c :: s) -> exists s1 s2, s = s1 ++ s2 /\ matches r (c :: s1) /\ matches (Star r) s2.
Proof.
  intros Hm. remember (Star r) as q eqn:Hq. remember (c :: s) as t eqn:Ht. revert c s Ht.
  induction Hm as [|p d Hp|r1 r2 s1 s2 _ _ _ _|r1 r2 s0 _ _|r1 r2 s0 _ _|r0|r0 s1 s2 H1 _ H2 IH2]; intros c s Ht; simplify_eq; [].
  destruct s1 as [|d s1]; cbn in Ht; [by apply IH2|]. injection Ht as -> <-. by exists s1, s2.
Qed.

Lemma derive_matches c r s : matches (derive c r) s <-> matches r (c :: s).
Proof.
  split.
  - revert s. induction r as [| |p|r1 IH1 r2 IH2|r1 IH1 r2 IH2|r IH]; intros s; cbn; intros Hm.
    + by inversion Hm.
    + by inversion Hm.
    + destruct (p c) eqn:Hp; inversion Hm; subst. by constructor.
    + assert (matches (Cat (derive c r1) r2) s -> matches (Cat r1 r2) (c :: s)) as Hl.
      { intros Hc. inversion Hc; subst. rewrite app_comm_cons. constructor; auto. }
      destruct (nullable r1) eqn:Hn; [|by apply Hl]. apply nullable_matches in Hn.
      inversion Hm; subst; [by apply Hl|]. apply (m_cat r1 r2 [] (c :: s)); auto.
    + inversion Hm; subst; [apply m_or_l|apply m_or_r]; auto.
    + inversion Hm; subst. rewrite app_comm_cons. constructor; auto.
  - revert s. induction r as [| |p|r1 IH1 r2 IH2|r1 IH1 r2 IH2|r IH]; intros s; cbn; intros Hm.
    + by inversion Hm.
    + by inversion Hm.
    + inversion Hm as [|p' d Hp| | | | |]; subst. rewrite Hp. constructor.
    + inversion Hm as [| |r1' r2' s1 s2 H1 H2 Heq Hs| | | |]; subst. destruct s1 as [|d s1]; cbn in Hs.
      * subst s2. rewrite (proj2 (nullable_matches r1) H1). apply m_or_r. auto.
      * injection Hs as -> <-. assert (matches (Cat (derive c r1) r2) (s1 ++ s2)) by (constructor; auto).
        destruct (nullable r1); [by apply m_or_l|done].
    + inversion Hm; subst; [apply m_or_l|apply m_or_r]; auto.
    + apply matches_cons_star in Hm as (s1 & s2 & -> & H1 & H2). constructor; auto.
Qed.

Theorem accepts_matches r s : accepts r s = true <-> matches r s.
Proof.
  revert r. induction s as [|c s IH]; intros r; cbn; [apply nullable_matches|]. by rewrite IH, derive_matches.
Qed.

(** ** The constructs, read as languages *)

Lemma matches_cat r1 r2 s : matches (Cat r1 r2) s <-> exists s1 s2, s = s1 ++ s2 /\ matches r1 s1 /\ matches r2 s2.
Proof.
  split; [|intros (s1 & s2 & -> & ? & ?); by constructor]. intros Hm.
  inversion Hm; subst. eauto.
Qed.

Lemma matches_or r1 r2 s : matches (Or r1 r2) s <-> matches r1 s \/ matches r2 s.
Proof. split; [intros Hm; inversion Hm; subst; auto|intros [?|?]; by constructor]. Qed.

Lemma matches_blank s : matches Blank s <-> s = [].
Proof. split; [intros Hm; by inversion Hm|intros ->; constructor]. Qed.

(** ** Runs of characters *)

Lemma matches_star_one p s : matches (Star (One p)) s <-> Forall (fun c => p c = true) s.
Proof.
  split.
  - intros Hm. remember (Star (One p)) as q eqn:Hq.
    induction Hm as [| | | | |r|r s1 s2 H1 _ H2 IH2]; simplify_eq; [done|]. inversion H1; subst. constructor; auto.
  - induction 1 as [|c s Hc _ IH]; [constructor|]. apply (m_star_cons (One p) [c] s); [by constructor|done].
Qed.

Lemma matches_plus_one p s : matches (plus (One p)) s <-> s <> [] /\ Forall (fun c => p c = true) s.
Proof.
  unfold plus. split.
  - intros Hm. inversion Hm as [| |r1 r2 s1 s2 H1 H2| | | |]; subst. inversion H1; subst.
    apply matches_star_one in H2. split; [done|]. by constructor.
  - intros [Hne Hs]. destruct s as [|c s]; [done|]. apply Forall_cons_1 in Hs as [Hc Hs].
    apply (m_cat _ _ [c] s); [by constructor|by apply matches_star_one].
Qed.
