(* ===== verification/TriggerStateMachine.v ===== *)
(** * The anti-spam state machine ([libs/domain/src/trigger-state-machine.ts]) *)

From S2P Require Import Prelude JsNumber Enums QuietHours.

Inductive SuppressReason := cooldown | quiet_hours.

Inductive TriggerDecision :=
  | FIRE
  | SUPPRESS (reason : SuppressReason)
  | REARM
  | NOOP.

#[global] Instance SuppressReason_eq_dec : EqDecision SuppressReason.
Proof. solve_decision. Defined.
#[global] Instance TriggerDecision_eq_dec : EqDecision TriggerDecision.
Proof. solve_decision. Defined.

(** The trigger fields the decision depends on. Dates are milliseconds. *)
Record TriggerStateInput := {
  state : TriggerState;
  lastFiredAt : option Z;
  cooldownMin : Z;
}.

Record QuietHours := {
  start : option string;
  end_ : option string;
  timezone : option string;
}.

Definition isCooldownElapsed (trigger : TriggerStateInput) (now : Z) : bool :=
  match lastFiredAt trigger with
  | None => true
  | Some fired =>
      let elapsedMs := now - fired in
      cooldownMin trigger * 60000 <=? elapsedMs
  end.

Section Decide.
Context `{Intl}.

Definition isInQuietHours (window : QuietHours) (now : Z) : option bool :=
  isWithinQuietHours now (start window) (end_ window) (timezone window).

(** The transition function; [None] is the exception of a formatter that
    knows no zone at all. *)
Definition decide_ (trigger : TriggerStateInput) (evaluation_matched : bool) (now : Z)
    (quietHours : option QuietHours) : option TriggerDecision :=
  if negb evaluation_matched then
    Some (if decide (state trigger = FIRED) then REARM else NOOP)
  else if negb (isCooldownElapsed trigger now) then Some (SUPPRESS cooldown)
  else
    match quietHours with
    | None => Some FIRE
    | Some q =>
        match isInQuietHours q now with
        | Some true => Some (SUPPRESS quiet_hours)
        | Some false => Some FIRE
        | None => None
        end
    end.

(** ** Properties *)

(** Why the watcher fires, and nothing else does. *)
Lemma decide_fire (t : TriggerStateInput) (m : bool) (now : Z) (q : option QuietHours) :
  decide_ t m now q = Some FIRE <->
  m = true /\ isCooldownElapsed t now = true /\
  (forall w, q = Some w -> isInQuietHours w now = Some false).
Proof.
  unfold decide_. destruct m; cbn; [|case_decide; naive_solver].
  destruct (isCooldownElapsed t now) eqn:E; cbn; [|naive_solver].
  destruct q as [w|]; [|naive_solver].
  destruct (isInQuietHours w now) as [[]|] eqn:Eq; cbn; naive_solver.
Qed.

(** The state of the trigger matters only when the conditions do not hold. *)
Lemma decide_matched_state_blind (t : TriggerStateInput) (s : TriggerState) (now : Z)
    (q : option QuietHours) :
  decide_ t true now q =
  decide_ {| state := s; lastFiredAt := lastFiredAt t; cooldownMin := cooldownMin t |} true now q.
Proof. done. Qed.

Lemma decide_total `{!IntlLaws} (t : TriggerStateInput) (m : bool) (now : Z) (q : option QuietHours) :
  is_Some (decide_ t m now q).
Proof.
  unfold decide_. destruct m, (isCooldownElapsed t now), q as [w|]; cbn; eauto.
  destruct (isWithinQuietHours_total now (start w) (end_ w) (timezone w)) as [b Hb].
  unfold isInQuietHours. rewrite Hb. destruct b; eauto.
Qed.

End Decide.

(** ** The life of one trigger across poll cycles

    A cycle evaluates the conditions, decides and writes the outcome back to
    the row, as [WatcherService.processTrigger] and [fire] do: FIRE sets the
    state and stamps [lastFiredAt] with a clock read after the evaluation,
    REARM only moves the state, the others leave both alone. *)

Record Poll := {
  p_matched : bool;
  p_evaluatedAt : Z;
  p_committedAt : Z;   (** the second clock read, used only when firing *)
  p_quiet : option QuietHours;
}.

Section Life.
Context `{Intl}.

Definition apply_decision (t : TriggerStateInput) (d : TriggerDecision) (p : Poll) : TriggerStateInput :=
  match d with
  | FIRE => {| state := FIRED; lastFiredAt := Some (p_committedAt p); cooldownMin := cooldownMin t |}
  | REARM => {| state := ARMED; lastFiredAt := lastFiredAt t; cooldownMin := cooldownMin t |}
  | _ => t
  end.

Definition poll_once (t : TriggerStateInput) (p : Poll) : TriggerStateInput * list Z :=
  match decide_ t (p_matched p) (p_evaluatedAt p) (p_quiet p) with
  | Some d => (apply_decision t d p,
               if decide (d = FIRE) then [p_committedAt p] else [])
  | None => (t, [])
  end.

(** Poll by poll: the final row and the times of the alerts. *)
Fixpoint run_polls (t : TriggerStateInput) (ps : list Poll) : TriggerStateInput * list Z :=
  match ps with
  | [] => (t, [])
  | p :: ps =>
      let '(t', fired) := poll_once t p in
      let '(t'', rest) := run_polls t' ps in
      (t'', fired ++ rest)
  end.

End Life.

(** Consecutive elements at least [d] apart. *)
Fixpoint spaced (d : Z) (l : list Z) : Prop :=
  match l with
  | x :: ((y :: _) as l') => x + d <= y /\ spaced d l'
  | _ => True
  end.

Section RateLimit.
Context `{Intl}.

Lemma poll_once_cooldown (t : TriggerStateInput) (p : Poll) :
  cooldownMin (poll_once t p).1 = cooldownMin t.
Proof. unfold poll_once, apply_decision. case_all; done. Qed.

(** The alert of a poll comes at least a cooldown after the one before, and
    [lastFiredAt] always holds the last alert. *)
Lemma poll_once_spaced (t : TriggerStateInput) (p : Poll) :
  p_evaluatedAt p <= p_committedAt p ->
  match (poll_once t p).2 with
  | [] => lastFiredAt (poll_once t p).1 = lastFiredAt t
  | [f] => lastFiredAt (poll_once t p).1 = Some f /\
           (forall l, lastFiredAt t = Some l -> l + cooldownMin t * 60000 <= f)
  | _ => False
  end.
Proof.
  intros Hle. unfold poll_once.
  destruct (decide_ t _ _ _) as [d|] eqn:Ed; [|done]. cbn. case_decide as Hd.
  - subst d. apply decide_fire in Ed as (_ & Hc & _). split; [done|].
    intros l Hl. unfold isCooldownElapsed in Hc. rewrite Hl in Hc. bool_to_prop. lia.
  - by destruct d.
Qed.

Lemma spaced_cons (d x : Z) (l : list Z) :
  (forall y, head l = Some y -> x + d <= y) -> spaced d l -> spaced d (x :: l).
Proof. destruct l; cbn; naive_solver. Qed.

(** C16. However the conditions flap, whatever the quiet hours are and however
    many cycles run, two alerts of one trigger are at least its cooldown
    apart, counting from the alert recorded before the first cycle. *)
Theorem alerts_respect_cooldown (ps : list Poll) (t : TriggerStateInput) :
  Forall (fun p => p_evaluatedAt p <= p_committedAt p) ps ->
  spaced (cooldownMin t * 60000) (option_list (lastFiredAt t) ++ (run_polls t ps).2).
Proof.
  revert t. induction ps as [|p ps IH]; intros t Hps; cbn.
  - rewrite app_nil_r. by destruct (lastFiredAt t).
  - apply Forall_cons in Hps as [Hp Hps].
    pose proof (poll_once_spaced t p Hp) as Hone.
    pose proof (poll_once_cooldown t p) as Hcool.
    destruct (poll_once t p) as [t' fired]; cbn in *.
    specialize (IH t' Hps). rewrite Hcool in IH.
    destruct (run_polls t' ps) as [t'' rest]; cbn in *.
    destruct fired as [|f [|]]; [by rewrite <- Hone| |done].
    destruct Hone as [Hlast Hgap]. rewrite Hlast in IH; cbn in IH |- *.
    destruct (lastFiredAt t) as [l|]; cbn; [|done].
    split; [auto|done].
Qed.

End RateLimit.

(** A trigger with a one-hour cooldown whose condition holds, clears and comes
    back: polled every five minutes it alerts at the first poll and not again
    until the hour is over. *)
Definition flapping_poll (minute : Z) (m : bool) : Poll :=
  {| p_matched := m; p_evaluatedAt := minute * 60000; p_committedAt := minute * 60000 + 40;
     p_quiet := None |}.

Definition flapping : list Poll :=
  [flapping_poll 0 true; flapping_poll 5 false; flapping_poll 10 true;
   flapping_poll 55 true; flapping_poll 65 true].

Definition hourly : TriggerStateInput :=
  {| state := ARMED; lastFiredAt := None; cooldownMin := 60 |}.

Lemma alerts_respect_cooldown_witness :
  (@run_polls sample_intl hourly flapping).2 = [40; 3900040] /\
  spaced 3600000 (option_list (lastFiredAt hourly) ++ (@run_polls sample_intl hourly flapping).2).
Proof.
  split; [vm_compute; reflexivity|].
  apply (@alerts_respect_cooldown sample_intl flapping hourly).
  repeat constructor; cbn; lia.
Defined.
