(* ===== verification/Location.v ===== *)
(** * Locations and shards ([libs/domain/src/location.ts],
    [apps/watcher/src/sharding.ts])

    A coordinate pair becomes a key, the key a 32-bit FNV-1a hash, the hash a
    bucket stored on the trigger row, and a watcher instance owns the buckets
    of its shard. *)

From S2P Require Import Prelude JsNumber QuietHours JsParse.
From Stdlib Require Import Ascii SpecFloat.

(** ** Coordinates *)

Definition LOCATION_SCALE : number := Num.of_Z 100.

(** [Math.floor(value * LOCATION_SCALE + 0.5)]; [None] when the argument is
    not finite, which the routes exclude ([IsNumber], [Min], [Max]). *)
Definition snap (value : number) : option Z :=
  Num.floor (Num.add (Num.mul value LOCATION_SCALE) (Num.lit 5 10)).

(** The text of a snapped coordinate inside a template literal. Integral
    doubles below 10^21 print as their decimal digits. *)
Definition snap_text (value : number) : string :=
  match snap value with
  | Some z => pretty z
  | None => match value with
            | S754_infinity true => "-Infinity"
            | S754_infinity false => "Infinity"
            | _ => "NaN"
            end
  end.

Definition locationKey (latitude longitude : number) : string :=
  snap_text latitude +:+ ":" +:+ snap_text longitude.

(** ** 32-bit integers of the language *)

Definition toUint32 (z : Z) : Z := z mod 2 ^ 32.

Definition toInt32 (z : Z) : Z :=
  let u := toUint32 z in if 2 ^ 31 <=? u then u - 2 ^ 32 else u.

(** [a ^ b] *)
Definition js_xor (a b : Z) : Z := toInt32 (Z.lxor (toInt32 a) (toInt32 b)).

(** [Math.imul(a, b)] *)
Definition Math_imul (a b : Z) : Z := toInt32 (toUint32 a * toUint32 b).

(** [a >>> 0] *)
Definition js_ushr0 (a : Z) : Z := toUint32 a.

(** ** The hash *)

Definition LOCATION_BUCKETS : Z := 1024.

Fixpoint hash_loop (hash : Z) (key : string) : Z :=
  match key with
  | EmptyString => hash
  | String c key' =>
      let hash := js_xor hash (Z.of_N (N_of_ascii c)) in
      hash_loop (js_ushr0 (Math_imul hash 0x01000193)) key'
  end.

Definition hashLocation (key : string) : Z := hash_loop 0x811c9dc5 key.

Definition locationBucket (latitude longitude : number) : Z :=
  Z.rem (hashLocation (locationKey latitude longitude)) LOCATION_BUCKETS.

Definition bucketsForShard (index count : Z) : list Z :=
  List.filter (fun bucket => negb (count =? 0) && (Z.rem bucket count =? index))
              (seqZ 0 LOCATION_BUCKETS).

(** ** The shard of an instance *)

Record ShardConfig := { index : Z; count : Z }.

(** A setting that passed validation is a whole number. *)
Definition whole_of (x : number) : Z := default 0 (Num.floor x).

(** [Number(raw ?? default)] with the fallback for a value that is not finite
    or out of range; an unset variable reads as its default. *)
Definition shardFromEnv (shard_count shard_index : option string) : ShardConfig :=
  let count := Number (default "1" shard_count) in
  let index := Number (default "0" shard_index) in
  {| count := whole_of (if Num.is_finite count && Num.gtb count (Num.of_Z 0) then count else Num.of_Z 1);
     index := whole_of (if Num.is_finite index && Num.geb index (Num.of_Z 0) then index else Num.of_Z 0) |}.

(** [undefined] (all buckets) for a single instance. *)
Definition shardBuckets (s : ShardConfig) : option (list Z) :=
  if count s <=? 1 then None else Some (bucketsForShard (index s) (count s)).

(** ** The same bucket as the backfill migration

    [test/bucket-parity.spec.ts] lists buckets computed by PL/pgSQL; the two
    halfway cases included, the definitions above give the same ones. *)
Example bucket_parity :
  locationBucket (Num.lit 5252 100) (Num.lit 13405 1000) = 466 /\
  locationBucket (Num.lit (-3387) 100) (Num.lit 15121 100) = 97 /\
  locationBucket (Num.of_Z 0) (Num.of_Z 0) = 685 /\
  locationBucket (Num.lit 4813 100) (Num.lit 1157 100) = 759 /\
  locationBucket (Num.lit (-33875) 1000) (Num.lit 151215 1000) = 936 /\
  locationBucket (Num.lit 12005 1000) (Num.lit (-1) 1000) = 511.
Proof. vm_compute. done. Qed.

(** ** Properties of the hash *)

Lemma toUint32_range (z : Z) : 0 <= toUint32 z < 2 ^ 32.
Proof. apply Z.mod_pos_bound. lia. Qed.

Lemma toUint32_toInt32 (z : Z) : toUint32 (toInt32 z) = toUint32 z.
Proof.
  unfold toInt32, toUint32. case_match; [|apply Z.mod_mod; lia].
  rewrite <- (Z.mod_mod z (2 ^ 32)) at 2 by lia.
  replace (z mod 2 ^ 32 - 2 ^ 32) with (z mod 2 ^ 32 + (-1) * 2 ^ 32) by lia.
  apply Z.mod_add. lia.
Qed.

(** Exclusive or acts bit by bit, so it commutes with truncation. *)
Lemma toUint32_lxor (a b : Z) : toUint32 (Z.lxor a b) = Z.lxor (toUint32 a) (toUint32 b).
Proof.
  unfold toUint32. rewrite <- !Z.land_ones by lia.
  apply Z.bits_inj'. intros n Hn. rewrite Z.lxor_spec, !Z.land_spec, Z.lxor_spec.
  by destruct (Z.testbit a n), (Z.testbit b n), (Z.testbit (Z.ones 32) n).
Qed.

Lemma toUint32_js_xor (a b : Z) : toUint32 (js_xor a b) = Z.lxor (toUint32 a) (toUint32 b).
Proof. unfold js_xor. by rewrite toUint32_toInt32, toUint32_lxor, !toUint32_toInt32. Qed.

Lemma js_ushr0_imul (a b : Z) : js_ushr0 (Math_imul a b) = toUint32 (toUint32 a * toUint32 b).
Proof. unfold js_ushr0, Math_imul. apply toUint32_toInt32. Qed.

(** The loop of the migration's [fnv1a_location]: unbounded integers, one
    mask after every multiplication. *)
Fixpoint fnv1a_location (hash : Z) (key : string) : Z :=
  match key with
  | EmptyString => hash
  | String c key' =>
      fnv1a_location (Z.land (Z.lxor hash (Z.of_N (N_of_ascii c)) * 16777619) 4294967295) key'
  end.

Lemma char_small (c : ascii) : toUint32 (Z.of_N (N_of_ascii c)) = Z.of_N (N_of_ascii c).
Proof. pose proof (N_ascii_bounded c). apply Z.mod_small. lia. Qed.

Lemma hash_step_eq (hash : Z) (c : ascii) :
  0 <= hash < 2 ^ 32 ->
  js_ushr0 (Math_imul (js_xor hash (Z.of_N (N_of_ascii c))) 0x01000193) =
  Z.land (Z.lxor hash (Z.of_N (N_of_ascii c)) * 16777619) 4294967295.
Proof.
  intros Hh. rewrite js_ushr0_imul, toUint32_js_xor, char_small.
  unfold toUint32. rewrite (Z.mod_small hash) by lia.
  rewrite (Z.mod_small 0x01000193) by lia.
  change 4294967295 with (Z.ones 32). by rewrite Z.land_ones by lia.
Qed.

Lemma hash_loop_eq (key : string) (hash : Z) :
  0 <= hash < 2 ^ 32 -> hash_loop hash key = fnv1a_location hash key.
Proof.
  revert hash. induction key as [|c key IH]; intros hash Hh; [done|].
  cbn [hash_loop fnv1a_location]. rewrite hash_step_eq by lia. apply IH.
  change 4294967295 with (Z.ones 32). rewrite Z.land_ones by lia. apply toUint32_range.
Qed.

(** C40. The hash the services compute with 32-bit signed operators is the
    hash the backfill migration computes with unbounded integers and a mask,
    on every key: core-api, the watcher and the database agree on buckets. *)
Theorem hashLocation_is_migration (key : string) :
  hashLocation key = fnv1a_location 2166136261 key.
Proof. apply hash_loop_eq. lia. Qed.

Lemma hash_loop_range (key : string) (hash : Z) :
  0 <= hash < 2 ^ 32 -> 0 <= hash_loop hash key < 2 ^ 32.
Proof.
  revert hash. induction key as [|c key IH]; intros hash Hh; [done|].
  apply IH, toUint32_range.
Qed.

Lemma hashLocation_range (key : string) : 0 <= hashLocation key < 2 ^ 32.
Proof. apply hash_loop_range. lia. Qed.

Lemma locationBucket_range (lat lon : number) : 0 <= locationBucket lat lon < LOCATION_BUCKETS.
Proof.
  unfold locationBucket. pose proof (hashLocation_range (locationKey lat lon)).
  apply Z.rem_bound_pos; unfold LOCATION_BUCKETS; lia.
Qed.

(** ** Properties of the shards *)

Lemma elem_of_bucketsForShard (b i n : Z) :
  0 < n -> b ∈ bucketsForShard i n <-> 0 <= b < LOCATION_BUCKETS /\ b mod n = i.
Proof.
  intros Hn. unfold bucketsForShard. rewrite list_elem_of_In, List.filter_In.
  rewrite <- list_elem_of_In, elem_of_seqZ.
  replace (negb (n =? 0)) with true by (symmetry; apply negb_true_iff, Z.eqb_neq; lia).
  cbn. rewrite Z.eqb_eq. split.
  - intros [Hb <-]. rewrite Z.rem_mod_nonneg by lia. lia.
  - intros [Hb <-]. rewrite Z.rem_mod_nonneg by lia. lia.
Qed.

Lemma bucketsForShard_NoDup (i n : Z) : NoDup (bucketsForShard i n).
Proof. unfold bucketsForShard. apply NoDup_ListNoDup, List.NoDup_filter, NoDup_ListNoDup, NoDup_seqZ. Qed.

(** The shards partition the locations: whatever the number of instances,
    the bucket of every coordinate pair is queried by exactly one of them. *)
Theorem shards_partition (n : Z) (lat lon : number) :
  0 < n ->
  exists! i, 0 <= i < n /\ locationBucket lat lon ∈ bucketsForShard i n.
Proof.
  intros Hn. exists (locationBucket lat lon mod n). split.
  - split; [apply Z.mod_pos_bound; lia|].
    apply elem_of_bucketsForShard; [lia|]. split; [apply locationBucket_range|done].
  - intros i [_ Hi]. apply elem_of_bucketsForShard in Hi; [|lia]. by destruct Hi.
Qed.

Lemma shards_partition_witness :
  0 < 3 /\ exists! i, 0 <= i < 3 /\ locationBucket (Num.lit 5252 100) (Num.lit 13405 1000) ∈ bucketsForShard i 3.
Proof. split; [lia|]. apply (shards_partition 3 (Num.lit 5252 100) (Num.lit 13405 1000)). lia. Defined.

