(* ===== verification/Env.v ===== *)
(** * The environment ([libs/common/src/config/env.ts])

    The schemas the three services validate their variables with, as data,
    and the validator that stops a service from starting. What the schema
    library does with a schema is a class with the laws the code relies on. *)

From S2P Require Import Prelude JsNumber QuietHours JsParse Regex Location.
From Stdlib Require Import Ascii.

(** ** Schemas *)

(** A variable after validation. *)
Inductive EnvValue :=
  | Text (s : string)
  | Numeric (x : number).

#[global] Instance EnvValue_eq_dec : EqDecision EnvValue.
Proof. solve_decision. Defined.

(** The variables of the process, and what validation makes of them. *)
Abbreviation Env := (gmap string string).
Abbreviation Config := (gmap string EnvValue).

(** A check on the text of a variable: [.min], [.refine] on a prefix,
    [.regex] and [z.enum]. *)
Inductive Rule :=
  | MinLength (n : nat) (message : string)
  | NotPrefixed (prefix : string) (message : string)
  | Pattern (r : regex) (message : string)
  | OneOf (values : list string).

Inductive Presence := Required | Optional_ | Default (value : string).

(** [f_transform]: [.transform(Number)]. *)
Record Field := {
  f_name : string;
  f_rules : list Rule;
  f_presence : Presence;
  f_transform : bool;
}.

(** [z.object(...).refine(...)...]. *)
Record Schema := {
  s_fields : list Field;
  s_refinements : list ((Config -> bool) * string);
}.

Definition field (name : string) (rules : list Rule) : Field :=
  {| f_name := name; f_rules := rules; f_presence := Required; f_transform := false |}.
Definition optional (f : Field) : Field :=
  {| f_name := f_name f; f_rules := f_rules f; f_presence := Optional_; f_transform := f_transform f |}.

(** ** The schemas of the services *)

Definition required (name : string) : Field := field name [MinLength 1 (name +:+ " is required")].

Definition jwtSecret (name : string) : Field :=
  field name [MinLength 32 "must be at least 32 characters";
              NotPrefixed "change-me" "must not be a change-me placeholder"].

Definition node_env : Field :=
  {| f_name := "NODE_ENV"; f_rules := [OneOf ["development"; "production"; "test"]];
     f_presence := Default "development"; f_transform := false |}.

Definition base : list Field := [node_env; required "DATABASE_URL"].

Definition cookieSameSite : Field := field "COOKIE_SAMESITE" [OneOf ["lax"; "strict"; "none"]].

Definition quote : string := String "034" "".

Definition not_none_outside_production (env : Config) : bool :=
  negb (bool_decide (env !! "COOKIE_SAMESITE" = Some (Text "none"))) ||
  bool_decide (env !! "NODE_ENV" = Some (Text "production")).

Definition coreApiEnvSchema : Schema :=
  {| s_fields := base ++ [required "REDIS_URL"; required "RABBITMQ_URL"; jwtSecret "JWT_ACCESS_SECRET";
                          jwtSecret "JWT_REFRESH_SECRET"; optional cookieSameSite];
     s_refinements := [(not_none_outside_production,
       "COOKIE_SAMESITE=" +:+ quote +:+ "none" +:+ quote +:+ " requires NODE_ENV=production, which is what marks the cookie Secure — without it the browser discards the cookie")] |}.

Definition not_space (c : ascii) : bool := negb (is_space c).

(** [/^(\S+\s+){4,5}\S+$/]. *)
Definition cron_regex : regex :=
  Cat (once_more (Cat (plus (One not_space)) (plus (One is_space))) 4) (plus (One not_space)).

Definition cronExpression (name : string) : Field :=
  field name [Pattern cron_regex "must be a cron expression of 5 fields, or 6 with seconds"].

Definition is_digit (c : ascii) : bool := bool_decide (is_Some (digit c)).

(** [/^\d+$/], then [Number]. *)
Definition nonNegativeInt (name : string) : Field :=
  {| f_name := name; f_rules := [Pattern (plus (One is_digit)) "must be a non-negative integer"];
     f_presence := Required; f_transform := true |}.

(** [env.NAME ?? default] as a number. *)
Definition number_or (d : Z) (v : option EnvValue) : number :=
  match v with Some (Numeric x) => x | Some (Text s) => Number s | None => Num.of_Z d end.

Definition some_worker (env : Config) : bool := Num.gtb (number_or 1 (env !! "WATCHER_CONCURRENCY")) (Num.of_Z 0).
Definition some_shard (env : Config) : bool := Num.gtb (number_or 1 (env !! "WATCHER_SHARD_COUNT")) (Num.of_Z 0).
Definition index_below_count (env : Config) : bool :=
  Num.ltb (number_or 0 (env !! "WATCHER_SHARD_INDEX")) (number_or 1 (env !! "WATCHER_SHARD_COUNT")).

Definition watcherEnvSchema : Schema :=
  {| s_fields := base ++ [required "REDIS_URL"; required "RABBITMQ_URL"; optional (cronExpression "WATCHER_CRON");
                          optional (nonNegativeInt "WATCHER_SHARD_COUNT");
                          optional (nonNegativeInt "WATCHER_SHARD_INDEX");
                          optional (nonNegativeInt "WATCHER_CONCURRENCY")];
     s_refinements :=
       [(some_worker, "WATCHER_CONCURRENCY must be at least 1");
        (some_shard, "WATCHER_SHARD_COUNT must be at least 1");
        (index_below_count, "WATCHER_SHARD_INDEX must be less than WATCHER_SHARD_COUNT")] |}.

Definition notifierEnvSchema : Schema := {| s_fields := base ++ [required "RABBITMQ_URL"]; s_refinements := [] |}.

(** ** What the library promises *)

Definition rule_ok (r : Rule) (s : string) : bool :=
  match r with
  | MinLength n _ => (n <=? js_length s)%nat
  | NotPrefixed prefix _ => negb (startsWith prefix s)
  | Pattern r _ => test r s
  | OneOf values => bool_decide (s ∈ values)
  end.

(** What a field makes of its variable: an error, nothing, or a value. *)
Definition field_value (f : Field) (raw : option string) : option (option EnvValue) :=
  match raw with
  | None =>
      match f_presence f with Required => None | Optional_ => Some None | Default v => Some (Some (Text v)) end
  | Some s =>
      if forallb (fun r => rule_ok r s) (f_rules f)
      then Some (Some (if f_transform f then Numeric (Number s) else Text s))
      else None
  end.

Fixpoint object_value (fields : list Field) (env : Env) : option Config :=
  match fields with
  | [] => Some ∅
  | f :: rest =>
      v ← field_value f (env !! f_name f);
      data ← object_value rest env;
      Some (match v with Some v => <[f_name f := v]> data | None => data end)
  end.

Definition schema_value (schema : Schema) (env : Env) : option Config :=
  data ← object_value (s_fields schema) env;
  if forallb (fun r => r.1 data) (s_refinements schema) then Some data else None.

Record Issue := { path : list string; message : string }.

(** [safeParse]: the declared variables of a valid environment, or what is
    wrong with it. *)
Class Zod := {
  safeParse : Schema -> Env -> Config + list Issue;
  safeParse_valid : forall schema env data, schema_value schema env = Some data -> safeParse schema env = inl data;
  safeParse_invalid : forall schema env, schema_value schema env = None ->
    exists issues, issues <> [] /\ safeParse schema env = inr issues;
}.

(** ** The validator *)

Definition issue_line (i : Issue) : string :=
  let at_ := String.concat "." (path i) in
  "  - " +:+ (if String.eqb at_ "" then "(root)" else at_) +:+ ": " +:+ message i.

Definition newline : string := String "010" "".

(** The configuration, or the message of the error that stops the start. *)
Definition createEnvValidator `{Zod} (schema : Schema) (config : Env) : Config + string :=
  match safeParse schema config with
  | inr issues => inr ("Invalid environment configuration:" +:+ newline +:+ String.concat newline (map issue_line issues))
  | inl data => inl (data ∪ (Text <$> config))
  end.

(** ** What an accepted environment holds *)

Lemma object_value_lookup fields env data :
  NoDup (f_name <$> fields) -> object_value fields env = Some data ->
  (forall f, f ∈ fields -> field_value f (env !! f_name f) = Some (data !! f_name f)) /\
  (forall k, k ∉ f_name <$> fields -> data !! k = None).
Proof.
  revert data. induction fields as [|f fields IH]; cbn [object_value fmap list_fmap]; intros data Hnd Hdata.
  - injection Hdata as <-. split; [by intros f ?%not_elem_of_nil|by intros k _; apply lookup_empty].
  - apply NoDup_cons in Hnd as [Hf Hnd]. destruct (field_value f _) as [v|] eqn:Hv; [|done].
    destruct (object_value fields env) as [rest|] eqn:Hrest; [|done]. injection Hdata as <-.
    destruct (IH rest Hnd eq_refl) as [Hin Hout]. split.
    + intros g [->|Hg]%elem_of_cons.
      * rewrite Hv. destruct v; [by rewrite lookup_insert_eq|by rewrite Hout].
      * rewrite (Hin g Hg). destruct v; [|done]. rewrite lookup_insert_ne; [done|].
        intros Heq. apply Hf. rewrite Heq. by apply list_elem_of_fmap_2.
    + intros k [Hk Hrestk]%not_elem_of_cons. destruct v; [rewrite lookup_insert_ne by done|]; auto.
Qed.

Section Validator.
Context `{Zod}.

Lemma validator_valid schema env data :
  schema_value schema env = Some data -> createEnvValidator schema env = inl (data ∪ (Text <$> env)).
Proof. intros Hd. unfold createEnvValidator. by rewrite (safeParse_valid _ _ _ Hd). Qed.

Lemma validator_accepts schema env c :
  createEnvValidator schema env = inl c ->
  exists data, schema_value schema env = Some data /\ c = data ∪ (Text <$> env).
Proof.
  intros Hc. destruct (schema_value schema env) as [data|] eqn:Hd.
  - rewrite (validator_valid _ _ _ Hd) in Hc. injection Hc as <-. eauto.
  - destruct (safeParse_invalid _ _ Hd) as (issues & _ & Hs). unfold createEnvValidator in Hc. by rewrite Hs in Hc.
Qed.

(** The configuration made of valid variables: the declared ones parsed, the
    others as they were. *)
Lemma validator_config schema env data :
  NoDup (f_name <$> s_fields schema) -> schema_value schema env = Some data ->
  let c := data ∪ (Text <$> env) in
  createEnvValidator schema env = inl c /\
  (forall f, f ∈ s_fields schema -> c !! f_name f = data !! f_name f) /\
  (forall f, f ∈ s_fields schema -> field_value f (env !! f_name f) = Some (c !! f_name f)) /\
  (forall k, k ∉ f_name <$> s_fields schema -> c !! k = Text <$> env !! k) /\
  (forall r, r ∈ s_refinements schema -> r.1 data = true).
Proof.
  intros Hnd Hd. cbv zeta. pose proof (validator_valid _ _ _ Hd) as Hc.
  unfold schema_value in Hd. destruct (object_value _ _) as [data'|] eqn:Ho; [|done]. cbn in Hd.
  destruct (forallb _ _) eqn:Hr; [|done]. injection Hd as ->. destruct (object_value_lookup _ _ _ Hnd Ho) as [Hin Hout].
  assert (forall f, f ∈ s_fields schema -> (data ∪ (Text <$> env)) !! f_name f = data !! f_name f) as Hsame.
  { intros f Hf. rewrite lookup_union. destruct (data !! f_name f) eqn:Hv; [by rewrite union_Some_l|].
    rewrite (left_id_L None union), lookup_fmap. specialize (Hin f Hf). rewrite Hv in Hin. unfold field_value in Hin.
    revert Hin. destruct (env !! f_name f); [|done]. by case_match. }
  split_and!; [done|done|..].
  - intros f Hf. rewrite (Hin f Hf). by rewrite Hsame.
  - intros k Hk. by rewrite lookup_union, (Hout k Hk), (left_id_L None union), lookup_fmap.
  - intros r Hrin. rewrite forallb_forall in Hr. by apply Hr, list_elem_of_In.
Qed.

(** What the start of a service with this schema guarantees. *)
Lemma accepted schema env c :
  NoDup (f_name <$> s_fields schema) -> createEnvValidator schema env = inl c ->
  exists data,
    (forall f, f ∈ s_fields schema -> c !! f_name f = data !! f_name f) /\
    (forall f, f ∈ s_fields schema -> field_value f (env !! f_name f) = Some (c !! f_name f)) /\
    (forall r, r ∈ s_refinements schema -> r.1 data = true).
Proof.
  intros Hnd (data & Hd & ->)%validator_accepts. exists data.
  destruct (validator_config _ _ _ Hnd Hd) as (_ & Hsame & Hin & _ & Hr). auto.
Qed.

(** Validation at the start decides every environment: one that satisfies
    the schema gives a configuration in which the declared variables have
    their parsed values and defaults and every other variable the text it was
    set to, and any other stops the service with an error that lists at least
    one problem, a line each. *)
Theorem validator_decides schema env :
  NoDup (f_name <$> s_fields schema) ->
  match schema_value schema env with
  | Some data =>
      exists c, createEnvValidator schema env = inl c /\
        (forall f, f ∈ s_fields schema -> field_value f (env !! f_name f) = Some (c !! f_name f)) /\
        (forall k, k ∉ f_name <$> s_fields schema -> c !! k = Text <$> env !! k)
  | None =>
      exists i issues, createEnvValidator schema env =
        inr ("Invalid environment configuration:" +:+ newline +:+ String.concat newline (map issue_line (i :: issues)))
  end.
Proof.
  intros Hnd. destruct (schema_value schema env) as [data|] eqn:Hd.
  - exists (data ∪ (Text <$> env)). destruct (validator_config _ _ _ Hnd Hd) as (Hc & _ & Hin & Hout & _). auto.
  - destruct (safeParse_invalid _ _ Hd) as ([|i issues] & Hne & Hs); [done|]. exists i, issues.
    unfold createEnvValidator. by rewrite Hs.
Qed.

End Validator.

(** ** Cron expressions *)

(** How many runs of characters other than white space; [inside] one already. *)
Fixpoint runs (inside : bool) (s : list ascii) : nat :=
  match s with
  | [] => 0
  | c :: s' => if is_space c then runs false s' else ((if inside then 0 else 1) + runs true s')%nat
  end.

(** No white space at either end. *)
Definition edged (s : list ascii) : bool :=
  match head s, last s with Some c, Some d => not_space c && not_space d | _, _ => false end.

Abbreviation word := (Forall (fun c => not_space c = true)).
Abbreviation gap := (Forall (fun c => is_space c = true)).

Lemma runs_word b w s : word w -> w <> [] -> runs b (w ++ s) = ((if b then 0 else 1) + runs true s)%nat.
Proof.
  intros Hw Hne. destruct w as [|c w]; [done|]. clear Hne. apply Forall_cons_1 in Hw as [Hc Hw]. cbn.
  unfold not_space in Hc. apply negb_true_iff in Hc. rewrite Hc. f_equal.
  induction Hw as [|d w Hd _ IH]; cbn; [done|]. unfold not_space in Hd. apply negb_true_iff in Hd. by rewrite Hd.
Qed.

Lemma runs_gap b g s : gap g -> g <> [] -> runs b (g ++ s) = runs false s.
Proof.
  intros Hg Hne. destruct g as [|c g]; [done|]. clear Hne. apply Forall_cons_1 in Hg as [Hc Hg]. cbn. rewrite Hc.
  induction Hg as [|d g Hd _ IH]; cbn; [done|]. by rewrite Hd.
Qed.

Lemma edged_word w : word w -> w <> [] -> edged w = true.
Proof.
  intros Hw Hne. unfold edged. destruct w as [|c w]; [done|]. cbn [head].
  destruct (last (c :: w)) as [d|] eqn:Hd; [|by apply last_None in Hd].
  apply last_Some_elem_of in Hd. rewrite Forall_forall in Hw. rewrite (Hw c), (Hw d); [done|done|]. set_solver.
Qed.

Lemma edged_app w s : word w -> w <> [] -> edged s = true -> forall g, edged (w ++ g ++ s) = true.
Proof.
  intros Hw Hne Hs g. unfold edged in *. destruct w as [|c w]; [done|]. apply Forall_cons_1 in Hw as [Hc _].
  destruct s as [|d s]; [done|]. cbn [head] in *. change ((c :: w) ++ g ++ d :: s) with (c :: (w ++ g ++ d :: s)). cbn [head].
  rewrite app_comm_cons, !app_assoc, last_app. destruct (last (d :: s)) as [e|] eqn:He; [|done].
  apply andb_true_iff in Hs as [_ ->]. by rewrite Hc.
Qed.

(** A text with clean edges is one word, or a word, a gap and such a text. *)
Lemma edged_split s :
  edged s = true ->
  (word s /\ s <> []) \/
  exists w g rest, s = w ++ g ++ rest /\ word w /\ w <> [] /\ gap g /\ g <> [] /\ edged rest = true.
Proof.
  (* behind a gap *)
  assert (forall s c d, is_space c = true -> last (c :: s) = Some d -> not_space d = true ->
    exists g rest, c :: s = g ++ rest /\ gap g /\ g <> [] /\ edged rest = true) as Hgap.
  { clear s. induction s as [|e s IH]; intros c d Hc Hd Hn.
    - injection Hd as <-. unfold not_space in Hn. by rewrite Hc in Hn.
    - destruct (is_space e) eqn:He.
      + destruct (IH e d He Hd Hn) as (g & rest & -> & Hg & _ & Hr). exists (c :: g), rest. split_and!; try done. by constructor.
      + exists [c], (e :: s). split_and!; try done; [by constructor|]. unfold edged. cbn [head].
        change (last (c :: e :: s)) with (last (e :: s)) in Hd. rewrite Hd. unfold not_space at 1. by rewrite He, Hn. }
  unfold edged at 1. destruct s as [|c s]; [done|]. cbn [head]. destruct (last (c :: s)) as [d|] eqn:Hd; [|done].
  intros [Hc Hn]%andb_true_iff. revert c Hd Hc. induction s as [|e s IH]; intros c Hd Hc.
  - left. split; [|done]. by constructor.
  - change (last (c :: e :: s)) with (last (e :: s)) in Hd. destruct (is_space e) eqn:He.
    + right. destruct (Hgap s e d He Hd Hn) as (g & rest & Heq & Hg & Hgne & Hr). exists [c], g, rest.
      cbn. rewrite Heq. split_and!; try done. by constructor.
    + destruct (IH e Hd) as [[Hw _]|(w & g & rest & Heq & Hw & _ & Hg & Hgne & Hr)]; [unfold not_space; by rewrite He|..].
      * left. split; [|done]. by constructor.
      * right. exists (c :: w), g, rest. cbn. rewrite Heq. split_and!; try done. by constructor.
Qed.

Definition cron_step : regex := Cat (plus (One not_space)) (plus (One is_space)).

Lemma cron_words n s :
  matches (Cat (power cron_step n) (plus (One not_space))) s <-> edged s = true /\ runs false s = S n.
Proof.
  revert s. induction n as [|n IH]; intros s.
  - cbn [power]. rewrite matches_cat. setoid_rewrite matches_blank. setoid_rewrite matches_plus_one. split.
    + intros (? & w & -> & -> & Hne & Hw). cbn. split; [by apply edged_word|].
      rewrite <- (app_nil_r w), runs_word by done. done.
    + intros [He Hr]. exists [], s. split_and!; try done; destruct (edged_split s He) as [[Hw Hne]|Hs]; try done; exfalso.
      all: destruct Hs as (w & g & rest & -> & Hw & Hne & Hg & Hgne & Hrest); rewrite runs_word, runs_gap in Hr by done;
        destruct (edged_split rest Hrest) as [[Hw' Hne']|(w' & g' & r' & -> & Hw' & Hne' & _)].
      all: first [rewrite <- (app_nil_r rest), runs_word in Hr by done|rewrite runs_word in Hr by done]; lia.
  - cbn [power]. rewrite matches_cat. split.
    + intros (s1 & s2 & -> & H1 & H2). apply matches_cat in H1 as (s3 & s4 & -> & H3 & H4).
      apply matches_cat in H3 as (w & g & -> & [Hwne Hw]%matches_plus_one & [Hgne Hg]%matches_plus_one).
      destruct (proj1 (IH (s4 ++ s2))) as [He Hr]; [by constructor|].
      rewrite <- !app_assoc. split; [by apply edged_app|]. rewrite runs_word, runs_gap by done. cbn. by rewrite Hr.
    + intros [He Hr]. destruct (edged_split s He) as [[Hw Hne]|(w & g & rest & -> & Hw & Hne & Hg & Hgne & Hrest)].
      { rewrite <- (app_nil_r s), runs_word in Hr by done. done. }
      rewrite runs_word, runs_gap in Hr by done.
      assert (matches (Cat (power cron_step n) (plus (One not_space))) rest) as Hm by (apply IH; auto with lia).
      apply matches_cat in Hm as (s1 & s2 & -> & H1 & H2). exists (w ++ g ++ s1), s2. split; [by rewrite <- !app_assoc|].
      split; [|done]. apply matches_cat. exists (w ++ g), s1. split; [by rewrite <- app_assoc|]. split; [|done].
      apply matches_cat. exists w, g. split_and!; [done|by apply matches_plus_one..].
Qed.

(** A schedule is accepted exactly when it has five fields, or six with
    seconds, separated by white space and with none at its ends. *)
Theorem cron_accepts_five_or_six text :
  test cron_regex text = true <->
  let s := String.list_ascii_of_string text in edged s = true /\ (runs false s = 5%nat \/ runs false s = 6%nat).
Proof.
  unfold test. rewrite accepts_matches. cbv zeta. generalize (String.list_ascii_of_string text). intros s.
  unfold cron_regex, once_more. fold cron_step.
  assert (matches (Cat (Or (power cron_step 4) (power cron_step 5)) (plus (One not_space))) s <->
    matches (Cat (power cron_step 4) (plus (One not_space))) s \/ matches (Cat (power cron_step 5) (plus (One not_space))) s) as ->
    by (rewrite !matches_cat; setoid_rewrite matches_or; naive_solver).
  rewrite !cron_words. naive_solver.
Qed.

(** ** Whole settings *)

Lemma digits_only s : test (plus (One is_digit)) s = true -> s <> "" /\ exists v, Number_digits s = Some v /\ 0 <= v.
Proof.
  unfold test. rewrite accepts_matches, matches_plus_one. intros [Hne Hd].
  assert (forall acc, 0 <= acc -> exists v, digits_value acc s = Some v /\ 0 <= v) as Hv.
  { clear Hne. induction s as [|c s IH]; intros acc Hacc; cbn in *; [eauto|]. apply Forall_cons_1 in Hd as [Hc Hd].
    apply bool_decide_eq_true in Hc as [d Hc]. rewrite Hc. apply IH; [done|]. apply digit_spec in Hc as [? _]. lia. }
  split; [by intros ->|]. by apply Hv.
Qed.

(** The text of an optional whole number and its parsed value are the same
    double, that of a natural number. *)
Lemma whole_setting name (env : Env) (data : Config) d :
  0 <= d -> Number (pretty d) = Num.of_Z d ->
  field_value (optional (nonNegativeInt name)) (env !! name) = Some (data !! name) ->
  exists z, 0 <= z /\ number_or d (data !! name) = Num.of_Z z /\ Number (default (pretty d) (env !! name)) = Num.of_Z z.
Proof.
  intros Hd Hn. unfold field_value. cbn [optional nonNegativeInt f_presence f_rules f_transform].
  destruct (env !! name) as [s|]; [|intros [= <-]; by exists d].
  cbn [forallb rule_ok]. rewrite andb_true_r. destruct (test _ s) eqn:Ht; [|done]. intros [= <-].
  apply digits_only in Ht as [Hne (v & Hv & Hpos)]. exists v. cbn. by rewrite (Number_of_digits s v).
Qed.

Lemma leb_of_Z_0 z : 0 <= z -> Num.leb (Num.of_Z 0) (Num.of_Z z) = true.
Proof.
  intros Hz. destruct (decide (z = 0)) as [->|Hne]; [done|].
  by destruct (Num.of_Z_shape z) as [[-> _]|(m & e & -> & _)]; [lia|..].
Qed.

Lemma floor_finite x v : Num.floor x = Some v -> Num.is_finite x = true.
Proof. by destruct x. Qed.

(** A literal element of a literal list. *)
Ltac in_list := cbn; repeat first [apply list_elem_of_here | apply list_elem_of_further].

Lemma watcher_names : NoDup (f_name <$> s_fields watcherEnvSchema).
Proof. apply (bool_decide_unpack _). by vm_compute. Qed.

Lemma core_names : NoDup (f_name <$> s_fields coreApiEnvSchema).
Proof. apply (bool_decide_unpack _). by vm_compute. Qed.

Section Shards.
Context `{Zod}.

(** The index of the shard a watcher reads is below the number of shards it
    reads; the one exception is a number of shards too large for a double. *)
Lemma accepted_shard_in_range env c :
  createEnvValidator watcherEnvSchema env = inl c ->
  let count_ := env !! "WATCHER_SHARD_COUNT" in
  let shard := shardFromEnv count_ (env !! "WATCHER_SHARD_INDEX") in
  Num.is_finite (Number (default "1" count_)) = true ->
  0 <= index shard < count shard.
Proof.
  intros (data & Hsame & Hf & Hr)%accepted; [|apply watcher_names]. cbv zeta.
  set (shards := optional (nonNegativeInt "WATCHER_SHARD_COUNT")). set (own := optional (nonNegativeInt "WATCHER_SHARD_INDEX")).
  assert (shards ∈ s_fields watcherEnvSchema) as Hin by in_list. assert (own ∈ s_fields watcherEnvSchema) as Hin' by in_list.
  destruct (whole_setting "WATCHER_SHARD_COUNT" env c 1) as (n & Hn & Hdata & Hraw); [done|by vm_compute|by apply (Hf shards)|].
  destruct (whole_setting "WATCHER_SHARD_INDEX" env c 0) as (i & Hi & Hdata' & Hraw'); [done|by vm_compute|by apply (Hf own)|].
  change (pretty 1) with "1" in Hraw. change (pretty 0) with "0" in Hraw'. unfold shardFromEnv. rewrite Hraw, Hraw'. intros Hfin.
  pose proof (Hsame shards Hin) as Hs. pose proof (Hsame own Hin') as Ho. cbn [f_name shards own optional nonNegativeInt] in Hs, Ho.
  assert (Num.gtb (Num.of_Z n) (Num.of_Z 0) = true) as Hpos.
  { rewrite <- Hdata, Hs. apply (Hr (some_shard, "WATCHER_SHARD_COUNT must be at least 1")). in_list. }
  assert (Num.ltb (Num.of_Z i) (Num.of_Z n) = true) as Hlt.
  { rewrite <- Hdata, <- Hdata', Hs, Ho.
    apply (Hr (index_below_count, "WATCHER_SHARD_INDEX must be less than WATCHER_SHARD_COUNT")). in_list. }
  destruct (Num.ltb_of_Z i n Hi Hn Hfin Hlt) as (x & y & Hx & Hy & Hxy).
  cbn [index count]. rewrite Hfin, Hpos, (floor_finite _ _ Hx). unfold Num.geb. fold (Num.leb (Num.of_Z 0) (Num.of_Z i)).
  rewrite leb_of_Z_0 by done. cbn [andb]. unfold whole_of. by rewrite Hx, Hy.
Qed.

End Shards.

(** ** Concrete environments *)

(** A library that reports one problem whatever is wrong. *)
Definition one_problem (schema : Schema) (env : Env) : Config + list Issue :=
  match schema_value schema env with
  | Some data => inl data
  | None => inr [{| path := []; message := "Invalid input" |}]
  end.

#[export] Instance sample_zod : Zod.
Proof.
  refine {| safeParse := one_problem |}; unfold one_problem.
  - by intros schema env data ->.
  - intros schema env ->. eexists. by split; [|reflexivity].
Defined.

Definition sample_core_env : Env :=
  list_to_map [("DATABASE_URL", "postgresql://localhost:5432/db"); ("REDIS_URL", "redis://localhost:6379");
               ("RABBITMQ_URL", "amqp://localhost:5672"); ("JWT_ACCESS_SECRET", "aaaaaaaaaaaaaaaaaaaaaaaaaaaaaaaa");
               ("JWT_REFRESH_SECRET", "aaaaaaaaaaaaaaaaaaaaaaaaaaaaaaaa"); ("LOG_LEVEL", "debug")].

Definition sample_watcher_env : Env :=
  <["WATCHER_CRON" := "0 */5 * * * *"]> (<["WATCHER_SHARD_COUNT" := "4"]> (<["WATCHER_SHARD_INDEX" := "3"]>
    (<["WATCHER_CONCURRENCY" := "8"]> sample_core_env))).

(** The cases of [env.spec.ts]. *)
Definition core_accepts (env : Env) : bool := bool_decide (is_Some (schema_value coreApiEnvSchema env)).
Definition watcher_accepts (env : Env) : bool := bool_decide (is_Some (schema_value watcherEnvSchema env)).

Example env_cases :
  core_accepts sample_core_env = true /\
  forallb (fun k => negb (core_accepts (delete k sample_core_env)))
    ["DATABASE_URL"; "REDIS_URL"; "RABBITMQ_URL"; "JWT_ACCESS_SECRET"; "JWT_REFRESH_SECRET"] = true /\
  core_accepts (<["JWT_ACCESS_SECRET" := "short"]> sample_core_env) = false /\
  core_accepts (<["JWT_REFRESH_SECRET" := "change-me-aaaaaaaaaaaaaaaaaaaaaaaaaaaaaaaa"]> sample_core_env) = false /\
  map (fun v => core_accepts (<["COOKIE_SAMESITE" := v]> sample_core_env)) ["lax"; "strict"; "Lax"; "none;"; ""; "none"] =
    [true; true; false; false; false; false] /\
  core_accepts (<["NODE_ENV" := "production"]> (<["COOKIE_SAMESITE" := "none"]> sample_core_env)) = true /\
  map (fun v => watcher_accepts (<["WATCHER_CRON" := v]> sample_watcher_env))
    ["0 */5 * * * *"; "*/5 * * * *"; "every 5 minutes"; ""; " */5 * * * *"] = [true; true; false; false; false] /\
  map (fun v => watcher_accepts (<["WATCHER_SHARD_INDEX" := v]> sample_watcher_env)) ["0"; "3"; "4"; "-1"; "1.5"; ""] =
    [true; true; false; false; false; false] /\
  map (fun v => watcher_accepts (<["WATCHER_CONCURRENCY" := v]> sample_watcher_env)) ["1"; "0"; "x"] = [true; false; false].
Proof. vm_compute. auto 10. Qed.

Lemma validator_decides_witness :
  exists c, createEnvValidator coreApiEnvSchema sample_core_env = inl c /\ c !! "LOG_LEVEL" = Some (Text "debug").
Proof.
  pose proof (validator_decides coreApiEnvSchema sample_core_env core_names) as Hv.
  assert (core_accepts sample_core_env = true) as Hok by (vm_compute; reflexivity).
  unfold core_accepts in Hok. apply bool_decide_eq_true in Hok as [data Hd]. rewrite Hd in Hv.
  destruct Hv as (c & Hc & _ & Hkeep). exists c. split; [exact Hc|].
  rewrite (Hkeep "LOG_LEVEL"); [vm_compute; reflexivity|]. apply (bool_decide_unpack _). vm_compute. exact I.
Defined.
