(* ===== verification/Contracts.v ===== *)
(** * The wire contract ([libs/contracts/src])

    The event a firing publishes and the names of the exchanges, routing keys
    and queues every service derives from a channel. *)

From S2P Require Import Prelude JsNumber Enums.

(** ** Events ([events.ts]) *)

Record FiredCondition := {
  fc_metric : Metric;
  fc_operator : Operator;
  fc_threshold : number;
  fc_observedValue : number;
}.

Record TriggerFiredEvent := {
  ev_eventId : string;
  ev_triggerId : string;
  ev_userId : string;
  ev_triggerName : string;
  ev_city : string;
  ev_conditions : list FiredCondition;
  ev_conditionLogic : ConditionLogic;
  ev_channels : list Channel;
  ev_firedAt : Z;          (** the instant; [toISOString] is its text *)
  ev_test : option bool;
}.

#[global] Instance FiredCondition_eq_dec : EqDecision FiredCondition.
Proof. solve_decision. Defined.
#[global] Instance TriggerFiredEvent_eq_dec : EqDecision TriggerFiredEvent.
Proof. solve_decision. Defined.

(** ** Routing ([routing.ts]) *)

Definition NOTIFICATIONS_EXCHANGE : string := "notifications".
Definition DLX_EXCHANGE : string := "notifications.dlx".

Definition CHANNEL_ROUTING (channel : Channel) : string :=
  match channel with
  | TELEGRAM => "telegram"
  | EMAIL => "email"
  | WEB_PUSH => "push"
  end.

Definition routingKeyFor (channel : Channel) : string :=
  CHANNEL_ROUTING channel +:+ ".fired".

Definition queueNameFor (channel : Channel) : string :=
  "notifications." +:+ CHANNEL_ROUTING channel.

Definition retryRoutingKeyFor (channel : Channel) (attempt : Z) : string :=
  CHANNEL_ROUTING channel +:+ ".retry." +:+ pretty attempt.

Definition retryQueueNameFor (channel : Channel) (attempt : Z) : string :=
  queueNameFor channel +:+ ".retry." +:+ pretty attempt.

Definition deadRoutingKeyFor (channel : Channel) : string :=
  CHANNEL_ROUTING channel +:+ ".dead".

Definition deadQueueNameFor (channel : Channel) : string :=
  queueNameFor channel +:+ ".dead".

(** ** Properties *)

Lemma routingKeyFor_inj (c d : Channel) : routingKeyFor c = routingKeyFor d -> c = d.
Proof. destruct c, d; done. Qed.

#[global] Instance string_app_inj (s : string) : Inj (=) (=) (String.append s).
Proof. intros a b. induction s as [|c s IH]; cbn; [done|]. intros [= ?]. auto. Qed.

Lemma retryRoutingKeyFor_inj (c d : Channel) (i j : Z) :
  retryRoutingKeyFor c i = retryRoutingKeyFor d j -> c = d /\ i = j.
Proof.
  unfold retryRoutingKeyFor. intros Heq.
  assert (c = d) as -> by (destruct c, d; done).
  split; [done|]. by apply (inj _), (inj _), (inj pretty) in Heq.
Qed.

Lemma retry_not_dead (c d : Channel) (i : Z) : retryRoutingKeyFor c i <> deadRoutingKeyFor d.
Proof. destruct c, d; done. Qed.

Lemma queueNameFor_inj (c d : Channel) : queueNameFor c = queueNameFor d -> c = d.
Proof. destruct c, d; done. Qed.

Lemma retryQueueNameFor_inj (c d : Channel) (i j : Z) :
  retryQueueNameFor c i = retryQueueNameFor d j -> c = d /\ i = j.
Proof.
  unfold retryQueueNameFor. intros Heq.
  assert (c = d) as -> by (destruct c, d; done).
  split; [done|]. by apply (inj _), (inj _), (inj pretty) in Heq.
Qed.

(** The three kinds of queue never share a name. *)
Lemma queue_not_retry (c d : Channel) (i : Z) : queueNameFor c <> retryQueueNameFor d i.
Proof. destruct c, d; done. Qed.

Lemma dead_not_queue (c d : Channel) : deadQueueNameFor c <> queueNameFor d.
Proof. destruct c, d; done. Qed.

Lemma dead_not_retry (c d : Channel) (i : Z) : deadQueueNameFor c <> retryQueueNameFor d i.
Proof. destruct c, d; done. Qed.

#[export] Hint Resolve queue_not_retry dead_not_queue dead_not_retry : core.
#[export] Hint Resolve routingKeyFor_inj retry_not_dead : core.
