(* ===== verification/Table.v ===== *)
(** * Tables

    A database table is the list of its rows in insertion order. These are
    the queries of the ORM the source uses ([findUnique], [findMany],
    [updateMany], [deleteMany], [create] under a unique index, [count]), each
    a single SQL statement and therefore atomic. *)

From S2P Require Import Prelude.
From stdpp Require Import sorting.

Section Table.
Context {Row : Type}.
Implicit Types (p : Row -> bool) (f : Row -> Row) (t : list Row).

(** [findFirst({ where: p })], also [findUnique] where [p] is a key. *)
Definition find_first p t : option Row := List.find p t.

(** [findMany({ where: p })]. *)
Definition find_many p t : list Row := List.filter p t.

Definition count_where p t : nat := length (List.filter p t).

(** [updateMany({ where: p, data: f })], returning the rows matched. *)
Definition update_many p f t : list Row * nat :=
  (map (fun r => if p r then f r else r) t, count_where p t).

(** [update({ where: key, data: f })]: [None] is the missing record. *)
Definition update_one p f t : option (list Row) :=
  if existsb p t then Some (map (fun r => if p r then f r else r) t) else None.

(** [deleteMany({ where: p })]. *)
Definition delete_many p t : list Row * nat :=
  (List.filter (fun r => negb (p r)) t, count_where p t).

(** [create] under a unique index whose key the row shares with the rows
    matching [same]: [None] is the unique violation. *)
Definition create (same : Row -> bool) (r : Row) t : option (list Row) :=
  if existsb same t then None else Some (t ++ [r]).

(** [orderBy: { key: 'asc' }]: insertion into a list sorted by [key], after
    the rows with an equal key. *)
Fixpoint insert_asc (key : Row -> Z) (r : Row) t : list Row :=
  match t with
  | [] => [r]
  | r' :: t' => if key r <? key r' then r :: t else r' :: insert_asc key r t'
  end%Z.

Definition order_asc (key : Row -> Z) t : list Row :=
  fold_left (fun acc r => insert_asc key r acc) t [].

(** [orderBy: { key: 'desc' }], and [skip]/[take]. *)
Definition order_desc (key : Row -> Z) t : list Row := order_asc (fun r => - key r)%Z t.

Definition page_of (skip_ take_ : nat) t : list Row := take take_ (drop skip_ t).

(** ** Properties *)

Lemma find_first_Some p t r : find_first p t = Some r -> r ∈ t /\ p r = true.
Proof. intros [Hin Hp]%List.find_some. split; [by apply list_elem_of_In|done]. Qed.

Lemma find_first_None p t : find_first p t = None <-> Forall (fun r => p r = false) t.
Proof.
  induction t as [|r t IH]; cbn; [split; [constructor|done]|].
  rewrite Forall_cons. destruct (p r); naive_solver.
Qed.

Lemma elem_of_find_many p t r : r ∈ find_many p t <-> r ∈ t /\ p r = true.
Proof. unfold find_many. by rewrite !list_elem_of_In, List.filter_In. Qed.

Lemma find_many_sublist p t : find_many p t `sublist_of` t.
Proof.
  unfold find_many. induction t as [|r t IH]; cbn; [done|]. destruct (p r); [by apply sublist_skip|by apply sublist_cons].
Qed.

Lemma count_where_sublist p t t' : t `sublist_of` t' -> (count_where p t <= count_where p t')%nat.
Proof. unfold count_where. induction 1 as [|r t t' _ IH|r t t' _ IH]; cbn; [lia|destruct (p r); cbn; lia..]. Qed.

Lemma existsb_find_first p t :
  existsb p t = match find_first p t with Some _ => true | None => false end.
Proof. induction t as [|r t IH]; cbn; [done|]. by destruct (p r). Qed.

Lemma count_where_pos p t : (0 < count_where p t)%nat <-> exists r, r ∈ t /\ p r = true.
Proof.
  unfold count_where. split.
  - destruct (List.filter p t) as [|r l] eqn:E; cbn; [lia|]. intros _. exists r.
    apply elem_of_find_many. unfold find_many. rewrite E. set_solver.
  - intros (r & Hr). apply elem_of_find_many in Hr. unfold find_many in Hr.
    destruct (List.filter p t); [by apply elem_of_nil in Hr|cbn; lia].
Qed.

Lemma count_where_zero p t : count_where p t = 0%nat <-> Forall (fun r => p r = false) t.
Proof.
  induction t as [|r t IH]; cbn; [split; [constructor|done]|].
  rewrite Forall_cons. unfold count_where in *. cbn. destruct (p r); cbn; naive_solver.
Qed.

Lemma elem_of_update_many p f t r :
  r ∈ (update_many p f t).1 <->
  exists r0, r0 ∈ t /\ r = if p r0 then f r0 else r0.
Proof. cbn. rewrite list_elem_of_fmap. naive_solver. Qed.

(** The first match survives an update that keeps the key. *)
Lemma find_first_update p (q : Row -> bool) f t :
  (forall r : Row, p (if q r then f r else r) = p r) ->
  find_first p (update_many q f t).1 = (fun r : Row => if q r then f r else r) <$> find_first p t.
Proof.
  intros Hk. cbn. unfold find_first. induction t as [|r t IH]; cbn; [done|].
  rewrite Hk. by destruct (p r).
Qed.

Lemma find_first_app p t1 t2 :
  find_first p (t1 ++ t2) = match find_first p t1 with Some r => Some r | None => find_first p t2 end.
Proof. unfold find_first. induction t1 as [|r t1 IH]; cbn; [done|]. by destruct (p r). Qed.

(** An update that matches no row changes nothing. *)
Lemma update_many_none p f t :
  (forall r, r ∈ t -> p r = false) -> update_many p f t = (t, 0%nat).
Proof.
  intros Hp. unfold update_many. f_equal; [|by apply count_where_zero, Forall_forall].
  induction t as [|r t IH]; cbn; [done|]. rewrite (Hp r) by set_solver. rewrite IH; [done|set_solver].
Qed.

Lemma update_many_length p f t : length (update_many p f t).1 = length t.
Proof. apply length_map. Qed.

(** A field [f] leaves alone is unchanged row by row. *)
Lemma update_many_field {B} (g : Row -> B) p f t :
  (forall r, p r = true -> g (f r) = g r) -> g <$> (update_many p f t).1 = g <$> t.
Proof.
  intros Hg. cbn. rewrite <- list_fmap_compose. apply list_fmap_ext.
  intros i r _. cbn. destruct (p r) eqn:E; auto.
Qed.

Lemma elem_of_delete_many p t r : r ∈ (delete_many p t).1 <-> r ∈ t /\ p r = false.
Proof. cbn. by rewrite list_elem_of_In, List.filter_In, <- list_elem_of_In, negb_true_iff. Qed.

Lemma create_Some same r t t' :
  create same r t = Some t' <-> Forall (fun x => same x = false) t /\ t' = t ++ [r].
Proof.
  unfold create. rewrite existsb_find_first. destruct (find_first same t) eqn:E.
  - apply find_first_Some in E as [Hin Ht]. split; [done|].
    intros [Hall _]. rewrite Forall_forall in Hall. by rewrite Hall in Ht.
  - apply find_first_None in E. naive_solver.
Qed.

Lemma insert_asc_perm key r t : insert_asc key r t ≡ₚ r :: t.
Proof.
  induction t as [|r' t IH]; cbn; [done|]. case_match; [done|].
  rewrite IH. apply Permutation_swap.
Qed.

Lemma order_asc_perm key t : order_asc key t ≡ₚ t.
Proof.
  unfold order_asc. rewrite <- (app_nil_r t) at 2. generalize (@nil Row) as acc.
  induction t as [|r t IH]; intros acc; cbn; [done|].
  rewrite IH, insert_asc_perm. apply Permutation_sym, Permutation_middle.
Qed.

Lemma insert_asc_sorted key r t :
  StronglySorted (fun a b => key a <= key b)%Z t ->
  StronglySorted (fun a b => key a <= key b)%Z (insert_asc key r t).
Proof.
  induction 1 as [|r' t Hs IH Hall]; cbn; [repeat constructor|].
  destruct (Z.ltb_spec (key r) (key r')).
  - constructor; [by constructor|]. constructor; [lia|].
    eapply Forall_impl; [exact Hall|]. cbn. lia.
  - constructor; [done|]. rewrite insert_asc_perm. constructor; [lia|done].
Qed.

Lemma order_asc_sorted key t :
  StronglySorted (fun a b => key a <= key b)%Z (order_asc key t).
Proof.
  unfold order_asc.
  assert (forall l acc, StronglySorted (fun a b => key a <= key b)%Z acc ->
    StronglySorted (fun a b => key a <= key b)%Z (fold_left (fun acc r => insert_asc key r acc) l acc)) as Hfold.
  { induction l as [|r l IH]; intros acc Hacc; cbn; [done|]. by apply IH, insert_asc_sorted. }
  apply Hfold. constructor.
Qed.

(** Sorting what is sorted. *)
Lemma insert_asc_last key r t : Forall (fun x => key x <= key r)%Z t -> insert_asc key r t = t ++ [r].
Proof.
  induction 1 as [|x t Hx _ IH]; cbn; [done|]. destruct (Z.ltb_spec (key r) (key x)); [lia|]. by rewrite IH.
Qed.

Lemma order_asc_id key t : StronglySorted (fun a b => key a <= key b)%Z t -> order_asc key t = t.
Proof.
  assert (forall acc, StronglySorted (fun a b => key a <= key b)%Z (acc ++ t) ->
    fold_left (fun acc r => insert_asc key r acc) t acc = acc ++ t) as Hfold; [|apply (Hfold [])].
  induction t as [|r t IH]; intros acc Hs; cbn; [by rewrite app_nil_r|].
  rewrite insert_asc_last.
  - rewrite IH by by rewrite <- app_assoc. by rewrite <- app_assoc.
  - clear IH. induction acc as [|x acc IHa]; [constructor|]. cbn in Hs. apply StronglySorted_inv in Hs as [Hs Hx].
    constructor; [|by apply IHa]. rewrite Forall_app, Forall_cons in Hx. tauto.
Qed.

Lemma filter_insert_asc key p r t :
  StronglySorted (fun a b => key a <= key b)%Z t ->
  find_many p (insert_asc key r t) = if p r then insert_asc key r (find_many p t) else find_many p t.
Proof.
  unfold find_many. induction 1 as [|r' t Hs IH Hall]; cbn; [by destruct (p r)|].
  destruct (Z.ltb_spec (key r) (key r')) as [Hlt|Hge]; cbn.
  - destruct (p r) eqn:Hr; [|done]. destruct (p r'); cbn; [by rewrite (proj2 (Z.ltb_lt _ _) Hlt)|].
    destruct (List.filter p t) as [|x l] eqn:Hf; [done|]. cbn.
    assert (x ∈ t) as Hx by (apply (elem_of_find_many p); unfold find_many; rewrite Hf; set_solver).
    rewrite Forall_forall in Hall. specialize (Hall x Hx). by rewrite (proj2 (Z.ltb_lt _ _)) by lia.
  - rewrite IH. destruct (p r'), (p r); cbn; try done. by rewrite (proj2 (Z.ltb_ge _ _)).
Qed.

(** Ordering is stable: restricting before or after is the same. *)
Lemma order_asc_filter key p t : order_asc key (find_many p t) = find_many p (order_asc key t).
Proof.
  unfold order_asc.
  assert (forall acc, StronglySorted (fun a b => key a <= key b)%Z acc ->
    fold_left (fun acc r => insert_asc key r acc) (find_many p t) (find_many p acc) =
    find_many p (fold_left (fun acc r => insert_asc key r acc) t acc)) as Hfold.
  { induction t as [|r t IH]; intros acc Hacc; cbn; [done|].
    rewrite <- IH by by apply insert_asc_sorted. rewrite filter_insert_asc by done.
    unfold find_many in *. by destruct (p r). }
  apply (Hfold []). constructor.
Qed.

Lemma find_many_find_many p q t : find_many q (find_many p t) = find_many (fun r => p r && q r) t.
Proof.
  unfold find_many. induction t as [|r t IH]; cbn; [done|]. destruct (p r); cbn; [destruct (q r)|]; by rewrite ?IH.
Qed.

Lemma find_many_ext p q t : (forall r, r ∈ t -> p r = q r) -> find_many p t = find_many q t.
Proof.
  unfold find_many. induction t as [|r t IH]; intros Heq; cbn; [done|].
  rewrite (Heq r) by set_solver. rewrite IH by set_solver. done.
Qed.

Lemma find_many_all p t : (forall r, r ∈ t -> p r = true) -> find_many p t = t.
Proof.
  unfold find_many. induction t as [|r t IH]; intros Heq; cbn; [done|].
  rewrite (Heq r) by set_solver. by rewrite IH by set_solver.
Qed.

(** An update that stays outside of [p]. *)
Lemma find_many_update p (q : Row -> bool) f t :
  (forall r, r ∈ t -> q r = true -> p r = false /\ p (f r) = false) ->
  find_many p (map (fun r => if q r then f r else r) t) = find_many p t.
Proof.
  unfold find_many. induction t as [|r t IH]; intros Hq; cbn; [done|]. rewrite IH by set_solver.
  destruct (q r) eqn:E; [|done]. destruct (Hq r) as [-> ->]; [set_solver|done|done].
Qed.

Lemma find_many_app p t1 t2 : find_many p (t1 ++ t2) = find_many p t1 ++ find_many p t2.
Proof. apply List.filter_app. Qed.

Lemma find_many_none p t : (forall r, r ∈ t -> p r = false) -> find_many p t = [].
Proof.
  unfold find_many. induction t as [|r t IH]; intros Heq; cbn; [done|].
  rewrite (Heq r) by set_solver. by rewrite IH by set_solver.
Qed.

(** Dropping the rows whose distinct key is among the first [k]. *)
Lemma find_many_drop {K} `{EqDecision K} (key : Row -> K) k t :
  NoDup (key <$> t) ->
  find_many (fun r => negb (bool_decide (key r ∈ key <$> take k t))) t = drop k t.
Proof.
  intros Hnd. set (p := fun r => _).
  transitivity (find_many p (take k t ++ drop k t)); [by rewrite take_drop|].
  rewrite find_many_app, find_many_none, find_many_all; [done| |]; unfold p.
  - intros r Hr. rewrite bool_decide_false; [done|]. intros (r' & Hk & Hr')%list_elem_of_fmap.
    rewrite <- (take_drop k t), fmap_app in Hnd. apply NoDup_app in Hnd as (_ & Hdis & _).
    apply (Hdis (key r)); apply list_elem_of_fmap; eauto.
  - intros r Hr. rewrite bool_decide_true; [done|]. apply list_elem_of_fmap. eauto.
Qed.

Lemma elem_of_order_asc key t r : r ∈ order_asc key t <-> r ∈ t.
Proof. by rewrite order_asc_perm. Qed.

End Table.

#[export] Hint Rewrite @elem_of_find_many @elem_of_delete_many @elem_of_order_asc : table.

(** Consecutive pages put together. *)
Lemma pages_concat {A} (l : nat) (t : list A) n :
  concat (map (fun i => page_of ((i - 1) * l) l t) (seq 1 n)) = take (n * l) t.
Proof.
  induction n as [|n IH]; [done|]. rewrite seq_S, map_app, concat_app, IH. cbn. rewrite app_nil_r. unfold page_of.
  replace (n - 0)%nat with n by lia. rewrite (Nat.add_comm l (n * l)). apply take_take_drop.
Qed.

(** ** Partitions and projections *)

(** Sorting rows into classes and concatenating the classes loses nothing. *)
Lemma concat_classes {A} (k : A -> Z) (f : Z -> list A) (x : A) (l : list Z) :
  NoDup l -> k x ∈ l ->
  concat (map (fun i => if Z.eqb (k x) i then x :: f i else f i) l) ≡ₚ x :: concat (map f l).
Proof.
  induction 1 as [|i l Hi Hnd IH]; [by intros []%elem_of_nil|]. cbn.
  intros [<-|Hin]%elem_of_cons.
  - rewrite Z.eqb_refl. cbn. apply Permutation_skip, Permutation_app_head.
    rewrite (List.map_ext_in _ f); [done|]. intros j Hj%list_elem_of_In.
    destruct (Z.eqb_spec (k x) j); [by subst|done].
  - destruct (Z.eqb_spec (k x) i); [by subst|]. rewrite (IH Hin). by rewrite Permutation_middle.
Qed.

Lemma classes_perm {A} (k : A -> Z) (t : list A) (l : list Z) :
  NoDup l -> (forall x, x ∈ t -> k x ∈ l) ->
  concat (map (fun i => find_many (fun x => Z.eqb (k x) i) t) l) ≡ₚ t.
Proof.
  intros Hnd. induction t as [|x t IH]; intros Hall; cbn.
  { clear. induction l; cbn; [done|auto]. }
  etrans; [apply (concat_classes k (fun i => find_many (fun x => Z.eqb (k x) i) t)); [done|set_solver]|].
  apply Permutation_skip, IH. set_solver.
Qed.

Section MapM.
Context {A B : Type} (f : A -> option B).

Lemma mapM_concat (ls : list (list A)) : mapM f (concat ls) = @concat B <$> mapM (mapM f) ls.
Proof.
  induction ls as [|l ls IH]; cbn; [done|].
  assert (forall l2, mapM f (l ++ l2) = (x ← mapM f l; y ← mapM f l2; Some (x ++ y))) as Happ.
  { clear. induction l as [|a l IH]; intros l2; cbn; [by destruct (mapM f l2)|].
    destruct (f a); cbn; [|done]. rewrite IH. destruct (mapM f l); cbn; [|done]. by destruct (mapM f l2). }
  rewrite Happ, IH. destruct (mapM f l); cbn; [|done]. by destruct (mapM (mapM f) ls).
Qed.

Lemma mapM_perm (l l' : list A) (r : list B) :
  l ≡ₚ l' -> mapM f l = Some r -> exists r', mapM f l' = Some r' /\ r' ≡ₚ r.
Proof.
  intros Hp. revert r. induction Hp as [|x l l' _ IH|x y l|l1 l2 l3 _ IH1 _ IH2]; intros r Hr; cbn in *.
  - eauto.
  - destruct (f x); cbn in *; [|done]. destruct (mapM f l) as [s|]; [|done]. cbn in *.
    destruct (IH s eq_refl) as (s' & -> & Hs). injection Hr as <-. cbn. eexists. split; [reflexivity|]. by apply Permutation_skip.
  - destruct (f x), (f y); cbn in *; try done. destruct (mapM f l); [|done]. injection Hr as <-. cbn.
    eexists. split; [done|]. apply Permutation_swap.
  - destruct (IH1 r Hr) as (s & Hs & Hp1). destruct (IH2 s Hs) as (s' & ? & ?). exists s'. split; [done|by etrans].
Qed.

End MapM.

(** ** Keys *)

Section Keys.
Context {Row K : Type} (key : Row -> K).

Lemma key_unique t r r' : NoDup (key <$> t) -> r ∈ t -> r' ∈ t -> key r = key r' -> r = r'.
Proof.
  induction t as [|x t IH]; [by intros _ []%elem_of_nil|]. rewrite fmap_cons, NoDup_cons.
  intros [Hx Hnd] [->|Hr]%elem_of_cons [->|Hr']%elem_of_cons Hk; [done|..].
  - destruct Hx. rewrite Hk. by apply list_elem_of_fmap_2.
  - destruct Hx. rewrite <- Hk. by apply list_elem_of_fmap_2.
  - by apply IH.
Qed.

(** Looking a row up by its key finds it. *)
Lemma find_first_key `{EqDecision K} t r :
  NoDup (key <$> t) -> r ∈ t -> find_first (fun x => bool_decide (key x = key r)) t = Some r.
Proof.
  intros Hnd Hr. destruct (find_first _ t) as [x|] eqn:E.
  - apply find_first_Some in E as [Hx Hk%bool_decide_eq_true]. f_equal. by eapply key_unique.
  - apply find_first_None in E. rewrite Forall_forall in E. specialize (E r Hr). by rewrite bool_decide_true in E.
Qed.

End Keys.
