(* ===== verification/OpenMeteoTypes.v ===== *)
(** * What the weather and city lookups answer ([apps/core-api/src/open-meteo])

    The shapes of [forecast.dto.ts] and [geocode.dto.ts], which the cache
    stores as JSON. *)

From S2P Require Import Prelude JsNumber.

Record CurrentWeather := {
  cw_time : string;
  cw_temperature : number;
  cw_apparentTemp : number;
  cw_humidity : number;
  cw_windSpeed : number;
  cw_precipitation : number;
  cw_weatherCode : number;
}.

(** A field read past the end of an array of the answer is missing. *)
Record DailyForecast := {
  df_date : string;
  df_weatherCode : option number;
  df_tempMax : option number;
  df_tempMin : option number;
  df_precipitationProbability : option number;
}.

Record ForecastResponse := { fr_current : CurrentWeather; fr_daily : list DailyForecast }.

Record GeocodeResult := {
  gr_name : string;
  gr_country : option string;
  gr_admin1 : option string;
  gr_latitude : number;
  gr_longitude : number;
}.
