(* ===== verification/World.v ===== *)
(** * The world the services run in

    The rows of the database ([prisma/schema.prisma]), the keys of Redis, the
    broker, the mailbox of every delivery attempted, the wall clock, the supply
    of random UUIDs, and an oracle that decides how each remote call goes. *)

From S2P Require Import Prelude JsNumber Enums Conditions Contracts OpenMeteoTypes.

(** ** Rows *)

Record Notification := {
  n_id : string;
  n_eventId : option string;
  n_triggerId : option string;
  n_userId : string;
  n_channel : Channel;
  n_status : NotifStatus;
  n_payload : TriggerFiredEvent;
  n_error : option string;
  n_claimedAt : option Z;
  n_deliveredTo : list string;
  n_createdAt : Z;
}.

Record OutboxEvent := {
  o_id : string;
  o_eventId : string;
  o_routingKey : string;
  o_payload : TriggerFiredEvent;
  o_createdAt : Z;
  o_publishedAt : option Z;
}.

Record TriggerCondition := {
  c_id : string;
  c_triggerId : string;
  c_metric : Metric;
  c_operator : Operator;
  c_threshold : number;
  c_order : Z;
  c_lastObservedValue : option number;
  c_lastMatched : option bool;
}.

Record Trigger := {
  t_id : string;
  t_userId : string;
  t_name : string;
  t_city : string;
  t_latitude : number;
  t_longitude : number;
  t_conditionLogic : ConditionLogic;
  t_channels : list Channel;
  t_cooldownMin : Z;
  t_isActive : bool;
  t_state : TriggerState;
  t_lastFiredAt : option Z;
  t_lastEvaluatedAt : option Z;
  t_locationBucket : Z;
  t_createdAt : Z;
}.

Record User := {
  u_id : string;
  u_email : string;
  u_passwordHash : string;
  u_role : Role;
  u_telegramChatId : option string;
  u_telegramLinkTokenHash : option string;
  u_telegramLinkTokenExpiresAt : option Z;
  u_quietHoursStart : option string;
  u_quietHoursEnd : option string;
  u_timezone : option string;
  u_emailVerified : bool;
  u_emailVerificationTokenHash : option string;
  u_emailVerificationTokenExpiresAt : option Z;
  u_passwordResetTokenHash : option string;
  u_passwordResetTokenExpiresAt : option Z;
  u_createdAt : Z;
}.

Record PushSubscription := {
  s_id : string;
  s_userId : string;
  s_endpoint : string;
  s_p256dh : string;
  s_auth : string;
  s_createdAt : Z;
}.

Record RefreshToken := {
  r_id : string;
  r_userId : string;
  r_tokenHash : string;
  r_expiresAt : Z;
  r_revoked : bool;
}.

Record PinnedCity := {
  pc_id : string;
  pc_userId : string;
  pc_name : string;
  pc_country : option string;
  pc_admin1 : option string;
  pc_latitude : number;
  pc_longitude : number;
  pc_order : Z;
  pc_createdAt : Z;
}.

Record Database := {
  users : list User;
  triggers : list Trigger;
  triggerConditions : list TriggerCondition;
  notifications : list Notification;
  pushSubs : list PushSubscription;
  refreshTokens : list RefreshToken;
  pinnedCities : list PinnedCity;
  outbox : list OutboxEvent;
}.

(** ** Redis *)

(** A value is a text, the decimal text of an integer (a counter or a
    cursor), or the JSON of a cached weather snapshot. *)
Inductive RedisValue :=
  | RText (s : string)
  | RInt (n : Z)
  | RSnapshot (s : WeatherSnapshot)
  | RReport (r : ForecastResponse)
  | RPlaces (l : list GeocodeResult).

Record RedisEntry := { e_value : RedisValue; e_expiresAt : option Z }.

(** ** The broker *)

(** The headers the services set. *)
Record Headers := {
  h_attempts : option Z;       (** x-attempts *)
  h_eventId : option string;   (** x-event-id *)
  h_deadReason : option string (** x-dead-reason *)
}.

Definition no_headers : Headers :=
  {| h_attempts := None; h_eventId := None; h_deadReason := None |}.

(** A message body: JSON that parses to an event, or bytes that do not parse. *)
Inductive Content := Json (e : TriggerFiredEvent) | Garbage (bytes : string).

Record Message := {
  m_exchange : string;
  m_routingKey : string;
  m_content : Content;
  m_headers : Headers;
  m_messageId : option string;
}.

Record Broker := {
  published : list Message;   (** accepted by the broker, oldest first *)
  acked : list nat;           (** delivery tags acknowledged *)
}.

(** ** Outgoing deliveries *)

(** One line per request a channel made to the outside that took effect. *)
Inductive Delivery :=
  | TelegramMessage (chatId text : string)
  | Mail (to subject html : string)
  | WebPush (endpoint title body : string).

(** ** The oracle *)

(** How one remote call goes: it answers; it rejects with an error that may
    carry a status code, having taken effect or not (a reply can be lost); or
    the process dies there, before or after the effect. *)
Inductive Fault :=
  | Fine
  | Fail (code : option Z) (applied : bool)
  | Die (applied : bool).

Record Tick := { k_fault : Fault; k_elapsed : nat }.

Record World := {
  now : Z;
  uuids : nat;
  oracle : list Tick;
  db : Database;
  redis : gmap string RedisEntry;
  broker : Broker;
  delivered : list Delivery;
}.

(** ** Setters *)

Definition set_db (d : Database) (w : World) : World :=
  {| now := now w; uuids := uuids w; oracle := oracle w; db := d; redis := redis w;
     broker := broker w; delivered := delivered w |}.
Definition set_redis (r : gmap string RedisEntry) (w : World) : World :=
  {| now := now w; uuids := uuids w; oracle := oracle w; db := db w; redis := r;
     broker := broker w; delivered := delivered w |}.
Definition set_broker (b : Broker) (w : World) : World :=
  {| now := now w; uuids := uuids w; oracle := oracle w; db := db w; redis := redis w;
     broker := b; delivered := delivered w |}.
Definition set_delivered (l : list Delivery) (w : World) : World :=
  {| now := now w; uuids := uuids w; oracle := oracle w; db := db w; redis := redis w;
     broker := broker w; delivered := l |}.
Definition set_uuids (n : nat) (w : World) : World :=
  {| now := now w; uuids := n; oracle := oracle w; db := db w; redis := redis w;
     broker := broker w; delivered := delivered w |}.

Definition set_triggers (l : list Trigger) (d : Database) : Database :=
  {| users := users d; triggers := l; triggerConditions := triggerConditions d;
     notifications := notifications d; pushSubs := pushSubs d; refreshTokens := refreshTokens d; pinnedCities := pinnedCities d;
     outbox := outbox d |}.
Definition set_triggerConditions (l : list TriggerCondition) (d : Database) : Database :=
  {| users := users d; triggers := triggers d; triggerConditions := l;
     notifications := notifications d; pushSubs := pushSubs d; refreshTokens := refreshTokens d; pinnedCities := pinnedCities d;
     outbox := outbox d |}.
Definition set_notifications (l : list Notification) (d : Database) : Database :=
  {| users := users d; triggers := triggers d; triggerConditions := triggerConditions d;
     notifications := l; pushSubs := pushSubs d; refreshTokens := refreshTokens d; pinnedCities := pinnedCities d;
     outbox := outbox d |}.
Definition set_pushSubs (l : list PushSubscription) (d : Database) : Database :=
  {| users := users d; triggers := triggers d; triggerConditions := triggerConditions d;
     notifications := notifications d; pushSubs := l; refreshTokens := refreshTokens d; pinnedCities := pinnedCities d;
     outbox := outbox d |}.
Definition set_refreshTokens (l : list RefreshToken) (d : Database) : Database :=
  {| users := users d; triggers := triggers d; triggerConditions := triggerConditions d;
     notifications := notifications d; pushSubs := pushSubs d; refreshTokens := l; pinnedCities := pinnedCities d;
     outbox := outbox d |}.
Definition set_pinnedCities (l : list PinnedCity) (d : Database) : Database :=
  {| users := users d; triggers := triggers d; triggerConditions := triggerConditions d;
     notifications := notifications d; pushSubs := pushSubs d; refreshTokens := refreshTokens d; pinnedCities := l;
     outbox := outbox d |}.
Definition set_users (l : list User) (d : Database) : Database :=
  {| users := l; triggers := triggers d; triggerConditions := triggerConditions d;
     notifications := notifications d; pushSubs := pushSubs d; refreshTokens := refreshTokens d; pinnedCities := pinnedCities d;
     outbox := outbox d |}.
Definition set_outbox (l : list OutboxEvent) (d : Database) : Database :=
  {| users := users d; triggers := triggers d; triggerConditions := triggerConditions d;
     notifications := notifications d; pushSubs := pushSubs d; refreshTokens := refreshTokens d; pinnedCities := pinnedCities d;
     outbox := l |}.

(** One remote call consumes one tick: time passes. An exhausted oracle
    answers every call at once. *)
Definition next_fault (w : World) : Fault :=
  match oracle w with k :: _ => k_fault k | [] => Fine end.

Definition tick (w : World) : World :=
  match oracle w with
  | [] => w
  | k :: ks =>
      {| now := now w + Z.of_nat (k_elapsed k); uuids := uuids w; oracle := ks; db := db w;
         redis := redis w; broker := broker w; delivered := delivered w |}
  end.

Definition empty_db : Database :=
  {| users := []; triggers := []; triggerConditions := []; notifications := [];
     pushSubs := []; refreshTokens := []; pinnedCities := []; outbox := [] |}.

(** A world with nothing in it, at the epoch, in which every call answers. *)
Definition empty_world : World :=
  {| now := 0; uuids := 0; oracle := []; db := empty_db; redis := ∅;
     broker := {| published := []; acked := [] |}; delivered := [] |}.

(** ** Random identifiers *)

(** [randomUUID()]: the code relies on its results never repeating. *)
Class UuidSupply := {
  uuid : nat -> string;
  uuid_inj :: Inj (=) (=) uuid;
}.

Definition sample_uuid (n : nat) : string := "uuid-" +:+ pretty n.

#[global] Instance sample_uuid_inj : Inj (=) (=) sample_uuid.
Proof. intros a b Hab. by apply (inj _) in Hab. Qed.

Definition sample_uuids : UuidSupply := {| uuid := sample_uuid |}.
