(* ===== verification/Samples.v ===== *)
(** * Sample rows for the concrete runs *)

From S2P Require Import Prelude JsNumber Enums Location Contracts World.

Definition sample_user : User :=
  {| u_id := "u1"; u_email := "a@b.c"; u_passwordHash := ""; u_role := USER; u_telegramChatId := Some "42";
     u_telegramLinkTokenHash := None; u_telegramLinkTokenExpiresAt := None; u_quietHoursStart := None;
     u_quietHoursEnd := None; u_timezone := None; u_emailVerified := true;
     u_emailVerificationTokenHash := None; u_emailVerificationTokenExpiresAt := None;
     u_passwordResetTokenHash := None; u_passwordResetTokenExpiresAt := None; u_createdAt := 0 |}.

Definition sample_trigger (id : string) (lat lon : Z) : Trigger :=
  {| t_id := id; t_userId := "u1"; t_name := "Frost"; t_city := "Warsaw"; t_latitude := Num.of_Z lat;
     t_longitude := Num.of_Z lon; t_conditionLogic := AND; t_channels := [TELEGRAM; EMAIL]; t_cooldownMin := 60;
     t_isActive := true; t_state := ARMED; t_lastFiredAt := None; t_lastEvaluatedAt := None;
     t_locationBucket := locationBucket (Num.of_Z lat) (Num.of_Z lon); t_createdAt := 0 |}.

Definition sample_event (eventId : string) : TriggerFiredEvent :=
  {| ev_eventId := eventId; ev_triggerId := "t1"; ev_userId := "u1"; ev_triggerName := "Frost";
     ev_city := "Warsaw"; ev_conditions := []; ev_conditionLogic := AND; ev_channels := [TELEGRAM; EMAIL];
     ev_firedAt := 5; ev_test := None |}.
