(* ===== verification/Effects.v ===== *)
(** * Effects: asynchronous code as a state and error monad

    A handler of the source is a computation on the world that ends with a
    value, with a thrown error, or with the process dead. [await]ed calls are
    run in sequence; each remote call is one [io]. *)

From S2P Require Import Prelude JsNumber Enums Contracts World.

(** ** Errors *)

Inductive exn :=
  | IoError (code : option Z)          (** a call that rejected *)
  | UniqueViolation                    (** P2002 *)
  | RecordNotFound                     (** P2025 *)
  | PermanentNotificationError (message : string)
  | DeliveryInFlightError (channel : Channel)
  | HttpException (status : Z) (message : string)
  | RangeError
  | JsError (message : string).

(** [Crash] is not an error: no [catch] or [finally] runs after it. *)
Inductive outcome (A : Type) :=
  | Ok (a : A)
  | Throw (e : exn)
  | Crash.
Arguments Ok {A}.
Arguments Throw {A}.
Arguments Crash {A}.

Definition M (A : Type) : Type := World -> outcome A * World.

(** ** Operations *)

Definition ret {A} (a : A) : M A := fun w => (Ok a, w).

Definition bind {A B} (m : M A) (k : A -> M B) : M B := fun w =>
  match m w with
  | (Ok a, w') => k a w'
  | (Throw e, w') => (Throw e, w')
  | (Crash, w') => (Crash, w')
  end.

Definition throw {A} (e : exn) : M A := fun w => (Throw e, w).

(** [try { m } catch (e) { h(e) }] *)
Definition catch {A} (m : M A) (h : exn -> M A) : M A := fun w =>
  match m w with
  | (Throw e, w') => h e w'
  | r => r
  end.

(** [try { m } finally { f }] *)
Definition finally {A} (m : M A) (f : M unit) : M A := fun w =>
  match m w with
  | (Crash, w') => (Crash, w')
  | (r, w') => match f w' with
               | (Ok _, w'') => (r, w'')
               | (Throw e, w'') => (Throw e, w'')
               | (Crash, w'') => (Crash, w'')
               end
  end.

(** One remote call: the operation [op] itself is atomic and may refuse (a
    unique violation); the oracle decides how the call goes. *)
Definition io {A} (op : World -> (A + exn) * World) : M A := fun w =>
  let fault := next_fault w in
  let w := tick w in
  match fault with
  | Fine => match op w with
            | (inl a, w') => (Ok a, w')
            | (inr e, w') => (Throw e, w')
            end
  | Fail code applied => (Throw (IoError code), if applied then (op w).2 else w)
  | Die applied => (Crash, if applied then (op w).2 else w)
  end.

(** A remote call that only reads, and one that cannot refuse. *)
Definition query {A} (f : World -> A) : M A := io (fun w => (inl (f w), w)).
Definition exec (f : World -> World) : M unit := io (fun w => (inl tt, f w)).

(** A timer the code waits for. *)
Definition sleep (ms : Z) : M unit := fun w =>
  (Ok tt, {| now := now w + ms; uuids := uuids w; oracle := oracle w; db := db w; redis := redis w;
             broker := broker w; delivered := delivered w |}).

(** [Date.now()], [new Date()]. *)
Definition get_now : M Z := fun w => (Ok (now w), w).

Definition randomUUID `{UuidSupply} : M string := fun w =>
  (Ok (uuid (uuids w)), set_uuids (S (uuids w)) w).

Declare Scope effect_scope.
Delimit Scope effect_scope with effect.
#[global] Open Scope effect_scope.

Notation "'let*' x := m 'in' k" := (bind m (fun x => k))
  (at level 200, x name, m at level 100, k at level 200, right associativity) : effect_scope.
Notation "'do*' m 'in' k" := (bind m (fun _ => k))
  (at level 200, m at level 100, k at level 200, right associativity) : effect_scope.

(** [for (const x of l) { body(x) }] *)
Fixpoint for_each {A} (l : list A) (body : A -> M unit) : M unit :=
  match l with
  | [] => ret tt
  | x :: l' => do* body x in for_each l' body
  end.

Lemma tick_spec (w : World) :
  now w <= now (tick w) /\ redis (tick w) = redis w /\ uuids (tick w) = uuids w /\
  db (tick w) = db w /\ broker (tick w) = broker w /\ delivered (tick w) = delivered w.
Proof. unfold tick. destruct (oracle w); cbn; repeat split; lia. Qed.

(** A remote call either did nothing (and then it did not answer), or took
    effect (and then an answer is the operation's). *)
Lemma io_effect {A} (op : World -> (A + exn) * World) w r w' :
  io op w = (r, w') ->
  (w' = tick w /\ (forall a, r <> Ok a)) \/
  w' = (op (tick w)).2 /\ (forall a, r = Ok a -> (op (tick w)).1 = inl a).
Proof.
  unfold io. intros Hio. destruct (next_fault w) as [|? []|[]];
    try (simplify_eq; (left; split; [done|naive_solver]) || (right; naive_solver)).
  right. destruct (op (tick w)) as [[a|e] w1] eqn:E; simplify_eq/=; naive_solver.
Qed.

(** ** What a computation keeps

    [keeps R m]: every run of [m], whatever the oracle does to it, relates
    the world before to the world after by [R]. Invariants and monotonicity
    of the services are stated this way and proved by the rules below. *)

Definition keeps (R : relation World) {A} (m : M A) : Prop := forall w, R w (m w).2.

Create HintDb keeps.

(** A preorder that ignores the clock and the oracle. *)
Class WorldOrder (R : relation World) : Prop := {
  wo_preorder :: PreOrder R;
  wo_tick : forall w, R w (tick w);
}.

Section Keeps.
Context (R : relation World) `{!WorldOrder R}.
Context {A B : Type}.
Implicit Types (m : M A) (k : A -> M B).

Lemma keeps_ret (a : A) : keeps R (ret a).
Proof. intros w. reflexivity. Qed.

Lemma keeps_throw (e : exn) : keeps R (throw (A:=A) e).
Proof. intros w. reflexivity. Qed.

Lemma keeps_get_now : keeps R get_now.
Proof. intros w. reflexivity. Qed.

Lemma keeps_bind m k : keeps R m -> (forall a, keeps R (k a)) -> keeps R (bind m k).
Proof.
  intros Hm Hk w. unfold bind. specialize (Hm w). destruct (m w) as [[a|e|] w']; cbn in *; [|done..].
  etrans; [exact Hm|apply Hk].
Qed.

Lemma keeps_catch m (h : exn -> M A) : keeps R m -> (forall e, keeps R (h e)) -> keeps R (catch m h).
Proof.
  intros Hm Hh w. unfold catch. specialize (Hm w). destruct (m w) as [[a|e|] w']; cbn in *; [done| |done].
  etrans; [exact Hm|apply Hh].
Qed.

Lemma keeps_finally m (f : M unit) : keeps R m -> keeps R f -> keeps R (finally m f).
Proof.
  intros Hm Hf w. unfold finally. specialize (Hm w).
  destruct (m w) as [[a|e|] w']; cbn in *; [| |done];
    specialize (Hf w'); destruct (f w') as [[]w'']; cbn in *; by etrans.
Qed.

Lemma keeps_io (op : World -> (A + exn) * World) : (forall w, R w (op w).2) -> keeps R (io op).
Proof.
  intros Hop w. unfold io.
  assert (R w (tick w)) as Ht by apply wo_tick.
  assert (R w (op (tick w)).2) as Ho by (etrans; [exact Ht|apply Hop]).
  destruct (next_fault w) as [|? []|[]]; cbn; try done.
  by destruct (op (tick w)) as [[] ?].
Qed.

Lemma keeps_query (f : World -> A) : keeps R (query f).
Proof. apply keeps_io. intros w. reflexivity. Qed.

End Keeps.

Lemma keeps_exec (R : relation World) `{!WorldOrder R} (f : World -> World) :
  (forall w, R w (f w)) -> keeps R (exec f).
Proof. intros Hf. by apply keeps_io. Qed.

Lemma keeps_for_each (R : relation World) `{!WorldOrder R} {A} (l : list A) (body : A -> M unit) :
  (forall x, keeps R (body x)) -> keeps R (for_each l body).
Proof. intros Hb. induction l; cbn; [by apply keeps_ret|]. apply keeps_bind; [done..|auto]. Qed.

#[export] Hint Resolve keeps_ret keeps_throw keeps_get_now keeps_query : keeps.
#[export] Hint Extern 1 (WorldOrder _) => apply _ : keeps.

(** Break a computation down to its remote calls. *)
Ltac keeps_tac :=
  repeat match goal with
    | |- keeps _ (bind _ _) => apply keeps_bind; [apply _|..]
    | |- keeps _ (catch _ _) => apply keeps_catch; [apply _|..]
    | |- keeps _ (finally _ _) => apply keeps_finally; [apply _|..]
    | |- keeps _ (for_each _ _) => apply keeps_for_each; [apply _|..]
    | |- keeps _ (match _ with _ => _ end) => case_match
    | |- keeps _ _ => solve [eauto 3 with keeps]
    | |- forall _, keeps _ _ => intros ?
    end.

(** Sequencing where the continuation may use what the first part returned. *)
Lemma bind_run (R : relation World) `{!Transitive R} {A B} (m : M A) (k : A -> M B) w :
  R w (m w).2 -> (forall a w1, m w = (Ok a, w1) -> R w1 (k a w1).2) -> R w (bind m k w).2.
Proof.
  intros Hm Hk. unfold bind. destruct (m w) as [[a|e|] w1]; cbn in *; [|done..]. etrans; [exact Hm|by apply Hk].
Qed.

(** A computation that answers: the shape of a run without faults. *)
Lemma bind_Ok {A B} (m : M A) (k : A -> M B) w w' (b : B) :
  bind m k w = (Ok b, w') <-> exists a w1, m w = (Ok a, w1) /\ k a w1 = (Ok b, w').
Proof. unfold bind. destruct (m w) as [[a|e|] w1]; naive_solver. Qed.

Lemma io_fine {A} (op : World -> (A + exn) * World) w :
  oracle w = [] ->
  io op w = match op w with (inl a, w') => (Ok a, w') | (inr e, w') => (Throw e, w') end.
Proof. intros Ho. unfold io, next_fault, tick. by rewrite Ho. Qed.

Lemma io_ok {A} (op : World -> (A + exn) * World) w a w' :
  oracle w = [] -> op w = (inl a, w') -> io op w = (Ok a, w').
Proof. intros Ho Hop. by rewrite (io_fine _ _ Ho), Hop. Qed.

Lemma query_ok {A} (f : World -> A) w : oracle w = [] -> query f w = (Ok (f w), w).
Proof. intros Ho. by apply io_ok. Qed.

Lemma exec_ok (f : World -> World) w : oracle w = [] -> exec f w = (Ok tt, f w).
Proof. intros Ho. by apply io_ok. Qed.

Lemma bind_ok {A B} (m : M A) (k : A -> M B) w a w' : m w = (Ok a, w') -> bind m k w = k a w'.
Proof. intros Hm. unfold bind. by rewrite Hm. Qed.

Lemma catch_ok {A} (m : M A) h w a w' : m w = (Ok a, w') -> catch m h w = (Ok a, w').
Proof. intros Hm. unfold catch. by rewrite Hm. Qed.

Lemma finally_ok {A} (m : M A) f w a w' w'' :
  m w = (Ok a, w') -> f w' = (Ok tt, w'') -> finally m f w = (Ok a, w'').
Proof. intros Hm Hf. unfold finally. by rewrite Hm, Hf. Qed.

Lemma bind_get_now {A} (k : Z -> M A) w : bind get_now k w = k (now w) w.
Proof. done. Qed.

(** The world after a sequence. *)
Lemma bind_world {A B} (m : M A) (k : A -> M B) w :
  (bind m k w).2 = match (m w).1 with Ok a => (k a (m w).2).2 | _ => (m w).2 end.
Proof. unfold bind. by destruct (m w) as [[] ?]. Qed.

(** Two sequences that agree after the same first part, and after reads that
    differ. *)
Lemma bind_ext {A B} (m : M A) (k k' : A -> M B) w :
  (forall a w1, m w = (Ok a, w1) -> k a w1 = k' a w1) -> bind m k w = bind m k' w.
Proof. intros Hk. unfold bind. destruct (m w) as [[a|e|] w1]; auto. Qed.

Lemma bind_query_ext {A A' B} (f : World -> A) (g : World -> A') (k : A -> M B) (k' : A' -> M B) w :
  k (f (tick w)) (tick w) = k' (g (tick w)) (tick w) -> bind (query f) k w = bind (query g) k' w.
Proof. intros Hk. unfold bind, query, io. by destruct (next_fault w) as [|? []|[]]. Qed.

(** ** Runs without faults *)

(** With nothing left for the oracle to do, [m] neither dies nor leaves a
    fault behind. *)
Definition calm {A} (m : M A) : Prop :=
  forall w, oracle w = [] -> oracle (m w).2 = [] /\ (m w).1 <> Crash.

Section Calm.
Context {A B : Type}.
Implicit Types (m : M A) (k : A -> M B).

Lemma calm_ret (a : A) : calm (ret a).
Proof. by intros w. Qed.

Lemma calm_throw (e : exn) : calm (throw (A:=A) e).
Proof. by intros w. Qed.

Lemma calm_bind m k : calm m -> (forall a, calm (k a)) -> calm (bind m k).
Proof.
  intros Hm Hk w Ho. unfold bind. destruct (Hm w Ho). destruct (m w) as [[a|e|] w']; cbn in *; [by apply Hk|done..].
Qed.

Lemma calm_catch m (h : exn -> M A) : calm m -> (forall e, calm (h e)) -> calm (catch m h).
Proof.
  intros Hm Hh w Ho. unfold catch. destruct (Hm w Ho). destruct (m w) as [[a|e|] w']; cbn in *; [done|by apply Hh|done].
Qed.

Lemma calm_io (op : World -> (A + exn) * World) :
  (forall w, oracle w = [] -> oracle (op w).2 = []) -> calm (io op).
Proof.
  intros Hop w Ho. rewrite (io_fine _ _ Ho). specialize (Hop w Ho). by destruct (op w) as [[] w'].
Qed.

Lemma calm_query (f : World -> A) : calm (query f).
Proof. by apply calm_io. Qed.

End Calm.

Lemma calm_exec (f : World -> World) : (forall w, oracle (f w) = oracle w) -> calm (exec f).
Proof. intros Hf. apply calm_io. intros w Ho. cbn. by rewrite Hf. Qed.

Lemma calm_get_now : calm get_now.
Proof. by intros w. Qed.

Create HintDb calm.
#[export] Hint Resolve calm_ret calm_throw calm_query calm_get_now : calm.

Ltac calm_tac :=
  repeat match goal with
    | |- calm (bind _ _) => apply calm_bind
    | |- calm (catch _ _) => apply calm_catch
    | |- calm (match _ with _ => _ end) => case_match
    | |- calm _ => solve [eauto 3 with calm]
    | |- forall _, calm _ => intros ?
    end.
