(* ===== verification/RedisService.v ===== *)
(** * Redis: locks, cooldowns, failure counters, revocation markers

    [libs/common/src/redis/redis.service.ts]. Each command or Lua script is one
    atomic remote call. *)

From S2P Require Import Prelude JsNumber Enums Contracts World Effects.

(** ** Commands *)

Definition expired (at_ : Z) (e : RedisEntry) : bool :=
  match e_expiresAt e with Some d => d <=? at_ | None => false end.

(** What a command sees under a key: nothing once its deadline passed. *)
Definition peek (key : string) (w : World) : option RedisEntry :=
  match redis w !! key with
  | Some e => if expired (now w) e then None else Some e
  | None => None
  end.

Definition put (key : string) (v : RedisValue) (deadline : option Z) (w : World) : World :=
  set_redis (<[key := {| e_value := v; e_expiresAt := deadline |}]> (redis w)) w.

Definition cmd_get (key : string) (w : World) : option RedisValue := e_value <$> peek key w.

Definition cmd_del (key : string) (w : World) : World := set_redis (delete key (redis w)) w.

(** The reply of a command Redis refuses. *)
Definition ReplyError : exn := JsError "ReplyError".

(** [SET key v PX ms]: a deadline that is not positive is refused. *)
Definition cmd_set_px (key : string) (v : RedisValue) (ms : Z) (w : World) : (unit + exn) * World :=
  if ms <=? 0 then (inr ReplyError, w) else (inl tt, put key v (Some (now w + ms)) w).

(** [SET key v EX sec NX]: [true] is the reply OK. *)
Definition cmd_set_nx (key : string) (v : RedisValue) (sec : Z) (w : World) : (bool + exn) * World :=
  if sec <=? 0 then (inr ReplyError, w) else
  match peek key w with
  | Some _ => (inl false, w)
  | None => (inl true, put key v (Some (now w + sec * 1000)) w)
  end.

(** [PTTL]: -2 without a key, -1 without a deadline. *)
Definition cmd_pttl (key : string) (w : World) : Z :=
  match peek key w with
  | None => -2
  | Some {| e_expiresAt := None |} => -1
  | Some {| e_expiresAt := Some d |} => d - now w
  end.

(** [TTL]: the same in whole seconds, rounded to the nearest. *)
Definition cmd_ttl (key : string) (w : World) : Z :=
  let ms := cmd_pttl key w in if ms <? 0 then ms else (ms + 500) / 1000.

(** [PEXPIRE]: a deadline that is not positive deletes the key. *)
Definition cmd_pexpire (key : string) (ms : Z) (w : World) : World :=
  match peek key w with
  | None => w
  | Some e => if ms <=? 0 then cmd_del key w else put key (e_value e) (Some (now w + ms)) w
  end.

(** [INCR]: an absent key counts from zero; the deadline is kept; a value that
    is not an integer is refused. *)
Definition cmd_incr (key : string) (w : World) : (Z + exn) * World :=
  match peek key w with
  | None => (inl 1, put key (RInt 1) None w)
  | Some {| e_value := RInt n; e_expiresAt := d |} => (inl (n + 1), put key (RInt (n + 1)) d w)
  | Some _ => (inr ReplyError, w)
  end.

(** ** The service *)

Section Service.
Context `{UuidSupply}.
Implicit Types (key token userId : string) (ttlSec windowSec : Z).

Definition consumeCooldown key ttlSec : M Z :=
  let* reserved := io (cmd_set_nx key (RText "1") ttlSec) in
  if (reserved : bool) then ret 0 else
  let* ttl := query (cmd_ttl key) in
  ret (if 0 <? ttl then ttl else ttlSec).

Definition clearCooldown key : M unit := exec (cmd_del key).

Definition revokedKey userId : string := "auth:revoked:" +:+ userId.

(** Never throws. *)
Definition revokeUserTokens userId ttlSec : M bool :=
  catch
    (do* io (cmd_set_px (revokedKey userId) (RText "1") (ttlSec * 1000)) in ret true)
    (fun _ => ret false).

(** Fails open. *)
Definition isUserRevoked userId : M bool :=
  catch
    (query (fun w => match peek (revokedKey userId) w with Some _ => true | None => false end))
    (fun _ => ret false).

Record FailureWindow := { fw_count : Z; fw_retryAfterSec : Z }.

(** The script RECORD_FAILURE. *)
Definition RECORD_FAILURE key windowSec (w : World) : ((Z * Z) + exn) * World :=
  match cmd_incr key w with
  | (inl hits, w1) =>
      let w2 := if hits =? 1 then cmd_pexpire key (windowSec * 1000) w1 else w1 in
      (inl (hits, cmd_ttl key w2), w2)
  | (inr e, w1) => (inr e, w1)
  end.

Definition recordFailure key windowSec : M FailureWindow :=
  catch
    (let* r := io (RECORD_FAILURE key windowSec) in
     ret {| fw_count := r.1; fw_retryAfterSec := if 0 <? r.2 then r.2 else windowSec |})
    (fun _ => ret {| fw_count := 0; fw_retryAfterSec := 0 |}).

(** The script READ_FAILURES. Only [recordFailure] writes these keys, so the
    value is an integer. *)
Definition READ_FAILURES key (w : World) : Z * Z :=
  match cmd_get key w with
  | Some (RInt n) => (n, cmd_ttl key w)
  | _ => (0, 0)
  end.

Definition failureCount key : M FailureWindow :=
  catch
    (let* r := query (READ_FAILURES key) in
     ret {| fw_count := r.1; fw_retryAfterSec := if 0 <? r.2 then r.2 else 0 |})
    (fun _ => ret {| fw_count := 0; fw_retryAfterSec := 0 |}).

Definition clearFailures key : M unit := catch (exec (cmd_del key)) (fun _ => ret tt).

(** Locks. *)

Definition owned key token (w : World) : bool :=
  match cmd_get key w with Some (RText t) => bool_decide (t = token) | _ => false end.

(** The script EXTEND_IF_OWNED. *)
Definition EXTEND_IF_OWNED key token ttlSec (w : World) : bool * World :=
  if owned key token w then (true, cmd_pexpire key (ttlSec * 1000) w) else (false, w).

(** The script RELEASE_IF_OWNED. *)
Definition RELEASE_IF_OWNED key token (w : World) : bool * World :=
  if owned key token w then (true, cmd_del key w) else (false, w).

Definition acquireLock key ttlSec : M (option string) :=
  let* token := randomUUID in
  let* res := io (cmd_set_nx key (RText token) ttlSec) in
  ret (if (res : bool) then Some token else None).

Definition extendLock key token ttlSec : M bool :=
  io (fun w => let r := EXTEND_IF_OWNED key token ttlSec w in (inl r.1, r.2)).

Definition releaseLock key token : M bool :=
  io (fun w => let r := RELEASE_IF_OWNED key token w in (inl r.1, r.2)).

End Service.

(** ** The lock protocol

    Any number of processes contend for one key. A process that acquired or
    renewed the lock holds a lease: the token it was given and the deadline
    up to which it may act. Every remote call may fail, lose its reply or kill
    its caller, and other keys, time and the UUID supply move between calls. *)

Section Lock.
Context `{UuidSupply} (key : string) (ttl : Z).

Record LockState := {
  l_world : World;
  l_leases : gmap nat (string * Z);
}.

Definition after {A} (s : LockState) (m : M A) (f : outcome A -> World -> option (gmap nat (string * Z))) : LockState :=
  let r := m (l_world s) in
  {| l_world := r.2; l_leases := default (l_leases s) (f r.1 r.2) |}.

Inductive lock_step : LockState -> LockState -> Prop :=
  | step_acquire s p :
      lock_step s (after s (acquireLock key ttl) (fun r w =>
        match r with
        | Ok (Some token) => Some (<[p := (token, now w + ttl * 1000)]> (l_leases s))
        | _ => None
        end))
  | step_extend s p token d :
      l_leases s !! p = Some (token, d) ->
      lock_step s (after s (extendLock key token ttl) (fun r w =>
        match r with
        | Ok true => Some (<[p := (token, now w + ttl * 1000)]> (l_leases s))
        | Ok false => Some (delete p (l_leases s))
        | _ => None
        end))
  | step_release s p token d :
      l_leases s !! p = Some (token, d) ->
      lock_step s (after s (releaseLock key token) (fun _ _ => Some (delete p (l_leases s))))
  | step_other s w :
      redis w !! key = redis (l_world s) !! key ->
      now (l_world s) <= now w ->
      (uuids (l_world s) <= uuids w)%nat ->
      lock_step s {| l_world := w; l_leases := l_leases s |}.

Definition lock_initial (s : LockState) : Prop := l_leases s = ∅.

(** *** Effects of the three operations on the key *)

Definition lock_entry (token : string) (at_ : Z) : RedisEntry :=
  {| e_value := RText token; e_expiresAt := Some (at_ + ttl * 1000) |}.

Lemma acquire_effect w r w' :
  0 < ttl ->
  acquireLock key ttl w = (r, w') ->
  now w <= now w' /\ uuids w' = S (uuids w) /\
  ((redis w' = redis w /\ (forall t, r <> Ok (Some t))) \/
   (match redis w !! key with Some e => expired (now w') e = true | None => True end) /\
   redis w' = <[key := lock_entry (uuid (uuids w)) (now w')]> (redis w) /\
   (forall t, r = Ok (Some t) -> t = uuid (uuids w))).
Proof.
  intros Httl. unfold acquireLock, randomUUID, bind. intros Hacq.
  destruct (io _ _) as [r1 w1] eqn:Hio in Hacq.
  destruct (tick_spec (set_uuids (S (uuids w)) w)) as (Hn & Hr & Hu & _).
  apply io_effect in Hio as [[-> Hno]|[-> Hok]].
  { destruct r1 as [b| |]; [by destruct (Hno b)|..]; simplify_eq/=; rewrite Hu, Hr; cbn in *; naive_solver. }
  set (w0 := tick _) in *. cbn in Hn, Hr, Hu. clearbody w0.
  unfold cmd_set_nx, peek in *. replace (ttl <=? 0) with false in * by lia.
  rewrite Hr in *.
  destruct (redis w !! key) as [e|] eqn:Hk; [destruct (expired (now w0) e) eqn:Hx|]; cbn in *;
    (destruct r1 as [b| |]; [specialize (Hok b eq_refl)|..]); unfold ret in *; simplify_eq/=;
    rewrite ?Hr, ?Hu; (split; [done|split; [done|]]);
    first [left; split; [done|intros t ?; congruence] | right; split_and!; [done|done|intros t ?; congruence]].
Qed.

Lemma owned_entry token w :
  owned key token w = true ->
  exists e, redis w !! key = Some e /\ e_value e = RText token /\ expired (now w) e = false.
Proof.
  unfold owned, cmd_get, peek. destruct (redis w !! key) as [[v d]|]; [|done].
  destruct (expired _ _) eqn:Hx; [done|]. cbn. destruct v; [|done..]. intros ->%bool_decide_eq_true. eauto.
Qed.

Lemma extend_effect token w r w' :
  0 < ttl ->
  extendLock key token ttl w = (r, w') ->
  now w <= now w' /\ uuids w' = uuids w /\
  ((redis w' = redis w /\ r <> Ok true) \/
   (exists e, redis w !! key = Some e /\ e_value e = RText token /\ expired (now w') e = false) /\
   redis w' = <[key := lock_entry token (now w')]> (redis w)).
Proof.
  intros Httl. unfold extendLock. intros Hio.
  destruct (tick_spec w) as (Hn & Hr & Hu & _).
  apply io_effect in Hio as [[-> Hno]|[-> Hok]].
  { rewrite Hr, Hu. naive_solver. }
  unfold EXTEND_IF_OWNED in *. destruct (owned key token (tick w)) eqn:Ho; cbn in *.
  - destruct (owned_entry _ _ Ho) as (e & Hk & Hv & Hx).
    unfold cmd_pexpire, peek. rewrite Hk, Hx. replace (ttl * 1000 <=? 0) with false by lia. cbn.
    rewrite Hr in *. rewrite Hv. naive_solver.
  - rewrite Hr, Hu. naive_solver.
Qed.

Lemma release_effect token w r w' :
  releaseLock key token w = (r, w') ->
  now w <= now w' /\ uuids w' = uuids w /\
  (redis w' = redis w \/
   (exists e, redis w !! key = Some e /\ e_value e = RText token) /\ redis w' = delete key (redis w)).
Proof.
  unfold releaseLock. intros Hio. destruct (tick_spec w) as (Hn & Hr & Hu & _).
  apply io_effect in Hio as [[-> _]|[-> _]].
  { rewrite Hr, Hu. naive_solver. }
  unfold RELEASE_IF_OWNED. destruct (owned key token (tick w)) eqn:Ho; cbn.
  - destruct (owned_entry _ _ Ho) as (e & Hk & Hv & _). rewrite Hr in *. naive_solver.
  - rewrite Hr, Hu. naive_solver.
Qed.

(** *** The invariant *)

(** A lease that has not run out is backed by the key, up to its deadline. *)
Definition backed (w : World) (token : string) (d : Z) : Prop :=
  (exists i, token = uuid i /\ (i < uuids w)%nat) /\
  d <= now w + ttl * 1000 /\
  (now w < d -> exists d', redis w !! key = Some {| e_value := RText token; e_expiresAt := Some d' |} /\ d <= d').

Definition lock_inv (s : LockState) : Prop :=
  (forall p token d, l_leases s !! p = Some (token, d) -> backed (l_world s) token d) /\
  (forall p q token d d', l_leases s !! p = Some (token, d) -> l_leases s !! q = Some (token, d') -> p = q).

Hypothesis ttl_pos : 0 < ttl.

Lemma backed_later w w' token d :
  redis w' !! key = redis w !! key -> now w <= now w' -> (uuids w <= uuids w')%nat ->
  backed w token d -> backed w' token d.
Proof.
  intros Hk Hn Hu ((i & Hi & Hlt) & Hd & Hb). split_and!; [exists i; split; [done|lia]|lia|].
  intros Hlive. rewrite Hk. apply Hb. lia.
Qed.

(** Two backed live leases carry the token of the key. *)
Lemma backed_agree w t1 t2 d1 d2 :
  backed w t1 d1 -> backed w t2 d2 -> now w < d1 -> now w < d2 -> t1 = t2.
Proof. intros (_ & _ & H1) (_ & _ & H2) L1 L2. destruct (H1 L1) as (?&?&?), (H2 L2) as (?&?&?). congruence. Qed.

(** A new lease on the key, written when no live lease stood in the way. *)
Lemma backed_entry w token :
  (exists i, token = uuid i /\ (i < uuids w)%nat) ->
  redis w !! key = Some (lock_entry token (now w)) -> backed w token (now w + ttl * 1000).
Proof. intros Hi Hk. split_and!; [done|lia|]. intros _. eexists. split; [done|lia]. Qed.

Lemma lock_inv_drop s w p :
  (forall q token d, q <> p -> l_leases s !! q = Some (token, d) -> backed w token d) ->
  lock_inv s -> lock_inv {| l_world := w; l_leases := delete p (l_leases s) |}.
Proof.
  intros Hb [_ Huniq]. split; cbn.
  - intros q token d [Hne Hq]%lookup_delete_Some. eauto.
  - intros q1 q2 token d d' [_ H1]%lookup_delete_Some [_ H2]%lookup_delete_Some. eauto.
Qed.

Lemma lock_inv_insert s w p token :
  (forall q t d, q <> p -> l_leases s !! q = Some (t, d) -> backed w t d /\ t <> token) ->
  backed w token (now w + ttl * 1000) ->
  lock_inv s -> lock_inv {| l_world := w; l_leases := <[p := (token, now w + ttl * 1000)]> (l_leases s) |}.
Proof.
  intros Hb Hnew [_ Huniq]. split; cbn.
  - intros q t d [[-> ?]|[Hne Hq]]%lookup_insert_Some; simplify_eq; [done|by eapply Hb].
  - intros q1 q2 t d d' [[-> ?]|[Hne1 H1]]%lookup_insert_Some [[-> ?]|[Hne2 H2]]%lookup_insert_Some;
      simplify_eq; [done|by destruct (Hb _ _ _ (not_eq_sym Hne2) H2)|by destruct (Hb _ _ _ (not_eq_sym Hne1) H1)|eauto].
Qed.

Lemma lock_inv_same s w :
  (forall p token d, l_leases s !! p = Some (token, d) -> backed w token d) ->
  lock_inv s -> lock_inv {| l_world := w; l_leases := l_leases s |}.
Proof. intros Hb [_ Huniq]. by split. Qed.

(** A lease that has run out needs no backing. *)
Lemma backed_over w w' token d :
  now w <= now w' -> (uuids w <= uuids w')%nat -> d <= now w' -> backed w token d -> backed w' token d.
Proof. intros Hn Hu Hd ((i & Hi & Hlt) & Hd' & _). split_and!; [exists i; split; [done|lia]|lia|lia]. Qed.

(** When the key is free every lease has run out. *)
Lemma backed_free w at_ token d :
  now w <= at_ ->
  match redis w !! key with Some e => expired at_ e = true | None => True end ->
  backed w token d -> d <= at_.
Proof.
  intros Hn Hfree (_ & _ & Hb). destruct (Z.le_gt_cases d at_) as [|Hlt]; [done|].
  destruct Hb as (d' & Hk & Hd'); [lia|]. rewrite Hk in Hfree. cbn in Hfree. unfold expired in Hfree.
  cbn in Hfree. lia.
Qed.

Lemma backed_shorter w token d d' : d' <= d -> backed w token d -> backed w token d'.
Proof.
  intros Hle (Hi & Hd & Hb). split_and!; [done|lia|]. intros Hlt.
  destruct Hb as (d'' & ? & ?); [lia|]. exists d''. split; [done|lia].
Qed.

Lemma backed_fresh w token d : backed w token d -> token <> uuid (uuids w).
Proof. intros ((i & -> & Hlt) & _) ->%(inj uuid). lia. Qed.

(** Writing the key for [token] disturbs no live lease on another token. *)
Lemma backed_other w w' token t d e :
  redis w !! key = Some e -> e_value e = RText token -> t <> token ->
  now w <= now w' -> uuids w' = uuids w -> backed w t d -> backed w' t d.
Proof.
  intros Hk He Hne Hn Hu Hb. apply (backed_over w); [done|lia| |done].
  destruct (Z.le_gt_cases d (now w')) as [|Hlt]; [done|].
  destruct Hb as (_ & _ & Hb). destruct Hb as (d' & Hk' & _); [lia|]. by simplify_eq/=.
Qed.

Lemma acquire_inv s p : lock_inv s -> lock_inv (after s (acquireLock key ttl) (fun r w =>
  match r with
  | Ok (Some token) => Some (<[p := (token, now w + ttl * 1000)]> (l_leases s))
  | _ => None
  end)).
Proof.
  intros Hinv. pose proof Hinv as [Hb _]. unfold after.
  destruct (acquireLock key ttl (l_world s)) as [r w'] eqn:E.
  apply acquire_effect in E as (Hn & Hu & [[Hr Hno]|(Hfree & Hr & Htok)]); [| |done]; cbn.
  - assert (lock_inv {| l_world := w'; l_leases := l_leases s |}).
    { apply lock_inv_same; [|done]. intros q t d Hq.
      apply (backed_later (l_world s)); [by rewrite Hr|done|lia|eauto]. }
    destruct r as [[t|]| |]; [by destruct (Hno t)|done..].
  - assert (forall q t d, l_leases s !! q = Some (t, d) -> backed w' t d) as Hb'.
    { intros q t d Hq. apply (backed_over (l_world s)); [done|lia| |eauto].
      apply (backed_free (l_world s) _ t); eauto. }
    destruct r as [[t|]| |]; cbn; [|by apply lock_inv_same..].
    rewrite (Htok t eq_refl) in *. apply lock_inv_insert; [| |done].
    + intros q t' d Hne Hq. split; [eauto|]. eapply backed_fresh, Hb, Hq.
    + apply backed_entry; [exists (uuids (l_world s)); split; [done|lia]|].
      by rewrite Hr, lookup_insert_eq.
Qed.

Lemma extend_inv s p token d0 :
  l_leases s !! p = Some (token, d0) -> lock_inv s -> lock_inv (after s (extendLock key token ttl) (fun r w =>
  match r with
  | Ok true => Some (<[p := (token, now w + ttl * 1000)]> (l_leases s))
  | Ok false => Some (delete p (l_leases s))
  | _ => None
  end)).
Proof.
  intros Hp Hinv. pose proof Hinv as [Hb Huniq]. unfold after.
  destruct (extendLock key token ttl (l_world s)) as [r w'] eqn:E.
  apply extend_effect in E as (Hn & Hu & [[Hr Hno]|[(e & Hk & He & Hx) Hr]]); [| |done]; cbn.
  - assert (forall q t d, l_leases s !! q = Some (t, d) -> backed w' t d) as Hb'.
    { intros q t d Hq. apply (backed_later (l_world s)); [by rewrite Hr|done|lia|eauto]. }
    destruct r as [[]| |]; cbn; [done|by apply lock_inv_drop; eauto|by apply lock_inv_same..].
  - assert (backed w' token (now w' + ttl * 1000)) as Hnew.
    { apply backed_entry; [|by rewrite Hr, lookup_insert_eq].
      destruct (Hb _ _ _ Hp) as ((i & ? & ?) & _). exists i. split; [done|lia]. }
    assert (forall q t d, q <> p -> l_leases s !! q = Some (t, d) -> backed w' t d /\ t <> token) as Hoth.
    { intros q t d Hne Hq. assert (t <> token) by (intros ->; eauto). split; [|done].
      eapply backed_other; eauto. }
    destruct r as [[]| |]; cbn;
      [by apply lock_inv_insert|apply lock_inv_drop; [intros q t d Hne Hq; by eapply Hoth|done]|..];
      (apply lock_inv_same; [|done]; intros q t d Hq; destruct (decide (q = p)) as [->|Hne]; [|by eapply Hoth]);
      simplify_eq; apply (backed_shorter _ _ (now w' + ttl * 1000)); try done;
      destruct (Hb _ _ _ Hp) as (_ & Hd & _); lia.
Qed.

Lemma lock_step_inv s s' : lock_step s s' -> lock_inv s -> lock_inv s'.
Proof.
  intros Hstep Hinv. destruct Hstep as [s p|s p token d Hp|s p token d Hp|s w Hk Hn Hu].
  - by apply acquire_inv.
  - by eapply extend_inv.
  - pose proof Hinv as [Hb Huniq]. unfold after.
    destruct (releaseLock key token (l_world s)) as [r w'] eqn:E.
    apply release_effect in E as (Hn & Hu & Hr). cbn. apply lock_inv_drop; [|done].
    intros q t d' Hne Hq. destruct Hr as [Hr|[(e & Hk & He) Hr]].
    + apply (backed_later (l_world s)); [by rewrite Hr|done|lia|eauto].
    + eapply backed_other; eauto. intros ->. eauto.
  - apply lock_inv_same; [|done]. intros p token d Hp. destruct Hinv as [Hb _].
    apply (backed_later (l_world s)); eauto.
Qed.

Lemma lock_reachable_inv s s' : lock_initial s -> rtc lock_step s s' -> lock_inv s'.
Proof.
  intros Hinit Hrtc. assert (lock_inv s) as Hinv.
  { unfold lock_initial in Hinit. split; rewrite Hinit; intros *; by rewrite lookup_empty. }
  clear Hinit. induction Hrtc; [done|]. eauto using lock_step_inv.
Qed.


(** C7. Mutual exclusion of the fenced lock: however acquisitions, renewals
    and releases of any number of processes interleave, whichever calls fail,
    lose their reply or kill their caller, and however time passes, two
    processes never both hold a lease that has not run out. *)
Theorem lock_mutual_exclusion s s' p q t1 t2 d1 d2 :
  lock_initial s -> rtc lock_step s s' ->
  l_leases s' !! p = Some (t1, d1) -> l_leases s' !! q = Some (t2, d2) ->
  now (l_world s') < d1 -> now (l_world s') < d2 ->
  p = q.
Proof.
  intros Hinit Hrtc Hp Hq L1 L2. destruct (lock_reachable_inv _ _ Hinit Hrtc) as [Hb Huniq].
  assert (t1 = t2) as -> by (eapply backed_agree; eauto). eauto.
Qed.

End Lock.

(** Without faults a free lock is acquired, and its holder releases it. *)
Lemma acquireLock_ok `{UuidSupply} key ttl w :
  0 < ttl -> oracle w = [] -> peek key w = None ->
  acquireLock key ttl w =
    (Ok (Some (uuid (uuids w))),
     put key (RText (uuid (uuids w))) (Some (now w + ttl * 1000)) (set_uuids (S (uuids w)) w)).
Proof.
  intros Httl Ho Hfree. unfold acquireLock, bind at 1, randomUUID.
  erewrite bind_ok; [|apply io_ok; [exact Ho|]; unfold cmd_set_nx, peek in *; cbn;
    replace (ttl <=? 0) with false by lia; replace (match redis w !! key with Some e => _ | None => None end)
      with (@None RedisEntry); reflexivity].
  done.
Qed.

Lemma releaseLock_ok key token w d :
  oracle w = [] -> now w < d ->
  redis w !! key = Some {| e_value := RText token; e_expiresAt := Some d |} ->
  releaseLock key token w = (Ok true, cmd_del key w).
Proof.
  intros Ho Hd Hk. apply io_ok; [done|]. unfold RELEASE_IF_OWNED, owned, cmd_get, peek.
  rewrite Hk. unfold expired. cbn. rewrite (proj2 (Z.leb_gt _ _) Hd). cbn. by rewrite bool_decide_true.
Qed.

(** A run in which process 0 acquires, its lease runs out, and process 1
    acquires while process 0 still has the token of its stale lease. *)
Definition sample_lock_run : LockState :=
  let key := "watcher:outbox:lock" in
  let s0 := {| l_world := empty_world; l_leases := ∅ |} in
  let s1 := after s0 (acquireLock (H:=sample_uuids) key 60) (fun r w =>
        match r with
        | Ok (Some token) => Some (<[0%nat := (token, now w + 60 * 1000)]> (l_leases s0))
        | _ => None
        end) in
  let w := l_world s1 in
  let s2 := {| l_world := {| now := 60000; uuids := uuids w; oracle := []; db := db w; redis := redis w;
                             broker := broker w; delivered := [] |};
               l_leases := l_leases s1 |} in
  after s2 (acquireLock (H:=sample_uuids) key 60) (fun r w =>
        match r with
        | Ok (Some token) => Some (<[1%nat := (token, now w + 60 * 1000)]> (l_leases s2))
        | _ => None
        end).

Lemma sample_lock_run_reachable :
  rtc (lock_step (H:=sample_uuids) "watcher:outbox:lock" 60) {| l_world := empty_world; l_leases := ∅ |} sample_lock_run.
Proof.
  eapply rtc_l; [apply (step_acquire _ _ _ 0)|].
  eapply rtc_l; [|apply rtc_once, (step_acquire _ _ _ 1)].
  apply step_other; vm_compute; (reflexivity || congruence || lia).
Qed.

Lemma lock_mutual_exclusion_witness :
  exists t d, l_leases sample_lock_run !! 1%nat = Some (t, d) /\ now (l_world sample_lock_run) < d /\
  forall q, l_leases sample_lock_run !! q = Some (t, d) -> q = 1%nat.
Proof.
  eexists _, _. split; [vm_compute; reflexivity|]. split; [vm_compute; reflexivity|].
  intros q Hq. refine (lock_mutual_exclusion (H:=sample_uuids) _ _ _ _ _ q 1%nat _ _ _ _ _ sample_lock_run_reachable Hq _ _ _);
    [lia|reflexivity|vm_compute; reflexivity..].
Defined.

(** ** What the commands leave alone *)

(** Redis commands write Redis only. *)
Definition redis_only (w w' : World) : Prop := exists r, w' = set_redis r w.

Lemma redis_only_refl w : redis_only w w.
Proof. exists (redis w). by destruct w. Qed.

Lemma redis_only_trans w1 w2 w3 : redis_only w1 w2 -> redis_only w2 w3 -> redis_only w1 w3.
Proof. intros (r1 & ->) (r2 & ->). by exists r2. Qed.

Lemma put_redis_only key v d w : redis_only w (put key v d w).
Proof. by eexists. Qed.

Lemma del_redis_only key w : redis_only w (cmd_del key w).
Proof. by eexists. Qed.

#[export] Hint Resolve redis_only_refl put_redis_only del_redis_only : redis.

Lemma pexpire_redis_only key ms w : redis_only w (cmd_pexpire key ms w).
Proof. unfold cmd_pexpire. repeat case_match; auto with redis. Qed.

Lemma RECORD_FAILURE_redis_only key windowSec w : redis_only w (RECORD_FAILURE key windowSec w).2.
Proof.
  unfold RECORD_FAILURE. assert (redis_only w (cmd_incr key w).2) as Hi by (unfold cmd_incr; repeat case_match; cbn; auto with redis).
  destruct (cmd_incr key w) as [[hits|e] w1]; cbn in *; [|done].
  eapply redis_only_trans; [exact Hi|]. case_match; [apply pexpire_redis_only|auto with redis].
Qed.

Lemma set_nx_redis_only key v sec w : redis_only w (cmd_set_nx key v sec w).2.
Proof. unfold cmd_set_nx. repeat case_match; cbn; auto with redis. Qed.

Lemma set_px_redis_only key v ms w : redis_only w (cmd_set_px key v ms w).2.
Proof. unfold cmd_set_px. case_match; cbn; auto with redis. Qed.

Lemma EXTEND_redis_only key token ttlSec w : redis_only w (EXTEND_IF_OWNED key token ttlSec w).2.
Proof. unfold EXTEND_IF_OWNED. case_match; cbn; auto using pexpire_redis_only with redis. Qed.

Lemma RELEASE_redis_only key token w : redis_only w (RELEASE_IF_OWNED key token w).2.
Proof. unfold RELEASE_IF_OWNED. case_match; cbn; auto with redis. Qed.

(** A relation that Redis-only steps and draws from the supply satisfy. *)
Class IgnoresRedis (R : relation World) : Prop := {
  ir_redis : forall w w', redis_only w w' -> R w w';
  ir_uuids : forall w n, (uuids w <= n)%nat -> R w (set_uuids n w);
}.

Section Ignored.
Context (R : relation World) `{!WorldOrder R} `{!IgnoresRedis R} `{UuidSupply}.

Lemma keeps_redis_io {A} (op : World -> (A + exn) * World) :
  (forall w, redis_only w (op w).2) -> keeps R (io op).
Proof. intros Hop. apply keeps_io; [done|]. intros w. apply ir_redis, Hop. Qed.

Lemma keeps_randomUUID : keeps R randomUUID.
Proof. intros w. apply ir_uuids. lia. Qed.

Lemma keeps_acquireLock key ttl : keeps R (acquireLock key ttl).
Proof. unfold acquireLock. keeps_tac; [apply keeps_randomUUID|apply keeps_redis_io; intros; apply set_nx_redis_only]. Qed.

Lemma keeps_releaseLock key token : keeps R (releaseLock key token).
Proof. apply keeps_redis_io. intros w. apply RELEASE_redis_only. Qed.

Lemma keeps_recordFailure key windowSec : keeps R (recordFailure key windowSec).
Proof. unfold recordFailure. keeps_tac. apply keeps_redis_io. intros w. apply RECORD_FAILURE_redis_only. Qed.

Lemma keeps_clearFailures key : keeps R (clearFailures key).
Proof. unfold clearFailures. keeps_tac. apply keeps_redis_io. intros w. apply del_redis_only. Qed.

Lemma keeps_failureCount key : keeps R (failureCount key).
Proof. unfold failureCount. keeps_tac. Qed.

Lemma keeps_consumeCooldown key ttlSec : keeps R (consumeCooldown key ttlSec).
Proof. unfold consumeCooldown. keeps_tac. apply keeps_redis_io. intros w. apply set_nx_redis_only. Qed.

Lemma keeps_clearCooldown key : keeps R (clearCooldown key).
Proof. apply keeps_redis_io. intros w. apply del_redis_only. Qed.

Lemma keeps_revokeUserTokens userId ttlSec : keeps R (revokeUserTokens userId ttlSec).
Proof. unfold revokeUserTokens. keeps_tac. apply keeps_redis_io. intros w. apply set_px_redis_only. Qed.

End Ignored.

#[export] Hint Resolve keeps_randomUUID keeps_acquireLock keeps_releaseLock keeps_recordFailure keeps_clearFailures
  keeps_failureCount keeps_consumeCooldown keeps_clearCooldown keeps_revokeUserTokens : keeps.
#[export] Hint Extern 1 (IgnoresRedis _) => apply _ : keeps.

(** The database as it was. *)
Definition same_db (w w' : World) : Prop := db w' = db w.

#[global] Instance same_db_order : WorldOrder same_db.
Proof.
  unfold same_db. split; [split|].
  - by intros w.
  - intros w1 w2 w3 H12 H23. congruence.
  - intros w. by destruct (tick_spec w) as (_ & _ & _ & ? & _).
Qed.

#[global] Instance same_db_redis : IgnoresRedis same_db.
Proof. split; [by intros w w' (r & ->)|by intros w]. Qed.
