(* ===== verification/Throttler.v ===== *)
(** * The rate limiter's storage ([libs/common/src/redis/redis-throttler.storage.ts])

    One script counts the requests of a client in a window and keeps the
    block that follows when there were too many. The guard of the framework
    refuses a request whose record says it is blocked. *)

From S2P Require Import Prelude JsNumber Enums Contracts World Effects RedisService.

(** ** The code *)

Record ThrottlerStorageRecord := {
  totalHits : Z;
  timeToExpire : Z;
  isBlocked : bool;
  timeToBlockExpire : Z;
}.

Definition toSeconds (ms : Z) : Z := if 0 <? ms then (ms + 999) / 1000 else 0.

(** The script INCREMENT. *)
Definition INCREMENT (hitKey blockKey : string) (ttl limit blockDuration : Z) (w : World) : ((Z * Z * Z) + exn) * World :=
  match cmd_incr hitKey w with
  | (inr e, w1) => (inr e, w1)
  | (inl hits, w1) =>
      let w2 := if hits =? 1 then cmd_pexpire hitKey ttl w1 else w1 in
      let blockTtl := cmd_pttl blockKey w2 in
      if 0 <? blockTtl then (inl (hits, cmd_pttl hitKey w2, blockTtl), w2)
      else if limit <? hits then
        match cmd_set_px blockKey (RText "1") blockDuration w2 with
        | (inl _, w3) => (inl (hits, cmd_pttl hitKey w3, blockDuration), w3)
        | (inr e, w3) => (inr e, w3)
        end
      else (inl (hits, cmd_pttl hitKey w2, 0), w2)
  end.

Definition hit_key (throttlerName key : string) : string := "throttle:" +:+ throttlerName +:+ ":" +:+ key.
Definition block_key (throttlerName key : string) : string := hit_key throttlerName key +:+ ":blocked".

(** Fails open. *)
Definition increment (key : string) (ttl limit blockDuration : Z) (throttlerName : string) : M ThrottlerStorageRecord :=
  catch
    (let* result := io (INCREMENT (hit_key throttlerName key) (block_key throttlerName key) ttl limit
                          (if blockDuration =? 0 then ttl else blockDuration)) in
     ret {| totalHits := result.1.1; timeToExpire := toSeconds result.1.2;
            isBlocked := 0 <? result.2; timeToBlockExpire := toSeconds result.2 |})
    (fun _ => ret {| totalHits := 0; timeToExpire := toSeconds ttl; isBlocked := false; timeToBlockExpire := 0 |}).

(** ** The abstract limiter *)

(** How many requests the current window saw, when it ends, and until when
    the client is blocked. *)
Record Bucket := { hits : Z; window_end : Z; blocked_until : Z }.

Section Limiter.
Context (ttl limit blockFor : Z).

(** A request at a time, and whether it is let through. *)
Definition arrive (t : Z) (b : Bucket) : bool * Bucket :=
  let b := if t <? window_end b
           then {| hits := hits b + 1; window_end := window_end b; blocked_until := blocked_until b |}
           else {| hits := 1; window_end := t + ttl; blocked_until := blocked_until b |} in
  if t <? blocked_until b then (false, b)
  else if limit <? hits b then (false, {| hits := hits b; window_end := window_end b; blocked_until := t + blockFor |})
  else (true, b).

(** Requests that come the given times after one another. *)
Fixpoint arrivals (t : Z) (delays : list nat) (b : Bucket) : list bool :=
  match delays with
  | [] => []
  | d :: ds => let r := arrive (t + Z.of_nat d) b in r.1 :: arrivals (t + Z.of_nat d) ds r.2
  end.

(** How many were let through. *)
Definition passed (l : list bool) : Z := Z.of_nat (length (List.filter id l)).

Lemma passed_cons x l : passed (x :: l) = (if x then 1 else 0) + passed l.
Proof. unfold passed. destruct x; cbn [List.filter id length]; lia. Qed.

Definition duration (delays : list nat) : Z := Z.of_nat (sum_list delays).

Lemma duration_cons d ds : duration (d :: ds) = Z.of_nat d + duration ds.
Proof. unfold duration. cbn. lia. Qed.

Context (Hlimit : 0 <= limit).

(** What is left of a window that saw [n] requests. *)
Definition left_of (n : Z) : Z := Z.max 0 (limit - n).

(** A request within its window spends one of what is left, if it passes. *)
Lemma arrive_within t b :
  t < window_end b ->
  window_end (arrive t b).2 = window_end b /\ hits (arrive t b).2 = hits b + 1 /\
  (if (arrive t b).1 then 1 else 0) + left_of (hits b + 1) <= left_of (hits b).
Proof.
  intros Ht. unfold arrive, left_of. replace (t <? window_end b) with true by lia. cbn.
  destruct (t <? blocked_until b); cbn; [split_and!; lia|]. destruct (Z.ltb_spec limit (hits b + 1)); cbn; split_and!; lia.
Qed.

Lemma arrive_opens t b :
  window_end b <= t ->
  window_end (arrive t b).2 = t + ttl /\ hits (arrive t b).2 = 1 /\ (if (arrive t b).1 then 1 else 0) + left_of 1 <= limit.
Proof.
  intros Ht. unfold arrive, left_of. replace (t <? window_end b) with false by lia. cbn.
  destruct (t <? blocked_until b); cbn; [split_and!; lia|]. destruct (Z.ltb_spec limit 1); cbn; split_and!; lia.
Qed.

Lemma arrivals_within ds t b :
  t + duration ds < window_end b -> passed (arrivals t ds b) <= left_of (hits b).
Proof.
  revert t b. induction ds as [|d ds IH]; intros t b; [intros _; unfold passed, left_of; cbn; lia|].
  rewrite duration_cons. intros Hin. cbn [arrivals]. rewrite passed_cons.
  destruct (arrive_within (t + Z.of_nat d) b) as (Hw & Hh & Hp); [unfold duration in *; lia|].
  specialize (IH (t + Z.of_nat d) (arrive (t + Z.of_nat d) b).2). rewrite Hw, Hh in IH. lia.
Qed.

(** From any state, a period shorter than a window meets at most two. *)
Lemma arrivals_bounded ds t b :
  duration ds < ttl -> passed (arrivals t ds b) <= (if t <? window_end b then left_of (hits b) else 0) + limit.
Proof.
  revert t b. induction ds as [|d ds IH]; intros t b; [intros _; unfold passed, left_of; cbn; destruct (_ <? _); lia|].
  rewrite duration_cons. intros Hin. cbn [arrivals]. rewrite passed_cons. set (t' := t + Z.of_nat d).
  destruct (Z.lt_ge_cases t' (window_end b)) as [Hlt|Hge].
  - destruct (arrive_within t' b Hlt) as (Hw & Hh & Hp). specialize (IH t' (arrive t' b).2 ltac:(lia)).
    rewrite Hw, Hh in IH. replace (t' <? window_end b) with true in IH by lia. replace (t <? window_end b) with true by lia. lia.
  - destruct (arrive_opens t' b Hge) as (Hw & Hh & Hp).
    pose proof (arrivals_within ds t' (arrive t' b).2) as Hin'. rewrite Hw, Hh in Hin'.
    assert (passed (arrivals t' ds (arrive t' b).2) <= left_of 1) by (apply Hin'; lia).
    unfold left_of in *. destruct (t <? window_end b); lia.
Qed.

(** In a fresh window the first [limit] pass and, when a block lasts a window,
    no other. *)
Lemma arrivals_exact ds t b :
  0 < ttl <= blockFor -> t + duration ds < window_end b <= t + ttl -> 0 <= hits b ->
  (hits b <= limit /\ blocked_until b <= t) \/ (limit < hits b /\ window_end b <= blocked_until b) ->
  arrivals t ds b = imap (fun i _ => hits b + Z.of_nat i <? limit) ds.
Proof.
  intros Httl. revert t b. induction ds as [|d ds IH]; intros t b; [done|].
  rewrite duration_cons. intros Hin Hpos Hst. cbn [arrivals imap]. set (t' := t + Z.of_nat d).
  assert (t' < window_end b) as Hlt by (unfold duration in *; lia). destruct (arrive_within t' b Hlt) as (Hw & Hh & _).
  rewrite (IH t'); rewrite ?Hw, ?Hh; [|unfold t'; lia|lia|].
  - f_equal; [|apply imap_ext; intros i x _; cbv beta delta [compose]; f_equal; lia].
    unfold arrive. replace (t' <? window_end b) with true by lia. cbn [hits window_end blocked_until]. destruct Hst as [[H1 H2]|[H1 H2]].
    + replace (t' <? blocked_until b) with false by lia. destruct (Z.ltb_spec limit (hits b + 1)); cbn [fst]; symmetry; [apply Z.ltb_ge|apply Z.ltb_lt]; lia.
    + replace (t' <? blocked_until b) with true by lia. symmetry. apply Z.ltb_ge. lia.
  - unfold arrive. replace (t' <? window_end b) with true by lia. cbn. destruct Hst as [[H1 H2]|[H1 H2]].
    + replace (t' <? blocked_until b) with false by lia. destruct (Z.ltb_spec limit (hits b + 1)); cbn; [right|left]; lia.
    + replace (t' <? blocked_until b) with true by lia. cbn. right. lia.
Qed.

Lemma arrivals_fresh ds t b :
  0 < ttl <= blockFor -> duration ds < ttl -> window_end b <= t -> blocked_until b <= t ->
  arrivals t ds b = imap (fun i _ => Z.of_nat i <? limit) ds.
Proof.
  intros Httl Hdur Hw Hb. destruct ds as [|d ds]; [done|]. rewrite duration_cons in Hdur. cbn [arrivals imap]. set (t' := t + Z.of_nat d).
  destruct (arrive_opens t' b) as (Hw' & Hh' & _); [lia|].
  assert (arrive t' b = if limit <? 1 then (false, {| hits := 1; window_end := t' + ttl; blocked_until := t' + blockFor |})
                        else (true, {| hits := 1; window_end := t' + ttl; blocked_until := blocked_until b |})) as Ha.
  { unfold arrive. replace (t' <? window_end b) with false by lia. cbn. by replace (t' <? blocked_until b) with false by lia. }
  rewrite (arrivals_exact ds t'); rewrite ?Hw', ?Hh'; [|lia|lia|lia|].
  - f_equal; [|apply imap_ext; intros i x _; cbv beta delta [compose]; f_equal; lia].
    rewrite Ha. destruct (Z.ltb_spec limit 1); symmetry; [apply Z.ltb_ge|apply Z.ltb_lt]; lia.
  - rewrite Ha. destruct (Z.ltb_spec limit 1); cbn; lia.
Qed.

End Limiter.

(** ** The script implements it *)

Section Refines.
Context (key throttlerName : string) (ttl limit blockDuration : Z).

Definition blockFor : Z := if blockDuration =? 0 then ttl else blockDuration.

Definition live_entry (at_ : Z) (v : RedisValue) (d : Z) : option RedisEntry :=
  if at_ <? d then Some {| e_value := v; e_expiresAt := Some d |} else None.

(** The two keys of a client hold the state of its bucket; calls answer. *)
Definition represents (b : Bucket) (w : World) : Prop :=
  oracle w = [] /\
  peek (hit_key throttlerName key) w = live_entry (now w) (RInt (hits b)) (window_end b) /\
  peek (block_key throttlerName key) w = live_entry (now w) (RText "1") (blocked_until b) /\
  (now w < window_end b -> 0 < hits b).

Lemma keys_differ : hit_key throttlerName key <> block_key throttlerName key.
Proof.
  unfold block_key. generalize (hit_key throttlerName key) as s. intros s. induction s as [|c s IH]; [done|].
  intros [= Heq]. by apply IH.
Qed.

Lemma peek_put_live k k' v d w :
  peek k (put k' v (Some d) w) = if decide (k = k') then live_entry (now w) v d else peek k w.
Proof.
  unfold peek, put, live_entry, expired. cbn. destruct (decide (k = k')) as [->|Hne].
  - rewrite lookup_insert_eq. cbn. destruct (Z.leb_spec d (now w)), (Z.ltb_spec (now w) d); done || lia.
  - by rewrite lookup_insert_ne.
Qed.

Lemma peek_later k v d w ms :
  0 <= ms -> peek k w = live_entry (now w) v d -> peek k (sleep ms w).2 = live_entry (now w + ms) v d.
Proof.
  unfold peek, live_entry, expired. cbn. intros Hms Hp. destruct (redis w !! k) as [[v' [d'|]]|]; cbn in *.
  - destruct (Z.leb_spec d' (now w)), (Z.ltb_spec (now w) d); simplify_eq.
    + replace (d' <=? now w + ms) with true by lia. by replace (now w + ms <? d) with false by lia.
    + destruct (Z.leb_spec d (now w + ms)), (Z.ltb_spec (now w + ms) d); done || lia.
  - by destruct (now w <? d).
  - destruct (Z.ltb_spec (now w) d); [done|]. by replace (now w + ms <? d) with false by lia.
Qed.

Lemma represents_sleep b w ms : 0 <= ms -> represents b w -> represents b (sleep ms w).2.
Proof.
  intros Hms (Ho & Hh & Hb & Hp). split_and!; [done|by apply (peek_later _ _ _ _ ms)..|]. cbn. intros. apply Hp. lia.
Qed.

Lemma live_pttl k v d w : peek k w = live_entry (now w) v d -> cmd_pttl k w = if now w <? d then d - now w else -2.
Proof. unfold cmd_pttl, live_entry. intros ->. by destruct (now w <? d). Qed.

(** Counting a request. *)
Lemma incr_represents b w :
  0 < ttl -> represents b w ->
  let n := if now w <? window_end b then hits b + 1 else 1 in
  let d := if now w <? window_end b then window_end b else now w + ttl in
  exists w2,
    (forall limit blockDuration, INCREMENT (hit_key throttlerName key) (block_key throttlerName key) ttl limit blockDuration w =
      let blockTtl := cmd_pttl (block_key throttlerName key) w2 in
      if 0 <? blockTtl then (inl (n, cmd_pttl (hit_key throttlerName key) w2, blockTtl), w2)
      else if limit <? n then
        match cmd_set_px (block_key throttlerName key) (RText "1") blockDuration w2 with
        | (inl _, w3) => (inl (n, cmd_pttl (hit_key throttlerName key) w3, blockDuration), w3)
        | (inr e, w3) => (inr e, w3)
        end
      else (inl (n, cmd_pttl (hit_key throttlerName key) w2, 0), w2)) /\
    represents {| hits := n; window_end := d; blocked_until := blocked_until b |} w2 /\ now w2 = now w.
Proof.
  intros Httl (Ho & Hh & Hb & Hp) n d. pose proof keys_differ as Hne. unfold INCREMENT, cmd_incr. rewrite Hh. unfold live_entry in *.
  destruct (Z.ltb_spec (now w) (window_end b)) as [Hlt|Hge]; subst n d.
  - specialize (Hp Hlt). replace (hits b + 1 =? 1) with false by lia.
    exists (put (hit_key throttlerName key) (RInt (hits b + 1)) (Some (window_end b)) w). split; [done|]. unfold represents.
    rewrite !peek_put_live, decide_True, decide_False by done. cbn. split_and!; [done| |done|lia|done].
    unfold live_entry. by replace (now w <? window_end b) with true by lia.
  - cbn [Z.eqb]. unfold cmd_pexpire. assert (peek (hit_key throttlerName key) (put (hit_key throttlerName key) (RInt 1) None w) =
      Some {| e_value := RInt 1; e_expiresAt := None |}) as -> by (unfold peek; cbn; by rewrite lookup_insert_eq).
    replace (ttl <=? 0) with false by lia.
    exists (put (hit_key throttlerName key) (RInt 1) (Some (now w + ttl)) (put (hit_key throttlerName key) (RInt 1) None w)).
    split; [done|]. unfold represents. rewrite !peek_put_live, decide_True, decide_False by done.
    cbn. split_and!; [done|done| |lia|done]. unfold peek. cbn. rewrite lookup_insert_ne by done. exact Hb.
Qed.

Lemma increment_arrive b w :
  0 < ttl -> 0 < blockFor -> represents b w ->
  exists r w', increment key ttl limit blockDuration throttlerName w = (Ok r, w') /\
    isBlocked r = negb (arrive ttl limit blockFor (now w) b).1 /\
    represents (arrive ttl limit blockFor (now w) b).2 w' /\ now w' = now w.
Proof.
  intros Httl Hbf Hrep. pose proof (incr_represents b w Httl Hrep) as (w2 & Hrun & Hrep2 & Hnow). pose proof Hrep as (Ho & _).
  unfold increment, catch, bind. rewrite io_fine by done. fold blockFor. rewrite Hrun. clear Hrun.
  set (b2 := Build_Bucket _ _ _) in Hrep2. assert (arrive ttl limit blockFor (now w) b =
    if now w <? blocked_until b then (false, b2)
    else if limit <? hits b2 then (false, {| hits := hits b2; window_end := window_end b2; blocked_until := now w + blockFor |})
    else (true, b2)) as -> by (subst b2; unfold arrive; by destruct (now w <? window_end b)).
  pose proof Hrep2 as (Ho2 & Hh2 & Hb2 & Hp2). rewrite (live_pttl _ _ _ _ Hb2). cbn [blocked_until b2]. rewrite Hnow.
  destruct (Z.ltb_spec (now w) (blocked_until b)) as [Hlt|Hge].
  { replace (0 <? blocked_until b - now w) with true by lia. eexists _, w2. split_and!; [done| |done|done]. cbn. lia. }
  cbn [Z.ltb Z.compare]. change (if now w <? window_end b then hits b + 1 else 1) with (hits b2).
  destruct (limit <? hits b2); [|by eexists _, w2].
  unfold cmd_set_px. replace (blockFor <=? 0) with false by lia. eexists _, _. split_and!; [done|cbn; lia| |done].
  pose proof keys_differ as Hne. unfold represents. rewrite !peek_put_live, decide_False, decide_True by done. cbn [now put set_redis oracle]. rewrite Hnow in *.
  by split_and!.
Qed.

(** Requests that come the given times after one another. *)
Fixpoint requests (delays : list nat) : M (list bool) :=
  match delays with
  | [] => ret []
  | d :: ds =>
      do* sleep (Z.of_nat d) in
      let* r := increment key ttl limit blockDuration throttlerName in
      let* rest := requests ds in
      ret (negb (isBlocked r) :: rest)
  end.

Lemma requests_arrivals ds b w :
  0 < ttl -> 0 < blockFor -> represents b w ->
  exists w', requests ds w = (Ok (arrivals ttl limit blockFor (now w) ds b), w').
Proof.
  intros Httl Hbf. revert b w. induction ds as [|d ds IH]; intros b w Hrep; [by eexists|]. cbn [requests arrivals].
  erewrite bind_ok by reflexivity.
  destruct (increment_arrive b (sleep (Z.of_nat d) w).2 Httl Hbf) as (r & w1 & Hrun & Hblk & Hrep1 & Hnow).
  { apply represents_sleep; [lia|done]. }
  rewrite (bind_ok _ _ _ _ _ Hrun). destruct (IH _ _ Hrep1) as (w2 & Hrest). rewrite (bind_ok _ _ _ _ _ Hrest).
  exists w2. unfold ret. rewrite Hblk, Hnow, negb_involutive. done.
Qed.

(** C39. The limit holds, and it is the limit: while Redis answers, a client
    that sends requests for less than a window is let through at most twice
    the limit whatever it did before (two windows can meet), and from a fresh
    start exactly its first [limit] requests are, however they are spaced,
    when a block lasts at least a window. *)
Theorem requests_limited ds b w :
  0 < ttl -> 0 < blockFor -> 0 <= limit -> represents b w -> duration ds < ttl ->
  exists l w', requests ds w = (Ok l, w') /\ passed l <= 2 * limit /\
    (window_end b <= now w -> blocked_until b <= now w -> ttl <= blockFor ->
     l = imap (fun i _ => Z.of_nat i <? limit) ds).
Proof.
  intros Httl Hbf Hl Hrep Hdur. destruct (requests_arrivals ds b w Httl Hbf Hrep) as (w' & Hrun).
  exists (arrivals ttl limit blockFor (now w) ds b), w'. split_and!; [done| |].
  - pose proof (arrivals_bounded ttl limit blockFor Hl ds (now w) b Hdur) as Hb. unfold left_of in Hb.
    destruct Hrep as (_ & _ & _ & Hp). destruct (Z.ltb_spec (now w) (window_end b)) as [Hlt|]; [specialize (Hp Hlt)|]; lia.
  - intros Hw Hblk Hlong. by apply arrivals_fresh.
Qed.

End Refines.

(** ** Concrete runs *)

(** Nobody has asked yet. *)
Definition no_bucket : Bucket := {| hits := 1; window_end := 0; blocked_until := 0 |}.

Lemma no_bucket_represents : represents "client" "default" no_bucket empty_world.
Proof. by split_and!; try reflexivity. Qed.

(** Three a minute: the first three of five pass. *)
Lemma requests_limited_witness :
  exists l w', requests "client" "default" 60000 3 0 [0; 5; 10; 5; 1000]%nat empty_world = (Ok l, w') /\ passed l <= 2 * 3 /\
    l = [true; true; true; false; false].
Proof.
  destruct (requests_limited "client" "default" 60000 3 0 [0; 5; 10; 5; 1000]%nat no_bucket empty_world) as (l & w' & Hrun & Hle & Hfresh);
    [lia|reflexivity|lia|exact no_bucket_represents|reflexivity|].
  exists l, w'. split; [exact Hrun|]. split; [exact Hle|]. apply Hfresh; [cbn; lia|cbn; lia|vm_compute; discriminate].
Defined.
