(* ===== verification/Weather.v ===== *)
(** * The weather provider ([apps/watcher/src/weather/open-meteo.provider.ts])

    A snapshot for a location, from the Redis cache or from Open-Meteo. *)

From S2P Require Import Prelude JsNumber Enums Conditions Contracts World Effects RedisService.
From Stdlib Require Import SpecFloat.

(** ** The cache key *)

(** [n] hundredths with two decimals. *)
Definition hundredths (n : Z) : string :=
  pretty (n / 100) +:+ "." +:+ pretty (n mod 100 / 10) +:+ pretty (n mod 10).

(** [x.toFixed(2)]: the nearest number of hundredths, the larger of two in
    absolute value. Coordinates are far below 10^21, where the notation
    would change. *)
Definition toFixed2 (x : number) : string :=
  match x with
  | S754_nan => "NaN"
  | S754_infinity s => if s then "-Infinity" else "Infinity"
  | S754_zero _ => "0.00"
  | S754_finite s m e =>
      let n := if 0 <=? e then Z.pos m * 2 ^ e * 100
               else (200 * Z.pos m + 2 ^ (- e)) / (2 * 2 ^ (- e)) in
      (if s then "-" else "") +:+ hundredths n
  end.

Definition cacheKey (lat lon : number) : string :=
  "weather:" +:+ toFixed2 lat +:+ ":" +:+ toFixed2 lon.

(** ** The upstream *)

(** The fields of [openMeteoCurrentSchema]. *)
Record OpenMeteoCurrent := {
  temperature_2m : number;
  apparent_temperature : number;
  relative_humidity_2m : number;
  wind_speed_10m : number;
  precipitation_ : number;
  weather_code : number;
}.

(** What Open-Meteo answers at an instant for a location; [None] is a body the
    schema refuses. *)
Class WeatherUpstream := upstream : Z -> number -> number -> option OpenMeteoCurrent.

Section Provider.
Context `{WeatherUpstream} (ttl : Z).

(** [redis.getJson] and [redis.setJson] on a cached snapshot; JSON.parse of
    another text throws. *)
Definition getJson (key : string) : M (option WeatherSnapshot) :=
  let* raw := query (cmd_get key) in
  match raw with
  | None => ret None
  | Some (RSnapshot s) => ret (Some s)
  | Some _ => throw (JsError "SyntaxError")
  end.

Definition setJson (key : string) (value : WeatherSnapshot) (ttlSec : Z) : M unit :=
  io (cmd_set_px key (RSnapshot value) (ttlSec * 1000)).

(** One request, retried once after a second; a body that does not parse is a
    failure of its own, not retried. *)
Definition fetch (lat lon : number) : M WeatherSnapshot :=
  let request := query (fun w => upstream (now w) lat lon) in
  let* data := catch request (fun _ => do* sleep 1000 in request) in
  match data with
  | None => throw (JsError "ZodError")
  | Some c =>
      ret {| temperature := temperature_2m c;
             apparentTemp := apparent_temperature c;
             humidity := relative_humidity_2m c;
             windSpeed := wind_speed_10m c;
             precipitation := precipitation_ c;
             weatherCode := weather_code c |}
  end.

Definition getSnapshot (latitude longitude : number) : M WeatherSnapshot :=
  let key := cacheKey latitude longitude in
  let* cached := getJson key in
  match cached with
  | Some s => ret s
  | None =>
      let* snapshot := fetch latitude longitude in
      do* setJson key snapshot ttl in
      ret snapshot
  end.

End Provider.

Example toFixed2_samples :
  (toFixed2 (Num.lit 5223 100), toFixed2 (Num.lit 2101178 100000), toFixed2 (Num.lit (-5) 1000),
   toFixed2 (Num.of_Z (-33)), toFixed2 (Num.lit 1005 1000))
  = ("52.23", "21.01", "-0.01", "-33.00", "1.00").
Proof. vm_compute. reflexivity. Qed.
