(* ===== verification/Outbox.v ===== *)
(** * The transactional outbox and its relay

    [apps/watcher/src/persistence/prisma-outbox.repository.ts],
    [apps/watcher/src/outbox/outbox-relay.service.ts] and the publisher
    [libs/common/src/messaging/rabbit-publisher.service.ts]. *)

From S2P Require Import Prelude JsNumber Enums Contracts Table World Samples Effects RedisService.

(** ** Publisher *)

Definition publish_message (routingKey : string) (message : TriggerFiredEvent) : Message :=
  {| m_exchange := NOTIFICATIONS_EXCHANGE;
     m_routingKey := routingKey;
     m_content := Json message;
     m_headers := {| h_attempts := None; h_eventId := Some (ev_eventId message); h_deadReason := None |};
     m_messageId := Some (ev_eventId message) |}.

Definition accept (m : Message) (w : World) : World :=
  set_broker {| published := published (broker w) ++ [m]; acked := acked (broker w) |} w.

(** Resolves once the broker confirmed. *)
Definition publish (routingKey : string) (message : TriggerFiredEvent) : M unit :=
  exec (accept (publish_message routingKey message)).

(** ** Repository *)

Record PendingOutboxEvent := {
  po_id : string;
  po_eventId : string;
  po_routingKey : string;
  po_event : TriggerFiredEvent;
}.

Definition is_pending (row : OutboxEvent) : bool :=
  match o_publishedAt row with None => true | Some _ => false end.

Definition to_pending (row : OutboxEvent) : PendingOutboxEvent :=
  {| po_id := o_id row; po_eventId := o_eventId row; po_routingKey := o_routingKey row;
     po_event := o_payload row |}.

(** The pending rows in the order the relay takes them. *)
Definition staged (w : World) : list OutboxEvent :=
  order_asc o_createdAt (find_many is_pending (outbox (db w))).

Definition findPending (limit : nat) : M (list PendingOutboxEvent) :=
  query (fun w => map to_pending (take limit (staged w))).

Definition countPending : M nat := query (fun w => count_where is_pending (outbox (db w))).

Definition set_publishedAt (at_ : Z) (row : OutboxEvent) : OutboxEvent :=
  {| o_id := o_id row; o_eventId := o_eventId row; o_routingKey := o_routingKey row;
     o_payload := o_payload row; o_createdAt := o_createdAt row; o_publishedAt := Some at_ |}.

Definition mark (ids : list string) (at_ : Z) (w : World) : World :=
  set_db (set_outbox (update_many (fun row => bool_decide (o_id row ∈ ids)) (set_publishedAt at_)
                        (outbox (db w))).1 (db w)) w.

Definition markPublished (ids : list string) : M unit :=
  match ids with
  | [] => ret tt
  | _ => let* at_ := get_now in exec (mark ids at_)
  end.

Definition published_before (before : Z) (row : OutboxEvent) : bool :=
  match o_publishedAt row with Some p => p <? before | None => false end.

Definition prunePublished (before : Z) : M nat :=
  io (fun w =>
    let r := delete_many (published_before before) (outbox (db w)) in
    (inl r.2, set_db (set_outbox r.1 (db w)) w)).

(** ** Relay *)

Section Relay.
Context `{UuidSupply} (batchSize : nat).

Definition RELAY_LOCK_KEY : string := "watcher:outbox:lock".
Definition RELAY_LOCK_TTL_SEC : Z := 60.
Definition RETENTION_HOURS : Z := 24.

(** The [for] loop of [publishPending]: the ids handed over before the first
    failure, at which it breaks. *)
Fixpoint publish_rows (pending : list PendingOutboxEvent) (published : list string) : M (list string) :=
  match pending with
  | [] => ret published
  | row :: rest =>
      let* continue := catch (do* publish (po_routingKey row) (po_event row) in ret true)
                             (fun _ => ret false) in
      if (continue : bool) then publish_rows rest (published ++ [po_id row]) else ret published
  end.

Definition reportBacklog : M unit := catch (do* countPending in ret tt) (fun _ => ret tt).

Definition publishPending : M nat :=
  let* pending := findPending batchSize in
  match pending with
  | [] => ret 0%nat
  | _ =>
      let* published := publish_rows pending [] in
      do* markPublished published in
      do* reportBacklog in
      ret (length published)
  end.

Definition flush : M nat :=
  let* token := acquireLock RELAY_LOCK_KEY RELAY_LOCK_TTL_SEC in
  match token with
  | None => ret 0%nat
  | Some token => finally publishPending (do* releaseLock RELAY_LOCK_KEY token in ret tt)
  end.

Definition runRelay : M unit := catch (do* flush in ret tt) (fun _ => ret tt).

Definition pruneRelayed : M unit :=
  let* at_ := get_now in
  do* prunePublished (at_ - RETENTION_HOURS * 3600000) in
  ret tt.

End Relay.

(** ** No staged event is lost *)

(** The message a row owes the broker. *)
Definition row_message (row : OutboxEvent) : Message :=
  publish_message (o_routingKey row) (o_payload row).

(** The broker accepted the row's message, or the row is still staged. *)
Definition accounted (row : OutboxEvent) (w : World) : Prop :=
  row_message row ∈ published (broker w) \/ (row ∈ outbox (db w) /\ is_pending row = true).

Section Safety.
Context `{UuidSupply}.

(** A string the supply has handed out. *)
Definition drawn (w : World) (s : string) : Prop := exists i, s = uuid i /\ (i < uuids w)%nat.

Lemma drawn_mono w w' s : (uuids w <= uuids w')%nat -> drawn w s -> drawn w' s.
Proof. intros Hu (i & ? & ?). exists i. split; [done|lia]. Qed.

(** The keys of the table: ids are distinct, and ids and event ids were drawn
    from the supply. *)
Definition outbox_keys (w : World) : Prop :=
  NoDup (o_id <$> outbox (db w)) /\
  (forall row, row ∈ outbox (db w) -> drawn w (o_id row) /\ drawn w (o_eventId row)).

(** What the relay owes every world it runs in: rows keep their identity,
    what the broker accepted stays accepted, and a row leaves the staged set
    only once the broker accepted its message. *)
Definition relay_safe (w w' : World) : Prop :=
  outbox_keys w ->
  outbox_keys w' /\
  published (broker w) `prefix_of` published (broker w') /\
  (forall row, is_pending row = true -> row ∈ outbox (db w) -> accounted row w').

Lemma outbox_keys_same w w' :
  outbox (db w') = outbox (db w) -> (uuids w <= uuids w')%nat -> outbox_keys w -> outbox_keys w'.
Proof.
  intros Hdb Hu [Hnd Hids]. unfold outbox_keys. rewrite Hdb. split; [done|].
  intros row Hrow. destruct (Hids row Hrow). eauto using drawn_mono.
Qed.

(** A step that leaves the table alone is safe. *)
Lemma relay_safe_outbox w w' :
  outbox (db w') = outbox (db w) -> (uuids w <= uuids w')%nat ->
  published (broker w) `prefix_of` published (broker w') -> relay_safe w w'.
Proof.
  intros Hdb Hu Hp Hkeys. split_and!; [by eapply outbox_keys_same|done|].
  intros row Hrow Hin. right. by rewrite Hdb.
Qed.

Lemma relay_safe_same w w' :
  db w' = db w -> (uuids w <= uuids w')%nat ->
  published (broker w) `prefix_of` published (broker w') -> relay_safe w w'.
Proof. intros Hdb. apply relay_safe_outbox. by rewrite Hdb. Qed.

#[global] Instance relay_safe_order : WorldOrder relay_safe.
Proof.
  split; [split|].
  - intros w. by apply relay_safe_same.
  - intros w1 w2 w3 H12 H23 Hnd. destruct (H12 Hnd) as (Hnd2 & Hp2 & Ha2).
    destruct (H23 Hnd2) as (Hnd3 & Hp3 & Ha3). split_and!; [done|by etrans|].
    intros row Hrow Hin. destruct (Ha2 row Hrow Hin) as [Hmsg|[Hin2 _]]; [|by apply Ha3].
    left. destruct Hp3 as [l ->]. set_solver.
  - intros w. destruct (tick_spec w) as (_ & _ & Hu & Hdb & Hb & _).
    apply relay_safe_same; [done|lia|by rewrite Hb].
Qed.

(** Calls that write neither the database nor the broker. *)
Lemma relay_safe_redis w r : relay_safe w (set_redis r w).
Proof. by apply relay_safe_same. Qed.

Lemma acquireLock_safe key ttl : keeps relay_safe (acquireLock key ttl).
Proof.
  apply keeps_bind; [apply _|intros w; apply relay_safe_same; cbn; [done|lia|done]|]. intros token.
  apply keeps_bind; [apply _| |keeps_tac]. apply keeps_io; [apply _|]. intros w.
  unfold cmd_set_nx. case_all; reflexivity || apply relay_safe_redis.
Qed.

Lemma releaseLock_safe key token : keeps relay_safe (releaseLock key token).
Proof.
  apply keeps_io; [apply _|]. intros w. unfold RELEASE_IF_OWNED. case_all; reflexivity || apply relay_safe_redis.
Qed.

Lemma mark_keys ids at_ w : outbox_keys w -> outbox_keys (mark ids at_ w).
Proof.
  intros [Hnd Hids]. split.
  - cbn [mark db set_db outbox set_outbox]. by rewrite update_many_field.
  - intros row (row0 & Hin & ->)%elem_of_update_many. specialize (Hids row0 Hin). by case_match.
Qed.

(** Marking rows whose messages the broker accepted is safe. *)
Lemma mark_safe ids at_ w :
  (forall row, row ∈ outbox (db w) -> is_pending row = true -> o_id row ∈ ids ->
    row_message row ∈ published (broker w)) ->
  relay_safe w (mark ids at_ w).
Proof.
  intros Hsent Hkeys. split_and!; [by apply mark_keys|done|].
  - intros row Hrow Hin. destruct (decide (o_id row ∈ ids)) as [Hid|Hid]; [left; by apply Hsent|].
    right. split; [|done]. cbn [mark db set_db outbox set_outbox]. apply elem_of_update_many.
    exists row. by rewrite bool_decide_false.
Qed.

Lemma markPublished_safe ids w :
  (forall row, row ∈ outbox (db w) -> is_pending row = true -> o_id row ∈ ids ->
    row_message row ∈ published (broker w)) ->
  relay_safe w (markPublished ids w).2.
Proof.
  intros Hsent. unfold markPublished. destruct ids as [|i ids]; [done|].
  unfold bind, get_now, exec. destruct (io _ w) as [r w'] eqn:E. cbn.
  destruct (tick_spec w) as (_ & _ & _ & Hdb & Hb & _).
  assert (relay_safe w (tick w)) by apply wo_tick.
  apply io_effect in E as [[-> _]|[-> _]]; [done|]. cbn.
  etrans; [done|]. apply mark_safe. by rewrite Hdb, Hb.
Qed.

Definition pending_message (row : PendingOutboxEvent) : Message :=
  publish_message (po_routingKey row) (po_event row).

(** The loop leaves the database alone and returns only accepted rows, a
    prefix of the batch; it never throws. *)
Lemma publish_rows_spec pending acc w r w' :
  publish_rows pending acc w = (r, w') ->
  db w' = db w /\ uuids w' = uuids w /\ published (broker w) `prefix_of` published (broker w') /\
  (forall e, r <> Throw e) /\
  (forall ids, r = Ok ids -> exists k, ids = acc ++ map po_id (take k pending) /\
     forall row, row ∈ take k pending -> pending_message row ∈ published (broker w')).
Proof.
  revert acc w r w'. induction pending as [|row rest IH]; intros acc w r w'; cbn [publish_rows].
  { intros [= <- <-]. split_and!; [done|done|done|done|]. intros ids [= <-]. exists 0%nat. cbn.
    split; [by rewrite app_nil_r|set_solver]. }
  intros Hrun. unfold bind, catch, publish, exec, bind in Hrun.
  destruct (io _ w) as [r1 w1] eqn:Hio.
  destruct (tick_spec w) as (_ & _ & Hu & Hdb & Hb & _).
  assert (forall r', (Ok acc, w1) = (r, r') \/ (Crash, w1) = (r, r') ->
            db w1 = db w -> uuids w1 = uuids w -> published (broker w) `prefix_of` published (broker w1) ->
            db r' = db w /\ uuids r' = uuids w /\ published (broker w) `prefix_of` published (broker r') /\
            (forall e, r <> Throw e) /\
            (forall ids, r = Ok ids -> exists k, ids = acc ++ map po_id (take k (row :: rest)) /\
               forall row', row' ∈ take k (row :: rest) -> pending_message row' ∈ published (broker r'))) as Hstop.
  { intros r' [[= <- <-]|[= <- <-]] H1 H2 H3; split_and!; try done.
    intros ids [= <-]. exists 0%nat. cbn. split; [by rewrite app_nil_r|set_solver]. }
  apply io_effect in Hio as [[-> Hno]|[-> Hok]]; cbn [snd].
  { destruct r1 as [u| |]; [by destruct (Hno u)|..]; cbn in Hrun; apply Hstop; rewrite ?Hb; auto. }
  assert (published (broker w) `prefix_of` published (broker (accept (pending_message row) (tick w)))) as Hpre.
  { cbn. rewrite Hb. by eexists. }
  destruct r1 as [u| |]; cbn in Hrun; [|apply Hstop; auto..].
  apply IH in Hrun as (Hdb' & Hu' & Hp' & Hth & Hret). split_and!; [by rewrite Hdb'|by rewrite Hu'|by etrans|done|].
  intros ids Hids. destruct (Hret ids Hids) as (k & -> & Hall). exists (S k). cbn [take map].
  split; [by rewrite <- app_assoc|]. intros row' [->|Hin]%elem_of_cons; [|by apply Hall].
  destruct Hp' as [l ->]. cbn. set_solver.
Qed.

(** A pending row is determined by its id. *)
Lemma staged_by_id w row row' :
  outbox_keys w -> row ∈ outbox (db w) -> row' ∈ staged w -> o_id row = o_id row' -> row = row'.
Proof.
  intros [Hnd _] Hin Hst Hid. unfold staged in Hst. rewrite elem_of_order_asc, elem_of_find_many in Hst.
  destruct Hst as [Hin' _]. apply list_elem_of_lookup in Hin as [i Hi], Hin' as [j Hj].
  assert (i = j) as <-; [|congruence].
  eapply NoDup_lookup; [exact Hnd|by rewrite list_lookup_fmap, Hi|by rewrite list_lookup_fmap, Hj, Hid].
Qed.

Lemma relay_safe_intro w w' : (outbox_keys w -> relay_safe w w') -> relay_safe w w'.
Proof. intros Hr Hk. by apply Hr. Qed.

Lemma findPending_run batchSize w pending w1 :
  findPending batchSize w = (Ok pending, w1) ->
  pending = map to_pending (take batchSize (staged w)) /\ db w1 = db w.
Proof.
  destruct (tick_spec w) as (_ & _ & _ & Hdb & _). intros [[-> Hno]|[-> Hok]]%io_effect.
  - by destruct (Hno pending).
  - specialize (Hok pending eq_refl). injection Hok as <-. unfold staged. cbn. by rewrite Hdb.
Qed.

(** What the loop hands to [markPublished] are rows the broker accepted. *)
Lemma publish_rows_accepted batchSize w w1 w2 ids :
  outbox_keys w -> db w1 = db w ->
  publish_rows (map to_pending (take batchSize (staged w))) [] w1 = (Ok ids, w2) ->
  forall row, row ∈ outbox (db w2) -> o_id row ∈ ids -> row_message row ∈ published (broker w2).
Proof.
  intros Hkeys Hdb1 Hrun row Hin Hid. apply publish_rows_spec in Hrun as (Hdb2 & _ & _ & _ & Hret).
  destruct (Hret ids eq_refl) as (k & -> & Hall). cbn in Hid.
  apply list_elem_of_fmap in Hid as (p & Hpid & Hp). specialize (Hall p Hp).
  apply (subseteq_take k), list_elem_of_fmap in Hp as (row' & -> & Hrow').
  assert (row = row') as ->; [|done].
  apply (staged_by_id w); [done|congruence|by eapply subseteq_take|done].
Qed.

Lemma publishPending_safe batchSize : keeps relay_safe (publishPending batchSize).
Proof.
  intros w. apply relay_safe_intro. intros Hkeys. unfold publishPending.
  apply bind_run; [apply _|apply (keeps_query relay_safe)|]. intros pending w1 [-> Hdb1]%findPending_run.
  destruct (map to_pending _) as [|p0 ps] eqn:Hb; [reflexivity|]. rewrite <- Hb. clear p0 ps Hb.
  apply bind_run; [apply _| |].
  { destruct (publish_rows _ _ w1) as [r w2] eqn:E. apply publish_rows_spec in E as (Hdb & Hu & Hp & _).
    apply relay_safe_same; [done|cbn; lia|done]. }
  intros ids w2 Hrun. pose proof (publish_rows_accepted _ _ _ _ _ Hkeys Hdb1 Hrun) as Hsent.
  apply bind_run; [apply _|apply markPublished_safe; eauto|]. intros _ w3 _.
  apply (keeps_bind relay_safe); unfold reportBacklog, countPending; keeps_tac.
Qed.

Lemma flush_safe batchSize : keeps relay_safe (flush batchSize).
Proof.
  apply keeps_bind; [apply _|apply acquireLock_safe|]. intros [token|]; [|keeps_tac].
  apply keeps_finally; [apply _|apply publishPending_safe|].
  apply keeps_bind; [apply _|apply releaseLock_safe|keeps_tac].
Qed.

Lemma runRelay_safe batchSize : keeps relay_safe (runRelay batchSize).
Proof. unfold runRelay. keeps_tac. apply flush_safe. Qed.

(** Only rows already relayed are swept. *)
Lemma sweep_safe before w :
  relay_safe w (set_db (set_outbox (delete_many (published_before before) (outbox (db w))).1 (db w)) w).
Proof.
  intros [Hnd Hids]. split_and!; [split|done|].
  - cbn. eapply sublist_NoDup; [exact Hnd|]. apply fmap_sublist, find_many_sublist.
  - intros row [Hin _]%elem_of_delete_many. eauto.
  - intros row Hrow Hin. right. split; [|done]. apply elem_of_delete_many. split; [done|].
    unfold is_pending, published_before in *. by destruct (o_publishedAt row).
Qed.

Lemma pruneRelayed_safe : keeps relay_safe pruneRelayed.
Proof. unfold pruneRelayed, prunePublished. keeps_tac. apply keeps_io; [apply _|]. intros w. apply sweep_safe. Qed.

End Safety.

(** ** A pass without faults, and draining *)

Definition accept_all (ms : list Message) (w : World) : World :=
  set_broker {| published := published (broker w) ++ ms; acked := acked (broker w) |} w.

(** The world after one pass that takes [k] rows. *)
Definition relayed (k : nat) (w : World) : World :=
  match take k (staged w) with
  | [] => w
  | rows => mark (o_id <$> rows) (now w) (accept_all (row_message <$> rows) w)
  end.

Lemma publish_rows_ok pending acc w :
  oracle w = [] ->
  publish_rows pending acc w = (Ok (acc ++ map po_id pending), accept_all (map pending_message pending) w).
Proof.
  revert acc w. induction pending as [|row rest IH]; intros acc w Ho; cbn [publish_rows map].
  { rewrite app_nil_r. unfold accept_all. rewrite app_nil_r. by destruct w as [? ? ? ? ? [] ?]. }
  erewrite bind_ok; [|eapply catch_ok; erewrite bind_ok; [done|by apply exec_ok]].
  cbn. rewrite IH by done. rewrite <- app_assoc. unfold accept_all, accept. cbn. by rewrite <- app_assoc.
Qed.

Lemma publishPending_ok batchSize w :
  oracle w = [] ->
  publishPending batchSize w = (Ok (length (take batchSize (staged w))), relayed batchSize w).
Proof.
  intros Ho. unfold publishPending, relayed. erewrite bind_ok; [|by apply query_ok].
  destruct (take batchSize (staged w)) as [|r rows] eqn:Hb; [done|].
  change (map to_pending (r :: rows)) with (to_pending r :: map to_pending rows). cbv iota.
  change (to_pending r :: map to_pending rows) with (map to_pending (r :: rows)).
  erewrite bind_ok; [|by apply publish_rows_ok]. rewrite app_nil_l, !map_map.
  unfold markPublished. cbn [map]. erewrite bind_ok; [|unfold bind, get_now; by apply exec_ok].
  erewrite bind_ok; [|eapply catch_ok; erewrite bind_ok; [done|by apply query_ok]].
  unfold ret. by rewrite length_cons, length_map.
Qed.

Lemma relayed_frame k w :
  oracle (relayed k w) = oracle w /\ redis (relayed k w) = redis w /\ now (relayed k w) = now w.
Proof. unfold relayed. by case_match. Qed.

Lemma relayed_published k w :
  published (broker (relayed k w)) = published (broker w) ++ (row_message <$> take k (staged w)).
Proof. unfold relayed. destruct (take k (staged w)); cbn; [by rewrite app_nil_r|done]. Qed.

(** Marking the first rows of the staged list leaves the rest, in order. *)
Lemma relayed_staged k w :
  NoDup (o_id <$> outbox (db w)) -> staged (relayed k w) = drop k (staged w).
Proof.
  intros Hnd. unfold relayed. destruct (take k (staged w)) as [|r rows] eqn:Ht.
  { rewrite <- (take_drop k (staged w)) at 1. by rewrite Ht. }
  rewrite <- Ht. clear r rows Ht. set (ids := o_id <$> take k (staged w)).
  rewrite <- (find_many_drop o_id).
  - fold ids. generalize ids as l. clear ids. intros ids. unfold staged.
    rewrite <- order_asc_filter, find_many_find_many. f_equal. cbn. unfold find_many. clear Hnd.
    induction (outbox (db w)) as [|row t IH]; cbn; [done|].
    destruct (bool_decide (o_id row ∈ ids)); cbn; destruct (is_pending row); cbn; by rewrite IH.
  - unfold staged. assert (find_many is_pending (outbox (db w)) `sublist_of` outbox (db w)) by apply find_many_sublist.
    rewrite (order_asc_perm o_createdAt). eapply sublist_NoDup; [exact Hnd|by apply fmap_sublist].
Qed.

Section Drain.
Context `{UuidSupply}.

Lemma relayed_keys k w : outbox_keys w -> outbox_keys (relayed k w).
Proof.
  intros Hkeys. unfold relayed. destruct (take k (staged w)) as [|r rows]; [done|]. by apply mark_keys.
Qed.

(** A quiet world: calls answer, the relay lock is free, keys are keys. *)
Definition quiet (w : World) : Prop :=
  oracle w = [] /\ peek RELAY_LOCK_KEY w = None /\ outbox_keys w.

(** The world with the relay lock taken, and the world after a flush. *)
Definition relay_locked (w : World) : World :=
  put RELAY_LOCK_KEY (RText (uuid (uuids w))) (Some (now w + RELAY_LOCK_TTL_SEC * 1000)) (set_uuids (S (uuids w)) w).
Definition flushed (batchSize : nat) (w : World) : World := cmd_del RELAY_LOCK_KEY (relayed batchSize (relay_locked w)).

Lemma flush_run batchSize w :
  oracle w = [] -> peek RELAY_LOCK_KEY w = None ->
  flush batchSize w = (Ok (length (take batchSize (staged w))), flushed batchSize w).
Proof.
  intros Ho Hfree. set (w1 := relay_locked w). destruct (relayed_frame batchSize w1) as (Ho2 & Hr2 & Hn2).
  unfold flush. erewrite bind_ok; [|by apply acquireLock_ok]. fold (relay_locked w). fold w1.
  eapply finally_ok; [exact (publishPending_ok batchSize w1 Ho)|]. erewrite bind_ok; [reflexivity|].
  apply (releaseLock_ok _ _ _ (now w + RELAY_LOCK_TTL_SEC * 1000)); [by rewrite Ho2| |].
  - rewrite Hn2. cbn. unfold RELAY_LOCK_TTL_SEC. lia.
  - rewrite Hr2. apply lookup_insert_eq.
Qed.

Lemma flushed_quiet batchSize w : quiet w -> quiet (flushed batchSize w).
Proof.
  intros (Ho & Hfree & Hkeys). destruct (relayed_frame batchSize (relay_locked w)) as (Ho2 & _). split_and!.
  - unfold flushed, cmd_del. cbn [set_redis oracle]. by rewrite Ho2.
  - unfold peek, flushed, cmd_del. cbn. by rewrite lookup_delete_eq.
  - apply relayed_keys. eapply outbox_keys_same; [..|exact Hkeys]; [done|cbn; lia].
Qed.

Lemma runRelay_quiet batchSize w :
  quiet w ->
  let w' := (runRelay batchSize w).2 in
  quiet w' /\ staged w' = drop batchSize (staged w) /\
  published (broker w') = published (broker w) ++ (row_message <$> take batchSize (staged w)).
Proof.
  intros Hq. pose proof (flushed_quiet batchSize w Hq) as Hq'. destruct Hq as (Ho & Hfree & Hkeys).
  assert (runRelay batchSize w = (Ok tt, flushed batchSize w)) as ->.
  { eapply catch_ok. by rewrite (bind_ok _ _ _ _ _ (flush_run batchSize w Ho Hfree)). }
  cbv zeta. cbn [snd]. split_and!; [done|..].
  - exact (relayed_staged batchSize (relay_locked w) (proj1 Hkeys)).
  - exact (relayed_published batchSize (relay_locked w)).
Qed.

(** Passes in a row take the staged rows batch by batch. *)
Lemma runRelay_passes batchSize n w :
  quiet w ->
  let w' := Nat.iter n (fun w => (runRelay batchSize w).2) w in
  quiet w' /\ staged w' = drop (n * batchSize) (staged w) /\
  published (broker w') = published (broker w) ++ (row_message <$> take (n * batchSize) (staged w)).
Proof.
  cbv zeta. revert w. induction n as [|n IH]; intros w Hq; [by rewrite app_nil_r|].
  rewrite Nat.iter_succ_r. destruct (runRelay_quiet batchSize w Hq) as (Hq' & Hs & Hp).
  destruct (IH _ Hq') as (Hq'' & -> & ->). split_and!; [done|..]; rewrite Hs.
  - by rewrite drop_drop.
  - rewrite Hp, <- app_assoc, <- fmap_app. do 2 f_equal. cbn [Nat.mul]. by rewrite take_take_drop.
Qed.

(** C27. Liveness and order of the relay: once calls answer again and no other
    relay holds the lock, every pass hands over one more batch, so [n] passes
    of [batchSize] rows drain a backlog of at most [n * batchSize]; the broker
    then holds exactly the backlog's messages, each once, oldest first, after
    what it held before. *)
Theorem relay_drains batchSize n w :
  quiet w -> (length (staged w) <= n * batchSize)%nat ->
  let w' := Nat.iter n (fun w => (runRelay batchSize w).2) w in
  staged w' = [] /\ published (broker w') = published (broker w) ++ (row_message <$> staged w).
Proof.
  intros Hq Hlen. destruct (runRelay_passes batchSize n w Hq) as (_ & Hs & Hp). cbv zeta.
  by rewrite Hs, Hp, drop_ge, take_ge.
Qed.

End Drain.

(** Two staged rows, inserted newest first. *)
Definition sample_row (i : nat) (channel : Channel) (createdAt : Z) : OutboxEvent :=
  {| o_id := sample_uuid i; o_eventId := sample_uuid 2; o_routingKey := routingKeyFor channel;
     o_payload := sample_event (sample_uuid 2); o_createdAt := createdAt; o_publishedAt := None |}.

Definition sample_outbox_world : World :=
  {| now := 100; uuids := 3; oracle := [];
     db := set_outbox [sample_row 0 TELEGRAM 20; sample_row 1 EMAIL 10] empty_db; redis := ∅;
     broker := {| published := []; acked := [] |}; delivered := [] |}.

Lemma sample_outbox_keys : outbox_keys (H:=sample_uuids) sample_outbox_world.
Proof.
  split; [apply (bool_decide_unpack _); vm_compute; exact I|].
  intros row [->|[->|[]%elem_of_nil]%elem_of_cons]%elem_of_cons;
    (split; [|exists 2%nat; split; [done|cbn; lia]]); [exists 0%nat|exists 1%nat]; (split; [done|cbn; lia]).
Qed.

Lemma relay_drains_witness :
  staged (Nat.iter 2 (fun w => (runRelay (H:=sample_uuids) 1 w).2) sample_outbox_world) = [] /\
  map m_routingKey (published (broker (Nat.iter 2 (fun w => (runRelay (H:=sample_uuids) 1 w).2) sample_outbox_world)))
    = [routingKeyFor EMAIL; routingKeyFor TELEGRAM].
Proof.
  destruct (relay_drains (H:=sample_uuids) 1 2 sample_outbox_world) as [Hdone Hpub].
  - split_and!; [reflexivity|reflexivity|apply sample_outbox_keys].
  - vm_compute. lia.
  - split; [exact Hdone|]. rewrite Hpub. reflexivity.
Defined.
