(* ===== verification/Watcher.v ===== *)
(** * The watcher

    [apps/watcher/src/persistence/prisma-watched-trigger.repository.ts] and
    [apps/watcher/src/watcher.service.ts]: which triggers a shard polls, how
    one poll decides, and the transaction that records a firing together with
    the events it owes. *)

From S2P Require Import Prelude JsNumber Enums Conditions QuietHours TriggerStateMachine Location Contracts Table World Samples Effects RedisService Weather Outbox.

(** ** Ports ([apps/watcher/src/ports/watched-trigger.repository.ts]) *)

Record WatchedCondition := {
  wc_id : string;
  wc_metric : Metric;
  wc_operator : Operator;
  wc_threshold : number;
}.

#[global] Instance WatchedCondition_spec : ConditionSpec WatchedCondition :=
  {| metric := wc_metric; operator := wc_operator; threshold := wc_threshold |}.

Record WatchedTrigger := {
  wt_id : string;
  wt_userId : string;
  wt_name : string;
  wt_city : string;
  wt_latitude : number;
  wt_longitude : number;
  wt_conditionLogic : ConditionLogic;
  wt_conditions : list WatchedCondition;
  wt_channels : list Channel;
  wt_cooldownMin : Z;
  wt_state : TriggerState;
  wt_lastFiredAt : option Z;
  wt_quietHours : option QuietHours;
}.

(** Trigger-level fields a cycle may write. *)
Record TriggerStatePatch := {
  patch_lastEvaluatedAt : Z;
  patch_state : option TriggerState;
  patch_lastFiredAt : option Z;
}.

Record OutboxMessage := {
  om_eventId : string;
  om_routingKey : string;
  om_event : TriggerFiredEvent;
}.

(** ** Repository *)

Module Repository.

Definition to_condition (c : TriggerCondition) : WatchedCondition :=
  {| wc_id := c_id c; wc_metric := c_metric c; wc_operator := c_operator c; wc_threshold := c_threshold c |}.

(** The projection of a row with its conditions and its user. *)
Definition project (d : Database) (row : Trigger) (user : User) : WatchedTrigger :=
  {| wt_id := t_id row; wt_userId := t_userId row; wt_name := t_name row; wt_city := t_city row;
     wt_latitude := t_latitude row; wt_longitude := t_longitude row;
     wt_conditionLogic := t_conditionLogic row;
     wt_conditions := map to_condition
       (order_asc c_order (find_many (fun c => bool_decide (c_triggerId c = t_id row)) (triggerConditions d)));
     wt_channels := t_channels row; wt_cooldownMin := t_cooldownMin row; wt_state := t_state row;
     wt_lastFiredAt := t_lastFiredAt row;
     wt_quietHours := Some {| start := u_quietHoursStart user; end_ := u_quietHoursEnd user;
                              timezone := u_timezone user |} |}.

Definition user_of (d : Database) (row : Trigger) : option User :=
  find_first (fun u => bool_decide (u_id u = t_userId row)) (users d).

Definition active_in (buckets : option (list Z)) (row : Trigger) : bool :=
  t_isActive row &&
  match buckets with Some bs => bool_decide (t_locationBucket row ∈ bs) | None => true end.

(** The rows in insertion order (the query names no order). A row without its
    user is what the ORM reports as an inconsistent result. *)
Definition active (buckets : option (list Z)) (d : Database) : option (list WatchedTrigger) :=
  mapM (fun row => project d row <$> user_of d row) (find_many (active_in buckets) (triggers d)).

Definition findActive (buckets : option (list Z)) : M (list WatchedTrigger) :=
  io (fun w => match active buckets (db w) with
               | Some l => (inl l, w)
               | None => (inr (JsError "Inconsistent query result"), w)
               end).

Definition observe (o : EvaluatedCondition WatchedCondition) (c : TriggerCondition) : TriggerCondition :=
  {| c_id := c_id c; c_triggerId := c_triggerId c; c_metric := c_metric c; c_operator := c_operator c;
     c_threshold := c_threshold c; c_order := c_order c;
     c_lastObservedValue := Some (observedValue o); c_lastMatched := Some (matched o) |}.

Definition patch_trigger (p : TriggerStatePatch) (t : Trigger) : Trigger :=
  {| t_id := t_id t; t_userId := t_userId t; t_name := t_name t; t_city := t_city t;
     t_latitude := t_latitude t; t_longitude := t_longitude t; t_conditionLogic := t_conditionLogic t;
     t_channels := t_channels t; t_cooldownMin := t_cooldownMin t; t_isActive := t_isActive t;
     t_state := default (t_state t) (patch_state p);
     t_lastFiredAt := match patch_lastFiredAt p with Some f => Some f | None => t_lastFiredAt t end;
     t_lastEvaluatedAt := Some (patch_lastEvaluatedAt p);
     t_locationBucket := t_locationBucket t; t_createdAt := t_createdAt t |}.

(** The statements of one transaction, in order; [None] when one of them
    addresses a record that is gone, which rolls all of them back. *)
Fixpoint write_observations (observations : list (EvaluatedCondition WatchedCondition))
    (t : list TriggerCondition) : option (list TriggerCondition) :=
  match observations with
  | [] => Some t
  | o :: rest =>
      t' ← update_one (fun c => bool_decide (c_id c = wc_id (base o))) (observe o) t;
      write_observations rest t'
  end.

Definition writes (triggerId : string) (observations : list (EvaluatedCondition WatchedCondition))
    (patch : TriggerStatePatch) (d : Database) : option Database :=
  cs ← write_observations observations (triggerConditions d);
  ts ← update_one (fun t => bool_decide (t_id t = triggerId)) (patch_trigger patch) (triggers d);
  Some (set_triggers ts (set_triggerConditions cs d)).

Definition recordObservation (triggerId : string)
    (observations : list (EvaluatedCondition WatchedCondition)) (patch : TriggerStatePatch) : M unit :=
  io (fun w => match writes triggerId observations patch (db w) with
               | Some d => (inl tt, set_db d w)
               | None => (inr RecordNotFound, w)
               end).

Section Commit.
Context `{UuidSupply}.

(** One row of [createMany] with [skipDuplicates]: a row whose (eventId,
    routingKey) is taken is left out. *)
Definition createOne (m : OutboxMessage) (w : World) : World :=
  let row := {| o_id := uuid (uuids w); o_eventId := om_eventId m; o_routingKey := om_routingKey m;
                o_payload := om_event m; o_createdAt := now w; o_publishedAt := None |} in
  let same r := bool_decide (o_eventId r = om_eventId m) && bool_decide (o_routingKey r = om_routingKey m) in
  match create same row (outbox (db w)) with
  | Some t => set_uuids (S (uuids w)) (set_db (set_outbox t (db w)) w)
  | None => w
  end.

Definition createMany (messages : list OutboxMessage) (w : World) : World :=
  fold_left (fun w m => createOne m w) messages w.

Definition commitFire (triggerId : string)
    (observations : list (EvaluatedCondition WatchedCondition)) (patch : TriggerStatePatch)
    (messages : list OutboxMessage) : M unit :=
  io (fun w => match writes triggerId observations patch (db w) with
               | Some d => (inl tt, createMany messages (set_db d w))
               | None => (inr RecordNotFound, w)
               end).

End Commit.

End Repository.

(** ** Service *)

Section Service.
Context `{UuidSupply} `{Intl} `{WeatherUpstream}.
Context (shard : ShardConfig) (weatherTtl : Z) (batchSize : nat).

Definition cycleLockKey (s : ShardConfig) : string :=
  if 1 <? count s then "watcher:cycle:lock:" +:+ pretty (index s) else "watcher:cycle:lock".

Definition CYCLE_LOCK_TTL_SEC : Z := 120.

(** A Redis outage answers "no". *)
Definition renewLock (token : string) : M bool :=
  catch (extendLock (cycleLockKey shard) token CYCLE_LOCK_TTL_SEC) (fun _ => ret false).

(** The map of [groupByLocation], in insertion order. *)
Fixpoint push_group (key : string) (t : WatchedTrigger)
    (m : list (string * list WatchedTrigger)) : list (string * list WatchedTrigger) :=
  match m with
  | [] => [(key, [t])]
  | (k, bucket) :: m' => if decide (k = key) then (k, bucket ++ [t]) :: m' else (k, bucket) :: push_group key t m'
  end.

Definition wt_key (t : WatchedTrigger) : string := locationKey (wt_latitude t) (wt_longitude t).

Definition groupByLocation (ts : list WatchedTrigger) : list (string * list WatchedTrigger) :=
  fold_left (fun m t => push_group (wt_key t) t m) ts [].

Definition state_input (t : WatchedTrigger) : TriggerStateInput :=
  {| state := wt_state t; lastFiredAt := wt_lastFiredAt t; cooldownMin := wt_cooldownMin t |}.

Definition fired_condition (r : EvaluatedCondition WatchedCondition) : FiredCondition :=
  {| fc_metric := wc_metric (base r); fc_operator := wc_operator (base r);
     fc_threshold := wc_threshold (base r); fc_observedValue := observedValue r |}.

Definition fired_event (trigger : WatchedTrigger) (results : list (EvaluatedCondition WatchedCondition))
    (eventId : string) (firedAt : Z) : TriggerFiredEvent :=
  {| ev_eventId := eventId; ev_triggerId := wt_id trigger; ev_userId := wt_userId trigger;
     ev_triggerName := wt_name trigger; ev_city := wt_city trigger;
     ev_conditions := map fired_condition results; ev_conditionLogic := wt_conditionLogic trigger;
     ev_channels := wt_channels trigger; ev_firedAt := firedAt; ev_test := None |}.

Definition fire_messages (event : TriggerFiredEvent) (channels : list Channel) : list OutboxMessage :=
  map (fun channel => {| om_eventId := ev_eventId event; om_routingKey := routingKeyFor channel; om_event := event |})
      channels.

Definition fire (trigger : WatchedTrigger) (results : list (EvaluatedCondition WatchedCondition))
    (evaluatedAt : Z) : M unit :=
  let* eventId := randomUUID in
  let* firedAt := get_now in
  let event := fired_event trigger results eventId firedAt in
  let messages := fire_messages event (wt_channels trigger) in
  let* lastFiredAt := get_now in
  do* Repository.commitFire (wt_id trigger) results
        {| patch_lastEvaluatedAt := evaluatedAt; patch_state := Some FIRED;
           patch_lastFiredAt := Some lastFiredAt |} messages in
  do* flush batchSize in
  ret tt.

Definition processTrigger (trigger : WatchedTrigger) (snapshot : WeatherSnapshot) : M unit :=
  let evaluation := evaluateConditions snapshot (wt_conditions trigger) (wt_conditionLogic trigger) in
  let* evaluatedAt := get_now in
  match decide_ (state_input trigger) (all_matched evaluation) evaluatedAt (wt_quietHours trigger) with
  | None => throw RangeError
  | Some FIRE => fire trigger (results evaluation) evaluatedAt
  | Some decision =>
      Repository.recordObservation (wt_id trigger) (results evaluation)
        {| patch_lastEvaluatedAt := evaluatedAt;
           patch_state := match decision with REARM => Some ARMED | _ => None end;
           patch_lastFiredAt := None |}
  end.

(** One upstream call and the triggers that share it; a failed call skips the
    location. *)
Definition pollLocation (group : list WatchedTrigger) : M unit :=
  match group with
  | [] => ret tt
  | t0 :: _ =>
      let* snapshot := catch (let* s := getSnapshot weatherTtl (wt_latitude t0) (wt_longitude t0) in ret (Some s))
                             (fun _ => ret None) in
      match snapshot with
      | None => ret tt
      | Some snapshot => for_each group (fun trigger => processTrigger trigger snapshot)
      end
  end.

(** The queue of locations, taken one after another while the lock is held.
    [held] are the answers of [heldLock()], what the renewals said so far;
    past its end the lock is held. The workers are serialised: each location
    is one step. *)
Fixpoint pollLocations (queue : list (list WatchedTrigger)) (held : list bool) : M unit :=
  match queue with
  | [] => ret tt
  | group :: queue' =>
      match held with
      | false :: _ => ret tt
      | _ => do* pollLocation group in pollLocations queue' (tail held)
      end
  end.

Definition poll (held : list bool) : M unit :=
  let* ts := Repository.findActive (shardBuckets shard) in
  match ts with
  | [] => ret tt
  | _ => pollLocations (snd <$> groupByLocation ts) held
  end.

Definition runCycle (held : list bool) : M unit :=
  let lockKey := cycleLockKey shard in
  let* token := acquireLock lockKey CYCLE_LOCK_TTL_SEC in
  match token with
  | None => ret tt
  | Some token => finally (poll held) (do* releaseLock lockKey token in ret tt)
  end.

End Service.

(** ** Safety of a cycle *)

Section Safety.
Context `{UuidSupply} `{Intl} `{WeatherUpstream}.
Context (shard : ShardConfig) (weatherTtl : Z) (batchSize : nat).
Import Repository.

Lemma writes_frame triggerId observations patch d d' :
  writes triggerId observations patch d = Some d' ->
  outbox d' = outbox d /\
  update_one (fun t => bool_decide (t_id t = triggerId)) (patch_trigger patch) (triggers d) = Some (triggers d').
Proof.
  unfold writes. intros Hw. apply bind_Some in Hw as (cs & _ & Hw).
  by apply bind_Some in Hw as (ts & Hts & [= <-]).
Qed.

(** Staging appends rows and touches nothing else of the tables. *)
Definition appends (w w' : World) : Prop :=
  outbox (db w) `prefix_of` outbox (db w') /\
  triggers (db w') = triggers (db w) /\ triggerConditions (db w') = triggerConditions (db w) /\
  broker w' = broker w /\ (uuids w <= uuids w')%nat /\ oracle w' = oracle w /\ redis w' = redis w /\
  now w' = now w.

Lemma createOne_frame m w : appends w (createOne m w).
Proof.
  unfold createOne. destruct (create _ _ _) as [t|] eqn:Hc; [|by repeat split].
  apply create_Some in Hc as [_ ->]. split_and!; cbn; try done; [by eexists|lia].
Qed.

Lemma createMany_frame messages w : appends w (createMany messages w).
Proof.
  revert w. induction messages as [|m rest IH]; intros w; [by repeat split|].
  change (createMany (m :: rest) w) with (createMany rest (createOne m w)).
  destruct (createOne_frame m w) as (? & ? & ? & ? & ? & ? & ? & ?), (IH (createOne m w)) as (? & ? & ? & ? & ? & ? & ? & ?).
  split_and!; try congruence; [by etrans|lia].
Qed.

(** New rows get new ids. *)
Lemma createMany_keys messages w :
  Forall (fun m => drawn w (om_eventId m)) messages -> outbox_keys w -> outbox_keys (createMany messages w).
Proof.
  revert w. induction messages as [|m rest IH]; intros w Hm Hkeys; cbn; [done|].
  apply Forall_cons in Hm as [Hm Hrest]. unfold createOne at 2.
  destruct (create _ _ _) as [t|] eqn:Hc; [|by apply IH].
  apply create_Some in Hc as [_ ->]. set (w1 := set_uuids _ _).
  assert (forall s, drawn w s -> drawn w1 s) as Hmono by (intros s; apply drawn_mono; cbn; lia).
  apply IH; [eapply Forall_impl; [exact Hrest|]; eauto|]. destruct Hkeys as [Hnd Hids]. split; cbn.
  - rewrite fmap_app. apply NoDup_app. split_and!; [done| |apply NoDup_singleton].
    intros s (row & Hs & Hrow)%list_elem_of_fmap Hnew%list_elem_of_singleton. cbn in Hnew.
    destruct (Hids row Hrow) as [(i & Hi & Hlt) _]. subst. rewrite Hi in Hnew. apply (inj uuid) in Hnew. lia.
  - intros row [Hrow|Hrow%list_elem_of_singleton]%elem_of_app; [destruct (Hids row Hrow); eauto|].
    subst row. cbn. split; [exists (uuids w); cbn; split; [done|lia]|auto].
Qed.

Lemma createMany_safe messages w :
  Forall (fun m => drawn w (om_eventId m)) messages -> relay_safe w (createMany messages w).
Proof.
  intros Hm Hkeys. destruct (createMany_frame messages w) as ([l Hl] & _ & _ & Hb & _).
  split_and!; [by apply createMany_keys|by rewrite Hb|].
  intros row Hrow Hin. right. rewrite Hl. set_solver.
Qed.

Lemma createOne_staged m w :
  (forall row, row ∈ outbox (db (createOne m w)) ->
    row ∈ outbox (db w) \/ (is_pending row = true /\ o_payload row = om_event m)) /\
  exists row, row ∈ outbox (db (createOne m w)) /\ o_eventId row = om_eventId m /\ o_routingKey row = om_routingKey m.
Proof.
  unfold createOne, create. destruct (existsb _ _) eqn:Hex; cbn.
  - split; [auto|]. apply existsb_exists in Hex as (row & Hrow & Hs). bool_to_prop.
    rewrite !bool_decide_eq_true in *. apply list_elem_of_In in Hrow. eauto.
  - split; [intros row [?|Hr%list_elem_of_singleton]%elem_of_app; subst; auto|].
    eexists. split; [apply elem_of_app; right; by apply list_elem_of_singleton|done].
Qed.

(** Every message ends up in the table: messages of one event under a fresh
    id are staged with its payload, one row per routing key. *)
Lemma createMany_staged messages m w :
  m ∈ messages ->
  (forall m', m' ∈ messages -> om_eventId m' = om_eventId m /\ om_event m' = om_event m) ->
  (forall row, row ∈ outbox (db w) -> o_eventId row = om_eventId m ->
    is_pending row = true /\ o_payload row = om_event m) ->
  exists row, row ∈ outbox (db (createMany messages w)) /\ o_eventId row = om_eventId m /\
    o_routingKey row = om_routingKey m /\ is_pending row = true /\ o_payload row = om_event m.
Proof.
  revert w. induction messages as [|m0 rest IH]; intros w Hin Hsame Hold; [by apply elem_of_nil in Hin|].
  destruct (Hsame m0) as [Hid Hev]; [set_solver|].
  destruct (createOne_staged m0 w) as (Hnew & row & Hrow & Hrid & Hrk).
  assert (forall row', row' ∈ outbox (db (createOne m0 w)) -> o_eventId row' = om_eventId m ->
    is_pending row' = true /\ o_payload row' = om_event m) as Hold1.
  { intros row' Hr Hr'. destruct (Hnew row' Hr) as [?|[? ?]]; [eauto|]. by rewrite <- Hev. }
  change (createMany (m0 :: rest) w) with (createMany rest (createOne m0 w)).
  apply elem_of_cons in Hin as [<-|Hin]; [|apply IH; [done|set_solver|done]].
  destruct (Hold1 row Hrow Hrid). exists row. split_and!; try done.
  destruct (createMany_frame rest (createOne m w)) as ([l ->] & _). set_solver.
Qed.

(** *** Every part of a cycle is safe for the relay *)

Lemma recordObservation_safe triggerId observations patch :
  keeps relay_safe (recordObservation triggerId observations patch).
Proof.
  apply keeps_io; [apply _|]. intros w. destruct (writes _ _ _ _) as [d|] eqn:Hw; [|reflexivity].
  apply writes_frame in Hw as [Ho _]. by apply relay_safe_outbox.
Qed.

Lemma commitFire_safe triggerId observations patch messages w :
  Forall (fun m => drawn w (om_eventId m)) messages ->
  relay_safe w (commitFire triggerId observations patch messages w).2.
Proof.
  intros Hm. unfold commitFire. destruct (io _ w) as [r w'] eqn:Hio. cbn.
  destruct (tick_spec w) as (_ & _ & Hu & _). assert (relay_safe w (tick w)) as Ht by apply wo_tick.
  apply io_effect in Hio as [[-> _]|[-> _]]; [done|]. etrans; [exact Ht|].
  destruct (writes _ _ _ _) as [d|] eqn:Hw; [|reflexivity]. apply writes_frame in Hw as [Ho _]. cbn.
  etrans; [|apply createMany_safe].
  - by apply relay_safe_outbox.
  - eapply Forall_impl; [exact Hm|]. intros m. apply drawn_mono. cbn. lia.
Qed.

Lemma fire_safe trigger results evaluatedAt : keeps relay_safe (fire batchSize trigger results evaluatedAt).
Proof.
  intros w. unfold fire. apply bind_run; [apply _|apply relay_safe_same; cbn; [done|lia|done]|].
  intros eventId w1 [= <- <-]. apply bind_run; [apply _|reflexivity|]. intros firedAt w1 [= _ <-].
  apply bind_run; [apply _|reflexivity|]. intros firedAt' w1 [= _ <-].
  apply bind_run; [apply _| |].
  - apply commitFire_safe, Forall_forall. intros m (c & -> & _)%list_elem_of_fmap. cbn.
    exists (uuids w). cbn. split; [done|lia].
  - intros _ w1 _. apply (keeps_bind relay_safe); [apply flush_safe|keeps_tac].
Qed.

Lemma processTrigger_safe trigger snapshot : keeps relay_safe (processTrigger batchSize trigger snapshot).
Proof.
  unfold processTrigger. keeps_tac; auto using fire_safe, recordObservation_safe.
Qed.

Lemma getSnapshot_safe latitude longitude : keeps relay_safe (getSnapshot weatherTtl latitude longitude).
Proof.
  unfold getSnapshot, getJson, fetch, setJson. keeps_tac.
  - intros w. by apply relay_safe_same.
  - apply keeps_io; [apply _|]. intros w. unfold cmd_set_px. case_all; [reflexivity|apply relay_safe_redis].
Qed.

Lemma pollLocation_safe group : keeps relay_safe (pollLocation weatherTtl batchSize group).
Proof. unfold pollLocation. keeps_tac; auto using getSnapshot_safe, processTrigger_safe. Qed.

Lemma pollLocations_safe queue held : keeps relay_safe (pollLocations weatherTtl batchSize queue held).
Proof.
  revert held. induction queue as [|g queue IH]; intros held; cbn; keeps_tac; auto using pollLocation_safe.
Qed.

Lemma runCycle_safe held : keeps relay_safe (runCycle shard weatherTtl batchSize held).
Proof.
  unfold runCycle, poll, findActive. keeps_tac; auto using acquireLock_safe, releaseLock_safe, pollLocations_safe.
  apply keeps_io; [apply _|]. intros w. case_match; reflexivity.
Qed.

End Safety.

(** ** No firing is lost *)

(** The scheduled jobs of a watcher process; a process that dies is started
    again and goes on with the next job. *)
Inductive Job := PollCycle (held : list bool) | RelayPass | PrunePass.

Section System.
Context `{UuidSupply} `{Intl} `{WeatherUpstream}.
Context (shard : ShardConfig) (weatherTtl : Z) (batchSize : nat).

Definition run_job (j : Job) (w : World) : World :=
  match j with
  | PollCycle held => (runCycle shard weatherTtl batchSize held w).2
  | RelayPass => (runRelay batchSize w).2
  | PrunePass => (pruneRelayed w).2
  end.

Definition run_jobs (js : list Job) (w : World) : World := fold_left (fun w j => run_job j w) js w.

Lemma run_job_safe j w : relay_safe w (run_job j w).
Proof. destruct j; [apply runCycle_safe|apply runRelay_safe|apply pruneRelayed_safe]. Qed.

Lemma run_jobs_safe js w : relay_safe w (run_jobs js w).
Proof.
  revert w. induction js as [|j js IH]; intros w; [reflexivity|]. etrans; [apply run_job_safe|apply IH].
Qed.

(** At-least-once hand-over: a row staged by a firing is either still
    staged or has its message accepted by the broker after any sequence of
    poll cycles, relay passes and prunes, whichever of their remote calls
    fail, lose their reply or kill the process; it is never marked, swept or
    overwritten before the broker has it. *)
Theorem staged_event_never_lost js w row :
  outbox_keys w -> row ∈ outbox (db w) -> o_publishedAt row = None ->
  accounted row (run_jobs js w).
Proof.
  intros Hkeys Hin Hp. destruct (run_jobs_safe js w Hkeys) as (_ & _ & Hall).
  apply Hall; [|done]. unfold is_pending. by rewrite Hp.
Qed.

End System.

Section Fire.
Context `{UuidSupply} `{Intl}.
Context (batchSize : nat).
Import Repository.

(** A step that does not write the trigger tables. *)
Definition same_triggers (w w' : World) : Prop :=
  triggers (db w') = triggers (db w) /\ triggerConditions (db w') = triggerConditions (db w).

#[global] Instance same_triggers_order : WorldOrder same_triggers.
Proof.
  unfold same_triggers. split; [split|]; [done|intros ??? [] []; split; congruence|].
  intros w. destruct (tick_spec w) as (_ & _ & _ & -> & _). done.
Qed.

Lemma redis_step_same_triggers w r : same_triggers w (set_redis r w).
Proof. done. Qed.

Lemma publish_rows_same_triggers pending acc : keeps same_triggers (publish_rows pending acc).
Proof.
  revert acc. induction pending as [|row rest IH]; intros acc; cbn [publish_rows]; keeps_tac.
  by apply keeps_exec; [apply _|].
Qed.

Lemma flush_same_triggers : keeps same_triggers (flush batchSize).
Proof.
  unfold flush, acquireLock, releaseLock, publishPending, findPending, markPublished, reportBacklog, countPending.
  keeps_tac; auto using publish_rows_same_triggers;
    try (apply keeps_exec; [apply _|done]); try (apply keeps_io; [apply _|]); intros w; try done.
  - unfold cmd_set_nx. by case_all.
  - unfold RELEASE_IF_OWNED. by case_all.
Qed.

(** The table after an update of one row, position by position. *)
Definition patched (id : string) (patch : TriggerStatePatch) (ts ts' : list Trigger) : Prop :=
  forall i t, ts !! i = Some t ->
    ts' !! i = Some (if decide (t_id t = id) then patch_trigger patch t else t).

Lemma update_one_patched id patch ts ts' :
  update_one (fun t => bool_decide (t_id t = id)) (patch_trigger patch) ts = Some ts' -> patched id patch ts ts'.
Proof.
  unfold update_one. destruct (existsb _ _); [|done]. intros [= <-] i t Hi.
  rewrite list_lookup_fmap, Hi. cbn. do 2 f_equal. by case_bool_decide; case_decide.
Qed.

(** The condition rows after observations, each of one condition: the rows
    observed take the value seen and the verdict, the others stay. *)
Definition recorded (observations : list (EvaluatedCondition WatchedCondition)) (cs cs' : list TriggerCondition) : Prop :=
  length cs' = length cs /\
  forall i c, cs !! i = Some c -> exists c', cs' !! i = Some c' /\
    (forall o, o ∈ observations -> wc_id (base o) = c_id c -> c' = observe o c) /\
    ((forall o, o ∈ observations -> wc_id (base o) <> c_id c) -> c' = c).

Lemma write_observations_recorded observations cs cs' :
  NoDup ((fun o => wc_id (base o)) <$> observations) -> write_observations observations cs = Some cs' ->
  recorded observations cs cs'.
Proof.
  revert cs. induction observations as [|o rest IH]; intros cs Hnd Hw; cbn in Hw.
  { injection Hw as <-. split; [done|]. intros i c Hi. exists c. split_and!; [done|set_solver|done]. }
  cbn in Hnd. apply NoDup_cons in Hnd as [Hnot Hnd]. apply bind_Some in Hw as (cs1 & Hone & [Hlen Hrec]%IH); [|done].
  unfold update_one in Hone. destruct (existsb _ _); [|done]. injection Hone as <-.
  split; [by rewrite Hlen, length_map|]. intros i c Hi. specialize (Hrec i). rewrite list_lookup_fmap, Hi in Hrec.
  destruct (Hrec _ eq_refl) as (c' & Hi' & Hobs & Hrest). exists c'. split; [done|].
  case_bool_decide as Hid; cbn [c_id observe] in Hobs, Hrest.
  - rewrite (Hrest); [split; [|intros Hno; destruct (Hno o); [apply list_elem_of_here|done]]|].
    + intros o' [->|Ho']%elem_of_cons Hid'; [done|]. destruct Hnot. apply list_elem_of_fmap. exists o'. by rewrite Hid', Hid.
    + intros o' Ho' Hid'. destruct Hnot. apply list_elem_of_fmap. exists o'. by rewrite Hid', Hid.
  - split; [|intros Hno; apply Hrest; intros o' Ho'; apply Hno; by apply list_elem_of_further].
    intros o' [->|Ho']%elem_of_cons Hid'; [by destruct Hid|by apply Hobs].
Qed.

Lemma writes_recorded triggerId observations patch d d' :
  NoDup ((fun o => wc_id (base o)) <$> observations) -> writes triggerId observations patch d = Some d' ->
  recorded observations (triggerConditions d) (triggerConditions d').
Proof.
  intros Hnd (cs & Hcs & (ts & _ & [= <-])%bind_Some)%bind_Some. by apply write_observations_recorded.
Qed.

(** What a transaction does: nothing, or all of it. *)

Lemma commitFire_outcomes triggerId observations patch messages w r w' :
  commitFire triggerId observations patch messages w = (r, w') ->
  (w' = tick w /\ (forall u, r <> Ok u)) \/
  (exists d, writes triggerId observations patch (db w) = Some d /\ w' = createMany messages (set_db d (tick w))).
Proof.
  intros Hio. destruct (tick_spec w) as (_ & _ & _ & Hdb & _). rewrite <- Hdb.
  apply io_effect in Hio as [?|[-> Hok]]; [auto|].
  destruct (writes _ _ _ _) as [d|]; [right; eauto|left]. split; [done|]. intros u Hu. by specialize (Hok u Hu).
Qed.

Lemma patched_trigger id patch ts ts' t :
  update_one (fun t => bool_decide (t_id t = id)) (patch_trigger patch) ts = Some ts' ->
  t ∈ ts' -> t_id t = id -> exists t0, t0 ∈ ts /\ t_id t0 = id /\ t = patch_trigger patch t0.
Proof.
  unfold update_one. destruct (existsb _ _); [|done]. intros [= <-] (t0 & Ht & Hin)%list_elem_of_fmap Hid.
  exists t0. case_bool_decide; subst; [done|]. done.
Qed.

(** The committed world: the row is patched and the event staged. *)
Lemma commit_stages trigger results event patch w d :
  outbox_keys w -> drawn w (ev_eventId event) ->
  (forall row, row ∈ outbox (db w) -> o_eventId row <> ev_eventId event) ->
  writes (wt_id trigger) results patch (db w) = Some d ->
  let w1 := createMany (fire_messages event (wt_channels trigger)) (set_db d w) in
  outbox_keys w1 /\
  (forall t, t ∈ triggers (db w1) -> t_id t = wt_id trigger -> exists t0, t = patch_trigger patch t0) /\
  (forall c, c ∈ wt_channels trigger -> exists row, row ∈ outbox (db w1) /\ is_pending row = true /\
     o_routingKey row = routingKeyFor c /\ o_payload row = event).
Proof.
  intros Hkeys Hdrawn Hfresh Hw. cbv zeta. apply writes_frame in Hw as [Ho Ht].
  destruct (createMany_frame (fire_messages event (wt_channels trigger)) (set_db d w)) as (_ & Htr & _).
  split_and!.
  - apply createMany_keys; [|by eapply outbox_keys_same; [..|exact Hkeys]].
    apply Forall_forall. by intros m (c & -> & _)%list_elem_of_fmap.
  - intros t Hin Hid. rewrite Htr in Hin. destruct (patched_trigger _ _ _ _ _ Ht Hin Hid) as (t0 & _ & _ & ->). eauto.
  - intros c Hc.
    destruct (createMany_staged (fire_messages event (wt_channels trigger))
      {| om_eventId := ev_eventId event; om_routingKey := routingKeyFor c; om_event := event |} (set_db d w))
      as (row & ? & ? & ? & ? & ?).
    + apply list_elem_of_fmap. eauto.
    + by intros m' (c' & -> & _)%list_elem_of_fmap.
    + intros row Hrow Hid. cbn in Hrow. rewrite Ho in Hrow. by destruct (Hfresh row Hrow).
    + eauto.
Qed.

Lemma fresh_event w row : outbox_keys w -> row ∈ outbox (db w) -> o_eventId row <> uuid (uuids w).
Proof.
  intros [_ Hids] Hrow Heq. destruct (Hids row Hrow) as [_ (i & Hi & Hlt)].
  rewrite Hi in Heq. apply (inj uuid) in Heq. lia.
Qed.

(** C15. A firing is all or nothing. Whatever fails or dies inside [fire],
    either it did not succeed and the whole database, Redis and the broker are
    as they were; or the trigger is FIRED as of the decision and no other row
    of its table is written, each of its conditions carries the value observed
    and the verdict and no other condition row is written, and every one of
    its channels has a row carrying the event that the broker has or the relay
    still owes. *)
Theorem fire_all_or_nothing trigger results evaluatedAt w r w' :
  outbox_keys w -> NoDup ((fun o => wc_id (base o)) <$> results) ->
  fire batchSize trigger results evaluatedAt w = (r, w') ->
  let event := fired_event trigger results (uuid (uuids w)) (now w) in
  (db w' = db w /\ redis w' = redis w /\ broker w' = broker w /\ (forall u, r <> Ok u)) \/
  (patched (wt_id trigger)
     {| patch_lastEvaluatedAt := evaluatedAt; patch_state := Some FIRED; patch_lastFiredAt := Some (now w) |}
     (triggers (db w)) (triggers (db w')) /\
   recorded results (triggerConditions (db w)) (triggerConditions (db w')) /\
   (forall c, c ∈ wt_channels trigger -> exists row, o_routingKey row = routingKeyFor c /\ o_payload row = event /\
     accounted row w')).
Proof.
  intros Hkeys Hnd Hfire event. set (w0 := set_uuids (S (uuids w)) w).
  set (patch := {| patch_lastEvaluatedAt := evaluatedAt; patch_state := Some FIRED; patch_lastFiredAt := Some (now w) |}).
  change (bind (commitFire (wt_id trigger) results patch (fire_messages event (wt_channels trigger)))
            (fun _ => do* flush batchSize in ret tt) w0 = (r, w')) in Hfire.
  destruct (tick_spec w0) as (_ & Hr & Hu & Hdb & Hb & _).
  unfold bind at 1 in Hfire. destruct (commitFire _ _ _ _ w0) as [r1 w1] eqn:Hc.
  apply commitFire_outcomes in Hc as [[-> Hno]|(d & Hw & ->)].
  { left. destruct r1 as [u| |]; [by destruct (Hno u)|..]; simplify_eq; by rewrite Hdb, Hb, Hr. }
  right. rewrite <- Hdb in Hw.
  destruct (commit_stages trigger results event patch (tick w0) d) as (Hk1 & _ & Hs1); [| | |done|].
  { apply (outbox_keys_same w); [by rewrite Hdb|rewrite Hu; cbn; lia|exact Hkeys]. }
  { exists (uuids w). rewrite Hu. cbn. split; [done|lia]. }
  { intros row Hrow. rewrite Hdb in Hrow. by apply fresh_event. }
  destruct (createMany_frame (fire_messages event (wt_channels trigger)) (set_db d (tick w0))) as (_ & Htr & Hcs & _).
  set (w1 := createMany _ _) in *. rewrite Hdb in Hw.
  assert (relay_safe w1 w' /\ same_triggers w1 w') as [Hsafe [Hsame Hsame']].
  { destruct r1; simplify_eq; [|split; reflexivity..].
    pose proof (keeps_bind relay_safe (flush batchSize) (fun _ => ret tt) (flush_safe batchSize)) as H1.
    pose proof (keeps_bind same_triggers (flush batchSize) (fun _ => ret tt) flush_same_triggers) as H2.
    change w' with (r, w').2. rewrite <- Hfire. split; [apply H1|apply H2]; keeps_tac. }
  destruct (Hsafe Hk1) as (_ & _ & Hacc). refine (conj _ (conj _ _)).
  - rewrite Hsame, Htr. apply writes_frame in Hw as [_ Ht]. by apply update_one_patched.
  - rewrite Hsame', Hcs. by eapply writes_recorded.
  - intros c Hc. destruct (Hs1 c Hc) as (row & Hrow & Hp & Hk & Hpay). exists row. eauto.
Qed.

End Fire.

(** ** A poll implements the state machine *)

Section Simulation.
Context `{UuidSupply} `{Intl}.
Context (batchSize : nat).
Import Repository.

(** The decision fields of a stored row. *)
Definition input_of (t : Trigger) : TriggerStateInput :=
  {| state := t_state t; lastFiredAt := t_lastFiredAt t; cooldownMin := t_cooldownMin t |}.

(** The abstract poll a call of [processTrigger] performs. *)
Definition poll_of (trigger : WatchedTrigger) (snapshot : WeatherSnapshot) (at_ : Z) : Poll :=
  {| p_matched := all_matched (evaluateConditions snapshot (wt_conditions trigger) (wt_conditionLogic trigger));
     p_evaluatedAt := at_; p_committedAt := at_; p_quiet := wt_quietHours trigger |}.

(** Either transaction leaves the table alone or patches the row. *)
Lemma recordObservation_patches triggerId observations patch w r w' :
  recordObservation triggerId observations patch w = (r, w') ->
  (triggers (db w') = triggers (db w) /\ r <> Ok tt) \/ patched triggerId patch (triggers (db w)) (triggers (db w')).
Proof.
  intros Hio. destruct (tick_spec w) as (_ & _ & _ & Hdb & _). rewrite <- Hdb.
  apply io_effect in Hio as [[-> Hno]|[-> Hok]]; [auto|].
  destruct (writes _ _ _ _) as [d|] eqn:Hw; [right|left].
  - apply writes_frame in Hw as [_ Ht]. by apply update_one_patched.
  - split; [done|]. intros Hr. by specialize (Hok tt Hr).
Qed.

Lemma fire_patches trigger results evaluatedAt w r w' :
  fire batchSize trigger results evaluatedAt w = (r, w') ->
  (triggers (db w') = triggers (db w) /\ r <> Ok tt) \/
  patched (wt_id trigger)
    {| patch_lastEvaluatedAt := evaluatedAt; patch_state := Some FIRED; patch_lastFiredAt := Some (now w) |}
    (triggers (db w)) (triggers (db w')).
Proof.
  intros Hfire. set (w0 := set_uuids (S (uuids w)) w).
  set (event := fired_event trigger results (uuid (uuids w)) (now w)). set (patch := {| patch_state := _ |}).
  change (bind (commitFire (wt_id trigger) results patch (fire_messages event (wt_channels trigger)))
            (fun _ => do* flush batchSize in ret tt) w0 = (r, w')) in Hfire.
  destruct (tick_spec w0) as (_ & _ & _ & Hdb & _).
  unfold bind at 1 in Hfire. destruct (commitFire _ _ _ _ w0) as [r1 w1] eqn:Hc.
  apply commitFire_outcomes in Hc as [[-> Hno]|(d & Hw & ->)].
  { left. destruct r1 as [u| |]; [by destruct (Hno u)|..]; simplify_eq; by rewrite Hdb. }
  right. apply writes_frame in Hw as [_ Ht]. apply update_one_patched in Ht.
  destruct (createMany_frame (fire_messages event (wt_channels trigger)) (set_db d (tick w0))) as (_ & Htr & _).
  set (w1 := createMany _ _) in *. assert (same_triggers w1 w') as Hsame.
  { destruct r1; simplify_eq; [|reflexivity..]. change w' with (r, w').2. rewrite <- Hfire.
    apply (keeps_bind same_triggers); [apply flush_same_triggers|keeps_tac]. }
  rewrite (proj1 Hsame), Htr. exact Ht.
Qed.

(** The table is left alone, or the row takes the decision's outcome. *)
Lemma processTrigger_patches trigger snapshot w r w' :
  processTrigger batchSize trigger snapshot w = (r, w') ->
  let p := poll_of trigger snapshot (now w) in
  (triggers (db w') = triggers (db w) /\ r <> Ok tt) \/
  exists patch d, decide_ (state_input trigger) (p_matched p) (now w) (wt_quietHours trigger) = Some d /\
    patched (wt_id trigger) patch (triggers (db w)) (triggers (db w')) /\
    patch_lastEvaluatedAt patch = now w /\
    (forall t, input_of t = state_input trigger -> input_of (patch_trigger patch t) = apply_decision (input_of t) d p).
Proof.
  unfold processTrigger, get_now, bind at 1. cbv zeta. cbn [p_matched poll_of]. intros Hrun.
  destruct (decide_ _ _ _ _) as [d|]; [|left; unfold throw in Hrun; by simplify_eq].
  destruct d;
    (apply recordObservation_patches in Hrun || apply fire_patches in Hrun);
    destruct Hrun as [?|Hp]; auto; right; eexists _, _; (split; [reflexivity|]); (split; [exact Hp|]); (split; [reflexivity|]); done.
Qed.

(** C14. The database row of a polled trigger follows the abstract state
    machine: whatever remote call of [processTrigger] fails or kills the
    process, its decision fields afterwards are those of before (and then
    the call did not succeed) or exactly those the abstract poll gives, and
    no other trigger is written. *)
Theorem processTrigger_simulates trigger snapshot w r w' i t :
  processTrigger batchSize trigger snapshot w = (r, w') ->
  triggers (db w) !! i = Some t ->
  (t_id t = wt_id trigger -> input_of t = state_input trigger) ->
  exists t', triggers (db w') !! i = Some t' /\
    ((t' = t /\ r <> Ok tt) \/
     (if decide (t_id t = wt_id trigger)
      then input_of t' = (poll_once (input_of t) (poll_of trigger snapshot (now w))).1
      else t' = t)).
Proof.
  intros Hrun Hi Hproj. apply processTrigger_patches in Hrun as [[Hsame Hr]|(patch & d & Hd & Hp & _ & Hin)].
  { exists t. rewrite Hsame. auto. }
  eexists. split; [exact (Hp i t Hi)|]. right. case_decide as Hid; [|done].
  rewrite Hin by auto. unfold poll_once. rewrite Hproj by done.
  change (decide_ (state_input trigger) (p_matched (poll_of trigger snapshot (now w))) (now w) (wt_quietHours trigger) = Some d) in Hd.
  cbn [p_evaluatedAt p_quiet poll_of]. by rewrite Hd.
Qed.

End Simulation.

(** ** Sharding and grouping *)

Section Sharding.
Import Repository.

(** Rows carry the bucket of their coordinates. *)
Definition stamped (d : Database) : Prop :=
  forall row, row ∈ triggers d -> t_locationBucket row = locationBucket (t_latitude row) (t_longitude row).

(** Rows carry some bucket, of these coordinates or of others. *)
Definition bucketed (d : Database) : Prop :=
  forall row, row ∈ triggers d -> 0 <= t_locationBucket row < LOCATION_BUCKETS.

Lemma stamped_bucketed d : stamped d -> bucketed d.
Proof. intros Hst row Hrow. rewrite (Hst row Hrow). apply locationBucket_range. Qed.

(** What shard [i] of [n] reads, as a class of the active rows. *)
Lemma shard_rows n i d :
  0 < n -> bucketed d ->
  find_many (active_in (Some (bucketsForShard i n))) (triggers d) =
  find_many (fun row => t_locationBucket row mod n =? i) (find_many (active_in None) (triggers d)).
Proof.
  intros Hn Hst. rewrite find_many_find_many. apply find_many_ext. intros row Hrow. unfold active_in.
  rewrite andb_true_r. f_equal. apply eq_true_iff_eq. rewrite bool_decide_eq_true, Z.eqb_eq, elem_of_bucketsForShard by done.
  pose proof (Hst row Hrow). naive_solver.
Qed.

Lemma active_elem buckets d l t :
  active buckets d = Some l -> t ∈ l ->
  exists row u, row ∈ triggers d /\ active_in buckets row = true /\ t = project d row u.
Proof.
  unfold active. rewrite mapM_Some. intros Hall Hin. apply list_elem_of_lookup in Hin as [i Hi].
  destruct (Forall2_lookup_r _ _ _ _ _ Hall Hi) as (row & Hrow & Hp). apply fmap_Some in Hp as (u & _ & ->).
  apply list_elem_of_lookup_2, elem_of_find_many in Hrow as [? ?]. eauto.
Qed.

(** C36. Sharding covers the active triggers exactly once. With two or more
    instances, rows whose bucket is in range (wherever their coordinates have
    been moved to since it was computed) and owners that exist, the slices the
    instances read, put together, are the triggers a single instance would
    read, none missing and none twice. Where moreover every row carries the
    bucket of its own coordinates, triggers that share a location are in the
    same slice, so that no location is fetched by two instances; a patch of
    one coordinate alone breaks that condition, and with it only this part. *)
Theorem shards_cover_active n d all :
  1 < n -> bucketed d -> active None d = Some all ->
  exists parts,
    mapM (fun i => active (shardBuckets {| index := i; count := n |}) d) (seqZ 0 n) = Some parts /\
    concat parts ≡ₚ all /\
    (stamped d -> forall i j pi pj ti tj, parts !! i = Some pi -> parts !! j = Some pj -> ti ∈ pi -> tj ∈ pj ->
      wt_key ti = wt_key tj -> i = j).
Proof.
  intros Hn Hst Hall. unfold active in Hall. set (f := fun row => project d row <$> user_of d row) in *.
  set (rows := find_many (active_in None) (triggers d)) in *.
  set (class := fun i => find_many (fun row => t_locationBucket row mod n =? i) rows).
  assert (concat (map class (seqZ 0 n)) ≡ₚ rows) as Hperm.
  { apply (classes_perm (fun row => t_locationBucket row mod n)); [apply NoDup_seqZ|].
    intros row _. apply elem_of_seqZ. pose proof (Z.mod_pos_bound (t_locationBucket row) n). lia. }
  destruct (mapM_perm f _ (concat (map class (seqZ 0 n))) _ (symmetry Hperm) Hall) as (l & Hl & Hlp).
  rewrite mapM_concat in Hl. apply fmap_Some in Hl as (parts & Hparts & ->).
  assert (mapM (fun i => active (shardBuckets {| index := i; count := n |}) d) (seqZ 0 n) = Some parts) as Hslices.
  { rewrite <- Hparts. clear -Hn Hst. unfold shardBuckets. cbn. replace (n <=? 1) with false by lia.
    induction (seqZ 0 n) as [|i l IH]; cbn; [done|]. rewrite IH. unfold active, class.
    by rewrite shard_rows by (done || lia). }
  exists parts. split_and!; [done|done|]. intros Hst' i j pi pj ti tj Hi Hj Hti Htj Hkey. clear Hst; rename Hst' into Hst.
  apply mapM_Some in Hslices.
  assert (forall i p t, parts !! i = Some p -> t ∈ p -> Z.of_nat i = hashLocation (wt_key t) `rem` LOCATION_BUCKETS mod n) as Hown.
  { clear -Hslices Hn Hst. intros i p t Hi Ht. destruct (Forall2_lookup_r _ _ _ _ _ Hslices Hi) as (z & Hz & Hact).
    apply lookup_seqZ in Hz as [-> Hlt]. unfold shardBuckets in Hact. cbn in Hact.
    replace (n <=? 1) with false in Hact by lia.
    destruct (active_elem _ _ _ _ Hact Ht) as (row & u & Hrow & Hin & ->). unfold active_in in Hin. bool_to_prop.
    apply bool_decide_eq_true, elem_of_bucketsForShard in H0 as [_ Hm]; [|lia].
    rewrite (Hst row Hrow) in Hm. unfold locationBucket in Hm. cbn. unfold wt_key. cbn. lia. }
  apply Nat2Z.inj. rewrite (Hown i pi ti), (Hown j pj tj) by done. by rewrite Hkey.
Qed.

End Sharding.

Section Grouping.

Lemma push_group_keys key t m :
  fst <$> push_group key t m = if decide (key ∈ fst <$> m) then fst <$> m else (fst <$> m) ++ [key].
Proof.
  induction m as [|[k b] m IH]; cbn; [by rewrite decide_False by set_solver|].
  destruct (decide (k = key)) as [->|Hne]; cbn; [by rewrite decide_True by set_solver|].
  rewrite IH. repeat case_decide; set_solver.
Qed.

Lemma elem_of_push_group key t m k b :
  NoDup (fst <$> m) ->
  (k, b) ∈ push_group key t m <->
  (k <> key /\ (k, b) ∈ m) \/
  (k = key /\ ((exists b0, (key, b0) ∈ m /\ b = b0 ++ [t]) \/ (key ∉ fst <$> m /\ b = [t]))).
Proof.
  induction m as [|[k' b'] m IH]; cbn; intros Hnd.
  - rewrite list_elem_of_singleton. split; [intros [= -> ->]; right; split; [done|right; set_solver]|].
    intros [[_ []%elem_of_nil]|[-> [(b0 & []%elem_of_nil & _)|[_ ->]]]]. done.
  - apply NoDup_cons in Hnd as [Hk' Hnd].
    assert (forall b, (k', b) ∉ m) as Hnot by (intros b0 Hb; apply Hk', list_elem_of_fmap; by exists (k', b0)).
    destruct (decide (k' = key)) as [->|Hne].
    + rewrite !elem_of_cons. split.
      * intros [[= -> ->]|Hin]; [right; split; [done|left; exists b'; set_solver]|].
        left. split; [intros ->; by apply (Hnot b)|auto].
      * intros [[Hk [[= -> ->]|Hin]]|[-> [(b0 & [[= ->]|Hin]%elem_of_cons & ->)|[Hno _]]]]; try done; auto.
        -- by destruct (Hnot b0).
        -- set_solver.
    + rewrite !elem_of_cons, (IH Hnd). setoid_rewrite elem_of_cons. naive_solver.
Qed.

(** [groupByLocation] builds one group per distinct location of the
    triggers, and the group of a location is all of its triggers in their
    order: one upstream call per location serves every trigger there, and no
    trigger is dropped or polled twice. *)
Theorem groupByLocation_spec ts :
  NoDup (fst <$> groupByLocation ts) /\
  forall k group, (k, group) ∈ groupByLocation ts <->
    group = find_many (fun t => bool_decide (wt_key t = k)) ts /\ group <> [].
Proof.
  induction ts as [|t ts IH] using rev_ind.
  { split; [constructor|]. intros k g. cbn. split; [by intros []%elem_of_nil|naive_solver]. }
  destruct IH as [Hnd Hspec]. unfold groupByLocation in *. rewrite fold_left_app. cbn.
  set (m := fold_left _ ts []) in *.
  assert (forall k, k ∉ fst <$> m <-> find_many (fun t => bool_decide (wt_key t = k)) ts = []) as Hno.
  { intros k. split.
    - intros Hk. destruct (find_many _ ts) as [|t0 l] eqn:Hf; [done|]. destruct Hk.
      apply list_elem_of_fmap. exists (k, t0 :: l). split; [done|]. apply Hspec. by rewrite Hf.
    - intros Hf ([k0 b] & -> & Hin)%list_elem_of_fmap. apply Hspec in Hin as [-> Hne]. done. }
  split.
  - rewrite push_group_keys. case_decide; [done|]. apply NoDup_app. split_and!; [done|set_solver|apply NoDup_singleton].
  - intros k g. rewrite elem_of_push_group by done. rewrite find_many_app. unfold find_many at 2. cbn.
    setoid_rewrite Hspec. rewrite Hno. case_bool_decide as Hk; rewrite ?app_nil_r.
    + subst k. split.
      * intros [[? _]|[_ [(b0 & [-> _] & ->)|[-> ->]]]]; [done|..]; split; try done; by destruct (find_many _ ts).
      * intros [-> _]. right. split; [done|]. destruct (find_many _ ts) eqn:Hf; [right; done|left]. eauto.
    + naive_solver.
Qed.

End Grouping.

(** ** Concrete runs *)

Definition sample_condition : TriggerCondition :=
  {| c_id := "c1"; c_triggerId := "t1"; c_metric := TEMPERATURE; c_operator := LT; c_threshold := Num.of_Z 0;
     c_order := 0; c_lastObservedValue := None; c_lastMatched := None |}.

Definition sample_db : Database :=
  {| users := [sample_user]; triggers := [sample_trigger "t1" 52 21; sample_trigger "t2" 48 2];
     triggerConditions := [sample_condition]; notifications := []; pushSubs := []; refreshTokens := []; pinnedCities := [];
     outbox := [] |}.

Definition freezing : WeatherSnapshot :=
  {| temperature := Num.of_Z (-4); apparentTemp := Num.of_Z (-9); humidity := Num.of_Z 80;
     windSpeed := Num.of_Z 3; precipitation := Num.of_Z 0; weatherCode := Num.of_Z 0 |}.

(** The broker refuses the second of two messages after the lock and the
    batch were read, then the process dies. *)
Definition bumpy : list Tick :=
  [{| k_fault := Fine; k_elapsed := 5 |}; {| k_fault := Fine; k_elapsed := 5 |}; {| k_fault := Fine; k_elapsed := 5 |};
   {| k_fault := Fine; k_elapsed := 5 |}; {| k_fault := Fail None false; k_elapsed := 5 |}; {| k_fault := Die true; k_elapsed := 5 |}].

Definition sample_watcher_world (ticks : list Tick) : World :=
  {| now := 1000; uuids := 0; oracle := ticks; db := sample_db; redis := ∅;
     broker := {| published := []; acked := [] |}; delivered := [] |}.

Definition no_upstream : WeatherUpstream := fun _ _ _ => None.

Definition sample_watched : WatchedTrigger :=
  Repository.project sample_db (sample_trigger "t1" 52 21) sample_user.

Definition sample_results : list (EvaluatedCondition WatchedCondition) :=
  results (evaluateConditions freezing (wt_conditions sample_watched) (wt_conditionLogic sample_watched)).

Lemma sample_watcher_keys ticks : outbox_keys (H:=sample_uuids) (sample_watcher_world ticks).
Proof. split; [constructor|]. intros row []%elem_of_nil. Qed.

Lemma staged_event_never_lost_witness :
  accounted (sample_row 1 EMAIL 10)
    (run_jobs (H:=sample_uuids) (H0:=sample_intl) (H1:=no_upstream) {| index := 0; count := 1 |} 240 1
       [PollCycle []; RelayPass; PrunePass] sample_outbox_world).
Proof.
  apply (staged_event_never_lost (H:=sample_uuids) (H0:=sample_intl) (H1:=no_upstream)).
  - apply sample_outbox_keys.
  - cbn. set_solver.
  - reflexivity.
Defined.

Lemma fire_all_or_nothing_witness :
  let w' := (fire (H:=sample_uuids) 10 sample_watched sample_results 1000 (sample_watcher_world bumpy)).2 in
  t_state <$> (triggers (db w') !! 0%nat) = Some FIRED /\
  c_lastMatched <$> (triggerConditions (db w') !! 0%nat) = Some (Some true) /\
  Forall (fun c => exists row, o_routingKey row = routingKeyFor c /\
    o_payload row = fired_event sample_watched sample_results (sample_uuid 0) 1000 /\ accounted row w')
    [TELEGRAM; EMAIL].
Proof.
  intros w'.
  destruct (fire_all_or_nothing (H:=sample_uuids) 10 sample_watched sample_results 1000 (sample_watcher_world bumpy)
    _ w' (sample_watcher_keys bumpy) ltac:(apply (bool_decide_unpack _); vm_compute; exact I) (surjective_pairing _))
    as [[Hsame _]|(Hrows & [_ Hcs] & Hch)].
  - apply (f_equal (fun d => map t_state (triggers d))) in Hsame. vm_compute in Hsame. discriminate Hsame.
  - split; [|split; [|apply Forall_forall; exact Hch]].
    + rewrite (Hrows 0%nat (sample_trigger "t1" 52 21) eq_refl). reflexivity.
    + destruct (Hcs 0%nat sample_condition eq_refl) as (c' & -> & Hobs & _).
      destruct (list_elem_of_lookup_1 sample_results
        {| base := Repository.to_condition sample_condition; matched := true; observedValue := temperature freezing |}) as [i Hi].
      { apply (list_elem_of_lookup_2 _ 0%nat). vm_compute. reflexivity. }
      cbn. rewrite (Hobs _ (list_elem_of_lookup_2 _ _ _ Hi) eq_refl). reflexivity.
Defined.

Lemma processTrigger_simulates_witness :
  exists t', triggers (db (processTrigger (H:=sample_uuids) (H0:=sample_intl) 10 sample_watched freezing
                             (sample_watcher_world [])).2) !! 0%nat = Some t' /\
    input_of t' = {| state := FIRED; lastFiredAt := Some 1000; cooldownMin := 60 |}.
Proof.
  destruct (processTrigger_simulates (H:=sample_uuids) (H0:=sample_intl) 10 sample_watched freezing
    (sample_watcher_world []) _ _ 0%nat (sample_trigger "t1" 52 21) (surjective_pairing _)) as (t' & Ht & Hsim);
    [reflexivity|reflexivity|].
  exists t'. split; [exact Ht|]. destruct Hsim as [[_ Hr]|Hsim]; [by destruct Hr|].
  rewrite decide_True in Hsim by reflexivity. rewrite Hsim. vm_compute. reflexivity.
Defined.

Lemma shards_cover_active_witness :
  exists all parts, Repository.active None sample_db = Some all /\
    mapM (fun i => Repository.active (shardBuckets {| index := i; count := 3 |}) sample_db) (seqZ 0 3) = Some parts /\
    concat parts ≡ₚ all.
Proof.
  destruct (Repository.active None sample_db) as [all|] eqn:Hall; [|vm_compute in Hall; discriminate Hall].
  destruct (shards_cover_active 3 sample_db all) as (parts & Hp & Hperm & _); [lia| |exact Hall|].
  - intros row [->|[->|[]%elem_of_nil]%elem_of_cons]%elem_of_cons; vm_compute; split; congruence.
  - exists all, parts. auto.
Defined.
