(* ===== verification/Ledger.v ===== *)
(** * What a cycle adds to the outbox and to the broker

    The rows of the outbox and the messages on their way, counted with
    multiplicity: staging an alert adds one row per channel, relaying moves
    messages from the table to the broker, and a list of alerts adds up. *)

From S2P Require Import Prelude JsNumber Enums Conditions QuietHours TriggerStateMachine Contracts Table World Effects RedisService Outbox Watcher.

(** A row without its key, its dates and whether it was relayed. *)
Definition row_view (row : OutboxEvent) : string * string * TriggerFiredEvent :=
  (o_eventId row, o_routingKey row, o_payload row).
Definition view_message (v : string * string * TriggerFiredEvent) : Message := publish_message v.1.2 v.2.

Lemma view_message_row row : view_message (row_view row) = row_message row.
Proof. done. Qed.

(** The messages on their way: those the broker accepted, and those the
    staged rows owe it. *)
Definition traffic (w : World) : list Message := published (broker w) ++ (row_message <$> staged w).

(** The rows of an alert: one for each of the channels. *)
Definition alert_views (event : TriggerFiredEvent) (channels : list Channel) : list (string * string * TriggerFiredEvent) :=
  (fun c => (ev_eventId event, routingKeyFor c, event)) <$> remove_dups channels.

Lemma remove_dups_snoc {A} `{EqDecision A} (l : list A) x :
  remove_dups (l ++ [x]) ≡ₚ if decide (x ∈ l) then remove_dups l else remove_dups l ++ [x].
Proof.
  apply NoDup_Permutation; [apply NoDup_remove_dups|..].
  - case_decide; [apply NoDup_remove_dups|]. apply NoDup_app. split_and!; [apply NoDup_remove_dups| |apply NoDup_singleton].
    intros y Hy Hyx. rewrite elem_of_remove_dups in Hy. apply list_elem_of_singleton in Hyx as ->. contradiction.
  - intros y. rewrite elem_of_remove_dups, elem_of_app, list_elem_of_singleton. case_decide.
    + rewrite elem_of_remove_dups. naive_solver.
    + by rewrite elem_of_app, elem_of_remove_dups, list_elem_of_singleton.
Qed.

Section Ledger.
Context `{UuidSupply}.
Import Repository.

(** *** Relaying moves messages *)

Lemma relayed_views k w : row_view <$> outbox (db (relayed k w)) = row_view <$> outbox (db w).
Proof.
  unfold relayed. destruct (take k (staged w)) as [|r rows]; [done|]. cbn. generalize (outbox (db w)) as l.
  induction l as [|row l IH]; cbn in *; [done|]. rewrite IH. by case_bool_decide.
Qed.

Lemma relayed_traffic k w : NoDup (o_id <$> outbox (db w)) -> traffic (relayed k w) = traffic w.
Proof.
  intros Hnd. unfold traffic. by rewrite relayed_published, relayed_staged, <- app_assoc, <- fmap_app, take_drop by done.
Qed.

Lemma flushed_ledger k w :
  outbox_keys w ->
  row_view <$> outbox (db (flushed k w)) = row_view <$> outbox (db w) /\ traffic (flushed k w) = traffic w.
Proof. intros [Hnd _]. exact (conj (relayed_views k (relay_locked w)) (relayed_traffic k (relay_locked w) Hnd)). Qed.

(** *** Staging adds one row per channel *)

Lemma createOne_new (event : TriggerFiredEvent) c ks old new w :
  outbox (db w) = old ++ new -> (forall row, row ∈ old -> o_eventId row <> ev_eventId event) ->
  row_view <$> new ≡ₚ alert_views event ks ->
  let m := {| om_eventId := ev_eventId event; om_routingKey := routingKeyFor c; om_event := event |} in
  if decide (c ∈ ks) then createOne m w = w
  else exists row, outbox (db (createOne m w)) = old ++ new ++ [row] /\ is_pending row = true /\
         row_view row = (ev_eventId event, routingKeyFor c, event).
Proof.
  intros Hout Hold Hnew m. unfold createOne, create. cbn [om_eventId om_routingKey om_event m].
  set (same := fun r : OutboxEvent => _ && _).
  assert (existsb same (outbox (db w)) = bool_decide (c ∈ ks)) as ->.
  { apply eq_true_iff_eq. rewrite bool_decide_eq_true, existsb_exists, Hout. unfold same. split.
    - intros (row & Hin & [Hid Hk]%andb_true_iff). apply list_elem_of_In, elem_of_app in Hin as [Hin|Hin].
      { apply bool_decide_eq_true in Hid. by destruct (Hold row Hin). }
      apply (list_elem_of_fmap_2 row_view) in Hin. rewrite Hnew in Hin.
      apply list_elem_of_fmap in Hin as (c' & [= _ Hkey _] & Hc'). rewrite elem_of_remove_dups in Hc'.
      apply bool_decide_eq_true in Hk. rewrite Hk in Hkey. by apply routingKeyFor_inj in Hkey as ->.
    - intros Hc. assert ((ev_eventId event, routingKeyFor c, event) ∈ row_view <$> new) as Hin.
      { rewrite Hnew. apply list_elem_of_fmap. exists c. by rewrite elem_of_remove_dups. }
      apply list_elem_of_fmap in Hin as (row & [= Hid Hk _] & Hin). exists row.
      rewrite <- list_elem_of_In, elem_of_app, <- Hid, <- Hk. split; [by right|].
      apply andb_true_iff. split; by apply bool_decide_true. }
  case_decide; [by rewrite bool_decide_true by done|]. rewrite bool_decide_false by done.
  eexists. split; [cbn; by rewrite Hout, <- app_assoc|done].
Qed.

Lemma createMany_new event channels w :
  (forall row, row ∈ outbox (db w) -> o_eventId row <> ev_eventId event) ->
  exists new, outbox (db (createMany (fire_messages event channels) w)) = outbox (db w) ++ new /\
    Forall (fun row => is_pending row = true) new /\ row_view <$> new ≡ₚ alert_views event channels.
Proof.
  intros Hold. induction channels as [|c ks IH] using rev_ind; [exists []; cbn; by rewrite app_nil_r|].
  destruct IH as (new & Hout & Hpd & Hv). unfold createMany, fire_messages in *. rewrite map_app, fold_left_app. cbn.
  pose proof (createOne_new event c ks _ new _ Hout Hold Hv) as Hone. cbv zeta in Hone.
  unfold alert_views in *. case_decide as Hc.
  - exists new. rewrite Hone. split_and!; [done|done|]. rewrite remove_dups_snoc. by rewrite decide_True.
  - destruct Hone as (row & Hout' & Hp & Hrow). exists (new ++ [row]). split_and!; [done|by apply Forall_app_2; [|apply Forall_singleton]|].
    rewrite remove_dups_snoc, decide_False by done. by rewrite !fmap_app, Hv; cbn; rewrite Hrow.
Qed.

Lemma createMany_ledger event channels w :
  (forall row, row ∈ outbox (db w) -> o_eventId row <> ev_eventId event) ->
  let w' := createMany (fire_messages event channels) w in
  row_view <$> outbox (db w') ≡ₚ (row_view <$> outbox (db w)) ++ alert_views event channels /\
  traffic w' ≡ₚ traffic w ++ (view_message <$> alert_views event channels).
Proof.
  intros Hold. destruct (createMany_new event channels w Hold) as (new & Hout & Hpd & Hv). cbv zeta.
  destruct (createMany_frame (fire_messages event channels) w) as (_ & _ & _ & Hb & _).
  rewrite Hout, fmap_app, <- Hv. split; [done|]. unfold traffic. rewrite Hb, <- app_assoc. f_equiv.
  rewrite <- list_fmap_compose. unfold staged. rewrite !order_asc_perm, Hout.
  assert (find_many is_pending (outbox (db w) ++ new) = find_many is_pending (outbox (db w)) ++ new) as ->; [|by rewrite fmap_app].
  unfold find_many. rewrite List.filter_app. f_equal. clear -Hpd. induction Hpd as [|row new' Hrow _ IH]; [done|]. cbn. by rewrite Hrow, IH.
Qed.

(** *** Alerts add up *)

Section Alerted.
Context (alert_of : WatchedTrigger -> string -> TriggerFiredEvent).

(** The rows of the alerts of a log of firings. *)
Definition log_views (log : list (WatchedTrigger * string)) : list (string * string * TriggerFiredEvent) :=
  log ≫= (fun te => alert_views (alert_of te.1 te.2) (wt_channels te.1)).

(** From [w] to [w'] the triggers of a list fired, each once, each under an
    event id of its own that nothing in [w] had: the outbox got exactly the
    rows of their alerts, and of the messages on their way none was lost or
    doubled and exactly those of the alerts were added. *)
Definition alerted (fired : list WatchedTrigger) (w w' : World) : Prop :=
  exists log, log.*1 = fired /\ NoDup log.*2 /\ Forall (fun i => ~ drawn w i /\ drawn w' i) log.*2 /\
    row_view <$> outbox (db w') ≡ₚ (row_view <$> outbox (db w)) ++ log_views log /\
    traffic w' ≡ₚ traffic w ++ (view_message <$> log_views log).

Lemma alerted_none w w' :
  row_view <$> outbox (db w') = row_view <$> outbox (db w) -> traffic w' = traffic w -> alerted [] w w'.
Proof. intros Hv Ht. exists []. cbn. rewrite Hv, Ht, !app_nil_r. split_and!; try done; constructor. Qed.

Lemma alerted_trans l1 l2 w w1 w2 :
  (uuids w <= uuids w1 <= uuids w2)%nat -> alerted l1 w w1 -> alerted l2 w1 w2 -> alerted (l1 ++ l2) w w2.
Proof.
  intros [Hu1 Hu2] (log1 & <- & Hnd1 & Hf1 & Hv1 & Ht1) (log2 & <- & Hnd2 & Hf2 & Hv2 & Ht2).
  rewrite Forall_forall in Hf1, Hf2. exists (log1 ++ log2). rewrite !fmap_app. split_and!; [done|..].
  - apply NoDup_app. split_and!; [done| |done]. intros i Hi1 Hi2. by apply (Hf2 i Hi2), Hf1.
  - apply Forall_app. split; apply Forall_forall; intros i Hi.
    + destruct (Hf1 i Hi). eauto using drawn_mono.
    + destruct (Hf2 i Hi) as [Hno ?]. split; [|done]. intros Hd. by apply Hno, (drawn_mono w).
  - unfold log_views in *. by rewrite bind_app, Hv2, Hv1, app_assoc.
  - unfold log_views in *. by rewrite bind_app, fmap_app, Ht2, Ht1, app_assoc.
Qed.

(** What happens to Redis is not in the ledger, and an id that a later world
    has not drawn was not drawn before. *)
Lemma alerted_fresh l w w0 w' w1 :
  db w0 = db w -> broker w0 = broker w -> (uuids w <= uuids w0)%nat ->
  db w1 = db w' -> broker w1 = broker w' -> (uuids w' <= uuids w1)%nat -> alerted l w0 w' -> alerted l w w1.
Proof.
  intros Hd Hb Hu Hd' Hb' Hu' (log & Hl & Hnd & Hf & Hv & Ht). exists log. unfold traffic, staged in *.
  rewrite <- Hd, <- Hb, Hd', Hb'. split_and!; try done. eapply Forall_impl; [exact Hf|].
  intros i [Hno Hdr]. split; [|by eapply drawn_mono]. intros Hi. by apply Hno, (drawn_mono w).
Qed.

End Alerted.

(** *** Observations add up *)

Lemma recorded_none cs : recorded [] cs cs.
Proof. split; [done|]. intros i c Hi. exists c. split_and!; [done|set_solver|done]. Qed.

(** Observations of other conditions, one list after the other. *)
Lemma recorded_app o1 o2 cs cs1 cs2 :
  (forall a b, a ∈ o1 -> b ∈ o2 -> wc_id (base a) <> wc_id (base b)) ->
  recorded o1 cs cs1 -> recorded o2 cs1 cs2 -> recorded (o1 ++ o2) cs cs2.
Proof.
  intros Hdisj [Hl1 H1] [Hl2 H2]. split; [by rewrite Hl2|]. intros i c Hi.
  destruct (H1 i c Hi) as (c1 & Hi1 & Hobs1 & Hrest1). destruct (H2 i c1 Hi1) as (c2 & Hi2 & Hobs2 & Hrest2).
  exists c2. split; [done|].
  assert ((exists a, a ∈ o1 /\ wc_id (base a) = c_id c) \/ forall a, a ∈ o1 -> wc_id (base a) <> c_id c) as [(a & Ha & Hid)|Hno].
  { clear. induction o1 as [|a l IH]; [right; set_solver|]. destruct (decide (wc_id (base a) = c_id c)) as [Hid|Hid].
    - left. exists a. split; [apply list_elem_of_here|done].
    - destruct IH as [(b & Hb & ?)|Hall]; [left; exists b; split; [by apply list_elem_of_further|done]|right].
      intros b [->|Hb]%elem_of_cons; auto. }
  - pose proof (Hobs1 a Ha Hid) as ->.
    rewrite Hrest2 by (intros b Hb; cbn; rewrite <- Hid; intros Heq; by apply (Hdisj a b)). split.
    + intros o [Ho|Ho]%elem_of_app Ho'; [by apply Hobs1|]. destruct (Hdisj a o Ha Ho). congruence.
    + intros Hall. destruct (Hall a); [apply elem_of_app; by left|done].
  - rewrite (Hrest1 Hno) in *. split.
    + intros o [Ho|Ho]%elem_of_app Ho'; [by destruct (Hno o)|by apply Hobs2].
    + intros Hall. apply Hrest2. intros b Hb. apply Hall, elem_of_app. by right.
Qed.

Lemma recorded_perm o1 o2 cs cs' : o1 ≡ₚ o2 -> recorded o1 cs cs' -> recorded o2 cs cs'.
Proof. intros Hp [Hl Hr]. split; [done|]. by setoid_rewrite <- Hp. Qed.

End Ledger.
