(* ===== verification/Async.v ===== *)
(** * Asynchronous functions, one [await] at a time

    An [M] computation runs a whole handler in one go. A [Proc] stops at every
    [await], so that several of them can be interleaved the way the event loop
    interleaves the promises of one process and the processes interleave with
    each other: the code between two awaits is atomic, a remote call is one
    step, and anything may happen before the next one. *)

From S2P Require Import Prelude JsNumber Enums Contracts World Effects.

(** ** Suspended functions *)

(** A function that has settled, with a value or a thrown error, or that waits
    for a call and goes on with its answer. *)
Inductive Proc (A : Type) : Type :=
  | Return (r : A + exn)
  | Await {B : Type} (call : M B) (k : B + exn -> Proc A).
Arguments Return {A}.
Arguments Await {A B}.

Definition resolve {A} (a : A) : Proc A := Return (inl a).
Definition reject {A} (e : exn) : Proc A := Return (inr e).

(** [await call] *)
Definition await {A} (call : M A) : Proc A := Await call Return.

Fixpoint then_ {A B} (p : Proc A) (f : A + exn -> Proc B) : Proc B :=
  match p with
  | Return r => f r
  | Await call k => Await call (fun b => then_ (k b) f)
  end.

Definition pbind {A B} (p : Proc A) (f : A -> Proc B) : Proc B :=
  then_ p (fun r => match r with inl a => f a | inr e => reject e end).

(** [try { p } catch (e) { h(e) }] *)
Definition pcatch {A} (p : Proc A) (h : exn -> Proc A) : Proc A :=
  then_ p (fun r => match r with inl a => resolve a | inr e => h e end).

(** [try { p } finally { f }] *)
Definition pfinally {A} (p : Proc A) (f : Proc unit) : Proc A :=
  then_ p (fun r => pbind f (fun _ => Return r)).

Declare Scope async_scope.
Delimit Scope async_scope with async.

Notation "'let*' x := p 'in' q" := (pbind p (fun x => q))
  (at level 200, x name, p at level 100, q at level 200, right associativity) : async_scope.
Notation "'do*' p 'in' q" := (pbind p (fun _ => q))
  (at level 200, p at level 100, q at level 200, right associativity) : async_scope.

(** [for (const x of l) { await body(x) }] *)
Fixpoint pfor_each {A} (l : list A) (body : A -> Proc unit) : Proc unit :=
  match l with
  | [] => resolve tt
  | x :: l' => pbind (body x) (fun _ => pfor_each l' body)
  end.

(** One step: the pending call is made and the function runs to its next
    [await]; [None] when the process died in the call. *)
Definition resume {A} (p : Proc A) (w : World) : option (Proc A) * World :=
  match p with
  | Return _ => (Some p, w)
  | Await call k => match call w with
                    | (Ok b, w') => (Some (k (inl b)), w')
                    | (Throw e, w') => (Some (k (inr e)), w')
                    | (Crash, w') => (None, w')
                    end
  end.

(** ** Run alone, a suspended function is the computation it suspends *)

Fixpoint alone {A} (p : Proc A) : M A :=
  match p with
  | Return (inl a) => ret a
  | Return (inr e) => throw e
  | Await call k => fun w =>
      match call w with
      | (Ok b, w') => alone (k (inl b)) w'
      | (Throw e, w') => alone (k (inr e)) w'
      | (Crash, w') => (Crash, w')
      end
  end.

Lemma alone_await {A} (call : M A) w : alone (await call) w = call w.
Proof. cbn. by destruct (call w) as [[] ?]. Qed.

Lemma alone_then {A B} (p : Proc A) (f : A + exn -> Proc B) w :
  alone (then_ p f) w =
  match alone p w with
  | (Ok a, w') => alone (f (inl a)) w'
  | (Throw e, w') => alone (f (inr e)) w'
  | (Crash, w') => (Crash, w')
  end.
Proof.
  revert w. induction p as [[a|e]|C call k IH]; intros w; [done..|].
  cbn. destruct (call w) as [[c|e|] w']; [apply IH..|done].
Qed.

Lemma alone_pbind {A B} (p : Proc A) (f : A -> Proc B) w :
  alone (pbind p f) w = bind (alone p) (fun a => alone (f a)) w.
Proof. unfold pbind. rewrite alone_then. unfold bind. by destruct (alone p w) as [[] ?]. Qed.

Lemma alone_pcatch {A} (p : Proc A) (h : exn -> Proc A) w :
  alone (pcatch p h) w = catch (alone p) (fun e => alone (h e)) w.
Proof. unfold pcatch. rewrite alone_then. unfold catch. by destruct (alone p w) as [[] ?]. Qed.

Lemma alone_pfinally {A} (p : Proc A) (f : Proc unit) w :
  alone (pfinally p f) w = finally (alone p) (alone f) w.
Proof.
  unfold pfinally. rewrite alone_then. unfold finally.
  destruct (alone p w) as [[a|e|] w']; [| |done];
    rewrite alone_pbind; unfold bind; by destruct (alone f w') as [[[]|e'|] w''].
Qed.

(** Suspending a sequence suspends its parts. *)
Lemma alone_bind_eq {A B} (p : Proc A) (f : A -> Proc B) (m : M A) (k : A -> M B) w :
  (forall w, alone p w = m w) -> (forall a w, alone (f a) w = k a w) ->
  alone (pbind p f) w = bind m k w.
Proof. intros Hp Hf. rewrite alone_pbind. unfold bind. rewrite Hp. destruct (m w) as [[a|e|] w']; auto. Qed.

Lemma alone_catch_eq {A} (p : Proc A) (h : exn -> Proc A) (m : M A) (k : exn -> M A) w :
  (forall w, alone p w = m w) -> (forall e w, alone (h e) w = k e w) ->
  alone (pcatch p h) w = catch m k w.
Proof. intros Hp Hh. rewrite alone_pcatch. unfold catch. rewrite Hp. destruct (m w) as [[a|e|] w']; auto. Qed.

Lemma alone_finally_eq {A} (p : Proc A) (f : Proc unit) (m : M A) (g : M unit) w :
  (forall w, alone p w = m w) -> (forall w, alone f w = g w) ->
  alone (pfinally p f) w = finally m g w.
Proof. intros Hp Hf. rewrite alone_pfinally. unfold finally. rewrite Hp. destruct (m w) as [[a|e|] w']; by rewrite ?Hf. Qed.

Lemma alone_for_each_eq {A} (l : list A) (f : A -> Proc unit) (g : A -> M unit) w :
  (forall x w, alone (f x) w = g x w) -> alone (pfor_each l f) w = for_each l g w.
Proof.
  intros Hf. revert w. induction l as [|x l IH]; intros w; [done|]. cbn [pfor_each for_each].
  by apply alone_bind_eq.
Qed.

Ltac alone_tac :=
  repeat match goal with
    | |- alone (pbind _ _) _ = bind _ _ _ => apply alone_bind_eq
    | |- alone (pcatch _ _) _ = catch _ _ _ => apply alone_catch_eq
    | |- alone (pfinally _ _) _ = finally _ _ _ => apply alone_finally_eq
    | |- alone (pfor_each _ _) _ = for_each _ _ _ => apply alone_for_each_eq
    | |- alone (await _) _ = _ => apply alone_await
    | |- alone (match ?x with _ => _ end) _ = _ => destruct x
    | |- forall _, _ => intros ?
    | |- _ => reflexivity
    end.

(** Several functions, resumed in the order [schedule] names them, up to the
    first that dies. *)
Fixpoint run_procs {A} (schedule : list nat) (w : World) (ps : list (Proc A)) : World * list (Proc A) :=
  match schedule with
  | [] => (w, ps)
  | i :: rest =>
      match ps !! i with
      | None => run_procs rest w ps
      | Some p => match resume p w with
                  | (Some p', w') => run_procs rest w' (<[i := p']> ps)
                  | (None, _) => (w, ps)
                  end
      end
  end.

(** ** A function does not wait for ever

    Each answer leads to a strictly smaller function. *)

Definition resumed {A} (q p : Proc A) : Prop :=
  match p with Return _ => False | Await _ k => exists r, q = k r end.

Lemma resumed_wf {A} : well_founded (resumed (A:=A)).
Proof.
  intros p. induction p as [r|B call k IH]; constructor; [done|]. intros q [r ->]. apply IH.
Qed.

Lemma resume_resumed {A} (p q : Proc A) w w' :
  (forall r, p <> Return r) -> resume p w = (Some q, w') -> resumed q p.
Proof.
  destruct p as [r|B call k]; intros Hr; [by destruct (Hr r)|]. cbn.
  destruct (call w) as [[b|e|] w1]; intros [= <- _]; eauto.
Qed.

(** ** What every call of a function keeps *)

Fixpoint every_call (R : relation World) {A} (p : Proc A) : Prop :=
  match p with
  | Return _ => True
  | Await call k => keeps R call /\ forall r, every_call R (k r)
  end.

Lemma every_call_then R {A B} (p : Proc A) (f : A + exn -> Proc B) :
  every_call R p -> (forall r, every_call R (f r)) -> every_call R (then_ p f).
Proof. intros Hp Hf. induction p as [r|C call k IH]; cbn; [done|]. destruct Hp. split; [done|auto]. Qed.

Lemma every_call_pbind R {A B} (p : Proc A) (f : A -> Proc B) :
  every_call R p -> (forall a, every_call R (f a)) -> every_call R (pbind p f).
Proof. intros Hp Hf. apply every_call_then; [done|]. intros [a|e]; [apply Hf|done]. Qed.

Lemma every_call_pcatch R {A} (p : Proc A) (h : exn -> Proc A) :
  every_call R p -> (forall e, every_call R (h e)) -> every_call R (pcatch p h).
Proof. intros Hp Hh. apply every_call_then; [done|]. intros [a|e]; [done|apply Hh]. Qed.

Lemma every_call_await (R : relation World) {A} (call : M A) : keeps R call -> every_call R (await call).
Proof. by split. Qed.

Lemma every_call_mono (R R' : relation World) {A} (p : Proc A) :
  (forall w w', R w w' -> R' w w') -> every_call R p -> every_call R' p.
Proof. intros HR. induction p as [r|B call k IH]; cbn; [done|]. intros [Hc Hk]. split; [intros w; apply HR, Hc|auto]. Qed.

(** The calls left after a step, and the step itself. *)
Lemma every_call_resume R `{!WorldOrder R} {A} (p : Proc A) w :
  every_call R p -> R w (resume p w).2 /\ forall q, (resume p w).1 = Some q -> every_call R q.
Proof.
  destruct p as [r|B call k]; cbn; [intros _; split; [reflexivity|by intros q [= <-]]|]. intros [Hc Hk].
  specialize (Hc w). destruct (call w) as [[b|e|] w1]; (split; [done|]); [by intros q [= <-]..|done].
Qed.

Ltac every_call_tac :=
  repeat match goal with
    | |- every_call _ (pbind _ _) => apply every_call_pbind
    | |- every_call _ (pcatch _ _) => apply every_call_pcatch
    | |- every_call _ (await _) => apply every_call_await
    | |- every_call _ (Return _) => exact I
    | |- every_call _ (resolve _) => exact I
    | |- every_call _ (reject _) => exact I
    | |- every_call _ (match _ with _ => _ end) => case_match
    | |- forall _, every_call _ _ => intros ?
    end; keeps_tac.

(** ** Rely and guarantee

    [safe R I p Q w]: from [w] on, whatever others do between its calls as
    long as it respects [R], every call of [p] respects [R], and where [p]
    settles [Q] holds of its outcome and stays so. All of it is said of worlds
    that satisfy the invariant [I], which [R] keeps. *)

Class Invariant (R : relation World) (I : World -> Prop) : Prop :=
  invariant_kept : forall w w', R w w' -> I w -> I w'.

Section Safe.
Context (R : relation World) (I : World -> Prop) `{!WorldOrder R} `{!Invariant R I}.

Fixpoint safe {A} (p : Proc A) (Q : A + exn -> World -> Prop) (w : World) : Prop :=
  forall w1, R w w1 -> I w1 ->
  match p with
  | Return r => Q r w1
  | Await call k =>
      R w1 (call w1).2 /\
      match (call w1).1 with
      | Ok b => safe (k (inl b)) Q (call w1).2
      | Throw e => safe (k (inr e)) Q (call w1).2
      | Crash => True
      end
  end.

Lemma safe_mono {A} (p : Proc A) Q w w' : R w w' -> safe p Q w -> safe p Q w'.
Proof. intros Hw. destruct p; cbn; intros Hs w1 Hw1; apply Hs; by etrans. Qed.

Lemma safe_weaken {A} (p : Proc A) (Q Q' : A + exn -> World -> Prop) w :
  (forall r w', R w w' -> I w' -> Q r w' -> Q' r w') -> safe p Q w -> safe p Q' w.
Proof.
  revert w. induction p as [r|C c k IH]; intros w HQ Hs w1 Hw1 Hi; [by apply HQ, Hs|].
  destruct (Hs w1 Hw1 Hi) as [Hc Hk]. split; [done|].
  assert (forall r w', R (c w1).2 w' -> I w' -> Q r w' -> Q' r w') as HQ'.
  { intros r w' Hw'. apply HQ. etrans; [exact Hw1|]. by etrans. }
  destruct ((c w1).1); [by apply IH..|done].
Qed.

Lemma safe_return {A} (r : A + exn) (Q : A + exn -> World -> Prop) w :
  (forall w1, R w w1 -> I w1 -> Q r w1) -> safe (Return r) Q w.
Proof. done. Qed.

Lemma safe_then {A B} (p : Proc A) (f : A + exn -> Proc B) Q w :
  safe p (fun r => safe (f r) Q) w -> safe (then_ p f) Q w.
Proof.
  revert w. induction p as [r|C c k IH]; intros w Hs; cbn [then_].
  { assert (forall w1, R w w1 -> I w1 -> safe (f r) Q w1) as Hf by exact Hs.
    destruct (f r); intros w1 Hw1 Hi; by apply (Hf w1). }
  intros w1 Hw1 Hi. destruct (Hs w1 Hw1 Hi) as [Hc Hk]. split; [done|].
  destruct ((c w1).1); [by apply IH..|done].
Qed.

(** A single call. *)
Lemma safe_await {A} (call : M A) (Q : A + exn -> World -> Prop) w :
  (forall w1, R w w1 -> I w1 -> R w1 (call w1).2 /\
    match (call w1).1 with
    | Ok a => forall w2, R (call w1).2 w2 -> I w2 -> Q (inl a) w2
    | Throw e => forall w2, R (call w1).2 w2 -> I w2 -> Q (inr e) w2
    | Crash => True
    end) ->
  safe (await call) Q w.
Proof. intros Hc w1 Hw1 Hi. destruct (Hc w1 Hw1 Hi) as [? Hr]. split; [done|]. by destruct ((call w1).1). Qed.

(** A call that always respects [R], with nothing to remember. *)
Lemma safe_keeps {A} (call : M A) (Q : A + exn -> World -> Prop) w :
  keeps R call -> (forall r w', R w w' -> I w' -> Q r w') -> safe (await call) Q w.
Proof.
  intros Hk HQ. apply safe_await. intros w1 Hw1 Hi. split; [apply Hk|].
  assert (forall r w2, R (call w1).2 w2 -> I w2 -> Q r w2) as HQ'.
  { intros r w2 Hw2. apply HQ. etrans; [exact Hw1|]. etrans; [apply Hk|done]. }
  destruct ((call w1).1); eauto.
Qed.

(** A safe function is safe after each of its steps, and the step respects [R]. *)
Lemma safe_resume {A} (p : Proc A) Q w w' :
  safe p Q w -> R w w' -> I w' ->
  R w' (resume p w').2 /\ forall q, (resume p w').1 = Some q -> safe q Q (resume p w').2.
Proof.
  intros Hs Hw Hi. destruct p as [r|C call k]; cbn.
  { split; [reflexivity|]. intros q [= <-] w1 Hw1. apply Hs. by etrans. }
  destruct (Hs w' Hw Hi) as [Hc Hk]. destruct (call w') as [[c|e|] w1]; cbn in *; split; try done;
    by intros q [= <-].
Qed.

(** [safely p]: [p] respects [R] wherever it is started. *)
Definition safely {A} (p : Proc A) : Prop := forall w, safe p (fun _ _ => True) w.

Lemma safely_return {A} (r : A + exn) : safely (Return r).
Proof. by intros w w1 Hw1. Qed.

Lemma safely_await {A} (call : M A) : keeps R call -> safely (await call).
Proof. intros Hk w. by apply safe_keeps. Qed.

Lemma safely_then {A B} (p : Proc A) (f : A + exn -> Proc B) :
  safely p -> (forall r, safely (f r)) -> safely (then_ p f).
Proof. intros Hp Hf w. apply safe_then. refine (safe_weaken p _ _ w _ (Hp w)). intros r w' _ _ _. apply Hf. Qed.

Lemma safely_pbind {A B} (p : Proc A) (f : A -> Proc B) : safely p -> (forall a, safely (f a)) -> safely (pbind p f).
Proof. intros Hp Hf. apply safely_then; [done|]. intros [a|e]; [apply Hf|by intros w w1]. Qed.

Lemma safely_pcatch {A} (p : Proc A) (h : exn -> Proc A) : safely p -> (forall e, safely (h e)) -> safely (pcatch p h).
Proof. intros Hp Hh. apply safely_then; [done|]. intros [a|e]; [by intros w w1|apply Hh]. Qed.

Lemma safely_pfinally {A} (p : Proc A) (f : Proc unit) : safely p -> safely f -> safely (pfinally p f).
Proof.
  intros Hp Hf. apply safely_then; [done|]. intros r w. apply safe_then.
  refine (safe_weaken f _ _ w _ (Hf w)). intros [u|e] w' _ _ _ w1 _ _; done.
Qed.

Lemma safely_for_each {A} (l : list A) (f : A -> Proc unit) :
  (forall x, safely (f x)) -> safely (pfor_each l f).
Proof. intros Hf. induction l as [|x l IH]; cbn; [apply safely_return|by apply safely_pbind]. Qed.

End Safe.

Ltac safely_tac :=
  repeat match goal with
    | |- safely _ _ (pbind _ _) => apply safely_pbind; [apply _..| |]
    | |- safely _ _ (pcatch _ _) => apply safely_pcatch; [apply _..| |]
    | |- safely _ _ (pfinally _ _) => apply safely_pfinally; [apply _..| |]
    | |- safely _ _ (pfor_each _ _) => apply safely_for_each; [apply _..|]
    | |- safely _ _ (await _) => apply safely_await; [apply _..|]
    | |- safely _ _ (Return _) => apply safely_return
    | |- safely _ _ (resolve _) => apply safely_return
    | |- safely _ _ (reject _) => apply safely_return
    | |- safely _ _ (match _ with _ => _ end) => case_match
    | |- forall _, safely _ _ _ => intros ?
    end; keeps_tac.
