(* ===== verification/Cycle.v ===== *)
(** * The poll cycle with its workers in flight

    [WatcherService.runCycle] of [apps/watcher/src/watcher.service.ts], one
    [await] at a time: the pool of [pollLocations], the renewal timer of
    [withLockRenewal] and the lock around them, with the workers interleaved
    as the event loop pleases. Watcher.v has the same functions run one after
    another. *)

From S2P Require Import Prelude JsNumber Enums Conditions QuietHours TriggerStateMachine Location Contracts Table World Samples Effects RedisService Weather Outbox Watcher Async.

(** ** The functions of the relay and of the watcher, suspended at each call *)

Section Functions.
Context `{UuidSupply} `{Intl} `{WeatherUpstream}.
Context (weatherTtl : Z) (batchSize : nat).
Local Open Scope async_scope.

(** [OutboxRelayService] *)

Fixpoint async_publish_rows (pending : list PendingOutboxEvent) (published : list string) : Proc (list string) :=
  match pending with
  | [] => resolve published
  | row :: rest =>
      let* continue := pcatch (do* await (publish (po_routingKey row) (po_event row)) in resolve true)
                              (fun _ => resolve false) in
      if (continue : bool) then async_publish_rows rest (published ++ [po_id row]) else resolve published
  end.

Definition async_reportBacklog : Proc unit :=
  pcatch (do* await countPending in resolve tt) (fun _ => resolve tt).

Definition async_publishPending : Proc nat :=
  let* pending := await (findPending batchSize) in
  match pending with
  | [] => resolve 0%nat
  | _ =>
      let* published := async_publish_rows pending [] in
      do* await (markPublished published) in
      do* async_reportBacklog in
      resolve (length published)
  end.

Definition async_flush : Proc nat :=
  let* token := await (acquireLock RELAY_LOCK_KEY RELAY_LOCK_TTL_SEC) in
  match token with
  | None => resolve 0%nat
  | Some token =>
      pfinally async_publishPending (do* await (releaseLock RELAY_LOCK_KEY token) in resolve tt)
  end.

Definition async_runRelay : Proc unit := pcatch (do* async_flush in resolve tt) (fun _ => resolve tt).

Definition async_pruneRelayed : Proc unit := await pruneRelayed.

(** [OpenMeteoProvider] *)

Definition async_fetch (lat lon : number) : Proc WeatherSnapshot :=
  let request := await (query (fun w => upstream (now w) lat lon)) in
  let* data := pcatch request (fun _ => do* await (sleep 1000) in request) in
  match data with
  | None => reject (JsError "ZodError")
  | Some c =>
      resolve {| temperature := temperature_2m c;
                 apparentTemp := apparent_temperature c;
                 humidity := relative_humidity_2m c;
                 windSpeed := wind_speed_10m c;
                 precipitation := precipitation_ c;
                 weatherCode := weather_code c |}
  end.

Definition async_getSnapshot (latitude longitude : number) : Proc WeatherSnapshot :=
  let key := cacheKey latitude longitude in
  let* cached := await (getJson key) in
  match cached with
  | Some s => resolve s
  | None =>
      let* snapshot := async_fetch latitude longitude in
      do* await (setJson key snapshot weatherTtl) in
      resolve snapshot
  end.

(** [WatcherService.fire] up to its first [await]: the event is built and its
    transaction sent without a pause. *)
Definition fire_commit (trigger : WatchedTrigger) (results : list (EvaluatedCondition WatchedCondition))
    (evaluatedAt : Z) : M unit :=
  (let* eventId := randomUUID in
   let* firedAt := get_now in
   let event := fired_event trigger results eventId firedAt in
   let messages := fire_messages event (wt_channels trigger) in
   let* lastFiredAt := get_now in
   Repository.commitFire (wt_id trigger) results
     {| patch_lastEvaluatedAt := evaluatedAt; patch_state := Some FIRED;
        patch_lastFiredAt := Some lastFiredAt |} messages)%effect.

(** The decision and the write it leads to; whether it was a firing. *)
Definition decide_and_write (trigger : WatchedTrigger) (snapshot : WeatherSnapshot) : M bool :=
  (let evaluation := evaluateConditions snapshot (wt_conditions trigger) (wt_conditionLogic trigger) in
   let* evaluatedAt := get_now in
   match decide_ (state_input trigger) (all_matched evaluation) evaluatedAt (wt_quietHours trigger) with
   | None => throw RangeError
   | Some FIRE => do* fire_commit trigger (results evaluation) evaluatedAt in ret true
   | Some decision =>
       do* Repository.recordObservation (wt_id trigger) (results evaluation)
             {| patch_lastEvaluatedAt := evaluatedAt;
                patch_state := match decision with REARM => Some ARMED | _ => None end;
                patch_lastFiredAt := None |} in
       ret false
   end)%effect.

Definition async_processTrigger (trigger : WatchedTrigger) (snapshot : WeatherSnapshot) : Proc unit :=
  let* fired := await (decide_and_write trigger snapshot) in
  if (fired : bool) then (do* async_flush in resolve tt) else resolve tt.

Definition async_pollLocation (group : list WatchedTrigger) : Proc unit :=
  match group with
  | [] => resolve tt
  | t0 :: _ =>
      let* snapshot :=
        pcatch (let* s := async_getSnapshot (wt_latitude t0) (wt_longitude t0) in resolve (Some s))
               (fun _ => resolve None) in
      match snapshot with
      | None => resolve tt
      | Some snapshot => pfor_each group (fun trigger => async_processTrigger trigger snapshot)
      end
  end.

(** *** Alone, they are the functions of Outbox.v, Weather.v and Watcher.v *)

Lemma alone_publish_rows pending acc w :
  alone (async_publish_rows pending acc) w = publish_rows pending acc w.
Proof.
  revert acc w. induction pending as [|row rest IH]; intros acc w; [done|].
  cbn [async_publish_rows publish_rows]. alone_tac; auto.
Qed.

Lemma alone_publishPending w : alone async_publishPending w = publishPending batchSize w.
Proof.
  unfold async_publishPending, publishPending, async_reportBacklog, reportBacklog.
  alone_tac; auto using alone_publish_rows.
Qed.

Lemma alone_flush w : alone async_flush w = flush batchSize w.
Proof. unfold async_flush, flush. alone_tac; auto using alone_publishPending. Qed.

Lemma alone_runRelay w : alone async_runRelay w = runRelay batchSize w.
Proof. unfold async_runRelay, runRelay. alone_tac; auto using alone_flush. Qed.

Lemma alone_getSnapshot lat lon w : alone (async_getSnapshot lat lon) w = getSnapshot weatherTtl lat lon w.
Proof. unfold async_getSnapshot, getSnapshot, async_fetch, fetch. alone_tac. Qed.

Lemma alone_processTrigger trigger snapshot w :
  alone (async_processTrigger trigger snapshot) w = processTrigger batchSize trigger snapshot w.
Proof.
  assert (forall w, alone (let* _ := async_flush in resolve tt) w = (let* _ := flush batchSize in ret tt)%effect w) as Hf
    by (intros; alone_tac; apply alone_flush).
  unfold async_processTrigger, decide_and_write, processTrigger. rewrite alone_pbind.
  unfold bind at 1. rewrite alone_await, !bind_get_now.
  destruct (decide_ _ _ _ _) as [[]|]; [|unfold bind; by destruct (Repository.recordObservation _ _ _ _) as [[[]| |] ?]..|done].
  unfold fire, fire_commit. set (u := randomUUID). unfold bind, get_now. destruct (u w) as [[eventId|e|] w1]; [|done..].
  destruct (Repository.commitFire _ _ _ _ _) as [[[]|e|] w2]; [apply Hf|done..].
Qed.

Lemma alone_pollLocation group w :
  alone (async_pollLocation group) w = pollLocation weatherTtl batchSize group w.
Proof.
  unfold async_pollLocation, pollLocation. alone_tac; auto using alone_getSnapshot, alone_processTrigger.
Qed.

End Functions.

(** ** The machine *)

(** A worker of [pollLocations]: about to ask [heldLock()], inside
    [pollLocation(group)], or settled. *)
Inductive Worker :=
  | Ready
  | Polling (group : list WatchedTrigger) (p : Proc unit)
  | Finished (r : unit + exn).

(** Where [runCycle] itself waits: for the lock, for the triggers, for
    [Promise.all], for the release; or it has settled. *)
Inductive Main :=
  | Acquiring
  | Listing (token : string)
  | Racing (token : string)
  | Releasing (token : string) (r : unit + exn)
  | Settled (r : unit + exn).

(** [rejected] is the first rejection [Promise.all] saw, [renewing] the
    renewals sent
    and not answered, by their token. The timer runs while [main] is [Racing]. *)
Record Cycle := {
  main : Main;
  queue : list (list WatchedTrigger);
  workers : list Worker;
  held : bool;
  rejected : option exn;
  renewing : list string;
}.

Inductive Event :=
  | MainStep
  | WorkerStep (i : nat)
  | TimerTick
  | RenewalStep.

(** What a step did to a location. *)
Inductive Log :=
  | Took (group : list WatchedTrigger)
  | Polled (group : list WatchedTrigger)
  | Gave_up (group : list WatchedTrigger).

(** The event is not possible, the process died, or the cycle goes on. *)
Inductive Step :=
  | Stuck
  | Dead (w : World)
  | Next (c : Cycle) (w : World) (log : option Log).

Definition set_main (m : Main) (c : Cycle) : Cycle :=
  {| main := m; queue := queue c; workers := workers c; held := held c; rejected := rejected c;
     renewing := renewing c |}.
Definition set_worker (i : nat) (x : Worker) (c : Cycle) : Cycle :=
  {| main := main c; queue := queue c; workers := <[i := x]> (workers c); held := held c;
     rejected := rejected c; renewing := renewing c |}.
Definition set_queue (q : list (list WatchedTrigger)) (c : Cycle) : Cycle :=
  {| main := main c; queue := q; workers := workers c; held := held c; rejected := rejected c;
     renewing := renewing c |}.
Definition set_rejected (e : exn) (c : Cycle) : Cycle :=
  {| main := main c; queue := queue c; workers := workers c; held := held c;
     rejected := Some (default e (rejected c)); renewing := renewing c |}.
Definition set_renewing (l : list string) (h : bool) (c : Cycle) : Cycle :=
  {| main := main c; queue := queue c; workers := workers c; held := h; rejected := rejected c;
     renewing := l |}.

Definition is_finished (x : Worker) : bool := match x with Finished _ => true | _ => false end.

(** The cycle a tick of the cron starts. *)
Definition runCycle_start : Cycle :=
  {| main := Acquiring; queue := []; workers := []; held := true; rejected := None; renewing := [] |}.

Section Machine.
Context `{UuidSupply} `{Intl} `{WeatherUpstream}.
Context (shard : ShardConfig) (weatherTtl : Z) (batchSize concurrency : nat).

(** [withLockRenewal] around [pollLocations]: the timer is set and
    [Math.min(concurrency, queue.length)] workers are created. *)
Definition start_pass (token : string) (groups : list (list WatchedTrigger)) (c : Cycle) : Cycle :=
  {| main := Racing token; queue := groups; workers := replicate (Nat.min concurrency (length groups)) Ready;
     held := true; rejected := None; renewing := renewing c |}.

Definition main_step (c : Cycle) (w : World) : Step :=
  match main c with
  | Acquiring =>
      match acquireLock (cycleLockKey shard) CYCLE_LOCK_TTL_SEC w with
      | (Ok (Some token), w') => Next (set_main (Listing token) c) w' None
      | (Ok None, w') => Next (set_main (Settled (inl tt)) c) w' None
      | (Throw e, w') => Next (set_main (Settled (inr e)) c) w' None
      | (Crash, w') => Dead w'
      end
  | Listing token =>
      match Repository.findActive (shardBuckets shard) w with
      | (Ok [], w') => Next (set_main (Releasing token (inl tt)) c) w' None
      | (Ok ts, w') => Next (start_pass token (snd <$> groupByLocation ts) c) w' None
      | (Throw e, w') => Next (set_main (Releasing token (inr e)) c) w' None
      | (Crash, w') => Dead w'
      end
  | Racing token =>
      match rejected c with
      | Some e => Next (set_main (Releasing token (inr e)) c) w None
      | None => if forallb is_finished (workers c)
                then Next (set_main (Releasing token (inl tt)) c) w None
                else Stuck
      end
  | Releasing token r =>
      match releaseLock (cycleLockKey shard) token w with
      | (Ok _, w') => Next (set_main (Settled r) c) w' None
      | (Throw e, w') => Next (set_main (Settled (inr e)) c) w' None
      | (Crash, w') => Dead w'
      end
  | Settled _ => Stuck
  end.

(** The loop of a worker: [while (heldLock()) { const group = queue.shift();
    if (!group) return; await pollLocation(group); }]. *)
Definition worker_step (i : nat) (c : Cycle) (w : World) : Step :=
  match workers c !! i with
  | Some Ready =>
      if held c then
        match queue c with
        | [] => Next (set_worker i (Finished (inl tt)) c) w None
        | group :: rest =>
            Next (set_worker i (Polling group (async_pollLocation weatherTtl batchSize group)) (set_queue rest c)) w
                 (Some (Took group))
        end
      else Next (set_worker i (Finished (inl tt)) c) w None
  | Some (Polling group (Return (inl _))) => Next (set_worker i Ready c) w (Some (Polled group))
  | Some (Polling group (Return (inr e))) =>
      Next (set_worker i (Finished (inr e)) (set_rejected e c)) w (Some (Gave_up group))
  | Some (Polling group p) =>
      match resume p w with
      | (Some p', w') => Next (set_worker i (Polling group p') c) w' None
      | (None, w') => Dead w'
      end
  | Some (Finished _) | None => Stuck
  end.

(** The timer sends a renewal; a refusal or an outage ends the claim. *)
Definition timer_step (c : Cycle) (w : World) : Step :=
  match main c with
  | Racing token => Next (set_renewing (renewing c ++ [token]) (held c) c) w None
  | _ => Stuck
  end.

Definition renewal_step (c : Cycle) (w : World) : Step :=
  match renewing c with
  | [] => Stuck
  | token :: rest =>
      match renewLock shard token w with
      | (Ok renewed, w') => Next (set_renewing rest (held c && renewed) c) w' None
      | (Throw _, w') => Next (set_renewing rest (held c) c) w' None
      | (Crash, w') => Dead w'
      end
  end.

Definition cycle_step (e : Event) (c : Cycle) (w : World) : Step :=
  match e with
  | MainStep => main_step c w
  | WorkerStep i => worker_step i c w
  | TimerTick => timer_step c w
  | RenewalStep => renewal_step c w
  end.

(** The cycle running with nothing between its steps; [None] when the process
    died. Events that are not possible are skipped. *)
Fixpoint run_cycle (es : list Event) (c : Cycle) (w : World) : option Cycle * World :=
  match es with
  | [] => (Some c, w)
  | e :: es' =>
      match cycle_step e c w with
      | Stuck => run_cycle es' c w
      | Dead w' => (None, w')
      | Next c' w' _ => run_cycle es' c' w'
      end
  end.

End Machine.
