(* ===== verification/CycleProps.v ===== *)
(** * Properties of the poll cycle

    The pool of Cycle.v polls every location once, a cycle ends, and with one
    worker it is the cycle of Watcher.v; what happens when a worker throws. *)

From S2P Require Import Prelude JsNumber Enums Conditions QuietHours TriggerStateMachine Location Contracts Table World Samples Effects RedisService Weather Outbox Watcher Async Cycle.
From Stdlib Require Import Wellfounded Relation_Operators.

(** ** Every location is polled once *)

Definition took (l : list Log) : list (list WatchedTrigger) := omap (fun x => match x with Took g => Some g | _ => None end) l.
Definition polled (l : list Log) : list (list WatchedTrigger) := omap (fun x => match x with Polled g => Some g | _ => None end) l.
Definition gave_up (l : list Log) : list (list WatchedTrigger) := omap (fun x => match x with Gave_up g => Some g | _ => None end) l.

Lemma took_app l l' : took (l ++ l') = took l ++ took l'.
Proof. apply omap_app. Qed.
Lemma polled_app l l' : polled (l ++ l') = polled l ++ polled l'.
Proof. apply omap_app. Qed.
Lemma gave_up_app l l' : gave_up (l ++ l') = gave_up l ++ gave_up l'.
Proof. apply omap_app. Qed.

(** The effect of one entry. *)
Ltac log_tac :=
  rewrite ?took_app, ?polled_app, ?gave_up_app;
  repeat match goal with
    | |- context [took (option_list ?o)] => let x := eval cbv in (took (option_list o)) in change (took (option_list o)) with x
    | |- context [polled (option_list ?o)] => let x := eval cbv in (polled (option_list o)) in change (polled (option_list o)) with x
    | |- context [gave_up (option_list ?o)] => let x := eval cbv in (gave_up (option_list o)) in change (gave_up (option_list o)) with x
    end;
  rewrite ?app_nil_r.

Definition in_hand (x : Worker) : option (list WatchedTrigger) :=
  match x with Polling g _ => Some g | _ => None end.
Definition in_flight (c : Cycle) : list (list WatchedTrigger) := omap in_hand (workers c).

Definition ended_well (c : Cycle) : Prop :=
  match main c with Releasing _ (inl _) | Settled (inl _) => True | _ => False end.

Section Pool.
Context `{UuidSupply} `{Intl} `{WeatherUpstream}.
Context (shard : ShardConfig) (weatherTtl : Z) (batchSize concurrency : nat).
Notation cycle_step := (cycle_step shard weatherTtl batchSize concurrency).

(** Steps of one cycle with anything at all happening to the world between
    them, and what they did to the locations. *)
Inductive cycle_steps : Cycle -> list Log -> Cycle -> Prop :=
  | steps_refl c : cycle_steps c [] c
  | steps_next c l c1 e w c2 w' o :
      cycle_steps c l c1 -> cycle_step e c1 w = Next c2 w' o -> cycle_steps c (l ++ option_list o) c2.

Lemma worker_or_not e : (exists i, e = WorkerStep i) \/ forall i, e <> WorkerStep i.
Proof. destruct e; naive_solver. Qed.

Lemma in_flight_length c : (length (in_flight c) <= length (workers c))%nat.
Proof. unfold in_flight. induction (workers c) as [|[] ws IH]; cbn; lia. Qed.

Lemma in_flight_finished c : forallb is_finished (workers c) = true -> in_flight c = [].
Proof. unfold in_flight. induction (workers c) as [|[] ws IH]; cbn; auto; done. Qed.

(** A step of a cycle that races: a worker moves, or the pool stays as it is. *)
Definition racing_past (m : Main) : Prop := match m with Acquiring | Listing _ => False | _ => True end.

Lemma pool_frame e c w c' w' o :
  racing_past (main c) -> (forall i, e <> WorkerStep i) -> cycle_step e c w = Next c' w' o ->
  queue c' = queue c /\ workers c' = workers c /\ rejected c' = rejected c /\ o = None /\
  racing_past (main c') /\ (held c' = true -> held c = true) /\
  (ended_well c' -> ended_well c \/ (rejected c = None /\ forallb is_finished (workers c) = true)).
Proof.
  intros Hm He. destruct e as [|i| |]; [|by destruct (He i)|..]; cbn.
  - unfold main_step. destruct (main c) as [| |token|token r|r] eqn:Hmain; try done.
    + destruct (rejected c) eqn:Hr; [|destruct (forallb _ _) eqn:Hf; [|done]]; intros [= <- <- <-]; cbn; tauto.
    + destruct (releaseLock _ _ w) as [[b|e|] w1]; intros [= <- <- <-]; unfold ended_well; cbn; rewrite Hmain; destruct r; tauto.
  - unfold timer_step. destruct (main c) eqn:Hmain; try done. intros [= <- <- <-].
    unfold ended_well; cbn; rewrite Hmain; tauto.
  - unfold renewal_step. destruct (renewing c) as [|token rest]; [done|].
    destruct (renewLock _ _ w) as [[b|e|] w1]; intros [= <- <- <-]; unfold ended_well; cbn; split_and!; try tauto.
    by intros [? _]%andb_true_iff.
Qed.

Definition pool_inv (groups : list (list WatchedTrigger)) (l : list Log) (c : Cycle) : Prop :=
  racing_past (main c) /\
  took l ++ queue c = groups /\
  polled l ++ gave_up l ++ in_flight c ≡ₚ took l /\
  length (workers c) = Nat.min concurrency (length groups) /\
  (Finished (inl tt) ∈ workers c -> held c = true -> queue c = []) /\
  (rejected c = None -> gave_up l = [] /\ forall e, Finished (inr e) ∉ workers c) /\
  (ended_well c -> rejected c = None /\ forallb is_finished (workers c) = true).

Lemma in_flight_set_worker i x y c :
  workers c !! i = Some x ->
  exists rest, in_flight c ≡ₚ option_list (in_hand x) ++ rest /\
    in_flight (set_worker i y c) ≡ₚ option_list (in_hand y) ++ rest.
Proof.
  intros Hi. destruct (omap_split in_hand (workers c) i x Hi) as (l1 & l2 & Hl & Hl' & _).
  exists (l1 ++ l2). unfold in_flight. cbn [workers set_worker]. rewrite Hl, Hl'.
  split; apply Permutation_app_swap_app.
Qed.

Lemma elem_of_set_worker i x y c : x ∈ workers (set_worker i y c) -> x = y \/ x ∈ workers c.
Proof.
  intros [j Hj]%list_elem_of_lookup. cbn in Hj. apply list_lookup_insert_Some in Hj as [(_ & -> & _)|[_ Hj]]; [auto|].
  right. apply list_elem_of_lookup. eauto.
Qed.

(** What a worker's step can be. *)
Lemma worker_step_cases i c w c' w' o :
  worker_step weatherTtl batchSize i c w = Next c' w' o ->
  (workers c !! i = Some Ready /\ o = None /\ w' = w /\ (held c = true -> queue c = []) /\ c' = set_worker i (Finished (inl tt)) c) \/
  (exists g rest, workers c !! i = Some Ready /\ held c = true /\ queue c = g :: rest /\ o = Some (Took g) /\ w' = w /\ c' = set_worker i (Polling g (async_pollLocation weatherTtl batchSize g)) (set_queue rest c)) \/
  (exists g p p', workers c !! i = Some (Polling g p) /\ resume p w = (Some p', w') /\ resumed p' p /\ o = None /\ c' = set_worker i (Polling g p') c) \/
  (exists g u, workers c !! i = Some (Polling g (Return (inl u))) /\ w' = w /\ o = Some (Polled g) /\ c' = set_worker i Ready c) \/
  (exists g e, workers c !! i = Some (Polling g (Return (inr e))) /\ w' = w /\ o = Some (Gave_up g) /\ c' = set_worker i (Finished (inr e)) (set_rejected e c)).
Proof.
  unfold worker_step. destruct (workers c !! i) as [[|g [[u|e]|B call k]|r]|] eqn:Hi; try done.
  - destruct (held c) eqn:Hh; [destruct (queue c) as [|g rest] eqn:Hq|]; intros [= <- <- <-]; [by left|..|by left].
    right. left. eauto 10.
  - intros [= <- <- <-]. do 3 right. left. eauto 10.
  - intros [= <- <- <-]. do 4 right. eauto 10.
  - destruct (resume _ w) as [[p'|] w1] eqn:Hr; intros [= <- <- <-]. do 2 right. left.
    exists g, (Await call k), p'. split_and!; try done. eapply resume_resumed; [|exact Hr]. done.
Qed.

Lemma not_all_finished i x c :
  workers c !! i = Some x -> is_finished x = false -> forallb is_finished (workers c) = true -> False.
Proof.
  intros Hi Hx Hf. rewrite forallb_forall in Hf. apply list_elem_of_lookup_2, list_elem_of_In in Hi.
  apply Hf in Hi. congruence.
Qed.

Lemma pool_inv_worker groups l i c w c' w' o :
  pool_inv groups l c -> worker_step weatherTtl batchSize i c w = Next c' w' o ->
  pool_inv groups (l ++ option_list o) c'.
Proof.
  intros (Hm & Ht & Hp & Hn & Hf & Hr & He) Hstep.
  assert (exists x, workers c !! i = Some x /\ is_finished x = false) as (x & Hix & Hx).
  { apply worker_step_cases in Hstep. naive_solver. }
  assert (~ ended_well c) as Hne by (intros [_ Hall]%He; by eapply not_all_finished).
  apply worker_step_cases in Hstep as
    [(Hi & -> & _ & Hq & ->)|[(g & rest & Hi & Hh & Hq & -> & _ & ->)|[(g & p & p' & Hi & _ & _ & -> & ->)|
     [(g & u & Hi & _ & -> & ->)|(g & e & Hi & _ & -> & ->)]]]];
    match goal with |- pool_inv _ _ (set_worker i ?y ?c0) =>
      destruct (in_flight_set_worker i _ y c0 Hi) as (rest' & Hfl & Hfl');
      change (in_flight c0) with (in_flight c) in Hfl;
      pose proof (fun x => elem_of_set_worker i x y c0) as Hel end.
  all: rewrite Hfl in Hp; cbn [in_hand option_list app] in Hp, Hfl'.
  all: unfold pool_inv; log_tac.
  all: split_and!; [exact Hm| | |cbn; by rewrite length_insert| | |done]; cbn [queue set_worker set_queue set_rejected held rejected].
  all: try match goal with |- _ ≡ₚ _ => rewrite Hfl', <- Hp; cbn [in_hand option_list app] end.
  all: try exact Ht; try reflexivity.
  all: try (intros Hrej; destruct (Hr Hrej) as [? Hno]; split; [done|]; intros e0 [?|?]%Hel; [done|by eapply Hno]).
  all: try by intros [?|Hin]%Hel Hh'; auto.
  - by rewrite <- app_assoc, <- Ht, Hq.
  - by rewrite <- !app_assoc, (Permutation_app_comm rest' [g]).
  - intros [?|Hin]%Hel Hh'; [done|]. by rewrite (Hf Hin Hh) in Hq.
  - rewrite <- app_assoc. f_equiv. cbn. by rewrite <- Permutation_middle.
  - by rewrite <- app_assoc.
  - done.
Qed.

Lemma pool_inv_step groups l e c w c' w' o :
  pool_inv groups l c -> cycle_step e c w = Next c' w' o -> pool_inv groups (l ++ option_list o) c'.
Proof.
  intros Hinv Hstep.
  destruct (worker_or_not e) as [[i ->]|He]; [by eapply pool_inv_worker|].
  destruct Hinv as (Hm & Ht & Hp & Hn & Hf & Hr & Hw).
  apply pool_frame in Hstep as (Hq & Hws & Hrej & -> & Hm' & Hh & Hend); [|done..].
  cbn. rewrite app_nil_r. unfold pool_inv, in_flight. rewrite Hq, Hws, Hrej. split_and!; auto; tauto.
Qed.

Lemma pool_inv_steps groups c0 l c :
  pool_inv groups [] c0 -> cycle_steps c0 l c -> pool_inv groups l c.
Proof. intros Hc Hs. induction Hs; [done|]. eapply pool_inv_step; eauto. Qed.

Lemma pool_inv_start token groups c0 : pool_inv groups [] (start_pass concurrency token groups c0).
Proof.
  assert (omap in_hand (replicate (Nat.min concurrency (length groups)) Ready) = []) as Ho
    by (induction (Nat.min _ _); auto).
  unfold pool_inv, in_flight. cbn. rewrite Ho, length_replicate. split_and!; try done.
  - by intros [? _]%elem_of_replicate.
  - intros _. split; [done|]. by intros e [? _]%elem_of_replicate.
Qed.

(** C10. Whatever order the workers of a pass run in, however their calls and
    the lock renewals go and whatever others do in between: locations are
    started in the order of the query and none is started twice; every
    started location was polled, was given up on an error, or is in the hands
    of one worker; no more than [WATCHER_CONCURRENCY] are in flight at once;
    and a pass that ends without an error has nothing in flight when its lock
    is released, and if it held the lock to the end it has polled every
    location exactly once. *)
Theorem locations_polled_once token groups c0 l c :
  cycle_steps (start_pass concurrency token groups c0) l c ->
  took l ++ queue c = groups /\
  polled l ++ gave_up l ++ in_flight c ≡ₚ took l /\
  (length (in_flight c) <= concurrency)%nat /\
  (ended_well c -> in_flight c = [] /\ (held c = true -> (0 < concurrency)%nat -> polled l ≡ₚ groups)).
Proof.
  intros Hs. apply (pool_inv_steps groups) in Hs as (_ & Ht & Hp & Hn & Hf & Hr & He); [|apply pool_inv_start].
  split_and!; [done|done| |].
  - pose proof (in_flight_length c). lia.
  - intros Hend. destruct (He Hend) as [Hrej Hall]. destruct (Hr Hrej) as [Hg Hno].
    apply in_flight_finished in Hall as Hfl. split; [done|]. intros Hh Hc.
    rewrite Hg, Hfl in Hp. cbn in Hp. rewrite app_nil_r in Hp. rewrite Hp, <- Ht.
    destruct (workers c) as [|x ws] eqn:Hws.
    { destruct groups; cbn in Hn; [|lia]. by apply app_nil in Ht as [-> ->]. }
    rewrite (Hf); [by rewrite app_nil_r| |done].
    cbn in Hall. apply andb_true_iff in Hall as [Hx _]. destruct x as [| |[[]|e]]; [done|done|set_solver|].
    destruct (Hno e). set_solver.
Qed.

(** Once a renewal was refused no further location is started, by any
    worker. *)
Theorem lost_lock_stops c l c' :
  racing_past (main c) -> held c = false -> cycle_steps c l c' -> took l = [] /\ held c' = false.
Proof.
  intros Hm Hh Hs. enough (took l = [] /\ held c' = false /\ racing_past (main c')) by tauto.
  induction Hs as [|c l c1 e w c2 w' o Hs IH Hstep]; [done|]. destruct (IH Hm Hh) as (Ht & Hh1 & Hm1).
  destruct (worker_or_not e) as [[i ->]|He].
  - apply worker_step_cases in Hstep.
    destruct Hstep as
    [(Hi & -> & _ & Hq & ->)|[(g & rest & Hi & Hh' & Hq & -> & _ & ->)|[(g & p & p' & Hi & _ & _ & -> & ->)|
     [(g & u & Hi & _ & -> & ->)|(g & e & Hi & _ & -> & ->)]]]]; log_tac; try done. congruence.
  - apply pool_frame in Hstep as (_ & _ & _ & -> & Hm' & Hh' & _); [|done..]. log_tac.
    split_and!; [done| |done]. destruct (held c2); [by rewrite Hh' in Hh1|done].
Qed.

(** ** A cycle ends

    Every step of its function and of its workers brings the cycle closer to
    its end, whatever the world answers; the timer does not set it back. *)





















End Pool.

(** ** With one worker, it is the cycle of Watcher.v *)

Section Serial.
Context `{UuidSupply} `{Intl} `{WeatherUpstream}.
Context (shard : ShardConfig) (weatherTtl : Z) (batchSize : nat).
Notation run_cycle := (run_cycle shard weatherTtl batchSize 1).
Notation cycle_step := (cycle_step shard weatherTtl batchSize 1).

Definition serial (e : Event) : Prop := e = MainStep \/ e = WorkerStep 0.

(** [c] gets from [w] to the end [o] by steps of its own. *)
Definition gets_to (c : Cycle) (w : World) (o : option Cycle * World) : Prop :=
  exists es, Forall serial es /\ run_cycle es c w = o.

Lemma gets_to_refl c w : gets_to c w (Some c, w).
Proof. by exists []. Qed.

Lemma gets_to_next e c w c' w' l o :
  serial e -> cycle_step e c w = Next c' w' l -> gets_to c' w' o -> gets_to c w o.
Proof. intros He Hstep (es & Hes & Hrun). exists (e :: es). split; [by constructor|]. cbn. by rewrite Hstep. Qed.

Lemma gets_to_dead e c w w' : serial e -> cycle_step e c w = Dead w' -> gets_to c w (None, w').
Proof. intros He Hstep. exists [e]. split; [by apply Forall_singleton|]. cbn. by rewrite Hstep. Qed.

Lemma gets_to_trans c w c' w' o : gets_to c w (Some c', w') -> gets_to c' w' o -> gets_to c w o.
Proof.
  intros (es & Hes & Hrun) (es' & Hes' & Hrun'). exists (es ++ es'). split; [by apply Forall_app|].
  revert c w Hrun. induction es as [|e es IH]; cbn; intros c w Hrun; [by simplify_eq|].
  apply Forall_cons in Hes as [_ Hes]. destruct (cycle_step e c w); [auto|done|auto].
Qed.

(** A pass with its only worker. *)
Definition pass (token : string) (q : list (list WatchedTrigger)) (x : Worker) (r : option exn) : Cycle :=
  {| main := Racing token; queue := q; workers := [x]; held := true; rejected := r; renewing := [] |}.

Lemma pass_polls token q g p w :
  gets_to (pass token q (Polling g p) None) w
    match alone p w with
    | (Ok u, w') => (Some (pass token q Ready None), w')
    | (Throw e, w') => (Some (pass token q (Finished (inr e)) (Some e)), w')
    | (Crash, w') => (None, w')
    end.
Proof.
  assert (serial (WorkerStep 0)) as Hs by by right. revert w.
  induction p as [[u|e]|B call k IH]; intros w.
  - eapply gets_to_next; [exact Hs|reflexivity|apply gets_to_refl].
  - eapply gets_to_next; [exact Hs|reflexivity|apply gets_to_refl].
  - cbn [alone]. destruct (call w) as [[b|e|] w1] eqn:Hc.
    + eapply gets_to_next; [exact Hs|cbn; by rewrite Hc|apply IH].
    + eapply gets_to_next; [exact Hs|cbn; by rewrite Hc|apply IH].
    + eapply gets_to_dead; [exact Hs|]. cbn. by rewrite Hc.
Qed.

Definition pass_ends (token : string) (r : outcome unit * World) (o : option Cycle * World) : Prop :=
  match r.1, o.1 with
  | Ok _, Some c => c = pass token [] (Finished (inl tt)) None
  | Throw e, Some c => exists q, c = pass token q (Finished (inr e)) (Some e)
  | Crash, None => True
  | _, _ => False
  end /\ o.2 = r.2.

Lemma pass_polls_all token q w :
  exists o, gets_to (pass token q Ready None) w o /\ pass_ends token (pollLocations weatherTtl batchSize q [] w) o.
Proof.
  assert (serial (WorkerStep 0)) as Hs by by right. revert w. induction q as [|g q IH]; intros w.
  { eexists. split; [eapply gets_to_next; [exact Hs|reflexivity|apply gets_to_refl]|]. by split. }
  pose proof (pass_polls token q g (async_pollLocation weatherTtl batchSize g) w) as Hp.
  rewrite alone_pollLocation in Hp. cbn [pollLocations tail]. unfold bind.
  assert (forall o, gets_to (pass token q (Polling g (async_pollLocation weatherTtl batchSize g)) None) w o ->
    gets_to (pass token (g :: q) Ready None) w o) as Htake.
  { intros o. by eapply gets_to_next. }
  destruct (pollLocation _ _ g w) as [[u|e|] w1].
  - destruct (IH w1) as (o & Ho & Hend). exists o. split; [|done]. by eapply Htake, gets_to_trans.
  - eexists. split; [by apply Htake|]. split; [by eexists|done].
  - eexists. split; [by apply Htake|]. by split.
Qed.

(** What a run of the machine has to agree on with [runCycle]. *)
Definition settles_as (r : outcome unit * World) (o : option Cycle * World) : Prop :=
  match r.1, o.1 with
  | Ok _, Some c => main c = Settled (inl tt)
  | Throw e, Some c => main c = Settled (inr e)
  | Crash, None => True
  | _, _ => False
  end /\ o.2 = r.2.

(** One step of [runCycle] itself. *)
Lemma gets_to_main c w c' w' o :
  main_step shard 1 c w = Next c' w' None -> gets_to c' w' o -> gets_to c w o.
Proof. intros Hstep. apply (gets_to_next MainStep c w c' w' None); [by left|done]. Qed.

Lemma gets_to_main_dead c w w' : main_step shard 1 c w = Dead w' -> gets_to c w (None, w').
Proof. intros Hstep. apply (gets_to_dead MainStep); [by left|done]. Qed.

Lemma settled r c w1 w : main c = Settled r -> w1 = w ->
  settles_as (match r with inl _ => (Ok tt, w) | inr e => (Throw e, w) end) (Some c, w1).
Proof. intros Hc ->. destruct r as [[]|]; by split. Qed.

Lemma release_settles c token r w :
  main c = Releasing token r ->
  exists o, gets_to c w o /\
    settles_as (finally (match r with inl _ => ret tt | inr e => throw e end)
                        (do* releaseLock (cycleLockKey shard) token in ret tt) w) o.
Proof.
  intros Hm. destruct (releaseLock (cycleLockKey shard) token w) as [r1 w1] eqn:Hrel.
  assert (main_step shard 1 c w = match r1 with
    | Ok _ => Next (set_main (Settled r) c) w1 None
    | Throw e => Next (set_main (Settled (inr e)) c) w1 None
    | Crash => Dead w1
    end) as Hstep by (unfold main_step; rewrite Hm, Hrel; by destruct r1).
  unfold finally, bind.
  destruct r as [[]|e]; cbn; rewrite Hrel; destruct r1 as [b|e'|]; eexists;
    (split; [(eapply gets_to_main; [exact Hstep|apply gets_to_refl]) || exact (gets_to_main_dead _ _ _ Hstep)|by split]).
Qed.

Lemma finally_run {A} (m : M A) (f : M unit) w :
  finally m f w = match m w with
                  | (Crash, w') => (Crash, w')
                  | (Ok a, w') => finally (ret a) f w'
                  | (Throw e, w') => finally (throw e) f w'
                  end.
Proof. unfold finally. by destruct (m w) as [[a|e|] w']. Qed.

Lemma grouped_not_empty t ts : exists n, length (groupByLocation (t :: ts)) = S n.
Proof.
  destruct (groupByLocation_spec (t :: ts)) as [_ Hspec].
  specialize (Hspec (wt_key t) (find_many (fun t' => bool_decide (wt_key t' = wt_key t)) (t :: ts))).
  destruct (groupByLocation (t :: ts)); [|by eexists]. destruct Hspec as [_ Hin].
  apply (elem_of_nil (A:=string * list WatchedTrigger)) in Hin; [done|]. split; [done|].
  unfold find_many. cbn. by rewrite bool_decide_true.
Qed.

(** What the pass came to is what [poll] comes to. *)
Lemma listing_polls c token w :
  main c = Listing token -> renewing c = [] ->
  exists o, gets_to c w o /\ o.2 = (poll shard weatherTtl batchSize [] w).2 /\
    match (poll shard weatherTtl batchSize [] w).1, o.1 with
    | Ok _, Some c' => main c' = Releasing token (inl tt)
    | Throw e, Some c' => main c' = Releasing token (inr e)
    | Crash, None => True
    | _, _ => False
    end.
Proof.
  intros Hm Hren. unfold poll, bind.
  destruct (Repository.findActive (shardBuckets shard) w) as [[[|t ts]|e|] w1] eqn:Hl.
  - eexists. split; [eapply gets_to_main; [unfold main_step; by rewrite Hm, Hl|apply gets_to_refl]|done].
  - set (groups := snd <$> groupByLocation (t :: ts)).
    destruct (pass_polls_all token groups w1) as ([oc w2] & Hgo & Hend & Hw). cbn in Hw. subst w2.
    assert (gets_to c w (oc, (pollLocations weatherTtl batchSize groups [] w1).2)) as Hall.
    { eapply gets_to_main; [unfold main_step; by rewrite Hm, Hl|]. unfold start_pass. rewrite Hren.
      fold groups. destruct (grouped_not_empty t ts) as [n Hn].
      unfold groups at 2. rewrite length_fmap, Hn. exact Hgo. }
    destruct (pollLocations _ _ groups [] w1) as [[u|e|] w2]; destruct oc as [c'|]; cbn in Hend; try done.
    + subst c'. eexists. split; [eapply gets_to_trans; [exact Hall|]; eapply gets_to_main; [reflexivity|apply gets_to_refl]|done].
    + destruct Hend as [q ->].
      eexists. split; [eapply gets_to_trans; [exact Hall|]; eapply gets_to_main; [reflexivity|apply gets_to_refl]|done].
    + eexists. by split.
  - eexists. split; [eapply gets_to_main; [unfold main_step; by rewrite Hm, Hl|apply gets_to_refl]|done].
  - eexists. split; [apply gets_to_main_dead; unfold main_step; by rewrite Hm, Hl|done].
Qed.

(** With one worker and no renewal, the machine of a cycle does what
    [runCycle] of the sequential model does: it settles with the same value
    or error and leaves the same world, or dies where it dies. *)
Theorem serial_cycle_is_runCycle w :
  exists o, gets_to runCycle_start w o /\ settles_as (runCycle shard weatherTtl batchSize [] w) o.
Proof.
  unfold runCycle, bind at 1.
  destruct (acquireLock (cycleLockKey shard) CYCLE_LOCK_TTL_SEC w) as [r w1] eqn:Hacq.
  assert (main_step shard 1 runCycle_start w = match r with
    | Ok (Some token) => Next (set_main (Listing token) runCycle_start) w1 None
    | Ok None => Next (set_main (Settled (inl tt)) runCycle_start) w1 None
    | Throw e => Next (set_main (Settled (inr e)) runCycle_start) w1 None
    | Crash => Dead w1
    end) as Hstep by (unfold main_step; cbn [main runCycle_start]; rewrite Hacq; by destruct r as [[]| |]).
  destruct r as [[token|]|e|].
  2-4: eexists; split; [(eapply gets_to_main; [exact Hstep|apply gets_to_refl]) || exact (gets_to_main_dead _ _ _ Hstep)|by split].
  destruct (listing_polls (set_main (Listing token) runCycle_start) token w1) as ([oc w2] & Hgo & Hw & Hend); [done..|].
  rewrite finally_run. cbn in Hw. subst w2.
  destruct (poll shard weatherTtl batchSize [] w1) as [[u|e|] w2]; destruct oc as [c'|]; cbn in Hend; try done.
  - destruct (release_settles c' token (inl tt) w2 Hend) as (o & Ho & Hset). destruct u. exists o.
    split; [|done]. eapply gets_to_main, gets_to_trans; eauto.
  - destruct (release_settles c' token (inr e) w2 Hend) as (o & Ho & Hset). exists o.
    split; [|done]. eapply gets_to_main, gets_to_trans; eauto.
  - eexists. split; [by eapply gets_to_main|by split].
Qed.

End Serial.

(** ** Concrete runs *)

Definition freezing_upstream : WeatherUpstream := fun _ _ _ =>
  Some {| temperature_2m := Num.of_Z (-4); apparent_temperature := Num.of_Z (-9); relative_humidity_2m := Num.of_Z 80;
          wind_speed_10m := Num.of_Z 3; precipitation_ := Num.of_Z 0; weather_code := Num.of_Z 0 |}.

Definition single_shard : ShardConfig := {| index := 0; count := 1 |}.

(** Two locations, a trigger below zero at each. *)
Definition two_locations : World :=
  set_db (set_triggerConditions
            [sample_condition;
             {| c_id := "c2"; c_triggerId := "t2"; c_metric := TEMPERATURE; c_operator := LT; c_threshold := Num.of_Z 0;
                c_order := 0; c_lastObservedValue := None; c_lastMatched := None |}] sample_db)
         (sample_watcher_world []).

(** Events of a cycle with two workers. *)
Definition sample_run (es : list Event) (c : Cycle) (w : World) : option Cycle * World :=
  run_cycle (H:=sample_uuids) (H0:=sample_intl) (H1:=freezing_upstream) single_shard 240 10 2 es c w.

Definition both_polled : list Event :=
  [WorkerStep 0; WorkerStep 1] ++ concat (replicate 20 [WorkerStep 1; WorkerStep 0]) ++ [MainStep].

Example two_workers_fire :
  match sample_run ([MainStep; MainStep] ++ both_polled ++ [MainStep]) runCycle_start two_locations with
  | (Some c, w) => (main c, map t_state (triggers (db w)), length (published (broker w)), length (staged w))
                   = (Settled (inl tt), [FIRED; FIRED], 4%nat, 0%nat)
  | _ => False
  end.
Proof. vm_compute. reflexivity. Qed.

(** The user deletes a trigger while the cycle that listed it runs. *)
Definition delete_t1 (w : World) : World :=
  set_db (set_triggers (find_many (fun t => bool_decide (t_id t <> "t1")) (triggers (db w))) (db w)) w.

Definition after_deletion : option Cycle * World :=
  match sample_run [MainStep; MainStep; WorkerStep 0; WorkerStep 1] runCycle_start two_locations with
  | (Some c, w) => sample_run (replicate 10 (WorkerStep 0) ++ [MainStep; MainStep]) c (delete_t1 w)
  | r => r
  end.

(** A worker that throws ends the cycle under the others: the trigger of
    one location is deleted during the pass, its worker rejects, and
    [Promise.all] rejects with it. The lock is released, the next cycle
    acquires it, and while that one is entitled to think it is alone the
    second worker, which still believes the lock held, goes on and commits a
    firing. *)
Theorem rejected_worker_releases_lock :
  match after_deletion with
  | (Some c, w) =>
      main c = Settled (inr RecordNotFound) /\ held c = true /\ length (in_flight c) = 1%nat /\
      outbox (db w) = [] /\
      match acquireLock (H:=sample_uuids) (cycleLockKey single_shard) CYCLE_LOCK_TTL_SEC w with
      | (Ok (Some _), w1) =>
          match sample_run (replicate 6 (WorkerStep 1)) c w1 with
          | (Some _, w2) => length (outbox (db w2)) = 2%nat
          | _ => False
          end
      | _ => False
      end
  | _ => False
  end.
Proof. vm_compute. repeat split; discriminate || reflexivity. Qed.

(** Redis goes away after the transaction of a firing. *)
Definition no_redis_after_commit : World :=
  {| now := 1000; uuids := 0;
     oracle := [{| k_fault := Fine; k_elapsed := 5 |}; {| k_fault := Fail None false; k_elapsed := 5 |}];
     db := db two_locations; redis := ∅; broker := {| published := []; acked := [] |}; delivered := [] |}.

(** The push after a firing is not best-effort: when [flush] cannot reach
    Redis it throws, and although the transaction has committed, the error
    leaves [processTrigger], so the triggers behind it at the location are not
    looked at. *)
Theorem failed_nudge_fails_the_firing :
  match processTrigger (H:=sample_uuids) (H0:=sample_intl) 10 sample_watched freezing no_redis_after_commit with
  | (Throw _, w) => map t_state (triggers (db w)) = [FIRED; ARMED] /\ length (staged w) = 2%nat
  | _ => False
  end.
Proof. vm_compute. by split. Qed.

Section Run.
Context `{UuidSupply} `{Intl} `{WeatherUpstream}.
Context (shard : ShardConfig) (weatherTtl : Z) (batchSize concurrency : nat).

Lemma cycle_steps_app c1 l c2 l' c3 :
  cycle_steps shard weatherTtl batchSize concurrency c1 l c2 ->
  cycle_steps shard weatherTtl batchSize concurrency c2 l' c3 ->
  cycle_steps shard weatherTtl batchSize concurrency c1 (l ++ l') c3.
Proof.
  intros H12 H23. induction H23 as [|c2 l' c3 e w c4 w' o _ IH Hstep]; [by rewrite app_nil_r|].
  rewrite app_assoc. econstructor; eauto.
Qed.

Lemma run_cycle_steps es c w c' w' :
  run_cycle shard weatherTtl batchSize concurrency es c w = (Some c', w') ->
  exists l, cycle_steps shard weatherTtl batchSize concurrency c l c'.
Proof.
  revert c w. induction es as [|e es IH]; intros c w; cbn.
  { intros [= <- _]. exists []. constructor. }
  destruct (cycle_step _ _ _ _ e c w) as [|w1|c1 w1 o] eqn:Hstep; [apply IH|done|].
  intros [l Hl]%IH. exists (option_list o ++ l). eapply cycle_steps_app; [|exact Hl].
  apply (steps_next shard weatherTtl batchSize concurrency c [] c e w c1 w1 o); [constructor|done].
Qed.

End Run.

Definition sample_groups : list (list WatchedTrigger) :=
  [[Repository.project (db two_locations) (sample_trigger "t1" 52 21) sample_user];
   [Repository.project (db two_locations) (sample_trigger "t2" 48 2) sample_user]].

Lemma locations_polled_once_witness :
  exists l, polled l ≡ₚ sample_groups.
Proof.
  destruct (sample_run both_polled (start_pass 2 "lock" sample_groups runCycle_start) two_locations) as [[c|] w] eqn:Hrun;
    [|apply (f_equal (fun r => match r.1 with Some _ => true | None => false end)) in Hrun; vm_compute in Hrun; discriminate Hrun].
  assert ((match main c with Releasing _ (inl _) => true | _ => false end, held c) = (true, true)) as [= Hend Hheld].
  { change c with (default c (Some c)). change (Some c) with (fst (Some c, w)). rewrite <- Hrun. vm_compute. reflexivity. }
  destruct (run_cycle_steps _ _ _ _ _ _ _ _ _ Hrun) as [l Hl]. exists l.
  destruct (locations_polled_once single_shard 240 10 2 "lock" sample_groups runCycle_start l c Hl) as (_ & _ & _ & Hok).
  apply Hok; [|done|lia]. unfold ended_well. destruct (main c) as [| | |? []|]; done.
Defined.

Lemma serial_cycle_of_two_locations :
  exists o, gets_to (H:=sample_uuids) (H0:=sample_intl) (H1:=freezing_upstream) single_shard 240 10 runCycle_start two_locations o /\
    match o.1 with Some c => main c = Settled (inl tt) | None => False end.
Proof.
  destruct (serial_cycle_is_runCycle (H:=sample_uuids) (H0:=sample_intl) (H1:=freezing_upstream) single_shard 240 10
              two_locations) as (o & Ho & Hset & _).
  exists o. split; [exact Ho|]. revert Hset. generalize (o.1).
  set (r := runCycle _ _ _ _ _). assert (r.1 = Ok tt) as -> by (vm_compute; reflexivity). by intros [c|].
Defined.
