(* ===== verification/Alerts.v ===== *)
(** * What an undisturbed poll cycle does

    When calls answer and the weather can be read, a cycle takes every active
    trigger of its shard through its state machine once: the ones that are
    due fire on all of their channels, and nothing else is staged. *)

From S2P Require Import Prelude JsNumber Enums Conditions QuietHours TriggerStateMachine Location Contracts Table World Samples Effects RedisService Weather Outbox Watcher Ledger Async Cycle CycleProps.

(** ** Reading the weather *)

Section Reading.
Context `{WeatherUpstream} (weatherTtl : Z).

Definition of_current (c : OpenMeteoCurrent) : WeatherSnapshot :=
  {| temperature := temperature_2m c; apparentTemp := apparent_temperature c; humidity := relative_humidity_2m c;
     windSpeed := wind_speed_10m c; precipitation := precipitation_ c; weatherCode := weather_code c |}.

(** What a lookup finds: the cached snapshot, or the upstream's. *)
Definition reading (w : World) (lat lon : number) : option WeatherSnapshot :=
  match cmd_get (cacheKey lat lon) w with
  | Some (RSnapshot s) => Some s
  | Some _ => None
  | None => of_current <$> upstream (now w) lat lon
  end.

Lemma getSnapshot_reads w lat lon s :
  0 < weatherTtl -> oracle w = [] -> reading w lat lon = Some s ->
  exists w', getSnapshot weatherTtl lat lon w = (Ok s, w') /\
    (w' = w \/ w' = put (cacheKey lat lon) (RSnapshot s) (Some (now w + weatherTtl * 1000)) w).
Proof.
  intros Httl Ho. unfold reading, getSnapshot, getJson. intros Hr.
  unfold bind at 1 2. rewrite query_ok by done. destruct (cmd_get _ w) as [v|].
  { destruct v; try done. injection Hr as ->. eexists. split; [reflexivity|by left]. }
  apply fmap_Some in Hr as (c & Hc & ->).
  assert (fetch lat lon w = (Ok (of_current c), w)) as Hf.
  { unfold fetch. erewrite bind_ok; [|by apply catch_ok, query_ok]. by rewrite Hc. }
  cbn. erewrite bind_ok by exact Hf. erewrite bind_ok; [eexists; split; [reflexivity|by right]|].
  apply io_ok; [done|]. unfold cmd_set_px. by replace (weatherTtl * 1000 <=? 0) with false by lia.
Qed.

Lemma reading_same w w' lat lon :
  now w' = now w -> redis w' !! cacheKey lat lon = redis w !! cacheKey lat lon -> reading w' lat lon = reading w lat lon.
Proof. intros Hn Hr. unfold reading, cmd_get, peek. by rewrite Hn, Hr. Qed.

(** A snapshot that was just cached is read back. *)
Lemma reading_put w lat lon key s d :
  now w < d -> reading (put key (RSnapshot s) (Some d) w) lat lon = if decide (cacheKey lat lon = key) then Some s else reading w lat lon.
Proof.
  intros Hd. case_decide as Hk; [subst key|by apply reading_same; [|cbn; rewrite lookup_insert_ne by done]].
  unfold reading, cmd_get, peek, expired. cbn. rewrite lookup_insert_eq. cbn. by replace (d <=? now w) with false by lia.
Qed.

End Reading.

(** ** Rows and messages *)

Section Tables.
Context `{UuidSupply}.
Import Repository.

Lemma write_observations_ok observations t :
  (forall o, o ∈ observations -> wc_id (base o) ∈ c_id <$> t) ->
  exists t', write_observations observations t = Some t' /\ c_id <$> t' = c_id <$> t.
Proof.
  revert t. induction observations as [|o rest IH]; intros t Hin; cbn; [by exists t|].
  assert (existsb (fun c => bool_decide (c_id c = wc_id (base o))) t = true) as Hex.
  { destruct (list_elem_of_fmap_1 c_id t (wc_id (base o))) as (c & Hid & Hc); [apply Hin; set_solver|]. apply existsb_exists. exists c.
    split; [by apply list_elem_of_In|by apply bool_decide_true]. }
  unfold update_one. rewrite Hex. cbn. set (t1 := map _ t).
  assert (c_id <$> t1 = c_id <$> t) as Ht1.
  { unfold t1. clear. induction t as [|c t IH]; cbn; [done|]. rewrite IH. by case_bool_decide. }
  destruct (IH t1) as (t' & Ht' & Hids); [intros o' Ho'; rewrite Ht1; apply Hin; set_solver|].
  exists t'. split; [done|by rewrite Hids].
Qed.

(** The transaction of a poll finds its rows. *)
Lemma writes_ok id observations patch d :
  (forall o, o ∈ observations -> wc_id (base o) ∈ c_id <$> triggerConditions d) -> id ∈ t_id <$> triggers d ->
  exists d', writes id observations patch d = Some d' /\
    t_id <$> triggers d' = t_id <$> triggers d /\ c_id <$> triggerConditions d' = c_id <$> triggerConditions d.
Proof.
  intros Hobs Hid. destruct (write_observations_ok observations (triggerConditions d) Hobs) as (cs & Hcs & Hids).
  assert (existsb (fun t => bool_decide (t_id t = id)) (triggers d) = true) as Hex.
  { apply list_elem_of_fmap in Hid as (t & -> & Ht). apply existsb_exists. exists t.
    split; [by apply list_elem_of_In|by apply bool_decide_true]. }
  unfold writes. rewrite Hcs. cbn. unfold update_one. rewrite Hex. cbn. eexists. split_and!; [done| |done].
  cbn. generalize (triggers d) as ts. clear. induction ts as [|t ts IH]; cbn; [done|]. rewrite IH. by case_bool_decide.
Qed.

Lemma flushed_frame batchSize w :
  now (flushed batchSize w) = now w /\ triggers (db (flushed batchSize w)) = triggers (db w) /\
  triggerConditions (db (flushed batchSize w)) = triggerConditions (db w) /\
  forall k, k <> RELAY_LOCK_KEY -> redis (flushed batchSize w) !! k = redis w !! k.
Proof.
  destruct (relayed_frame batchSize (relay_locked w)) as (_ & Hr & Hn).
  assert (triggers (db (relayed batchSize (relay_locked w))) = triggers (db w) /\
    triggerConditions (db (relayed batchSize (relay_locked w))) = triggerConditions (db w)) as [Ht Hc]
    by (unfold relayed; by destruct (take _ _)).
  split_and!; [exact Hn|exact Ht|exact Hc|]. intros k Hk. unfold flushed, cmd_del. cbn [set_redis redis]. rewrite Hr.
  rewrite lookup_delete_ne by done. cbn. by rewrite lookup_insert_ne.
Qed.

End Tables.

(** ** What the watcher never touches *)

Section Bystanders.
Context `{UuidSupply} `{Intl} `{WeatherUpstream}.

(** The users, their sessions, cities and devices, the delivery log, what was
    delivered and what was acknowledged. *)
Definition bystanders (w w' : World) : Prop :=
  users (db w') = users (db w) /\ notifications (db w') = notifications (db w) /\ pushSubs (db w') = pushSubs (db w) /\
  delivered w' = delivered w /\ refreshTokens (db w') = refreshTokens (db w) /\ pinnedCities (db w') = pinnedCities (db w) /\
  acked (broker w') = acked (broker w) /\ (uuids w <= uuids w')%nat.

#[global] Instance bystanders_order : WorldOrder bystanders.
Proof.
  unfold bystanders. split; [split|].
  - done.
  - intros a b c (? & ? & ? & ? & ? & ? & ? & ?) (? & ? & ? & ? & ? & ? & ? & ?). split_and!; [congruence..|lia].
  - intros w. destruct (tick_spec w) as (_ & _ & -> & -> & -> & ->). by split_and!.
Qed.

#[global] Instance bystanders_redis : IgnoresRedis bystanders.
Proof. split; [by intros w w' [r ->]|by intros w n]. Qed.

Lemma bystanders_drawn w w' s : bystanders w w' -> ~ drawn w' s -> ~ drawn w s.
Proof. intros (_ & _ & _ & _ & _ & _ & _ & Hu) Hno Hd. by apply Hno, (drawn_mono w). Qed.

Lemma fresh_not_drawn w : ~ drawn w (uuid (uuids w)).
Proof. intros (i & Hi & Hlt). apply (inj uuid) in Hi. lia. Qed.

Lemma createMany_bystanders messages w : bystanders w (Repository.createMany messages w).
Proof.
  revert w. induction messages as [|m rest IH]; intros w; [reflexivity|]. etrans; [|apply IH].
  unfold Repository.createOne. destruct (create _ _ _); [|reflexivity]. split_and!; cbn; [done..|lia].
Qed.

Lemma writes_bystanders id observations patch w d :
  Repository.writes id observations patch (db w) = Some d -> bystanders w (set_db d w).
Proof.
  unfold Repository.writes. intros (cs & _ & (ts & _ & [= <-])%bind_Some)%bind_Some. by split_and!.
Qed.

Lemma publish_rows_bystanders pending acc : keeps bystanders (publish_rows pending acc).
Proof.
  revert acc. induction pending as [|row rest IH]; intros acc; cbn [publish_rows]; keeps_tac.
  by apply keeps_exec; [apply _|].
Qed.

Lemma flush_bystanders batchSize : keeps bystanders (flush batchSize).
Proof.
  unfold flush, publishPending, findPending, markPublished, reportBacklog, countPending.
  keeps_tac; auto using publish_rows_bystanders, keeps_acquireLock, keeps_releaseLock.
  by apply keeps_exec; [apply _|].
Qed.

Lemma runRelay_bystanders batchSize : keeps bystanders (runRelay batchSize).
Proof. unfold runRelay. keeps_tac. apply flush_bystanders. Qed.

Lemma processTrigger_bystanders batchSize t s : keeps bystanders (processTrigger batchSize t s).
Proof.
  unfold processTrigger, fire. keeps_tac; auto using keeps_randomUUID, flush_bystanders.
  all: apply keeps_io; [apply _|]; intros w; destruct (Repository.writes _ _ _ _) as [d|] eqn:Hw; [|reflexivity].
  all: cbn [snd]; pose proof (writes_bystanders _ _ _ _ _ Hw); done || (etrans; [done|apply createMany_bystanders]).
Qed.

Lemma runCycle_bystanders shard weatherTtl batchSize held : keeps bystanders (runCycle shard weatherTtl batchSize held).
Proof.
  assert (forall lat lon, keeps bystanders (getSnapshot weatherTtl lat lon)) as Hsnap.
  { intros lat lon. unfold getSnapshot, getJson, fetch, setJson. keeps_tac.
    - intros w. by split_and!.
    - apply keeps_redis_io; [apply _..|]. intros w. apply set_px_redis_only. }
  assert (forall queue held, keeps bystanders (pollLocations weatherTtl batchSize queue held)) as Hqueue.
  { induction queue as [|g queue IH]; intros h; cbn; unfold pollLocation; keeps_tac; auto using processTrigger_bystanders. }
  unfold runCycle, poll, Repository.findActive. keeps_tac; auto using keeps_acquireLock, keeps_releaseLock.
  apply keeps_io; [apply _|]. intros w. by case_match.
Qed.

End Bystanders.

(** ** One trigger is served *)

Section Serving.
Context `{UuidSupply} `{Intl} `{!IntlLaws} (batchSize : nat).
Import Repository.

(** What the poll of a trigger decides on a snapshot. *)
Definition evaluation_of (t : WatchedTrigger) (s : WeatherSnapshot) : ConditionsResult WatchedCondition :=
  evaluateConditions s (wt_conditions t) (wt_conditionLogic t).
Definition fires (t : WatchedTrigger) (s : WeatherSnapshot) (at_ : Z) : Prop :=
  decide_ (state_input t) (all_matched (evaluation_of t s)) at_ (wt_quietHours t) = Some FIRE.

(** The alert of a trigger under an event id. *)
Definition alert (t : WatchedTrigger) (s : WeatherSnapshot) (at_ : Z) (eventId : string) : TriggerFiredEvent :=
  fired_event t (results (evaluation_of t s)) eventId at_.

Definition readings_of (t : WatchedTrigger) (s : WeatherSnapshot) : list (EvaluatedCondition WatchedCondition) :=
  results (evaluation_of t s).

#[global] Instance fires_dec t s at_ : Decision (fires t s at_).
Proof. unfold fires. apply _. Defined.

(** The row of a trigger after a poll: the step of the state machine, and the
    time of the evaluation. *)
Definition polled_row (p : Poll) (row : Trigger) : Trigger :=
  let next := (poll_once (input_of row) p).1 in
  {| t_id := t_id row; t_userId := t_userId row; t_name := t_name row; t_city := t_city row;
     t_latitude := t_latitude row; t_longitude := t_longitude row; t_conditionLogic := t_conditionLogic row;
     t_channels := t_channels row; t_cooldownMin := t_cooldownMin row; t_isActive := t_isActive row;
     t_state := state next; t_lastFiredAt := lastFiredAt next; t_lastEvaluatedAt := Some (p_evaluatedAt p);
     t_locationBucket := t_locationBucket row; t_createdAt := t_createdAt row |}.

Lemma patch_polled patch p row :
  patch_lastEvaluatedAt patch = p_evaluatedAt p -> input_of (patch_trigger patch row) = (poll_once (input_of row) p).1 ->
  patch_trigger patch row = polled_row p row.
Proof. intros He Hi. unfold polled_row. rewrite <- Hi, <- He. done. Qed.

(** Serving a trigger moves a world [w] to [w']: its row follows the abstract
    poll, its readings are recorded, a firing is on its way on every channel,
    nothing else is staged or sent, and what was on its way stays so. *)
Record served (t : WatchedTrigger) (s : WeatherSnapshot) (w w' : World) : Prop := {
  sv_quiet : quiet w';
  sv_now : now w' = now w;
  sv_redis : forall k, k <> RELAY_LOCK_KEY -> redis w' !! k = redis w !! k;
  sv_conditions : c_id <$> triggerConditions (db w') = c_id <$> triggerConditions (db w);
  sv_recorded : NoDup ((fun o => wc_id (base o)) <$> readings_of t s) ->
    recorded (readings_of t s) (triggerConditions (db w)) (triggerConditions (db w'));
  sv_ids : t_id <$> triggers (db w') = t_id <$> triggers (db w);
  sv_rows : exists patch, patched (wt_id t) patch (triggers (db w)) (triggers (db w')) /\
    forall r, input_of r = state_input t -> patch_trigger patch r = polled_row (poll_of t s (now w)) r;
  sv_bystanders : bystanders w w';
  sv_alert : fires t s (now w) -> exists eventId, ~ drawn w eventId /\ forall c, c ∈ wt_channels t ->
    exists row, o_routingKey row = routingKeyFor c /\ o_payload row = alert t s (now w) eventId /\ accounted row w';
  sv_alerted : forall alert_of, (forall i, alert_of t i = alert t s (now w) i) ->
    alerted alert_of (if decide (fires t s (now w)) then [t] else []) w w';
  sv_kept : forall row, accounted row w -> accounted row w';
}.

Lemma accounted_safe w w' row : quiet w -> relay_safe w w' -> accounted row w -> accounted row w'.
Proof.
  intros (_ & _ & Hk) Hsafe. destruct (Hsafe Hk) as (_ & [l Hp] & Hall). intros [Hm|[Hin Hpd]]; [|by apply Hall].
  left. rewrite Hp. set_solver.
Qed.

(** The world of a firing, before its events are flushed. *)
Definition committed (t : WatchedTrigger) (s : WeatherSnapshot) (d : Database) (w : World) : World :=
  createMany (fire_messages (alert t s (now w) (uuid (uuids w))) (wt_channels t)) (set_db d (set_uuids (S (uuids w)) w)).

Lemma committed_frame t s d w :
  let w' := committed t s d w in
  now w' = now w /\ oracle w' = oracle w /\ redis w' = redis w /\ broker w' = broker w /\
  triggers (db w') = triggers d /\ triggerConditions (db w') = triggerConditions d.
Proof. by destruct (createMany_frame (fire_messages (alert t s (now w) (uuid (uuids w))) (wt_channels t))
  (set_db d (set_uuids (S (uuids w)) w))) as (_ & ? & ? & ? & _ & ? & ? & ?). Qed.

Lemma committed_uuids t s d w : (uuids w < uuids (committed t s d w))%nat.
Proof.
  destruct (createMany_frame (fire_messages (alert t s (now w) (uuid (uuids w))) (wt_channels t))
    (set_db d (set_uuids (S (uuids w)) w))) as (_ & _ & _ & _ & Hu & _). cbn in Hu. unfold committed. lia.
Qed.

(** The run of [processTrigger] when its calls answer and its rows exist. *)
Lemma processTrigger_run t s w d :
  oracle w = [] -> peek RELAY_LOCK_KEY w = None ->
  (forall c, c ∈ wt_conditions t -> wc_id c ∈ c_id <$> triggerConditions (db w)) ->
  wt_id t ∈ t_id <$> triggers (db w) ->
  decide_ (state_input t) (all_matched (evaluation_of t s)) (now w) (wt_quietHours t) = Some d ->
  exists patch d', writes (wt_id t) (results (evaluation_of t s)) patch (db w) = Some d' /\
    t_id <$> triggers d' = t_id <$> triggers (db w) /\
    c_id <$> triggerConditions d' = c_id <$> triggerConditions (db w) /\
    processTrigger batchSize t s w =
      (Ok tt,
       if decide (d = FIRE)
       then flushed batchSize (committed t s d' w)
       else set_db d' w).
Proof.
  intros Ho Hfree Hc Ht Hd.
  set (patch := {| patch_lastEvaluatedAt := now w;
    patch_state := match d with FIRE => Some FIRED | REARM => Some ARMED | _ => None end;
    patch_lastFiredAt := match d with FIRE => Some (now w) | _ => None end |}).
  destruct (writes_ok (wt_id t) (results (evaluation_of t s)) patch (db w)) as (d' & Hw & Hids & Hcs); [|done|].
  { intros o (c & -> & Hin)%list_elem_of_fmap. by apply (Hc c). }
  exists patch, d'. split_and!; [done|done|done|]. unfold processTrigger. rewrite bind_get_now. cbv zeta.
  fold (evaluation_of t s). rewrite Hd.
  destruct d; [|apply io_ok; [done|]; fold patch; by rewrite Hw..].
  unfold fire, bind at 1, randomUUID. rewrite !bind_get_now. cbn [now set_uuids].
  erewrite bind_ok; [|apply io_ok; [exact Ho|]; fold patch; cbn [db set_uuids]; by rewrite Hw].
  destruct (committed_frame t s d' w) as (Hn' & Ho' & Hr' & _).
  erewrite bind_ok; [reflexivity|]. apply (flush_run batchSize (committed t s d' w)); [by rewrite Ho'|].
  unfold peek in *. by rewrite Hr', Hn'.
Qed.

(** What the transaction leaves for the flush. *)
Lemma committed_quiet t s patch d w :
  quiet w -> writes (wt_id t) (results (evaluation_of t s)) patch (db w) = Some d ->
  quiet (committed t s d w) /\
  (forall c, c ∈ wt_channels t -> exists row, row ∈ outbox (db (committed t s d w)) /\ is_pending row = true /\
     o_routingKey row = routingKeyFor c /\ o_payload row = alert t s (now w) (uuid (uuids w))).
Proof.
  intros (Ho & Hfree & Hkeys) Hw. set (event := alert t s (now w) (uuid (uuids w))).
  destruct (committed_frame t s d w) as (Hn' & Ho' & Hr' & _).
  destruct (commit_stages t (results (evaluation_of t s)) event patch (set_uuids (S (uuids w)) w) d) as (Hk & _ & Hst); [..|done|].
  - eapply outbox_keys_same; [..|exact Hkeys]; [done|cbn; lia].
  - exists (uuids w). cbn. split; [done|lia].
  - intros row Hrow. by apply fresh_event.
  - split; [|exact Hst]. split_and!; [by rewrite Ho'| |exact Hk]. unfold peek in *. by rewrite Hr', Hn'.
Qed.

(** What a firing adds to the ledger. *)
Lemma committed_alerted alert_of t s patch d w :
  quiet w -> writes (wt_id t) (results (evaluation_of t s)) patch (db w) = Some d ->
  (forall i, alert_of t i = alert t s (now w) i) ->
  alerted alert_of [t] w (flushed batchSize (committed t s d w)).
Proof.
  intros Hq Hw Ha. pose proof (proj2 (proj2 Hq)) as Hkeys. destruct (committed_quiet t s patch d w Hq Hw) as [(_ & _ & Hkc) _].
  destruct (flushed_ledger batchSize _ Hkc) as [Hv Ht]. destruct (writes_frame _ _ _ _ _ Hw) as [Hout _].
  destruct (createMany_ledger (alert t s (now w) (uuid (uuids w))) (wt_channels t) (set_db d (set_uuids (S (uuids w)) w))) as [Hv1 Ht1].
  { intros row Hrow. cbn in Hrow. rewrite Hout in Hrow. by apply fresh_event. }
  exists [(t, uuid (uuids w))]. unfold log_views. cbn [list_fmap fmap fst snd mbind list_bind mret list_ret app].
  rewrite Ha, app_nil_r, Hv, Ht. split_and!; [done|apply NoDup_singleton|apply Forall_singleton; split; [apply fresh_not_drawn|]|..].
  - exists (uuids w). split; [done|]. pose proof (committed_uuids t s d w). unfold flushed, cmd_del. cbn [set_redis uuids].
    assert (uuids (relayed batchSize (relay_locked (committed t s d w))) = S (uuids (committed t s d w))) as ->; [|lia].
    unfold relayed. by case_match.
  - rewrite Hv1. cbn. by rewrite Hout.
  - etrans; [exact Ht1|]. unfold traffic, staged. cbn. by rewrite Hout.
Qed.

(** The relay pass a firing ends with keeps what the transaction staged. *)
Lemma flushed_safe w : quiet w -> relay_safe w (flushed batchSize w).
Proof.
  intros (Ho & Hfree & _). pose proof (flush_safe batchSize w) as Hs. by rewrite flush_run in Hs.
Qed.

Lemma processTrigger_served t s w :
  quiet w ->
  (forall c, c ∈ wt_conditions t -> wc_id c ∈ c_id <$> triggerConditions (db w)) ->
  wt_id t ∈ t_id <$> triggers (db w) ->
  exists w', processTrigger batchSize t s w = (Ok tt, w') /\ served t s w w'.
Proof.
  intros Hq Hc Ht. destruct (decide_total (state_input t) (all_matched (evaluation_of t s)) (now w) (wt_quietHours t)) as [d Hd].
  destruct (processTrigger_run t s w d) as (patch & d' & Hw & Hids & Hcs & Hrun); [by apply Hq..|done|done|done|].
  eexists. split; [exact Hrun|]. pose proof (processTrigger_safe batchSize t s w) as Hsafe. rewrite Hrun in Hsafe. cbn [snd] in Hsafe.
  pose proof (processTrigger_bystanders batchSize t s w) as Hby. rewrite Hrun in Hby. cbn [snd] in Hby.
  pose proof (processTrigger_patches batchSize t s w _ _ Hrun) as [[_ []]|(patch' & d0 & Hd0 & Hp & He & Hin)]; [done|].
  change (p_matched _) with (all_matched (evaluation_of t s)) in Hd0. rewrite Hd in Hd0. injection Hd0 as <-.
  assert (forall r, input_of r = state_input t -> patch_trigger patch' r = polled_row (poll_of t s (now w)) r) as Hinp.
  { intros r Hr. apply patch_polled; [done|]. rewrite Hin by done. unfold poll_once. rewrite Hr. cbn [p_matched p_evaluatedAt p_quiet poll_of].
    fold (evaluation_of t s). by rewrite Hd. }
  case_decide as Hfire; [subst d|].
  - destruct (committed_quiet t s patch d' w Hq Hw) as [Hqc Hst].
    destruct (committed_frame t s d' w) as (Hn & _ & Hr & Hb & Htr & Htc).
    destruct (flushed_frame batchSize (committed t s d' w)) as (Hn' & Htr' & Htc' & Hr').
    split; [by apply flushed_quiet|congruence|intros k Hk; by rewrite Hr', Hr|congruence| |congruence|eauto|exact Hby|..].
    + intros Hnd. rewrite Htc', Htc. by eapply writes_recorded.
    + intros _. exists (uuid (uuids w)). split; [apply fresh_not_drawn|]. intros c (row & Hrow & Hpd & Hk & Hpay)%Hst. exists row. split_and!; [done|done|].
      by apply (flushed_safe _ Hqc (proj2 (proj2 Hqc))).
    + intros alert_of Ha. rewrite decide_True by done. by eapply committed_alerted.
    + intros row. by apply accounted_safe.
  - destruct (writes_frame _ _ _ _ _ Hw) as [Hout _].
    assert (~ fires t s (now w)) as Hno by (intros Hf; unfold fires in Hf; rewrite Hd in Hf; congruence).
    split; eauto using accounted_safe; [|intros Hnd; by eapply writes_recorded|by intros []%Hno|].
    2: { intros alert_of _. rewrite decide_False by done. apply alerted_none; unfold traffic, staged; cbn; by rewrite Hout. }
    destruct Hq as (Ho & Hfree & Hkeys). split_and!; [done|done|]. by apply (outbox_keys_same w).
Qed.

End Serving.

(** ** Triggers are served one after another *)

Section Progress.
Context `{UuidSupply} `{Intl} `{!IntlLaws} `{WeatherUpstream} (shard : ShardConfig) (weatherTtl : Z) (batchSize : nat).
Import Repository.

(** What a cycle starts from: the world [w0] it finds, the triggers [ts] it
    reads there and the weather [snap] at their locations. *)
Context (w0 : World) (ts : list WatchedTrigger) (snap : string -> WeatherSnapshot).

Record settled : Prop := {
  st_ttl : 0 < weatherTtl;
  st_ids : NoDup (t_id <$> triggers (db w0));
  st_active : active (shardBuckets shard) (db w0) = Some ts;
  st_weather : forall t, t ∈ ts -> reading w0 (wt_latitude t) (wt_longitude t) = Some (snap (wt_key t));
  st_cached : forall t t', t ∈ ts -> t' ∈ ts ->
    cacheKey (wt_latitude t) (wt_longitude t) = cacheKey (wt_latitude t') (wt_longitude t') ->
    snap (wt_key t) = snap (wt_key t');
}.

(** The snapshot and the alert of a trigger in this cycle. *)
Definition snapshot_of (t : WatchedTrigger) : WeatherSnapshot := snap (wt_key t).
Definition due (t : WatchedTrigger) : Prop := fires t (snapshot_of t) (now w0).
Definition alert_of (t : WatchedTrigger) (eventId : string) : TriggerFiredEvent := alert t (snapshot_of t) (now w0) eventId.

Definition readings (l : list WatchedTrigger) : list (EvaluatedCondition WatchedCondition) :=
  l ≫= fun t => readings_of t (snapshot_of t).

#[global] Instance due_dec t : Decision (due t).
Proof. apply fires_dec. Defined.

(** Where a cycle stands that has served the triggers of [l], in that order. *)
Record progress (l : list WatchedTrigger) (w : World) : Prop := {
  pg_quiet : quiet w;
  pg_now : now w = now w0;
  pg_bystanders : bystanders w0 w;
  pg_lock : redis w !! cycleLockKey shard = redis w0 !! cycleLockKey shard;
  pg_redis : forall k, k <> RELAY_LOCK_KEY -> (forall t, t ∈ ts -> k <> cacheKey (wt_latitude t) (wt_longitude t)) ->
    redis w !! k = redis w0 !! k;
  pg_conditions : c_id <$> triggerConditions (db w) = c_id <$> triggerConditions (db w0);
  pg_recorded : NoDup (c_id <$> triggerConditions (db w0)) ->
    recorded (readings l) (triggerConditions (db w0)) (triggerConditions (db w));
  pg_ids : t_id <$> triggers (db w) = t_id <$> triggers (db w0);
  pg_weather : forall t, t ∈ ts -> reading w (wt_latitude t) (wt_longitude t) = Some (snapshot_of t);
  pg_rows : forall i r, triggers (db w0) !! i = Some r -> exists r', triggers (db w) !! i = Some r' /\
    (t_id r ∉ wt_id <$> l -> r' = r) /\
    (forall t, t ∈ ts -> wt_id t = t_id r -> t_id r ∈ wt_id <$> l ->
      r' = polled_row (poll_of t (snapshot_of t) (now w0)) r);
  pg_alerts : forall t, t ∈ ts -> wt_id t ∈ wt_id <$> l -> due t ->
    exists eventId, ~ drawn w0 eventId /\ forall c, c ∈ wt_channels t -> exists row,
      o_routingKey row = routingKeyFor c /\ o_payload row = alert_of t eventId /\ accounted row w;
  pg_alerted : alerted alert_of (filter due l) w0 w;
}.

Lemma cycleLockKey_other : cycleLockKey shard <> RELAY_LOCK_KEY /\ forall lat lon, cacheKey lat lon <> cycleLockKey shard.
Proof. unfold cycleLockKey. split; [|intros lat lon]; by case_match. Qed.

Lemma active_row t : settled -> t ∈ ts -> exists i row u, triggers (db w0) !! i = Some row /\ t = project (db w0) row u.
Proof.
  intros Hs Ht. destruct (active_elem _ _ _ _ (st_active Hs) Ht) as (row & u & Hrow & _ & ->).
  apply list_elem_of_lookup in Hrow as [i Hi]. by exists i, row, u.
Qed.

Lemma active_nodup : settled -> NoDup (wt_id <$> ts).
Proof.
  intros Hs. assert (wt_id <$> ts = t_id <$> find_many (active_in (shardBuckets shard)) (triggers (db w0))) as ->.
  { pose proof (st_active Hs) as Ha. apply mapM_Some in Ha. revert Ha. generalize ts. clear.
    induction (find_many _ _) as [|row rows IH]; intros ts Ha; inversion Ha as [|? t ? ts' Ht Hts]; subst; [done|].
    cbn. rewrite (IH ts' Hts). apply fmap_Some in Ht as (u & _ & ->). done. }
  eapply sublist_NoDup; [apply (st_ids Hs)|]. apply fmap_sublist, find_many_sublist.
Qed.

Lemma active_unique t t' : settled -> t ∈ ts -> t' ∈ ts -> wt_id t = wt_id t' -> t = t'.
Proof. intros Hs. by apply (key_unique wt_id), active_nodup. Qed.

(** A trigger is read with the fields of its row. *)
Lemma active_input t r : settled -> t ∈ ts -> r ∈ triggers (db w0) -> wt_id t = t_id r -> input_of r = state_input t.
Proof.
  intros Hs Ht Hr Hid. destruct (active_row t Hs Ht) as (i & row & u & Hi & ->).
  by rewrite (key_unique t_id (triggers (db w0)) r row (st_ids Hs) Hr (list_elem_of_lookup_2 _ _ _ Hi) (eq_sym Hid)).
Qed.

Lemma active_conditions t c : settled -> t ∈ ts -> c ∈ wt_conditions t -> wc_id c ∈ c_id <$> triggerConditions (db w0).
Proof.
  intros Hs Ht Hc. destruct (active_row t Hs Ht) as (i & row & u & _ & ->).
  apply list_elem_of_fmap in Hc as (tc & -> & Htc). rewrite elem_of_order_asc, elem_of_find_many in Htc.
  apply list_elem_of_fmap. exists tc. by destruct Htc.
Qed.

Lemma progress_start : settled -> quiet w0 -> progress [] w0.
Proof.
  intros Hs Hq. split; try done; [intros _; apply recorded_none|apply (st_weather Hs)|..].
  - intros i r Hi. exists r. cbn. set_solver.
  - intros t _ Hin. by apply elem_of_nil in Hin.
  - by apply alerted_none.
Qed.

(** The readings of a trigger are of its own conditions. *)
Lemma readings_own t o :
  settled -> t ∈ ts -> o ∈ readings_of t (snapshot_of t) ->
  exists c, c ∈ triggerConditions (db w0) /\ c_triggerId c = wt_id t /\ c_id c = wc_id (base o).
Proof.
  intros Hs Ht Ho. destruct (active_row t Hs Ht) as (i & row & u & _ & Heq). unfold readings_of, evaluation_of in Ho.
  apply list_elem_of_fmap in Ho as (wc & -> & Hwc). rewrite Heq in Hwc |- *. apply list_elem_of_fmap in Hwc as (c & -> & Hc).
  rewrite elem_of_order_asc, elem_of_find_many, bool_decide_eq_true in Hc. exists c. by destruct Hc.
Qed.

Lemma readings_nodup t :
  settled -> t ∈ ts -> NoDup (c_id <$> triggerConditions (db w0)) ->
  NoDup ((fun o => wc_id (base o)) <$> readings_of t (snapshot_of t)).
Proof.
  intros Hs Ht Hnd. destruct (active_row t Hs Ht) as (i & row & u & _ & Heq). unfold readings_of, evaluation_of. cbn.
  rewrite Heq. change (map ?f ?l) with (f <$> l). cbn [wt_conditions project]. change (map ?f ?l) with (f <$> l).
  rewrite <- !list_fmap_compose. rewrite order_asc_perm.
  eapply sublist_NoDup; [exact Hnd|]. apply (fmap_sublist c_id), find_many_sublist.
Qed.

Lemma readings_disjoint l t a b :
  settled -> NoDup (c_id <$> triggerConditions (db w0)) -> (forall t', t' ∈ l -> t' ∈ ts) -> t ∈ ts -> wt_id t ∉ wt_id <$> l ->
  a ∈ readings l -> b ∈ readings_of t (snapshot_of t) -> wc_id (base a) <> wc_id (base b).
Proof.
  intros Hs Hnd Hl Ht Hnew (t' & Ha & Ht')%list_elem_of_bind Hb Hid.
  destruct (readings_own t' a Hs (Hl t' Ht') Ha) as (ca & Hca & Hta & Hia). destruct (readings_own t b Hs Ht Hb) as (cb & Hcb & Htb & Hib).
  assert (ca = cb) as -> by (apply (key_unique c_id (triggerConditions (db w0))); [done..|congruence]).
  apply Hnew, list_elem_of_fmap. exists t'. split; [congruence|done].
Qed.

(** Serving one more trigger. *)
Lemma served_rows l t w w' i r :
  settled -> progress l w -> t ∈ ts -> wt_id t ∉ wt_id <$> l -> served t (snapshot_of t) w w' ->
  triggers (db w0) !! i = Some r -> exists r', triggers (db w') !! i = Some r' /\
    (t_id r ∉ wt_id <$> l ++ [t] -> r' = r) /\
    (forall t', t' ∈ ts -> wt_id t' = t_id r -> t_id r ∈ wt_id <$> l ++ [t] ->
      r' = polled_row (poll_of t' (snapshot_of t') (now w0)) r).
Proof.
  intros Hs Hp Ht Hnew Hsv Hi. destruct (pg_rows _ _ Hp i r Hi) as (r1 & Hi1 & Hsame & Hdone).
  destruct (sv_rows _ _ _ _ Hsv) as (patch & Hpatch & Hin). specialize (Hpatch i r1 Hi1). eexists. split; [exact Hpatch|].
  assert (t_id r1 = t_id r) as Hid1.
  { pose proof (f_equal (fun l => l !! i) (pg_ids _ _ Hp)) as Hl. cbn in Hl. rewrite !list_lookup_fmap, Hi, Hi1 in Hl. by injection Hl. }
  setoid_rewrite fmap_app. setoid_rewrite elem_of_app. cbn. setoid_rewrite list_elem_of_singleton.
  case_decide as Hid; rewrite Hid1 in Hid.
  - rewrite (Hsame ltac:(by rewrite Hid)). split; [tauto|]. intros t' Ht' Hid' _.
    assert (t' = t) as -> by (apply (active_unique t' t Hs); congruence).
    rewrite (pg_now _ _ Hp) in Hin. apply Hin, (active_input t r Hs Ht); [by eapply list_elem_of_lookup_2|done].
  - split; [intros Hn; apply Hsame; tauto|]. intros t' Ht' Hid' Hin'. apply (Hdone t'); [done|done|]. by destruct Hin'.
Qed.

Lemma progress_served l t w w' :
  settled -> progress l w -> (forall t', t' ∈ l -> t' ∈ ts) -> t ∈ ts -> wt_id t ∉ wt_id <$> l ->
  served t (snapshot_of t) w w' -> progress (l ++ [t]) w'.
Proof.
  intros Hs Hp Hl Ht Hnew Hsv. pose proof (pg_now _ _ Hp) as Hnow.
  split; [apply Hsv|rewrite (sv_now _ _ _ _ Hsv); apply Hp|etrans; [apply Hp|apply Hsv]|rewrite (sv_redis _ _ _ _ Hsv) by apply cycleLockKey_other; apply Hp
    |intros k Hk Hkt; rewrite (sv_redis _ _ _ _ Hsv) by done; by apply Hp
    |rewrite (sv_conditions _ _ _ _ Hsv); apply Hp| |rewrite (sv_ids _ _ _ _ Hsv); apply Hp|..].
  - intros Hnd. unfold readings. rewrite bind_app. cbn. rewrite app_nil_r.
    eapply recorded_app; [|by apply (pg_recorded _ _ Hp)|apply (sv_recorded _ _ _ _ Hsv); by apply readings_nodup].
    intros a b Ha Hb. by eapply readings_disjoint.
  - intros t' Ht'. rewrite <- (pg_weather _ _ Hp t' Ht'). apply reading_same; [apply Hsv|by apply (sv_redis _ _ _ _ Hsv)].
  - intros i r. by apply (served_rows l t w w').
  - intros t' Ht' Hin Hdue. rewrite fmap_app in Hin. apply elem_of_app in Hin as [Hin|Hin%list_elem_of_singleton].
    + destruct (pg_alerts _ _ Hp t' Ht' Hin Hdue) as (eventId & Hnew' & He). exists eventId. split; [done|]. intros c (row & ? & ? & ?)%He.
      exists row. split_and!; [done|done|]. by apply (sv_kept _ _ w w' Hsv).
    + assert (t' = t) as -> by by apply (active_unique t' t Hs).
      unfold due in Hdue. rewrite <- Hnow in Hdue. destruct (sv_alert _ _ _ _ Hsv Hdue) as (eventId & Hnew' & He).
      exists eventId. rewrite Hnow in He. split; [by apply (bystanders_drawn w0 w), Hnew'; apply Hp|done].
  - rewrite filter_app. eapply alerted_trans; [|apply Hp|].
    + pose proof (pg_bystanders _ _ Hp) as (_ & _ & _ & _ & _ & _ & _ & ?).
      by pose proof (sv_bystanders _ _ _ _ Hsv) as (_ & _ & _ & _ & _ & _ & _ & ?).
    + assert (filter due [t] = if decide (fires t (snapshot_of t) (now w)) then [t] else []) as ->.
      { rewrite Hnow, filter_cons, filter_nil. unfold due. by repeat case_decide. }
      apply (sv_alerted _ _ _ _ Hsv). intros i. unfold alert_of. by rewrite Hnow.
Qed.

(** Caching a snapshot that was read changes nothing a cycle depends on. *)
Lemma progress_cached l t w :
  settled -> progress l w -> t ∈ ts ->
  progress l (put (cacheKey (wt_latitude t) (wt_longitude t)) (RSnapshot (snapshot_of t)) (Some (now w + weatherTtl * 1000)) w).
Proof.
  intros Hs Hp Ht. pose proof (st_ttl Hs). destruct (pg_quiet _ _ Hp) as (Ho & Hfree & Hkeys).
  split; try apply Hp.
  - split_and!; [done| |done]. unfold peek in *. cbn. by rewrite lookup_insert_ne.
  - cbn. rewrite lookup_insert_ne by apply cycleLockKey_other. apply Hp.
  - intros k Hk Hkt. cbn. rewrite lookup_insert_ne; [by apply Hp|]. intros <-. by apply (Hkt t Ht).
  - intros t' Ht'. rewrite reading_put by lia. case_decide as Hk; [|by apply Hp].
    f_equal. by apply (st_cached Hs).
Qed.

Lemma progress_snapshot l t w :
  settled -> progress l w -> t ∈ ts ->
  exists w', getSnapshot weatherTtl (wt_latitude t) (wt_longitude t) w = (Ok (snapshot_of t), w') /\ progress l w'.
Proof.
  intros Hs Hp Ht.
  destruct (getSnapshot_reads weatherTtl w _ _ _ (st_ttl Hs) (proj1 (pg_quiet _ _ Hp)) (pg_weather _ _ Hp t Ht)) as (w' & Hrun & [->| ->]);
    (eexists; split; [exact Hrun|]); [done|]. by apply progress_cached.
Qed.

Lemma progress_trigger l t w :
  settled -> progress l w -> (forall t', t' ∈ l -> t' ∈ ts) -> t ∈ ts -> wt_id t ∉ wt_id <$> l ->
  exists w', processTrigger batchSize t (snapshot_of t) w = (Ok tt, w') /\ progress (l ++ [t]) w'.
Proof.
  intros Hs Hp Hl Ht Hnew. destruct (processTrigger_served batchSize t (snapshot_of t) w) as (w' & Hrun & Hsv); [apply Hp|..].
  - intros c Hc. rewrite (pg_conditions _ _ Hp). by apply (active_conditions t).
  - rewrite (pg_ids _ _ Hp). destruct (active_row t Hs Ht) as (i & row & u & Hi & ->).
    apply list_elem_of_fmap. exists row. split; [done|by eapply list_elem_of_lookup_2].
  - exists w'. split; [exact Hrun|]. by apply (progress_served l t w w').
Qed.

(** The triggers still to serve: read by the cycle, each once, none served. *)
Definition remaining (l todo : list WatchedTrigger) : Prop :=
  (forall t, t ∈ l ++ todo -> t ∈ ts) /\ NoDup (wt_id <$> l ++ todo).

Lemma remaining_app l g todo : remaining l (g ++ todo) <-> remaining (l ++ g) todo.
Proof. unfold remaining. by rewrite app_assoc. Qed.

(** A location: one snapshot, every trigger. *)
Lemma progress_group l g s w :
  settled -> progress l w -> remaining l g -> (forall t, t ∈ g -> snapshot_of t = s) ->
  exists w', for_each g (fun t => processTrigger batchSize t s) w = (Ok tt, w') /\ progress (l ++ g) w'.
Proof.
  intros Hs. revert l w. induction g as [|t g IH]; intros l w Hp Hr Hg.
  { exists w. by rewrite app_nil_r. }
  pose proof Hr as [Hin Hnd]. rewrite fmap_app in Hnd. apply NoDup_app in Hnd as (_ & Hdis & _).
  destruct (progress_trigger l t w Hs Hp) as (w1 & Hrun & Hp1); [intros t' Ht'; apply Hin; set_solver|apply Hin; set_solver|..].
  { intros Ht. apply (Hdis _ Ht). cbn. apply list_elem_of_here. }
  rewrite (Hg t) in Hrun by apply list_elem_of_here.
  destruct (IH (l ++ [t]) w1 Hp1) as (w2 & Hrun2 & Hp2); [|intros t' Ht'; apply Hg; by apply list_elem_of_further|].
  { rewrite <- remaining_app. exact Hr. }
  exists w2. cbn. erewrite bind_ok by exact Hrun. split; [exact Hrun2|]. by rewrite <- app_assoc in Hp2.
Qed.

Lemma progress_location l g w :
  settled -> progress l w -> (forall t t', t ∈ g -> t' ∈ g -> wt_key t = wt_key t') -> remaining l g ->
  exists w', pollLocation weatherTtl batchSize g w = (Ok tt, w') /\ progress (l ++ g) w'.
Proof.
  intros Hs Hp Hkey Hr. destruct g as [|t0 g]; [exists w; by rewrite app_nil_r|].
  destruct (progress_snapshot l t0 w Hs Hp) as (w1 & Hrun & Hp1); [apply Hr; set_solver|].
  destruct (progress_group l (t0 :: g) (snapshot_of t0) w1 Hs Hp1 Hr) as (w2 & Hrun2 & Hp2).
  { intros t Ht. unfold snapshot_of. f_equal. apply Hkey; set_solver. }
  exists w2. split; [|exact Hp2]. unfold pollLocation.
  erewrite bind_ok; [|eapply catch_ok; erewrite bind_ok by exact Hrun; reflexivity]. exact Hrun2.
Qed.

Lemma remaining_head l g todo : remaining l (g ++ todo) -> remaining l g.
Proof.
  intros [Hin Hnd]. rewrite app_assoc in Hin, Hnd. split; [intros t Ht; apply Hin, elem_of_app; by left|].
  rewrite fmap_app in Hnd. by apply NoDup_app in Hnd as (? & _).
Qed.

(** The queue of locations. *)
Lemma progress_queue l queue w :
  settled -> progress l w ->
  Forall (fun g => forall t t', t ∈ g -> t' ∈ g -> wt_key t = wt_key t') queue -> remaining l (concat queue) ->
  exists w', pollLocations weatherTtl batchSize queue [] w = (Ok tt, w') /\ progress (l ++ concat queue) w'.
Proof.
  intros Hs. revert l w. induction queue as [|g queue IH]; intros l w Hp Hkeys Hr; [exists w; by rewrite app_nil_r|].
  apply Forall_cons in Hkeys as [Hkey Hkeys]. cbn [concat] in *.
  destruct (progress_location l g w Hs Hp Hkey) as (w1 & Hrun & Hp1); [by eapply remaining_head|].
  destruct (IH _ _ Hp1 Hkeys) as (w2 & Hrun2 & Hp2); [by apply remaining_app|].
  exists w2. cbn. erewrite bind_ok by exact Hrun. split; [exact Hrun2|]. by rewrite app_assoc.
Qed.

End Progress.

(** The groups put together are the triggers. *)
Lemma push_group_perm key t m : concat (snd <$> push_group key t m) ≡ₚ t :: concat (snd <$> m).
Proof.
  induction m as [|[k b] m IH]; cbn; [done|]. case_decide; cbn.
  - rewrite <- app_assoc. cbn. by rewrite <- Permutation_middle.
  - rewrite IH. by rewrite <- Permutation_middle.
Qed.

Lemma groupByLocation_perm ts : concat (snd <$> groupByLocation ts) ≡ₚ ts.
Proof.
  induction ts as [|t ts IH] using rev_ind; [done|]. unfold groupByLocation in *. rewrite fold_left_app. cbn.
  rewrite push_group_perm, IH. by rewrite Permutation_app_comm.
Qed.

Lemma groupByLocation_same ts : Forall (fun g => forall t t', t ∈ g -> t' ∈ g -> wt_key t = wt_key t') (snd <$> groupByLocation ts).
Proof.
  destruct (groupByLocation_spec ts) as [_ Hspec]. apply Forall_forall. intros g ([k g'] & -> & Hin)%list_elem_of_fmap.
  apply Hspec in Hin as [-> _]. cbn. setoid_rewrite elem_of_find_many. setoid_rewrite bool_decide_eq_true. naive_solver.
Qed.

(** ** The cycle *)

Section Undisturbed.
Context `{UuidSupply} `{Intl} `{!IntlLaws} `{WeatherUpstream} (shard : ShardConfig) (weatherTtl : Z) (batchSize : nat).

(** The cycle's lock, taken. *)
Definition cycle_locked (w : World) : World :=
  put (cycleLockKey shard) (RText (uuid (uuids w))) (Some (now w + CYCLE_LOCK_TTL_SEC * 1000)) (set_uuids (S (uuids w)) w).

Lemma cycle_locked_quiet w : quiet w -> quiet (cycle_locked w).
Proof.
  intros (Ho & Hfree & Hkeys). split_and!; [done| |eapply outbox_keys_same; [..|exact Hkeys]; [done|cbn; lia]].
  unfold peek in *. cbn. by rewrite lookup_insert_ne by apply cycleLockKey_other.
Qed.

Lemma cycle_locked_settled ts snap w :
  settled shard weatherTtl w ts snap -> settled shard weatherTtl (cycle_locked w) ts snap.
Proof.
  intros Hs. split; try apply Hs. intros t Ht. rewrite <- (st_weather _ _ _ _ _ Hs t Ht).
  apply reading_same; [done|]. cbn. rewrite lookup_insert_ne; [done|]. intros Hk. by apply (proj2 (cycleLockKey_other shard) _ _ (eq_sym Hk)).
Qed.

(** The pass under the lock. *)
Lemma poll_settled ts snap w :
  settled shard weatherTtl w ts snap -> quiet w ->
  exists w' l, poll shard weatherTtl batchSize [] w = (Ok tt, w') /\ l ≡ₚ ts /\ progress shard w ts snap l w'.
Proof.
  intros Hs Hq. pose proof (progress_start _ _ _ _ _ Hs Hq) as Hp.
  assert (Repository.findActive (shardBuckets shard) w = (Ok ts, w)) as Hfind.
  { apply io_ok; [apply Hq|]. by rewrite (st_active _ _ _ _ _ Hs). }
  pose proof (groupByLocation_perm ts) as Hperm.
  destruct (progress_queue shard weatherTtl batchSize w ts snap [] (snd <$> groupByLocation ts) w Hs Hp) as (w' & Hrun & Hp').
  { apply groupByLocation_same. }
  { split; cbn [app]; [intros t; by rewrite Hperm|]. rewrite Hperm. by eapply active_nodup. }
  exists w', (concat (snd <$> groupByLocation ts)). split_and!; [|done|exact Hp'].
  unfold poll. erewrite bind_ok by exact Hfind. destruct ts; [|exact Hrun]. cbn in Hrun. by injection Hrun as <-.
Qed.

(** The whole cycle, in terms of what its pass leaves. *)
Lemma cycle_run ts snap w :
  settled shard weatherTtl w ts snap -> quiet w -> peek (cycleLockKey shard) w = None ->
  exists w1 l, runCycle shard weatherTtl batchSize [] w = (Ok tt, cmd_del (cycleLockKey shard) w1) /\
    l ≡ₚ ts /\ progress shard (cycle_locked w) ts snap l w1.
Proof.
  intros Hs Hq Hfree. pose proof (cycle_locked_quiet w Hq) as Hq1. apply cycle_locked_settled in Hs.
  destruct (poll_settled ts snap _ Hs Hq1) as (w1 & l & Hrun & Hl & Hp). exists w1, l. split_and!; [|done|done].
  unfold runCycle. erewrite bind_ok; [|by apply acquireLock_ok; [..|apply Hq|]]. eapply finally_ok; [exact Hrun|].
  erewrite bind_ok; [reflexivity|]. eapply (releaseLock_ok _ _ _ (now w + CYCLE_LOCK_TTL_SEC * 1000)).
  - apply Hp.
  - rewrite (pg_now _ _ _ _ _ _ Hp). cbn. unfold CYCLE_LOCK_TTL_SEC. lia.
  - rewrite (pg_lock _ _ _ _ _ _ Hp). apply lookup_insert_eq.
Qed.

(** The alert of a due trigger after the cycle. *)
Lemma cycle_alert ts snap w w1 l t :
  progress shard (cycle_locked w) ts snap l w1 -> l ≡ₚ ts -> t ∈ ts -> due w snap t ->
  exists eventId, ~ drawn w eventId /\ forall c, c ∈ wt_channels t -> exists row,
    o_routingKey row = routingKeyFor c /\ o_payload row = alert_of w snap t eventId /\ accounted row w1.
Proof.
  intros Hp Hl Ht Hdue. destruct (pg_alerts _ _ _ _ _ _ Hp t Ht) as (eventId & Hnew & Hrows); [|exact Hdue|].
  { rewrite Hl. by apply list_elem_of_fmap_2. }
  exists eventId. split; [|exact Hrows]. intros Hd. apply Hnew. apply (drawn_mono w); [cbn; lia|done].
Qed.

Lemma released_quiet l ts snap w w1 :
  progress shard w ts snap l w1 -> quiet (cmd_del (cycleLockKey shard) w1).
Proof.
  intros Hp. destruct (pg_quiet _ _ _ _ _ _ Hp) as (Ho & Hrelay & Hkeys). split_and!; [exact Ho| |exact Hkeys].
  unfold peek in *. cbn. by rewrite lookup_delete_ne by apply cycleLockKey_other.
Qed.

(** C3. A poll cycle does what it is for. When calls answer, the locks are
    free and the weather at every location of the shard can be read, from the
    cache or the upstream, a cycle succeeds. The row of every active trigger
    of the shard takes the step the state machine gives on its location's
    weather and keeps its other columns, and every other row stays; each of
    their conditions records the value read and the verdict, and every other
    condition stays. The triggers that are due, and no others, fire, each
    once: the outbox gets exactly one row per due trigger and channel, under
    an event id of that firing alone, and of the messages on their way (at the
    broker or staged) none is lost or doubled and exactly those rows' are
    added. Nothing else of the database, the broker or the deliveries changes,
    and of Redis only the cached weather of these locations. Both locks are
    free again. *)
Theorem undisturbed_cycle ts snap w :
  settled shard weatherTtl w ts snap -> NoDup (c_id <$> triggerConditions (db w)) ->
  quiet w -> peek (cycleLockKey shard) w = None ->
  exists w', runCycle shard weatherTtl batchSize [] w = (Ok tt, w') /\
    t_id <$> triggers (db w') = t_id <$> triggers (db w) /\
    (forall i row, triggers (db w) !! i = Some row -> exists row', triggers (db w') !! i = Some row' /\
      (t_id row ∉ wt_id <$> ts -> row' = row) /\
      (forall t, t ∈ ts -> wt_id t = t_id row -> row' = polled_row (poll_of t (snap (wt_key t)) (now w)) row)) /\
    recorded (ts ≫= fun t => readings_of t (snap (wt_key t))) (triggerConditions (db w)) (triggerConditions (db w')) /\
    (exists fired, fired ≡ₚ filter (due w snap) ts /\ alerted (alert_of w snap) fired w w') /\
    bystanders w w' /\
    (forall k, k <> RELAY_LOCK_KEY -> k <> cycleLockKey shard ->
      (forall t, t ∈ ts -> k <> cacheKey (wt_latitude t) (wt_longitude t)) -> redis w' !! k = redis w !! k) /\
    quiet w' /\ peek (cycleLockKey shard) w' = None.
Proof.
  intros Hs Hnd Hq Hfree. destruct (cycle_run ts snap w Hs Hq Hfree) as (w1 & l & Hrun & Hl & Hp).
  exists (cmd_del (cycleLockKey shard) w1). refine (conj Hrun (conj _ (conj _ (conj _ (conj _ (conj _ (conj _ (conj _ _)))))))).
  - exact (pg_ids _ _ _ _ _ _ Hp).
  - intros i row Hi. destruct (pg_rows _ _ _ _ _ _ Hp i row Hi) as (row' & Hi' & Hsame & Hstep). exists row'.
    split_and!; [done|intros Hno; apply Hsame; by rewrite Hl|].
    intros t Ht Hid. apply Hstep; [done|done|]. rewrite <- Hid, Hl. by apply list_elem_of_fmap_2.
  - eapply recorded_perm; [|by apply (pg_recorded _ _ _ _ _ _ Hp)]. by apply bind_Permutation.
  - exists (filter (due w snap) l). split; [by rewrite Hl|].
    eapply alerted_fresh; [..|exact (pg_alerted _ _ _ _ _ _ Hp)]; done || (cbn; lia).
  - pose proof (runCycle_bystanders shard weatherTtl batchSize [] w) as Hby. by rewrite Hrun in Hby.
  - intros k Hk Hkc Hkt. cbn. rewrite lookup_delete_ne by done. rewrite (pg_redis _ _ _ _ _ _ Hp k Hk Hkt).
    cbn. by rewrite lookup_insert_ne.
  - by eapply released_quiet.
  - unfold peek. cbn. by rewrite lookup_delete_eq.
Qed.

End Undisturbed.

(** ** A concrete run *)

Lemma two_locations_quiet : quiet (H:=sample_uuids) two_locations.
Proof. split_and!; [reflexivity|reflexivity|]. split; [constructor|]. intros row []%elem_of_nil. Qed.

(** The triggers of both locations, and the frost there. *)
Definition two_watched : list WatchedTrigger :=
  [Repository.project (db two_locations) (sample_trigger "t1" 52 21) sample_user;
   Repository.project (db two_locations) (sample_trigger "t2" 48 2) sample_user].

Lemma two_locations_settled :
  settled (H2:=freezing_upstream) single_shard 240 two_locations two_watched (fun _ => freezing).
Proof.
  split; [lia|apply (bool_decide_unpack _); vm_compute; exact I|reflexivity| |done].
  intros t [->|[->|[]%elem_of_nil]%elem_of_cons]%elem_of_cons; vm_compute; reflexivity.
Qed.

(** Both triggers are due and fire, each on its two channels. *)
Lemma undisturbed_cycle_witness :
  exists w', runCycle (H:=sample_uuids) (H0:=sample_intl) (H1:=freezing_upstream) single_shard 240 10 [] two_locations = (Ok tt, w') /\
    (exists row', triggers (db w') !! 1%nat = Some row' /\
      input_of row' = {| state := FIRED; lastFiredAt := Some 1000; cooldownMin := 60 |}) /\
    length (outbox (db w')) = 4%nat /\ length (traffic w') = 4%nat.
Proof.
  destruct (undisturbed_cycle (H:=sample_uuids) (H0:=sample_intl) (H2:=freezing_upstream) single_shard 240 10
    two_watched (fun _ => freezing) two_locations two_locations_settled
    ltac:(apply (bool_decide_unpack _); vm_compute; exact I) two_locations_quiet eq_refl)
    as (w' & Hrun & _ & Hrows & _ & (fired & Hf & log & <- & _ & _ & Hv & Ht) & _).
  exists w'. split; [exact Hrun|split].
  - destruct (Hrows 1%nat (sample_trigger "t2" 48 2) eq_refl) as (row' & Hi & _ & Hstep). exists row'. split; [exact Hi|].
    rewrite (Hstep (Repository.project (db two_locations) (sample_trigger "t2" 48 2) sample_user)); [vm_compute; reflexivity| |reflexivity].
    exact (list_elem_of_lookup_2 two_watched 1%nat _ eq_refl).
  - assert (length (log_views (alert_of two_locations (fun _ => freezing)) log) = 4%nat) as Hlen.
    { assert (wt_channels <$> log.*1 ≡ₚ [[TELEGRAM; EMAIL]; [TELEGRAM; EMAIL]]) as Hch by (rewrite Hf; vm_compute; reflexivity).
      assert (Forall (fun te => wt_channels te.1 = [TELEGRAM; EMAIL]) log) as Hall.
      { apply Forall_forall. intros te Hte. apply (list_elem_of_fmap_2 fst), (list_elem_of_fmap_2 wt_channels) in Hte.
        rewrite Hch in Hte. by apply elem_of_cons in Hte as [?|?%list_elem_of_singleton]. }
      apply Permutation_length in Hch. rewrite !length_fmap in Hch. destruct log as [|te1 [|te2 [|? ?]]]; try discriminate Hch.
      apply Forall_cons in Hall as [H1 [H2 _]%Forall_cons]. unfold log_views, alert_views. cbn. by rewrite H1, H2. }
    split; [apply Permutation_length in Hv; revert Hv|apply Permutation_length in Ht; revert Ht];
      rewrite length_app, ?length_fmap, Hlen; [intros ->|exact id]; reflexivity.
Defined.
