(* ===== verification/Fleet.v ===== *)
(** * No staged event is lost, whatever runs next to what

    Any number of watcher processes, each with poll cycles, relay passes and
    prunes in flight, all interleaved call by call with each other and with
    the rest of the system. *)

From S2P Require Import Prelude JsNumber Enums Conditions QuietHours TriggerStateMachine Location Contracts Table World Samples Effects RedisService Weather Outbox Watcher Async Cycle CycleProps.

(** ** What every step keeps *)

Section Steady.
Context `{UuidSupply}.

(** [relay_safe], and no pending row comes back under an id that was handed
    out before: what a relay read stays true of the rows it read. *)
Definition steady (w w' : World) : Prop :=
  relay_safe w w' /\
  (outbox_keys w ->
   (uuids w <= uuids w')%nat /\
   forall row, row ∈ outbox (db w') -> is_pending row = true -> drawn w (o_id row) -> row ∈ outbox (db w)).

#[global] Instance steady_keys : Invariant steady outbox_keys.
Proof. intros w w' [Hs _] Hk. by destruct (Hs Hk). Qed.

Lemma steady_outbox w w' :
  outbox (db w') = outbox (db w) -> (uuids w <= uuids w')%nat ->
  published (broker w) `prefix_of` published (broker w') -> steady w w'.
Proof. intros Hdb Hu Hp. split; [by apply relay_safe_outbox|]. intros _. split; [done|]. by rewrite Hdb. Qed.

#[global] Instance steady_order : WorldOrder steady.
Proof.
  split; [split|].
  - intros w. by apply steady_outbox.
  - intros w1 w2 w3 [H12 K12] [H23 K23]. split; [by etrans|]. intros Hk.
    destruct (K12 Hk) as [Hu Hr]. destruct (K23 (steady_keys _ _ (conj H12 K12) Hk)) as [Hu' Hr'].
    split; [lia|]. intros row Hin Hp Hd. apply Hr; [apply Hr'; eauto using drawn_mono|done..].
  - intros w. destruct (tick_spec w) as (_ & _ & Hu & Hdb & Hb & _).
    apply steady_outbox; [by rewrite Hdb|lia|by rewrite Hb].
Qed.

Lemma steady_redis w r : steady w (set_redis r w).
Proof. by apply steady_outbox. Qed.

Lemma steady_intro w w' : (outbox_keys w -> steady w w') -> steady w w'.
Proof. intros Hs. split; intros Hk; by apply Hs. Qed.

End Steady.

(** A function that is safe to run next to the others. *)
Abbreviation sound := (safely steady outbox_keys).

(** ** The calls *)

Section Calls.
Context `{UuidSupply} `{Intl} `{WeatherUpstream}.
Context (shard : ShardConfig) (weatherTtl : Z) (batchSize : nat).
Import Repository.

Lemma steady_randomUUID : keeps steady randomUUID.
Proof. intros w. apply steady_outbox; cbn; [done|lia|done]. Qed.

Lemma steady_acquireLock key ttl : keeps steady (acquireLock key ttl).
Proof.
  apply keeps_bind; [apply _|apply steady_randomUUID|]. intros token.
  apply keeps_bind; [apply _| |keeps_tac]. apply keeps_io; [apply _|]. intros w.
  unfold cmd_set_nx. case_all; reflexivity || apply steady_redis.
Qed.

Lemma steady_releaseLock key token : keeps steady (releaseLock key token).
Proof.
  apply keeps_io; [apply _|]. intros w. unfold RELEASE_IF_OWNED. case_all; reflexivity || apply steady_redis.
Qed.

Lemma steady_renewLock token : keeps steady (renewLock shard token).
Proof.
  unfold renewLock, extendLock. keeps_tac. apply keeps_io; [apply _|]. intros w.
  unfold EXTEND_IF_OWNED, cmd_pexpire. case_all; reflexivity || apply steady_redis.
Qed.

Lemma steady_publish routingKey event : keeps steady (publish routingKey event).
Proof. apply keeps_exec; [apply _|]. intros w. apply steady_outbox; cbn; [done|lia|by eexists]. Qed.

Lemma steady_mark ids at_ w :
  (forall row, row ∈ outbox (db w) -> is_pending row = true -> o_id row ∈ ids ->
    row_message row ∈ published (broker w)) ->
  steady w (mark ids at_ w).
Proof.
  intros Hsent. split; [by apply mark_safe|]. intros _. split; [done|].
  intros row. cbn [mark db set_db outbox set_outbox]. rewrite elem_of_update_many.
  intros (row0 & Hin & ->). by case_match.
Qed.

Lemma steady_markPublished ids w :
  (forall row, row ∈ outbox (db w) -> is_pending row = true -> o_id row ∈ ids ->
    row_message row ∈ published (broker w)) ->
  steady w (markPublished ids w).2.
Proof.
  intros Hsent. unfold markPublished. destruct ids as [|i ids]; [reflexivity|].
  unfold bind, get_now, exec. destruct (io _ w) as [r w'] eqn:E. cbn.
  destruct (tick_spec w) as (_ & _ & _ & Hdb & Hb & _).
  assert (steady w (tick w)) by apply wo_tick.
  apply io_effect in E as [[-> _]|[-> _]]; [done|]. cbn.
  etrans; [done|]. apply steady_mark. by rewrite Hdb, Hb.
Qed.

Lemma steady_prune : keeps steady pruneRelayed.
Proof.
  unfold pruneRelayed, prunePublished. keeps_tac. apply keeps_io; [apply _|]. intros w.
  split; [apply sweep_safe|]. intros _. split; [done|]. by intros row [Hin _]%elem_of_delete_many.
Qed.

Lemma steady_createOne m w : drawn w (om_eventId m) -> steady w (createOne m w).
Proof.
  intros Hm. split; [by apply (createMany_safe [m]), Forall_singleton|]. intros _. unfold createOne.
  destruct (create _ _ _) as [t|] eqn:Hc; [|done]. apply create_Some in Hc as [_ ->]. cbn. split; [lia|].
  intros row [Hin|Hrow%list_elem_of_singleton]%elem_of_app _ (i & Hi & Hlt); [done|].
  subst row. cbn in Hi. apply (inj uuid) in Hi. lia.
Qed.

Lemma steady_createMany messages w :
  Forall (fun m => drawn w (om_eventId m)) messages -> steady w (createMany messages w).
Proof.
  revert w. induction messages as [|m rest IH]; intros w; [reflexivity|].
  intros [Hm Hrest]%Forall_cons. change (createMany (m :: rest) w) with (createMany rest (createOne m w)).
  etrans; [by apply steady_createOne|]. apply IH. eapply Forall_impl; [exact Hrest|]. intros m'.
  apply drawn_mono. destruct (createOne_frame m w) as (_ & _ & _ & _ & Hu & _). exact Hu.
Qed.

Lemma steady_writes triggerId observations patch w d :
  writes triggerId observations patch (db w) = Some d -> steady w (set_db d w).
Proof. intros [Ho _]%writes_frame. by apply steady_outbox. Qed.

Lemma steady_recordObservation triggerId observations patch :
  keeps steady (recordObservation triggerId observations patch).
Proof.
  apply keeps_io; [apply _|]. intros w. destruct (writes _ _ _ _) as [d|] eqn:Hw; [|reflexivity].
  by eapply steady_writes.
Qed.

Lemma steady_commitFire triggerId observations patch messages w :
  Forall (fun m => drawn w (om_eventId m)) messages ->
  steady w (commitFire triggerId observations patch messages w).2.
Proof.
  intros Hm. unfold commitFire. destruct (io _ w) as [r w'] eqn:Hio. cbn.
  destruct (tick_spec w) as (_ & _ & Hu & _). assert (steady w (tick w)) as Ht by apply wo_tick.
  apply io_effect in Hio as [[-> _]|[-> _]]; [done|]. etrans; [exact Ht|].
  destruct (writes _ _ _ _) as [d|] eqn:Hw; [|reflexivity]. cbn.
  etrans; [by eapply steady_writes|]. apply steady_createMany.
  eapply Forall_impl; [exact Hm|]. intros m. apply drawn_mono. cbn. lia.
Qed.

Lemma steady_fire_commit trigger results evaluatedAt : keeps steady (fire_commit trigger results evaluatedAt).
Proof.
  intros w. unfold fire_commit. apply bind_run; [apply _|apply steady_randomUUID|].
  intros eventId w1 [= <- <-]. apply bind_run; [apply _|reflexivity|]. intros firedAt w1 [= _ <-].
  apply bind_run; [apply _|reflexivity|]. intros firedAt' w1 [= _ <-].
  apply steady_commitFire, Forall_forall. intros m (c & -> & _)%list_elem_of_fmap. cbn.
  exists (uuids w). cbn. split; [done|lia].
Qed.

Lemma steady_decide_and_write trigger snapshot : keeps steady (decide_and_write trigger snapshot).
Proof. unfold decide_and_write. keeps_tac; auto using steady_fire_commit, steady_recordObservation. Qed.

Lemma steady_findActive buckets : keeps steady (findActive buckets).
Proof. apply keeps_io; [apply _|]. intros w. case_match; reflexivity. Qed.

(** ** The functions *)

Lemma sound_getSnapshot lat lon : sound (async_getSnapshot weatherTtl lat lon).
Proof.
  unfold async_getSnapshot, async_fetch. safely_tac.
  - unfold getJson. keeps_tac.
  - intros w. by apply steady_outbox.
  - unfold setJson. apply keeps_io; [apply _|]. intros w. unfold cmd_set_px.
    case_all; [reflexivity|apply steady_redis].
Qed.

(** What a relay remembers between its calls. A batch: the rows it read, by
    their ids. *)
Definition read_rows (pending : list PendingOutboxEvent) (w : World) : Prop :=
  outbox_keys w -> forall p, p ∈ pending ->
    drawn w (po_id p) /\
    forall row, row ∈ outbox (db w) -> is_pending row = true -> o_id row = po_id p ->
      row_message row = pending_message p.

(** The ids it will mark: the broker has their messages. *)
Definition handed_over (ids : list string) (w : World) : Prop :=
  outbox_keys w ->
  (forall id, id ∈ ids -> drawn w id) /\
  (forall row, row ∈ outbox (db w) -> is_pending row = true -> o_id row ∈ ids ->
     row_message row ∈ published (broker w)).

Lemma read_rows_stable pending w w' :
  outbox_keys w -> steady w w' -> read_rows pending w -> read_rows pending w'.
Proof.
  intros Hk [_ Hrows] Hr _ p Hp. destruct (Hrows Hk) as [Hu Hold]. destruct (Hr Hk p Hp) as [Hd Hm].
  split; [by eapply drawn_mono|]. intros row Hin Hpend Hid. apply Hm; [|done..].
  apply Hold; [done..|]. by rewrite Hid.
Qed.

Lemma handed_over_stable ids w w' :
  outbox_keys w -> steady w w' -> handed_over ids w -> handed_over ids w'.
Proof.
  intros Hk [Hsafe Hrows] Hr _. destruct (Hrows Hk) as [Hu Hold]. destruct (Hr Hk) as [Hd Hm].
  destruct (Hsafe Hk) as (_ & [l Hpub] & _).
  split; [intros id Hid; eapply drawn_mono; [exact Hu|auto]|]. intros row Hin Hpend Hid.
  rewrite Hpub. apply elem_of_app. left. apply Hm; [|done..]. apply Hold; auto.
Qed.

Lemma findPending_reads w pending w1 :
  findPending batchSize w = (Ok pending, w1) -> read_rows pending w1.
Proof.
  intros [-> Hdb]%findPending_run Hk p (row' & -> & Hrow')%list_elem_of_fmap.
  apply subseteq_take in Hrow'. unfold staged in Hrow'. rewrite elem_of_order_asc, elem_of_find_many in Hrow'.
  destruct Hrow' as [Hin' Hp']. rewrite <- Hdb in Hin'. split; [by apply Hk|].
  intros row Hin Hp Hid. assert (row = row') as ->; [|done].
  apply (staged_by_id w1); [done..| |done]. unfold staged.
  by rewrite elem_of_order_asc, elem_of_find_many.
Qed.

Lemma read_rows_tail p pending w : read_rows (p :: pending) w -> read_rows pending w.
Proof. intros Hr Hk q Hq. apply Hr; [done|set_solver]. Qed.

(** A published row can be marked. *)
Lemma handed_over_published p pending ids w :
  read_rows (p :: pending) w -> handed_over ids w ->
  handed_over (ids ++ [po_id p]) (accept (pending_message p) w).
Proof.
  intros Hr Hh Hk. destruct (Hh Hk) as [Hd Hm]. destruct (Hr Hk p) as [Hdp Hmp]; [set_solver|].
  split.
  - intros id [Hid|Hid%list_elem_of_singleton]%elem_of_app; [by apply Hd|by subst].
  - intros row Hin Hp [Hid|Hid%list_elem_of_singleton]%elem_of_app; cbn; apply elem_of_app.
    + left. by apply Hm.
    + right. rewrite (Hmp row) by done. by apply list_elem_of_singleton.
Qed.

(** The answer of a publish, when it was accepted. *)
Lemma publish_accepted p w w' :
  publish (po_routingKey p) (po_event p) w = (Ok tt, w') -> w' = accept (pending_message p) (tick w).
Proof. intros [[-> Hno]|[-> _]]%io_effect; [by destruct (Hno tt)|done]. Qed.

Lemma sound_publish_rows pending ids w :
  outbox_keys w -> read_rows pending w -> handed_over ids w ->
  safe steady outbox_keys (async_publish_rows pending ids)
    (fun r w' => match r with inl ids' => handed_over ids' w' | inr _ => True end) w.
Proof.
  revert ids w. induction pending as [|p pending IH]; intros ids w Hk Hr Hh; cbn [async_publish_rows].
  { intros w1 Hw1 _. exact (handed_over_stable _ w w1 Hk Hw1 Hh). }
  apply (safe_then steady outbox_keys), (safe_then steady outbox_keys), (safe_then steady outbox_keys).
  apply (safe_await steady outbox_keys). intros w1 Hw1 Hk1. split; [apply steady_publish|].
  pose proof (steady_publish (po_routingKey p) (po_event p) w1) as Hst.
  assert (read_rows (p :: pending) w1) as Hr1 by exact (read_rows_stable _ w w1 Hk Hw1 Hr).
  assert (handed_over ids w1) as Hh1 by exact (handed_over_stable _ w w1 Hk Hw1 Hh).
  assert (outbox_keys (publish (po_routingKey p) (po_event p) w1).2) as Hk2 by exact (invariant_kept _ _ Hst Hk1).
  destruct (publish _ _ w1) as [[[]|e|] w2] eqn:Hpub; cbn in *; [| |done].
  - intros w3 Hw3 _ w4 Hw4 _ w5 Hw5 _. apply publish_accepted in Hpub.
    assert (steady w2 w5) as Hw25 by (etrans; [eassumption|]; by etrans).
    apply (safe_mono steady outbox_keys _ _ w2 w5 Hw25), IH; [done|..].
    + eapply read_rows_tail, read_rows_stable; [exact Hk1|exact Hst|exact Hr1].
    + subst w2. assert (steady w1 (tick w1)) as Ht by apply wo_tick.
      apply (handed_over_published p pending); [exact (read_rows_stable _ _ _ Hk1 Ht Hr1)|exact (handed_over_stable _ _ _ Hk1 Ht Hh1)].
  - intros w3 Hw3 _ w4 Hw4 _ w5 Hw5 _ w6 Hw6 _.
    eapply (handed_over_stable ids w1); [done| |done]. repeat (etrans; [eassumption|]); done.
Qed.

(** Marking what was handed over, then the backlog metric. *)
Lemma sound_mark ids w :
  outbox_keys w -> handed_over ids w ->
  safe steady outbox_keys
    (pbind (await (markPublished ids)) (fun _ => pbind async_reportBacklog (fun _ => resolve (length ids))))
    (fun _ _ => True) w.
Proof.
  intros Hk Hh. apply (safe_then steady outbox_keys), (safe_await steady outbox_keys). intros w1 Hw1 Hk1.
  split.
  - apply steady_markPublished. exact (proj2 (handed_over_stable _ w w1 Hk Hw1 Hh Hk1)).
  - destruct (markPublished ids w1) as [[u|e|] w2]; [|by intros w3 _ _ w4|done]. intros w3 _ _. revert w3.
    change (sound (pbind async_reportBacklog (fun _ => resolve (length ids)))).
    unfold async_reportBacklog, countPending. safely_tac.
Qed.

Lemma sound_publishPending : sound (async_publishPending batchSize).
Proof.
  intros w. unfold async_publishPending. apply (safe_then steady outbox_keys), (safe_await steady outbox_keys).
  intros w1 _ Hk1. assert (keeps steady (findPending batchSize)) as Hf by (apply keeps_query; apply _).
  split; [apply Hf|]. specialize (Hf w1).
  destruct (findPending batchSize w1) as [[pending|e|] w2] eqn:Hrun; [|by intros w3 _ _ w4|done].
  cbn in Hf. assert (outbox_keys w2) as Hk2 by exact (invariant_kept _ _ Hf Hk1).
  apply findPending_reads in Hrun. intros w3 Hw3 Hk3. destruct pending as [|p ps]; [by intros w4|].
  apply (read_rows_stable _ _ _ Hk2 Hw3) in Hrun. apply (safe_then steady outbox_keys).
  refine (safe_weaken steady outbox_keys _ _ _ w3 _ (sound_publish_rows _ [] w3 Hk3 Hrun _)).
  - intros [ids|e] w4 _ Hk4 Hh; [by apply sound_mark|by intros w5].
  - intros _. split; set_solver.
Qed.

Lemma sound_flush : sound (async_flush batchSize).
Proof.
  unfold async_flush. safely_tac; auto using steady_acquireLock, steady_releaseLock, sound_publishPending.
Qed.

Lemma sound_runRelay : sound (async_runRelay batchSize).
Proof. unfold async_runRelay. safely_tac. apply sound_flush. Qed.

Lemma sound_pruneRelayed : sound async_pruneRelayed.
Proof. unfold async_pruneRelayed. safely_tac. apply steady_prune. Qed.

Lemma sound_pollLocation group : sound (async_pollLocation weatherTtl batchSize group).
Proof.
  unfold async_pollLocation, async_processTrigger.
  safely_tac; auto using sound_getSnapshot, steady_decide_and_write, sound_flush.
Qed.

End Calls.

(** ** The fleet *)

(** A watcher process: its shard, and the promises it has not settled. *)
Record Process := {
  p_shard : ShardConfig;
  p_cycles : list Cycle;
  p_jobs : list (Proc unit);
}.

Record Fleet := {
  f_world : World;
  f_processes : list Process;
}.

(** A process started afresh. *)
Definition restarted (p : Process) : Process := {| p_shard := p_shard p; p_cycles := []; p_jobs := [] |}.

Definition start_cycle (p : Process) : Process :=
  {| p_shard := p_shard p; p_cycles := p_cycles p ++ [runCycle_start]; p_jobs := p_jobs p |}.
Definition start_job (job : Proc unit) (p : Process) : Process :=
  {| p_shard := p_shard p; p_cycles := p_cycles p; p_jobs := p_jobs p ++ [job] |}.
Definition set_cycle (i : nat) (c : Cycle) (p : Process) : Process :=
  {| p_shard := p_shard p; p_cycles := <[i := c]> (p_cycles p); p_jobs := p_jobs p |}.
Definition set_job (i : nat) (job : Proc unit) (p : Process) : Process :=
  {| p_shard := p_shard p; p_cycles := p_cycles p; p_jobs := <[i := job]> (p_jobs p) |}.

(** The rest of the system: the other services and time. Only the watcher
    writes the outbox. *)
Definition elsewhere (w w' : World) : Prop :=
  outbox (db w') = outbox (db w) /\ (uuids w <= uuids w')%nat /\
  published (broker w) `prefix_of` published (broker w').

Section Fleet.
Context `{UuidSupply} `{Intl} `{WeatherUpstream}.
Context (weatherTtl : Z) (batchSize concurrency : nat).

Inductive process_step : World -> Process -> World -> Process -> Prop :=
  (* the three crons *)
  | cron_cycle w p : process_step w p w (start_cycle p)
  | cron_relay w p : process_step w p w (start_job (async_runRelay batchSize) p)
  | cron_prune w p : process_step w p w (start_job async_pruneRelayed p)
  (* a promise goes on *)
  | cycle_goes_on w p i c e c' w' l :
      p_cycles p !! i = Some c ->
      cycle_step (p_shard p) weatherTtl batchSize concurrency e c w = Next c' w' l ->
      process_step w p w' (set_cycle i c' p)
  | job_goes_on w p i job job' w' :
      p_jobs p !! i = Some job -> resume job w = (Some job', w') ->
      process_step w p w' (set_job i job' p)
  (* the process dies in a call, or anywhere else *)
  | cycle_dies w p i c e w' :
      p_cycles p !! i = Some c ->
      cycle_step (p_shard p) weatherTtl batchSize concurrency e c w = Dead w' ->
      process_step w p w' (restarted p)
  | job_dies w p i job w' :
      p_jobs p !! i = Some job -> resume job w = (None, w') ->
      process_step w p w' (restarted p)
  | killed w p : process_step w p w (restarted p).

Inductive fleet_step : Fleet -> Fleet -> Prop :=
  | step_process f i p w' p' :
      f_processes f !! i = Some p -> process_step (f_world f) p w' p' ->
      fleet_step f {| f_world := w'; f_processes := <[i := p']> (f_processes f) |}
  | step_elsewhere f w' :
      elsewhere (f_world f) w' ->
      fleet_step f {| f_world := w'; f_processes := f_processes f |}.

(** *** Every promise in flight is safe *)

Definition worker_sound (w : World) (x : Worker) : Prop :=
  match x with Polling _ p => safe steady outbox_keys p (fun _ _ => True) w | _ => True end.
Definition cycle_sound (w : World) (c : Cycle) : Prop := Forall (worker_sound w) (workers c).
Definition process_sound (w : World) (p : Process) : Prop :=
  Forall (cycle_sound w) (p_cycles p) /\
  Forall (fun job => safe steady outbox_keys job (fun _ _ => True) w) (p_jobs p).

Lemma worker_sound_mono w w' x : steady w w' -> worker_sound w x -> worker_sound w' x.
Proof. intros Hw. destruct x; [done| |done]. by apply (safe_mono steady outbox_keys). Qed.

Lemma cycle_sound_mono w w' c : steady w w' -> cycle_sound w c -> cycle_sound w' c.
Proof. intros Hw Hc. eapply Forall_impl; [exact Hc|]. intros x. by apply worker_sound_mono. Qed.

Lemma process_sound_mono w w' p : steady w w' -> process_sound w p -> process_sound w' p.
Proof.
  intros Hw [Hc Hj]. split.
  - eapply Forall_impl; [exact Hc|]. intros c. by apply cycle_sound_mono.
  - eapply Forall_impl; [exact Hj|]. intros j. by apply (safe_mono steady outbox_keys).
Qed.

Lemma main_step_sound shard c w :
  cycle_sound w c ->
  match main_step shard concurrency c w with
  | Stuck => True
  | Dead w' => steady w w'
  | Next c' w' _ => steady w w' /\ cycle_sound w' c'
  end.
Proof.
  intros Hc. unfold main_step. destruct (main c) as [| |token|token r|r]; [| | | |done].
  - pose proof (steady_acquireLock (cycleLockKey shard) CYCLE_LOCK_TTL_SEC w) as Hs.
    destruct (acquireLock _ _ w) as [[[t|]|e|] w1]; try exact Hs; (split; [exact Hs|]); by eapply cycle_sound_mono.
  - pose proof (steady_findActive (shardBuckets shard) w) as Hs.
    destruct (Repository.findActive _ w) as [[[|t ts]|e|] w1]; try exact Hs; (split; [exact Hs|]).
    2: by apply Forall_replicate.
    all: by eapply cycle_sound_mono.
  - destruct (rejected c); [by split|]. destruct (forallb _ _); by split.
  - pose proof (steady_releaseLock (cycleLockKey shard) token w) as Hs.
    destruct (releaseLock _ _ w) as [[b|e|] w1]; try exact Hs; (split; [exact Hs|]); by eapply cycle_sound_mono.
Qed.

Lemma set_worker_sound w i x c : worker_sound w x -> cycle_sound w c -> cycle_sound w (set_worker i x c).
Proof. intros Hx Hc. by apply Forall_insert. Qed.

Lemma cycle_step_sound shard e c w :
  outbox_keys w -> cycle_sound w c ->
  match cycle_step shard weatherTtl batchSize concurrency e c w with
  | Stuck => True
  | Dead w' => steady w w'
  | Next c' w' _ => steady w w' /\ cycle_sound w' c'
  end.
Proof.
  intros Hk Hc. destruct e as [|i| |]; cbn [cycle_step].
  - by apply main_step_sound.
  - unfold worker_step. destruct (workers c !! i) as [x|] eqn:Hi; [|done].
    pose proof (Forall_lookup_1 _ _ _ _ Hc Hi) as Hx.
    destruct x as [|g p|]; [| |done].
    + destruct (held c); [destruct (queue c)|]; (split; [reflexivity|]); apply set_worker_sound; try done.
      apply sound_pollLocation.
    + destruct p as [[u|e]|B call k]; [split; [reflexivity|by apply set_worker_sound]..|].
      destruct (safe_resume steady outbox_keys (Await call k) _ w w Hx) as [Hs Hn]; [reflexivity|done|].
      destruct (resume _ w) as [[p'|] w1]; [|done]. split; [done|].
      apply set_worker_sound; [by apply Hn|by eapply cycle_sound_mono].
  - unfold timer_step. destruct (main c); done.
  - unfold renewal_step. destruct (renewing c) as [|t rest]; [done|].
    pose proof (steady_renewLock shard t w) as Hs.
    destruct (renewLock _ _ w) as [[b|e|] w1]; try exact Hs; (split; [exact Hs|]); by eapply cycle_sound_mono.
Qed.

Lemma process_step_sound w p w' p' :
  process_step w p w' p' -> outbox_keys w -> process_sound w p -> steady w w' /\ process_sound w' p'.
Proof.
  intros Hstep Hk Hp. pose proof Hp as [Hc Hj].
  assert (forall w1, process_sound w1 (restarted p)) as Hr by (intros w1; split; constructor).
  destruct Hstep as [w p|w p|w p|w p i c e c' w' l Hi Hs|w p i job job' w' Hi Hs|w p i c e w' Hi Hs|w p i job w' Hi Hs|w p].
  - split; [reflexivity|]. split; [|done]. apply Forall_app. split; [done|]. apply Forall_singleton. constructor.
  - split; [reflexivity|]. split; [done|]. apply Forall_app. split; [done|]. apply Forall_singleton, sound_runRelay.
  - split; [reflexivity|]. split; [done|]. apply Forall_app. split; [done|]. apply Forall_singleton, sound_pruneRelayed.
  - pose proof (cycle_step_sound (p_shard p) e c w Hk (Forall_lookup_1 _ _ _ _ Hc Hi)) as Hcs.
    rewrite Hs in Hcs. destruct Hcs as [Hw Hc']. split; [done|].
    destruct (process_sound_mono _ _ _ Hw Hp). split; [by apply Forall_insert|done].
  - destruct (safe_resume steady outbox_keys job _ w w (Forall_lookup_1 _ _ _ _ Hj Hi)) as [Hw Hn]; [done..|].
    rewrite Hs in Hw, Hn. split; [done|]. destruct (process_sound_mono _ _ _ Hw Hp).
    split; [done|]. apply Forall_insert; [done|by apply Hn].
  - pose proof (cycle_step_sound (p_shard p) e c w Hk (Forall_lookup_1 _ _ _ _ Hc Hi)) as Hcs.
    rewrite Hs in Hcs. split; [done|apply Hr].
  - destruct (safe_resume steady outbox_keys job _ w w (Forall_lookup_1 _ _ _ _ Hj Hi)) as [Hw Hn]; [done..|].
    rewrite Hs in Hw. split; [done|apply Hr].
  - split; [reflexivity|apply Hr].
Qed.

Definition fleet_sound (f : Fleet) : Prop :=
  outbox_keys (f_world f) /\ Forall (process_sound (f_world f)) (f_processes f).

Lemma fleet_step_sound f f' :
  fleet_step f f' -> fleet_sound f -> steady (f_world f) (f_world f') /\ fleet_sound f'.
Proof.
  intros Hstep [Hk Hp]. destruct Hstep as [f i p w' p' Hi Hs|f w' (Ho & Hu & Hpub)]; cbn.
  - destruct (process_step_sound _ _ _ _ Hs Hk (Forall_lookup_1 _ _ _ _ Hp Hi)) as [Hw Hp'].
    split; [done|]. split; [exact (invariant_kept _ _ Hw Hk)|]. apply Forall_insert; [|done].
    eapply Forall_impl; [exact Hp|]. intros q. by apply process_sound_mono.
  - assert (steady (f_world f) w') as Hw by by apply steady_outbox.
    split; [done|]. split; [exact (invariant_kept _ _ Hw Hk)|].
    eapply Forall_impl; [exact Hp|]. intros q. by apply process_sound_mono.
Qed.

(** C5. At-least-once hand-over: a row staged by a firing is still staged or
    has its message accepted by the broker after any run of any number of
    watcher processes, whose cycles, workers, relay passes and prunes are
    interleaved call by call with each other and with everything else in the
    system, and whose calls may fail, lose their reply or kill the process;
    the row is never marked, swept or overwritten before the broker has it. *)
Theorem staged_event_survives_interleaving f f' row :
  outbox_keys (f_world f) -> Forall (fun p => p_cycles p = [] /\ p_jobs p = []) (f_processes f) ->
  rtc fleet_step f f' ->
  row ∈ outbox (db (f_world f)) -> o_publishedAt row = None ->
  accounted row (f_world f').
Proof.
  intros Hk Hidle Hrun Hin Hpend.
  assert (fleet_sound f) as Hf.
  { split; [done|]. eapply Forall_impl; [exact Hidle|]. intros p [Hc Hj]. unfold process_sound.
    rewrite Hc, Hj. split; constructor. }
  assert (steady (f_world f) (f_world f')) as [Hs _].
  { clear Hin Hk Hidle. induction Hrun as [f|f f1 f' Hstep _ IH]; [reflexivity|].
    destruct (fleet_step_sound _ _ Hstep Hf) as [Hw Hf1]. etrans; [exact Hw|]. by apply IH. }
  destruct (Hs Hk) as (_ & _ & Hacc). apply Hacc; [|done]. unfold is_pending. by rewrite Hpend.
Qed.

End Fleet.

(** ** A concrete run: a relay pass and a prune, interleaved *)

Definition sample_process : Process := {| p_shard := single_shard; p_cycles := []; p_jobs := [] |}.

Definition sample_fleet : Fleet := {| f_world := sample_outbox_world; f_processes := [sample_process] |}.

(** The relay has acquired its lock when the prune runs. *)
Definition sample_relay : Proc unit := async_runRelay (H:=sample_uuids) 1.
Definition sample_locked : option (Proc unit) * World := resume sample_relay sample_outbox_world.
Definition sample_pruned : option (Proc unit) * World := resume async_pruneRelayed sample_locked.2.

Definition goes_on (r : option (Proc unit) * World) : bool := match r.1 with Some _ => true | None => false end.

Definition sample_jobs (jobs : list (Proc unit)) (w : World) : Fleet :=
  {| f_world := w; f_processes := [{| p_shard := single_shard; p_cycles := []; p_jobs := jobs |}] |}.

Lemma staged_event_survives_interleaving_witness :
  exists relay prune, accounted (sample_row 1 EMAIL 10) (f_world (sample_jobs [relay; prune] sample_pruned.2)).
Proof.
  assert (goes_on sample_locked && goes_on sample_pruned = true) as [Hl Hp]%andb_true_iff by (vm_compute; reflexivity).
  unfold goes_on in Hl, Hp.
  destruct (sample_locked.1) as [relay|] eqn:Hrelay; [|discriminate Hl].
  destruct (sample_pruned.1) as [prune|] eqn:Hprune; [|discriminate Hp].
  exists relay, prune.
  apply (staged_event_survives_interleaving (H:=sample_uuids) (H0:=sample_intl) (H1:=freezing_upstream) 240 1 2
           sample_fleet (sample_jobs [relay; prune] sample_pruned.2)).
  - apply sample_outbox_keys.
  - by apply Forall_singleton.
  - eapply rtc_l; [apply (step_process _ _ _ sample_fleet 0 sample_process); [reflexivity|apply cron_relay]|].
    eapply rtc_l; [eapply (step_process _ _ _ _ 0); [reflexivity|eapply cron_prune]|].
    eapply rtc_l; [eapply (step_process _ _ _ _ 0); [reflexivity|
      apply (job_goes_on _ _ _ _ _ 0 sample_relay relay sample_locked.2); [reflexivity|]]|].
    { cbn [f_world]. rewrite <- Hrelay. apply surjective_pairing. }
    eapply rtc_l; [eapply (step_process _ _ _ _ 0); [reflexivity|
      apply (job_goes_on _ _ _ _ _ 1 async_pruneRelayed prune sample_pruned.2); [reflexivity|]]|].
    { cbn [f_world]. rewrite <- Hprune. apply surjective_pairing. }
    apply rtc_refl.
  - cbn. set_solver.
  - reflexivity.
Defined.
