(* ===== verification/Format.v ===== *)
(** * The text of an alert ([apps/notifier/src/channels/format.ts]) *)

From S2P Require Import Prelude JsNumber NumberText Enums Contracts.
From Stdlib Require Import Ascii.

Definition METRIC_LABEL (m : Metric) : string :=
  match m with
  | TEMPERATURE => "Temperature"
  | APPARENT_TEMP => "Feels like"
  | WIND_SPEED => "Wind speed"
  | PRECIPITATION => "Precipitation"
  | HUMIDITY => "Humidity"
  | SEVERE => "Severe weather"
  end.

Definition OPERATOR_LABEL (o : Operator) : string :=
  match o with GT => ">" | GTE => "≥" | LT => "<" | LTE => "≤" | EQ => "=" end.

Definition testPrefix (event : TriggerFiredEvent) : string :=
  if default false (ev_test event) then "[TEST] " else "".

Definition describeCondition (c : FiredCondition) : string :=
  if decide (fc_metric c = SEVERE) then
    "severe weather (WMO " +:+ NumText.to_string (fc_observedValue c) +:+ ")"
  else
    METRIC_LABEL (fc_metric c) +:+ " " +:+ NumText.to_string (fc_observedValue c) +:+
    " (" +:+ OPERATOR_LABEL (fc_operator c) +:+ " " +:+ NumText.to_string (fc_threshold c) +:+ ")".

Definition alertTitle (event : TriggerFiredEvent) : string :=
  testPrefix event +:+ "Weather alert: " +:+ ev_triggerName event +:+ " (" +:+ ev_city event +:+ ")".

(** [parts.join(joiner)] *)
Definition join (joiner : string) (parts : list string) : string := String.concat joiner parts.

Definition alertText (event : TriggerFiredEvent) : string :=
  let prefix := testPrefix event in
  let joiner := if decide (ev_conditionLogic event = OR) then " or " else " and " in
  prefix +:+ "In " +:+ ev_city event +:+ ": " +:+ join joiner (map describeCondition (ev_conditions event)) +:+ ".".

(** Texts are UTF-8 and the five characters are ASCII, so replacing
    characters is replacing bytes. *)
Definition dquote : ascii := "034"%char.

Definition HTML_ESCAPE (c : ascii) : string :=
  if decide (c = "&"%char) then "&amp;"
  else if decide (c = "<"%char) then "&lt;"
  else if decide (c = ">"%char) then "&gt;"
  else if decide (c = dquote) then "&quot;"
  else if decide (c = "'"%char) then "&#39;"
  else String c "".

Fixpoint escapeHtml (value : string) : string :=
  match value with
  | EmptyString => ""
  | String c value' => HTML_ESCAPE c +:+ escapeHtml value'
  end.

Definition alertHtml (event : TriggerFiredEvent) : string :=
  "<h2>" +:+ escapeHtml (alertTitle event) +:+ "</h2><p>" +:+ escapeHtml (alertText event) +:+ "</p>".

(** ** Properties *)

Fixpoint all_chars (p : ascii -> bool) (s : string) : bool :=
  match s with EmptyString => true | String c s' => p c && all_chars p s' end.

(** Characters that could open or close markup or an attribute. *)
Definition harmless (c : ascii) : bool :=
  negb (bool_decide (c = "<"%char) || bool_decide (c = ">"%char) || bool_decide (c = dquote) || bool_decide (c = "'"%char)).

Lemma all_chars_app p a b : all_chars p (a +:+ b) = all_chars p a && all_chars p b.
Proof.
  induction a as [|c a IH]; [done|]. change (String c a +:+ b) with (String c (a +:+ b)).
  cbn [all_chars]. by rewrite IH, andb_assoc.
Qed.

(** What a browser shows for an escaped text: the entities decoded. *)
Fixpoint strip (p s : string) : option string :=
  match p, s with
  | EmptyString, _ => Some s
  | String a p', String b s' => if decide (a = b) then strip p' s' else None
  | String _ _, EmptyString => None
  end.

Definition entities : list (string * ascii) :=
  [("&amp;", "&"%char); ("&lt;", "<"%char); ("&gt;", ">"%char); ("&quot;", dquote); ("&#39;", "'"%char)].

Fixpoint entity (es : list (string * ascii)) (s : string) : option (ascii * string) :=
  match es with
  | [] => None
  | (e, c) :: es' => match strip e s with Some rest => Some (c, rest) | None => entity es' s end
  end.

(** Fuel: one step per character of the text. *)
Fixpoint unescape (fuel : nat) (s : string) : string :=
  match fuel, s with
  | S fuel, String c s' =>
      match entity entities s with
      | Some (d, rest) => String d (unescape fuel rest)
      | None => String c (unescape fuel s')
      end
  | _, _ => s
  end.

Lemma strip_app p s : strip p (p +:+ s) = Some s.
Proof.
  induction p as [|a p IH]; [done|]. change (String a p +:+ s) with (String a (p +:+ s)).
  cbn [strip]. by rewrite decide_True.
Qed.

Lemma strip_ne a b p s : a <> b -> strip (String a p) (String b s) = None.
Proof. intros Hne. cbn [strip]. by rewrite decide_False. Qed.

(** Decoding the escape of one character gives it back. *)
Lemma unescape_step fuel c s : unescape (S fuel) (HTML_ESCAPE c +:+ s) = String c (unescape fuel s).
Proof.
  unfold HTML_ESCAPE. repeat (case_decide; [subst; try (cbn; rewrite ?strip_app; reflexivity)|]).
  change (String c (String.EmptyString) +:+ s) with (String c s). cbn [unescape entity entities].
  by rewrite !strip_ne by congruence.
Qed.

Lemma unescape_escapeHtml value fuel :
  (String.length value <= fuel)%nat -> unescape fuel (escapeHtml value) = value.
Proof.
  revert fuel. induction value as [|c value IH]; intros [|fuel] Hf; cbn [String.length escapeHtml] in *; try done; [lia|].
  rewrite unescape_step. by rewrite IH by lia.
Qed.

Lemma escapeHtml_harmless value : all_chars harmless (escapeHtml value) = true.
Proof.
  induction value as [|c value IH]; cbn; [done|]. rewrite all_chars_app, IH, andb_true_r.
  unfold HTML_ESCAPE. repeat case_decide; try reflexivity. cbn. unfold harmless.
  by rewrite !bool_decide_false by done.
Qed.

(** Escaping is faithful and safe: the escaped text holds none of the
    characters that open or close markup, a reader of the entities gets the
    original text back (so distinct names stay distinct), and therefore the
    mail body is exactly one heading and one paragraph around inert text,
    whatever the trigger name and the city contain. *)
Theorem escapeHtml_inert_and_faithful (value : string) (event : TriggerFiredEvent) :
  all_chars harmless (escapeHtml value) = true /\
  unescape (String.length value) (escapeHtml value) = value /\
  exists heading body, alertHtml event = "<h2>" +:+ heading +:+ "</h2><p>" +:+ body +:+ "</p>" /\
    all_chars harmless heading = true /\ all_chars harmless body = true /\
    unescape (String.length (alertTitle event)) heading = alertTitle event /\
    unescape (String.length (alertText event)) body = alertText event.
Proof.
  split_and!; [apply escapeHtml_harmless|by apply unescape_escapeHtml|].
  eexists _, _. split; [reflexivity|]. auto using escapeHtml_harmless, unescape_escapeHtml.
Qed.
