(* ===== verification/DeliveryLog.v ===== *)
(** * The delivery log

    [apps/notifier/src/persistence/prisma-delivery-log.repository.ts] and
    [apps/notifier/src/persistence/prisma-recipients.repository.ts]: one row
    per (event, channel), claimed under a lease, then settled. *)

From S2P Require Import Prelude JsNumber Enums Contracts Table World Effects.

Inductive ClaimResult := claimed | duplicate | in_flight.

#[global] Instance ClaimResult_eq_dec : EqDecision ClaimResult.
Proof. solve_decision. Defined.

(** ** Statements *)

(** The unique key (eventId, channel). *)
Definition is_row (channel : Channel) (eventId : string) (n : Notification) : bool :=
  bool_decide (n_eventId n = Some eventId) && bool_decide (n_channel n = channel).

Definition row_of (channel : Channel) (eventId : string) (w : World) : option Notification :=
  find_first (is_row channel eventId) (notifications (db w)).

Definition upd_notifications (f : list Notification -> list Notification) (w : World) : World :=
  set_db (set_notifications (f (notifications (db w))) (db w)) w.

(** P2003, a foreign key that points nowhere. *)
Definition ForeignKeyViolation : exn := JsError "P2003".

Section Log.
Context `{UuidSupply}.
Implicit Types (channel : Channel) (event : TriggerFiredEvent).

Definition rowFor channel event (status : NotifStatus) (error : option string)
    (claimedAt : option Z) (id : string) (at_ : Z) : Notification :=
  {| n_id := id; n_eventId := Some (ev_eventId event); n_triggerId := Some (ev_triggerId event);
     n_userId := ev_userId event; n_channel := channel; n_status := status; n_payload := event;
     n_error := error; n_claimedAt := claimedAt; n_deliveredTo := []; n_createdAt := at_ |}.

(** The user and the trigger the row refers to exist. *)
Definition references_ok event (d : Database) : bool :=
  existsb (fun u => bool_decide (u_id u = ev_userId event)) (users d) &&
  existsb (fun t => bool_decide (t_id t = ev_triggerId event)) (triggers d).

(** [notification.create] under the unique index and the foreign keys. *)
Definition create_row channel event (status : NotifStatus) (error : option string) (claimedAt : option Z)
    (w : World) : (unit + exn) * World :=
  let row := rowFor channel event status error claimedAt (uuid (uuids w)) (now w) in
  match create (is_row channel (ev_eventId event)) row (notifications (db w)) with
  | None => (inr UniqueViolation, w)
  | Some t =>
      if references_ok event (db w)
      then (inl tt, set_uuids (S (uuids w)) (upd_notifications (fun _ => t) w))
      else (inr ForeignKeyViolation, w)
  end.

(** The conditional update of [claim]. *)
Definition takeable (cutoff : Z) (n : Notification) : bool :=
  negb (bool_decide (n_status n = SENT)) &&
  match n_claimedAt n with None => true | Some c => c <? cutoff end.

Definition reclaim (at_ : Z) (n : Notification) : Notification :=
  {| n_id := n_id n; n_eventId := n_eventId n; n_triggerId := n_triggerId n; n_userId := n_userId n;
     n_channel := n_channel n; n_status := PENDING; n_payload := n_payload n; n_error := None;
     n_claimedAt := Some at_; n_deliveredTo := n_deliveredTo n; n_createdAt := n_createdAt n |}.

Definition take_over channel event (at_ cutoff : Z) (w : World) : (nat + exn) * World :=
  let r := update_many (fun n => is_row channel (ev_eventId event) n && takeable cutoff n) (reclaim at_)
                       (notifications (db w)) in
  (inl r.2, upd_notifications (fun _ => r.1) w).

Definition set_claimedAt (c : option Z) (n : Notification) : Notification :=
  {| n_id := n_id n; n_eventId := n_eventId n; n_triggerId := n_triggerId n; n_userId := n_userId n;
     n_channel := n_channel n; n_status := n_status n; n_payload := n_payload n; n_error := n_error n;
     n_claimedAt := c; n_deliveredTo := n_deliveredTo n; n_createdAt := n_createdAt n |}.

Definition set_status (status : NotifStatus) (error : option string) (n : Notification) : Notification :=
  {| n_id := n_id n; n_eventId := n_eventId n; n_triggerId := n_triggerId n; n_userId := n_userId n;
     n_channel := n_channel n; n_status := status; n_payload := n_payload n; n_error := error;
     n_claimedAt := n_claimedAt n; n_deliveredTo := n_deliveredTo n; n_createdAt := n_createdAt n |}.

Definition push_delivered (destination : string) (n : Notification) : Notification :=
  {| n_id := n_id n; n_eventId := n_eventId n; n_triggerId := n_triggerId n; n_userId := n_userId n;
     n_channel := n_channel n; n_status := n_status n; n_payload := n_payload n; n_error := n_error n;
     n_claimedAt := n_claimedAt n; n_deliveredTo := n_deliveredTo n ++ [destination];
     n_createdAt := n_createdAt n |}.

(** ** Operations *)

Definition claim channel event (leaseCutoff : Z) : M ClaimResult :=
  let* at_ := get_now in
  let* created := catch (do* io (create_row channel event PENDING None (Some at_)) in ret true)
                        (fun err => match err with UniqueViolation => ret false | _ => throw err end) in
  if (created : bool) then ret claimed else
  let* count := io (take_over channel event at_ leaseCutoff) in
  if (0 <? count)%nat then ret claimed else
  let* existing := query (row_of channel (ev_eventId event)) in
  match existing with
  | None => ret claimed
  | Some n => ret (if decide (n_status n = SENT) then duplicate else in_flight)
  end.

Definition releaseClaim channel (eventId : string) : M unit :=
  exec (upd_notifications (fun t =>
    (update_many (fun n => is_row channel eventId n && bool_decide (n_status n = PENDING)) (set_claimedAt None) t).1)).

(** [upsert] on the unique key. *)
Definition settle channel event (status : NotifStatus) (error : option string) : M unit :=
  io (fun w =>
    match row_of channel (ev_eventId event) w with
    | Some _ => (inl tt, upd_notifications (fun t =>
                  (update_many (is_row channel (ev_eventId event)) (set_status status error) t).1) w)
    | None => create_row channel event status error None w
    end).

Definition deliveredDestinations channel (eventId : string) : M (list string) :=
  query (fun w => match row_of channel eventId w with Some n => n_deliveredTo n | None => [] end).

Definition markDelivered channel (eventId destination : string) : M unit :=
  exec (upd_notifications (fun t => (update_many (is_row channel eventId) (push_delivered destination) t).1)).

End Log.

(** ** Recipients *)

Definition user_by_id (userId : string) (w : World) : option User :=
  find_first (fun u => bool_decide (u_id u = userId)) (users (db w)).

Definition telegramChatId (userId : string) : M (option string) :=
  query (fun w => user_by_id userId w ≫= u_telegramChatId).

(** The address and whether it is verified. *)
Definition emailRecipient (userId : string) : M (option (string * bool)) :=
  query (fun w => (fun u => (u_email u, u_emailVerified u)) <$> user_by_id userId w).

Definition pushSubscriptions (userId : string) : M (list PushSubscription) :=
  query (fun w => find_many (fun s => bool_decide (s_userId s = userId)) (pushSubs (db w))).

Definition removePushSubscription (id : string) : M unit :=
  io (fun w =>
    let p s := bool_decide (s_id s = id) in
    if existsb p (pushSubs (db w))
    then (inl tt, set_db (set_pushSubs (delete_many p (pushSubs (db w))).1 (db w)) w)
    else (inr RecordNotFound, w)).

(** ** Properties *)

(** The unique index (eventId, channel). *)
Definition log_unique (w : World) : Prop :=
  forall channel eventId n n', n ∈ notifications (db w) -> n' ∈ notifications (db w) ->
    is_row channel eventId n = true -> is_row channel eventId n' = true -> n = n'.

(** A step that leaves the log and the outgoing deliveries alone. *)
Definition log_same (w w' : World) : Prop :=
  notifications (db w') = notifications (db w) /\ delivered w' = delivered w.

#[global] Instance log_same_order : WorldOrder log_same.
Proof.
  unfold log_same. split; [split|].
  - done.
  - intros a b c [? ?] [? ?]. split; congruence.
  - intros w. destruct (tick_spec w) as (_ & _ & _ & -> & _ & ->). done.
Qed.

Section ClaimProps.
Context `{UuidSupply}.
Implicit Types (channel : Channel) (event : TriggerFiredEvent).

Lemma row_of_Some channel eventId w n :
  row_of channel eventId w = Some n -> n ∈ notifications (db w) /\ is_row channel eventId n = true.
Proof. apply find_first_Some. Qed.

(** With a row in place, [create] is refused. *)
Lemma create_row_refused channel event status error c w n :
  row_of channel (ev_eventId event) w = Some n ->
  create_row channel event status error c w = (inr UniqueViolation, w).
Proof.
  intros Hrow. unfold create_row, create. rewrite existsb_find_first.
  unfold row_of in Hrow. by rewrite Hrow.
Qed.

(** With a row that may not be taken over, the update matches nothing. *)
Lemma take_over_refused channel event at_ cutoff w n :
  log_unique w -> row_of channel (ev_eventId event) w = Some n -> takeable cutoff n = false ->
  take_over channel event at_ cutoff w = (inl 0%nat, w).
Proof.
  intros Hu Hrow Ht. unfold take_over. apply row_of_Some in Hrow as [Hin Hr].
  rewrite update_many_none.
  - cbn. f_equal. unfold upd_notifications, set_db, set_notifications. by destruct w as [? ? ? [] ? ? ?].
  - intros n' Hn'. destruct (is_row channel (ev_eventId event) n') eqn:Hr'; [|done].
    by rewrite <- (Hu _ _ _ _ Hin Hn' Hr Hr').
Qed.

Lemma tick_row channel eventId w : row_of channel eventId (tick w) = row_of channel eventId w.
Proof. unfold row_of. by destruct (tick_spec w) as (_ & _ & _ & -> & _). Qed.

Lemma tick_log_unique w : log_unique w -> log_unique (tick w).
Proof. unfold log_unique. by destruct (tick_spec w) as (_ & _ & _ & -> & _). Qed.

(** A call whose operation would change nothing changes nothing. *)
Lemma io_idle {A} (op : World -> (A + exn) * World) w (a : A + exn) :
  op (tick w) = (a, tick w) -> (io op w).2 = tick w /\ (forall b, (io op w).1 = Ok b -> a = inl b) /\
  (forall e, (io op w).1 = Throw e -> a = inr e \/ exists code, e = IoError code).
Proof.
  intros Hop. unfold io. rewrite Hop. destruct (next_fault w) as [|? []|[]]; cbn; destruct a; naive_solver.
Qed.

(** Whatever fails, a claim on a row that may not be taken over does not
    succeed and writes nothing. *)
Lemma claim_withheld channel event cutoff w n :
  log_unique w -> row_of channel (ev_eventId event) w = Some n -> takeable cutoff n = false ->
  let r := claim channel event cutoff w in
  log_same w r.2 /\ r.1 <> Ok claimed.
Proof.
  intros Hu Hrow Ht. cbv zeta.
  assert (forall w, log_same w (tick w)) as Htick by (intros; apply wo_tick).
  set (w1 := tick w). assert (row_of channel (ev_eventId event) w1 = Some n) as Hrow1 by by unfold w1; rewrite tick_row.
  assert (log_unique w1) as Hu1 by by apply tick_log_unique.
  destruct (io_idle (create_row channel event PENDING None (Some (now w))) w (inr UniqueViolation)) as (Hw1 & Hok1 & Hth1).
  { exact (create_row_refused _ _ _ _ _ _ _ Hrow1). }
  set (w2 := tick w1). destruct (io_idle (take_over channel event (now w) cutoff) w1 (inl 0%nat)) as (Hw2 & Hok2 & _).
  { eapply take_over_refused; [by apply tick_log_unique|by rewrite tick_row|done]. }
  destruct (io_idle (fun w => (inl (row_of channel (ev_eventId event) w), w)) w2 (inl (Some n))) as (Hw3 & Hok3 & _).
  { unfold w2. rewrite !tick_row. by rewrite Hrow1. }
  assert (log_same w w1) as Hs1 by apply Htick. assert (log_same w w2) as Hs2 by (etrans; [exact Hs1|apply Htick]).
  assert (log_same w (tick w2)) as Hs3 by (etrans; [exact Hs2|apply Htick]).
  unfold claim, get_now, bind, catch, throw, query.
  destruct (io _ w) as [[b|e|] w1'] eqn:E1; cbn in Hw1, Hok1, Hth1; subst w1'; cbn; [by specialize (Hok1 _ eq_refl)| |done].
  destruct (Hth1 e eq_refl) as [[= <-]|[code ->]]; cbn; [|done]. fold w1.
  destruct (io _ w1) as [[b|e|] w2'] eqn:E2; cbn in Hw2, Hok2; subst w2'; cbn; [|done..].
  specialize (Hok2 _ eq_refl). injection Hok2 as <-. cbn. fold w2.
  destruct (io _ w2) as [[b|e|] w3'] eqn:E3; cbn in Hw3, Hok3; subst w3'; cbn; [|done..].
  specialize (Hok3 _ eq_refl). injection Hok3 as <-. cbn. by case_decide.
Qed.

(** *** The unique index is kept by every statement *)

Definition unique_kept (w w' : World) : Prop := log_unique w -> log_unique w'.

#[global] Instance unique_kept_order : WorldOrder unique_kept.
Proof. unfold unique_kept. split; [split|]; [intros w; auto|intros a b c; auto|intros w; apply tick_log_unique]. Qed.

Lemma unique_kept_same w w' : notifications (db w') = notifications (db w) -> unique_kept w w'.
Proof. unfold unique_kept, log_unique. by intros ->. Qed.

(** Updates leave the key alone. *)
Lemma unique_kept_update p f w :
  (forall n, n_eventId (f n) = n_eventId n /\ n_channel (f n) = n_channel n) ->
  unique_kept w (upd_notifications (fun t => (update_many p f t).1) w).
Proof.
  intros Hf Hu channel eventId n n' Hn Hn' Hr Hr'. cbn [upd_notifications db set_db set_notifications notifications] in *.
  apply elem_of_update_many in Hn as (m & Hm & ->), Hn' as (m' & Hm' & ->).
  assert (forall m, is_row channel eventId (if p m then f m else m) = is_row channel eventId m) as Hk.
  { intros x. destruct (p x); [|done]. unfold is_row. by destruct (Hf x) as [-> ->]. }
  rewrite Hk in Hr, Hr'. by rewrite (Hu _ _ _ _ Hm Hm' Hr Hr').
Qed.

Lemma is_row_inj channel channel' eventId eventId' n :
  is_row channel eventId n = true -> is_row channel' eventId' n = true -> channel = channel' /\ eventId = eventId'.
Proof. unfold is_row. intros H1 H2. bool_to_prop. rewrite !bool_decide_eq_true in *. split; congruence. Qed.

Lemma unique_kept_create channel event status error c w :
  unique_kept w (create_row channel event status error c w).2.
Proof.
  unfold create_row. destruct (create _ _ _) as [t|] eqn:Hc; [|done]. case_match; [|done].
  apply create_Some in Hc as [Hfree ->]. rewrite Forall_forall in Hfree.
  intros Hu ch id n n' Hn Hn' Hr Hr'. cbn in Hn, Hn'.
  assert (forall x m, x ∈ notifications (db w) -> is_row ch id x = true ->
    is_row ch id (rowFor channel event status error c (uuid (uuids w)) (now w)) = true -> m) as Hclash.
  { intros x m Hx Hrx Hrow. exfalso. specialize (Hfree x Hx).
    assert (is_row channel (ev_eventId event) (rowFor channel event status error c (uuid (uuids w)) (now w)) = true) as Hself.
    { unfold is_row. cbn. by rewrite !bool_decide_true. }
    destruct (is_row_inj _ _ _ _ _ Hrow Hself) as [-> ->]. congruence. }
  apply elem_of_app in Hn as [Hn|Hn], Hn' as [Hn'|Hn'];
    rewrite ?list_elem_of_singleton in *; subst; [by eapply Hu| | |done]; by eapply Hclash.
Qed.

Lemma claim_unique channel event cutoff : keeps unique_kept (claim channel event cutoff).
Proof.
  unfold claim. keeps_tac; apply keeps_io; try apply _; intros w; [apply unique_kept_create|].
  by apply (unique_kept_update (fun n => is_row channel (ev_eventId event) n && takeable cutoff n)).
Qed.

Lemma releaseClaim_unique channel eventId : keeps unique_kept (releaseClaim channel eventId).
Proof. apply keeps_exec; [apply _|]. intros w. by apply unique_kept_update. Qed.

Lemma markDelivered_unique channel eventId d : keeps unique_kept (markDelivered channel eventId d).
Proof. apply keeps_exec; [apply _|]. intros w. by apply unique_kept_update. Qed.

Lemma settle_unique channel event status error : keeps unique_kept (settle channel event status error).
Proof.
  apply keeps_io; [apply _|]. intros w. destruct (row_of _ _ w); [by apply unique_kept_update|apply unique_kept_create].
Qed.

(** A settled row has the status it was settled with. *)
Lemma settle_settles channel event status error w w' :
  settle channel event status error w = (Ok tt, w') ->
  exists n, row_of channel (ev_eventId event) w' = Some n /\ n_status n = status.
Proof.
  unfold settle. intros [[-> Hno]|[-> Hok]]%io_effect; [by destruct (Hno tt)|]. specialize (Hok tt eq_refl).
  set (w1 := tick w) in *. destruct (row_of channel (ev_eventId event) w1) as [n|] eqn:Hrow.
  - exists (set_status status error n). split; [|done]. unfold row_of. cbn [snd upd_notifications db set_db set_notifications notifications].
    rewrite find_first_update; [|intros r; destruct (is_row channel (ev_eventId event) r) eqn:E; exact E].
    fold (row_of channel (ev_eventId event) w1). rewrite Hrow. cbn. by apply row_of_Some in Hrow as [_ ->].
  - revert Hok. unfold create_row. destruct (create _ _ _) as [t|] eqn:Hc; [|done]. case_match; [|done]. intros _.
    apply create_Some in Hc as [Hfree ->]. unfold row_of. cbn [snd upd_notifications db set_db set_notifications notifications set_uuids].
    rewrite find_first_app, (proj2 (find_first_None _ _) Hfree). cbn. unfold is_row. cbn. rewrite !bool_decide_true by done.
    cbn. eexists. by split.
Qed.

End ClaimProps.
