(* ===== verification/Channels.v ===== *)
(** * Delivery channels

    [apps/notifier/src/channels/telegram.channel.ts], [email.channel.ts],
    [webpush.channel.ts] and the registry [channel.registry.ts]. *)

From S2P Require Import Prelude JsNumber Enums Contracts Table World Samples Effects Format DeliveryLog.

(** The interface a channel implements ([channel.types.ts]). *)
Record NotificationChannel := {
  nc_channel : Channel;
  nc_send : TriggerFiredEvent -> M unit;
}.

(** What the services read from their environment. *)
Record ChannelConfig := {
  telegram_token : string;       (** TELEGRAM_BOT_TOKEN, empty when unset *)
  smtp_configured : bool;        (** SMTP_HOST is set *)
  vapid_configured : bool;       (** both VAPID keys are set *)
}.

(** A request to the outside that takes effect. *)
Definition deliver (d : Delivery) : M unit := exec (fun w => set_delivered (delivered w ++ [d]) w).

Section Channels.
Context (config : ChannelConfig).

Definition telegram_send (event : TriggerFiredEvent) : M unit :=
  if decide (telegram_token config = "") then
    throw (PermanentNotificationError "TELEGRAM_BOT_TOKEN is not set")
  else
    let* chatId := telegramChatId (ev_userId event) in
    match chatId with
    | None | Some "" => throw (PermanentNotificationError "User has no linked Telegram chat")
    | Some chatId => deliver (TelegramMessage chatId ("🌦️ " +:+ alertText event))
    end.

Definition email_send (event : TriggerFiredEvent) : M unit :=
  if negb (smtp_configured config) then throw (PermanentNotificationError "Mailer is not configured") else
  let* recipient := emailRecipient (ev_userId event) in
  match recipient with
  | None | Some ("", _) => throw (PermanentNotificationError "User has no email")
  | Some (_, false) => throw (PermanentNotificationError "Email is not verified")
  | Some (email, true) => deliver (Mail email (alertTitle event) (alertHtml event))
  end.

(** The counters of the fan-out loop. *)
Record Progress := { pg_delivered : nat; pg_lastError : option exn }.

(** One pass of the loop over the devices; the status code decides between
    pruning the subscription and remembering the error. *)
Definition push_one (event : TriggerFiredEvent) (sub : PushSubscription) (p : Progress) : M Progress :=
  let* sent := catch
      (do* deliver (WebPush (s_endpoint sub) (alertTitle event) (alertText event)) in ret (inl tt))
      (fun err => ret (inr err)) in
  let p := match sent with inl _ => {| pg_delivered := S (pg_delivered p); pg_lastError := pg_lastError p |} | inr _ => p end in
  let* outcome := match sent with
    | inl _ => catch (do* markDelivered WEB_PUSH (ev_eventId event) (s_endpoint sub) in ret None)
                     (fun err => ret (Some err))
    | inr err => ret (Some err)
    end in
  match outcome with
  | None => ret p
  | Some (IoError (Some 404)) | Some (IoError (Some 410)) =>
      do* removePushSubscription (s_id sub) in ret p
  | Some err => ret {| pg_delivered := pg_delivered p; pg_lastError := Some err |}
  end.

Fixpoint push_all (event : TriggerFiredEvent) (pending : list PushSubscription) (p : Progress) : M Progress :=
  match pending with
  | [] => ret p
  | sub :: rest => let* p := push_one event sub p in push_all event rest p
  end.

(** The devices an earlier attempt did not reach, and the verdict on them. *)
Definition fan_out (event : TriggerFiredEvent) (subs : list PushSubscription) (alreadyDelivered : list string) : M unit :=
  let pending := List.filter (fun sub => negb (bool_decide (s_endpoint sub ∈ alreadyDelivered))) subs in
  match pending with
  | [] => ret tt
  | _ =>
      let* p := push_all event pending {| pg_delivered := 0; pg_lastError := None |} in
      match pg_lastError p with
      | Some err => throw err
      | None =>
          if (pg_delivered p =? 0)%nat
          then throw (PermanentNotificationError "All push subscriptions are invalid")
          else ret tt
      end
  end.

Definition webpush_send (event : TriggerFiredEvent) : M unit :=
  if negb (vapid_configured config) then throw (PermanentNotificationError "VAPID keys are not set") else
  let* subs := pushSubscriptions (ev_userId event) in
  match subs with
  | [] => throw (PermanentNotificationError "User has no push subscriptions")
  | _ =>
      let* alreadyDelivered := deliveredDestinations WEB_PUSH (ev_eventId event) in
      fan_out event subs alreadyDelivered
  end.

(** The registry: one implementation per channel. *)
Definition CHANNEL_IMPLEMENTATIONS : list NotificationChannel :=
  [{| nc_channel := TELEGRAM; nc_send := telegram_send |};
   {| nc_channel := EMAIL; nc_send := email_send |};
   {| nc_channel := WEB_PUSH; nc_send := webpush_send |}].

Definition registry_get (senders : list NotificationChannel) (channel : Channel) : option NotificationChannel :=
  find_first (fun c => bool_decide (nc_channel c = channel)) senders.

End Channels.

(** ** Fan-out without repeats *)

Section FanOut.
Context (config : ChannelConfig) (event : TriggerFiredEvent).

Definition pushes (endpoints : list string) : list Delivery :=
  map (fun ep => WebPush ep (alertTitle event) (alertText event)) endpoints.

(** What the loop may have sent: pushes to some of the devices, in order. *)
Definition sent_among (endpoints : list string) (w w' : World) : Prop :=
  exists l, delivered w' = delivered w ++ pushes l /\ l `sublist_of` endpoints.

Lemma sent_none endpoints w w' : delivered w' = delivered w -> sent_among endpoints w w'.
Proof. intros Hd. exists []. cbn. rewrite app_nil_r. split; [done|apply sublist_nil_l]. Qed.

Lemma sent_app e1 e2 w1 w2 w3 : sent_among e1 w1 w2 -> sent_among e2 w2 w3 -> sent_among (e1 ++ e2) w1 w3.
Proof.
  intros (l1 & H1 & S1) (l2 & H2 & S2). exists (l1 ++ l2). rewrite H2, H1, <- app_assoc. unfold pushes.
  rewrite map_app. split; [done|by apply sublist_app].
Qed.

(** A step that sends nothing. *)
Definition nothing_sent (w w' : World) : Prop := delivered w' = delivered w.

#[global] Instance nothing_sent_order : WorldOrder nothing_sent.
Proof.
  unfold nothing_sent. split; [split|]; [done|congruence|].
  intros w. by destruct (tick_spec w) as (_ & _ & _ & _ & _ & ->).
Qed.

Lemma push_one_sends sub p w : sent_among [s_endpoint sub] w (push_one event sub p w).2.
Proof.
  assert (forall id, keeps nothing_sent (removePushSubscription id)) as Hrm.
  { intros id. apply keeps_io; [apply _|]. intros w0. cbv beta zeta. by destruct (existsb _ _). }
  assert (forall c e d, keeps nothing_sent (markDelivered c e d)) as Hmark by (intros; by apply keeps_exec; [apply _|]).
  unfold push_one. rewrite bind_world. set (request := catch _ _).
  assert (sent_among [s_endpoint sub] w (request w).2) as Hw1.
  { unfold request, catch, bind, deliver, exec. destruct (io _ w) as [r w1] eqn:Hio.
    destruct (tick_spec w) as (_ & _ & _ & _ & _ & Hd).
    apply io_effect in Hio as [[-> _]|[-> _]]; destruct r; cbn;
      (apply sent_none; exact Hd) || (exists [s_endpoint sub]; cbn; by rewrite Hd). }
  destruct (request w) as [[sent|e|] w1]; cbn [fst snd] in *; [|done..]. set (rest := bind _ _).
  assert (nothing_sent w1 (rest w1).2) as Hrest.
  { unfold rest. apply (keeps_bind nothing_sent); keeps_tac; auto. }
  destruct Hw1 as (l & Hl & Hs). exists l. split; [|done]. by rewrite Hrest.
Qed.

Lemma push_all_sends subs p w : sent_among (s_endpoint <$> subs) w (push_all event subs p w).2.
Proof.
  revert p w. induction subs as [|s subs IH]; intros p w; cbn [push_all]; [by apply sent_none|].
  rewrite bind_world. pose proof (push_one_sends s p w) as Hone.
  destruct (push_one event s p w) as [r w1]. cbn [fst snd] in *.
  change (s_endpoint <$> s :: subs) with ([s_endpoint s] ++ (s_endpoint <$> subs)).
  eapply sent_app; [exact Hone|]. destruct r; [apply IH|by apply sent_none..].
Qed.

Lemma fan_out_sends subs already w :
  exists l, delivered (fan_out event subs already w).2 = delivered w ++ pushes l /\
    l `sublist_of` (s_endpoint <$> subs) /\ (forall ep, ep ∈ l -> ep ∉ already).
Proof.
  unfold fan_out. set (pending := List.filter _ subs).
  assert (forall ep, ep ∈ s_endpoint <$> pending -> ep ∉ already) as Hskip.
  { intros ep (s & -> & Hs)%list_elem_of_fmap.
    apply (elem_of_find_many (fun sub => negb (bool_decide (s_endpoint sub ∈ already)))) in Hs as [_ Hs].
    by apply negb_true_iff, bool_decide_eq_false in Hs. }
  assert (s_endpoint <$> pending `sublist_of` (s_endpoint <$> subs)) as Hsub by apply fmap_sublist, find_many_sublist.
  destruct (push_all_sends pending {| pg_delivered := 0; pg_lastError := None |} w) as (l & Hl & Hs).
  destruct pending as [|s0 rest]; [exists []; cbn; rewrite app_nil_r; split_and!; [done|apply sublist_nil_l|by intros ? []%elem_of_nil]|].
  exists l. split_and!; [|by etrans|].
  - rewrite bind_world, <- Hl. destruct (push_all event _ _ w) as [[p'| |] w3]; cbn [fst snd]; [|done..].
    destruct (pg_lastError p'); [done|]. by destruct (pg_delivered p' =? 0)%nat.
  - intros ep Hep. apply Hskip. eapply elem_of_sublist; eauto.
Qed.

(** A retry of a web push does not notify a device twice: whatever fails,
    one run of the channel sends at most one push per subscription of the
    user, in order, and none to an endpoint an earlier attempt on the event
    recorded as delivered. *)
Theorem webpush_skips_delivered w n :
  row_of WEB_PUSH (ev_eventId event) w = Some n ->
  exists l, delivered (webpush_send config event w).2 = delivered w ++ pushes l /\
    l `sublist_of` (s_endpoint <$> find_many (fun s => bool_decide (s_userId s = ev_userId event)) (pushSubs (db w))) /\
    (forall ep, ep ∈ l -> ep ∉ n_deliveredTo n).
Proof.
  intros Hrow. set (mine := find_many _ _).
  assert (forall w', delivered w' = delivered w -> exists l, delivered w' = delivered w ++ pushes l /\
    l `sublist_of` (s_endpoint <$> mine) /\ forall ep, ep ∈ l -> ep ∉ n_deliveredTo n) as Hnone.
  { intros w' ->. exists []. cbn. rewrite app_nil_r. split_and!; [done|apply sublist_nil_l|by intros ep []%elem_of_nil]. }
  destruct (tick_spec w) as (_ & _ & _ & Hdb1 & _ & Hd1), (tick_spec (tick w)) as (_ & _ & _ & Hdb2 & _ & Hd2).
  unfold webpush_send. destruct (negb (vapid_configured config)); [by apply Hnone|]. rewrite bind_world.
  unfold pushSubscriptions, query. destruct (io _ w) as [r w1] eqn:Hq. cbn [fst snd].
  apply io_effect in Hq as [[-> Hno]|[-> Hok]]; cbn [snd]; (destruct r as [subs| |]; [|by apply Hnone..]); [by destruct (Hno subs)|].
  specialize (Hok subs eq_refl). injection Hok as <-. rewrite Hdb1. fold mine.
  destruct mine as [|s0 rest] eqn:Hmine; [by apply Hnone|]. rewrite bind_world. unfold deliveredDestinations, query.
  destruct (io _ (tick w)) as [r w2] eqn:Hq. cbn [fst snd].
  apply io_effect in Hq as [[-> Hno]|[-> Hok]]; cbn [snd];
    (destruct r as [already| |]; [|apply Hnone; congruence..]); [by destruct (Hno already)|].
  specialize (Hok already eq_refl). rewrite !tick_row, Hrow in Hok. injection Hok as <-.
  rewrite <- Hd1, <- Hd2. apply fan_out_sends.
Qed.

End FanOut.

(** A retry in which one of two browsers already got the alert. *)
Definition fan_out_world : World :=
  {| now := 9; uuids := 0; oracle := [];
     db := {| users := [sample_user]; triggers := []; triggerConditions := [];
              notifications := [{| n_id := "n1"; n_eventId := Some "e1"; n_triggerId := None; n_userId := "u1";
                                   n_channel := WEB_PUSH; n_status := PENDING; n_payload := sample_event "e1"; n_error := None;
                                   n_claimedAt := None; n_deliveredTo := ["https://push/a"]; n_createdAt := 0 |}];
              pushSubs := [{| s_id := "s1"; s_userId := "u1"; s_endpoint := "https://push/a"; s_p256dh := ""; s_auth := ""; s_createdAt := 0 |};
                           {| s_id := "s2"; s_userId := "u1"; s_endpoint := "https://push/b"; s_p256dh := ""; s_auth := ""; s_createdAt := 0 |}];
              refreshTokens := []; pinnedCities := []; outbox := [] |};
     redis := ∅; broker := {| published := []; acked := [] |}; delivered := [] |}.

Lemma webpush_skips_delivered_witness :
  exists l, delivered (webpush_send {| telegram_token := ""; smtp_configured := false; vapid_configured := true |}
                         (sample_event "e1") fan_out_world).2 = pushes (sample_event "e1") l /\
    (forall ep, ep ∈ l -> ep ∉ ["https://push/a"]) /\ length l = 1%nat.
Proof.
  destruct (webpush_skips_delivered {| telegram_token := ""; smtp_configured := false; vapid_configured := true |}
    (sample_event "e1") fan_out_world _ eq_refl) as (l & Hd & _ & Hskip).
  exists l. split; [exact Hd|]. split; [exact Hskip|].
  apply (f_equal length) in Hd. cbn [delivered fan_out_world app] in Hd. unfold pushes in Hd. rewrite length_map in Hd.
  rewrite <- Hd. vm_compute. reflexivity.
Defined.
