(* ===== verification/Notifier.v ===== *)
(** * The notifier ([apps/notifier/src/notifier.service.ts])

    One delivery attempt: claim the (event, channel) row, send, settle. *)

From S2P Require Import Prelude JsNumber Enums Contracts Table World Samples Effects Outbox Format DeliveryLog Channels.

Definition CLAIM_LEASE_MS : Z := 60000.

Inductive DispatchOutcome := sent | skipped.

Section Notifier.
Context `{UuidSupply} (senders : list NotificationChannel).

Definition registeredChannels : list Channel := map nc_channel senders.

(** Best effort: a failed write leaves the lease to expire. *)
Definition releaseClaim_ (channel : Channel) (event : TriggerFiredEvent) : M unit :=
  catch (releaseClaim channel (ev_eventId event)) (fun _ => ret tt).

Definition dispatch (channel : Channel) (event : TriggerFiredEvent) : M DispatchOutcome :=
  match registry_get senders channel with
  | None => throw (PermanentNotificationError "No implementation registered for channel")
  | Some sender =>
      let* at_ := get_now in
      let* c := claim channel event (at_ - CLAIM_LEASE_MS) in
      match c with
      | duplicate => ret skipped
      | in_flight => throw (DeliveryInFlightError channel)
      | claimed =>
          do* catch (nc_send sender event)
                (fun err => do* releaseClaim_ channel event in throw err) in
          do* settle channel event SENT None in
          ret sent
      end
  end.

End Notifier.

(** ** Properties *)

Section Props.
Context `{UuidSupply} (config : ChannelConfig).
Notation senders := (CHANNEL_IMPLEMENTATIONS config).

(** The row is settled as sent, or leased to a consumer whose lease runs. *)
Definition withheld (n : Notification) (at_ : Z) : Prop :=
  n_status n = SENT \/ exists c, n_claimedAt n = Some c /\ at_ <= c + CLAIM_LEASE_MS.

Lemma withheld_not_takeable n at_ : withheld n at_ -> takeable (at_ - CLAIM_LEASE_MS) n = false.
Proof.
  unfold takeable. intros [->|(c & -> & Hc)]; [by rewrite bool_decide_true|].
  rewrite (proj2 (Z.ltb_ge _ _)) by lia. apply andb_false_r.
Qed.

Lemma dispatch_withheld_step channel event w n :
  log_unique w -> row_of channel (ev_eventId event) w = Some n -> withheld n (now w) ->
  let r := dispatch senders channel event w in
  log_same w r.2 /\ r.1 <> Ok sent.
Proof.
  intros Hu Hrow Hwh. cbv zeta. unfold dispatch. destruct (registry_get _ _) as [sender|]; [|split; [reflexivity|done]].
  set (k := fun c : ClaimResult => _). change (log_same w (bind (claim channel event (now w - CLAIM_LEASE_MS)) k w).2 /\
    (bind (claim channel event (now w - CLAIM_LEASE_MS)) k w).1 <> Ok sent).
  destruct (claim_withheld channel event (now w - CLAIM_LEASE_MS) w n Hu Hrow (withheld_not_takeable _ _ Hwh)) as [Hs Hr].
  unfold bind. destruct (claim _ _ _ w) as [[[]|e|] w1]; cbn in *; [by destruct Hr|by split..].
Qed.

(** Redeliveries do not notify twice: while the row of an (event,
    channel) is settled as sent, or leased to another consumer whose lease
    runs, a dispatch sends nothing, writes nothing to the log and does not
    report success, whichever of its calls fail or kill it. *)
Theorem dispatch_withheld channel event w n :
  log_unique w -> row_of channel (ev_eventId event) w = Some n ->
  (n_status n = SENT \/ exists c, n_claimedAt n = Some c /\ now w <= c + CLAIM_LEASE_MS) ->
  delivered (dispatch senders channel event w).2 = delivered w /\
  notifications (db (dispatch senders channel event w).2) = notifications (db w) /\
  (dispatch senders channel event w).1 <> Ok sent.
Proof.
  intros Hu Hrow Hwh. destruct (dispatch_withheld_step channel event w n Hu Hrow Hwh) as [[? ?] ?]. auto.
Qed.

(** *** What a dispatch leaves in the log *)

Lemma deliver_unique d : keeps unique_kept (deliver d).
Proof. apply keeps_exec; [apply _|]. intros w. by apply unique_kept_same. Qed.

Lemma push_all_unique event subs p : keeps unique_kept (push_all event subs p).
Proof.
  revert p. induction subs as [|s subs IH]; intros p; cbn [push_all]; [keeps_tac|].
  apply keeps_bind; [apply _| |auto]. unfold push_one, removePushSubscription.
  keeps_tac; auto using markDelivered_unique, deliver_unique;
    (apply keeps_io; [apply _|]; intros w; case_match; by apply unique_kept_same).
Qed.

Lemma send_unique sender event : sender ∈ senders -> keeps unique_kept (nc_send sender event).
Proof.
  intros Hin.
  assert (sender = {| nc_channel := TELEGRAM; nc_send := telegram_send config |} \/
          sender = {| nc_channel := EMAIL; nc_send := email_send config |} \/
          sender = {| nc_channel := WEB_PUSH; nc_send := webpush_send config |}) as [->|[->| ->]]
    by (unfold CHANNEL_IMPLEMENTATIONS in Hin; set_solver); cbn.
  - unfold telegram_send, telegramChatId. keeps_tac; auto using deliver_unique.
  - unfold email_send, emailRecipient. keeps_tac; auto using deliver_unique.
  - unfold webpush_send, fan_out, pushSubscriptions, deliveredDestinations. keeps_tac. apply push_all_unique.
Qed.

Lemma registry_get_elem channel sender : registry_get senders channel = Some sender -> sender ∈ senders.
Proof. by intros [? _]%find_first_Some. Qed.

Lemma dispatch_unique channel event : keeps unique_kept (dispatch senders channel event).
Proof.
  unfold dispatch, releaseClaim_. destruct (registry_get _ _) as [sender|] eqn:Hs; [|keeps_tac].
  apply registry_get_elem in Hs. keeps_tac;
    auto using claim_unique, send_unique, releaseClaim_unique, settle_unique.
Qed.

Lemma dispatch_sent_settles channel event w w' :
  dispatch senders channel event w = (Ok sent, w') ->
  exists n, row_of channel (ev_eventId event) w' = Some n /\ n_status n = SENT.
Proof.
  unfold dispatch. destruct (registry_get _ _) as [sender|]; [|done].
  intros (at_ & w0 & [= <- <-] & Hd)%bind_Ok. apply bind_Ok in Hd as (c & w1 & _ & Hd).
  destruct c; [|done..]. apply bind_Ok in Hd as (u & w2 & _ & Hd). apply bind_Ok in Hd as ([] & w3 & Hset & Hret).
  injection Hret as <-. by eapply settle_settles.
Qed.

End Props.

(** ** Concrete runs *)

Definition sample_config : ChannelConfig :=
  {| telegram_token := "123:abc"; smtp_configured := true; vapid_configured := true |}.

Definition notifier_db : Database :=
  {| users := [sample_user]; triggers := [sample_trigger "t1" 52 21]; triggerConditions := []; notifications := [];
     pushSubs := []; refreshTokens := []; pinnedCities := []; outbox := [] |}.

Definition notifier_world (d : Database) : World :=
  {| now := 100000; uuids := 0; oracle := []; db := d; redis := ∅;
     broker := {| published := []; acked := [] |}; delivered := [] |}.

(** After a first, successful dispatch. *)
Definition world_after_send : World :=
  (dispatch (H:=sample_uuids) (CHANNEL_IMPLEMENTATIONS sample_config) TELEGRAM (sample_event "e1") (notifier_world notifier_db)).2.

Lemma notifier_world_unique : log_unique (notifier_world notifier_db).
Proof. intros c e n n' []%elem_of_nil. Qed.

Lemma dispatch_withheld_witness :
  length (delivered world_after_send) = 1%nat /\
  delivered (dispatch (H:=sample_uuids) (CHANNEL_IMPLEMENTATIONS sample_config) TELEGRAM (sample_event "e1") world_after_send).2
    = delivered world_after_send.
Proof.
  split; [vm_compute; reflexivity|].
  destruct (row_of TELEGRAM "e1" world_after_send) as [n|] eqn:Hrow; [|vm_compute in Hrow; discriminate Hrow].
  apply (dispatch_withheld (H:=sample_uuids) sample_config TELEGRAM (sample_event "e1") world_after_send n).
  - apply (dispatch_unique (H:=sample_uuids) sample_config TELEGRAM (sample_event "e1")), notifier_world_unique.
  - exact Hrow.
  - left. vm_compute in Hrow. injection Hrow as <-. reflexivity.
Defined.
