(* ===== verification/Deliveries.v ===== *)
(** * Concurrent delivery attempts

    [NotifierService.dispatch] of [apps/notifier/src/notifier.service.ts] one
    call at a time, and any number of consumers attempting the same delivery
    at once: the claim and its lease decide which of them sends. *)

From S2P Require Import Prelude JsNumber Enums Contracts Table World Samples Effects Outbox Format DeliveryLog Channels Notifier Async.

(** ** The functions, suspended at each call *)

Section Functions.
Context `{UuidSupply} (config : ChannelConfig).
Local Open Scope async_scope.

Definition async_telegram_send (event : TriggerFiredEvent) : Proc unit :=
  if decide (telegram_token config = "") then
    reject (PermanentNotificationError "TELEGRAM_BOT_TOKEN is not set")
  else
    let* chatId := await (telegramChatId (ev_userId event)) in
    match chatId with
    | None | Some "" => reject (PermanentNotificationError "User has no linked Telegram chat")
    | Some chatId => await (deliver (TelegramMessage chatId ("🌦️ " +:+ alertText event)))
    end.

Definition async_email_send (event : TriggerFiredEvent) : Proc unit :=
  if negb (smtp_configured config) then reject (PermanentNotificationError "Mailer is not configured") else
  let* recipient := await (emailRecipient (ev_userId event)) in
  match recipient with
  | None | Some ("", _) => reject (PermanentNotificationError "User has no email")
  | Some (_, false) => reject (PermanentNotificationError "Email is not verified")
  | Some (email, true) => await (deliver (Mail email (alertTitle event) (alertHtml event)))
  end.

Definition async_push_one (event : TriggerFiredEvent) (sub : PushSubscription) (p : Progress) : Proc Progress :=
  let* sent := pcatch
      (do* await (deliver (WebPush (s_endpoint sub) (alertTitle event) (alertText event))) in resolve (inl tt))
      (fun err => resolve (inr err)) in
  let p := match sent with inl _ => {| pg_delivered := S (pg_delivered p); pg_lastError := pg_lastError p |} | inr _ => p end in
  let* outcome := match sent with
    | inl _ => pcatch (do* await (markDelivered WEB_PUSH (ev_eventId event) (s_endpoint sub)) in resolve None)
                      (fun err => resolve (Some err))
    | inr err => resolve (Some err)
    end in
  match outcome with
  | None => resolve p
  | Some (IoError (Some 404)) | Some (IoError (Some 410)) =>
      do* await (removePushSubscription (s_id sub)) in resolve p
  | Some err => resolve {| pg_delivered := pg_delivered p; pg_lastError := Some err |}
  end.

Fixpoint async_push_all (event : TriggerFiredEvent) (pending : list PushSubscription) (p : Progress) : Proc Progress :=
  match pending with
  | [] => resolve p
  | sub :: rest => let* p := async_push_one event sub p in async_push_all event rest p
  end.

Definition async_fan_out (event : TriggerFiredEvent) (subs : list PushSubscription) (alreadyDelivered : list string) : Proc unit :=
  let pending := List.filter (fun sub => negb (bool_decide (s_endpoint sub ∈ alreadyDelivered))) subs in
  match pending with
  | [] => resolve tt
  | _ =>
      let* p := async_push_all event pending {| pg_delivered := 0; pg_lastError := None |} in
      match pg_lastError p with
      | Some err => reject err
      | None =>
          if (pg_delivered p =? 0)%nat
          then reject (PermanentNotificationError "All push subscriptions are invalid")
          else resolve tt
      end
  end.

Definition async_webpush_send (event : TriggerFiredEvent) : Proc unit :=
  if negb (vapid_configured config) then reject (PermanentNotificationError "VAPID keys are not set") else
  let* subs := await (pushSubscriptions (ev_userId event)) in
  match subs with
  | [] => reject (PermanentNotificationError "User has no push subscriptions")
  | _ =>
      let* alreadyDelivered := await (deliveredDestinations WEB_PUSH (ev_eventId event)) in
      async_fan_out event subs alreadyDelivered
  end.

Definition async_send (channel : Channel) : TriggerFiredEvent -> Proc unit :=
  match channel with
  | TELEGRAM => async_telegram_send
  | EMAIL => async_email_send
  | WEB_PUSH => async_webpush_send
  end.

(** The registered implementation. *)
Definition send (channel : Channel) : TriggerFiredEvent -> M unit :=
  match channel with
  | TELEGRAM => telegram_send config
  | EMAIL => email_send config
  | WEB_PUSH => webpush_send config
  end.

Lemma alone_push_one event sub p w : alone (async_push_one event sub p) w = push_one event sub p w.
Proof. unfold async_push_one, push_one. alone_tac. Qed.

Lemma alone_push_all event subs p w : alone (async_push_all event subs p) w = push_all event subs p w.
Proof.
  revert p w. induction subs as [|s subs IH]; intros p w; [done|]. cbn [async_push_all push_all].
  alone_tac; auto using alone_push_one.
Qed.

Lemma alone_send channel event w : alone (async_send channel event) w = send channel event w.
Proof.
  destruct channel; cbn.
  - unfold async_telegram_send, telegram_send. alone_tac.
  - unfold async_email_send, email_send. alone_tac.
  - unfold async_webpush_send, webpush_send, async_fan_out, fan_out. alone_tac; auto using alone_push_all.
Qed.

End Functions.

(** ** One attempt *)

(** Where a call of [dispatch] waits. [at_] is the instant written to the
    claim; [Sending], [Returning] and [Settling] own the delivery. *)
Inductive Attempt :=
  | Claiming
  | TakingOver (at_ : Z)
  | LookingUp (at_ : Z)
  | Sending (at_ : Z) (p : Proc unit)
  | Returning (at_ : Z) (err : exn)
  | Settling (at_ : Z)
  | Ended (r : DispatchOutcome + exn).

(** Once the send has settled the attempt goes on without a pause. *)
Definition sending (at_ : Z) (p : Proc unit) : Attempt :=
  match p with
  | Return (inl _) => Settling at_
  | Return (inr err) => Returning at_ err
  | Await _ _ => Sending at_ p
  end.

Section Attempts.
Context `{UuidSupply} (config : ChannelConfig) (channel : Channel) (event : TriggerFiredEvent).
Local Open Scope async_scope.

(** The insert of [claim]: [false] when the row is there. *)
Definition create_claim (at_ : Z) : M bool :=
  catch (bind (io (create_row channel event PENDING None (Some at_))) (fun _ => ret true))
        (fun err => match err with UniqueViolation => ret false | _ => throw err end).

Definition attempt_step (a : Attempt) (w : World) : option Attempt * World :=
  match a with
  | Claiming =>
      match create_claim (now w) w with
      | (Ok true, w') => (Some (sending (now w) (async_send config channel event)), w')
      | (Ok false, w') => (Some (TakingOver (now w)), w')
      | (Throw e, w') => (Some (Ended (inr e)), w')
      | (Crash, w') => (None, w')
      end
  | TakingOver at_ =>
      match io (take_over channel event at_ (at_ - CLAIM_LEASE_MS)) w with
      | (Ok count, w') =>
          (Some (if (0 <? count)%nat then sending at_ (async_send config channel event) else LookingUp at_), w')
      | (Throw e, w') => (Some (Ended (inr e)), w')
      | (Crash, w') => (None, w')
      end
  | LookingUp at_ =>
      match query (row_of channel (ev_eventId event)) w with
      | (Ok None, w') => (Some (sending at_ (async_send config channel event)), w')
      | (Ok (Some n), w') =>
          (Some (Ended (if decide (n_status n = SENT) then inl skipped else inr (DeliveryInFlightError channel))), w')
      | (Throw e, w') => (Some (Ended (inr e)), w')
      | (Crash, w') => (None, w')
      end
  | Sending at_ p =>
      match resume p w with
      | (Some p', w') => (Some (sending at_ p'), w')
      | (None, w') => (None, w')
      end
  | Returning at_ err =>
      match releaseClaim_ channel event w with
      | (Crash, w') => (None, w')
      | (_, w') => (Some (Ended (inr err)), w')
      end
  | Settling at_ =>
      match settle channel event SENT None w with
      | (Ok _, w') => (Some (Ended (inl sent)), w')
      | (Throw e, w') => (Some (Ended (inr e)), w')
      | (Crash, w') => (None, w')
      end
  | Ended _ => (Some a, w)
  end.

(** *** It is [dispatch] *)

Definition async_release (err : exn) : Proc unit :=
  do* await (releaseClaim_ channel event) in reject err.

Definition under_claim (p : Proc unit) : Proc DispatchOutcome :=
  do* pcatch p async_release in
  do* await (settle channel event SENT None) in
  resolve sent.

Definition after_claim (c : ClaimResult) : Proc DispatchOutcome :=
  match c with
  | duplicate => resolve skipped
  | in_flight => reject (DeliveryInFlightError channel)
  | claimed => under_claim (async_send config channel event)
  end.

Definition async_lookup : Proc ClaimResult :=
  let* existing := await (query (row_of channel (ev_eventId event))) in
  match existing with
  | None => resolve claimed
  | Some n => resolve (if decide (n_status n = SENT) then duplicate else in_flight)
  end.

Definition async_take_over (at_ : Z) : Proc ClaimResult :=
  let* count := await (io (take_over channel event at_ (at_ - CLAIM_LEASE_MS))) in
  if (0 <? count)%nat then resolve claimed else async_lookup.

Definition async_claim : Proc ClaimResult :=
  let* r := await (bind get_now (fun at_ => bind (create_claim at_) (fun created => ret (at_, created)))) in
  if (r.2 : bool) then resolve claimed else async_take_over r.1.

Definition async_dispatch : Proc DispatchOutcome := pbind async_claim after_claim.

Lemma alone_claim w : alone async_claim w = claim channel event (now w - CLAIM_LEASE_MS) w.
Proof.
  unfold async_claim, claim. rewrite alone_pbind, bind_get_now. unfold bind at 1. rewrite alone_await, bind_get_now.
  fold (create_claim (now w)). unfold bind at 1 2, ret at 1.
  destruct (create_claim (now w) w) as [[[]|e|] w1]; cbn [snd fst]; [done| |done..].
  unfold async_take_over, async_lookup. revert w1. generalize (now w). intros at_ w1. alone_tac.
Qed.

Lemma alone_dispatch w : alone async_dispatch w = dispatch (CHANNEL_IMPLEMENTATIONS config) channel event w.
Proof.
  unfold async_dispatch, dispatch.
  assert (registry_get (CHANNEL_IMPLEMENTATIONS config) channel =
    Some {| nc_channel := channel; nc_send := send config channel |}) as -> by by destruct channel.
  rewrite bind_get_now, alone_pbind. unfold bind at 1 2. rewrite alone_claim.
  destruct (claim _ _ _ w) as [[[]|e|] w1]; [|done..]. revert w1. intros w1. cbn [after_claim nc_send]. unfold under_claim, async_release.
  alone_tac; auto using alone_send.
Qed.

(** Nothing of an attempt concerns the broker or the outbox. *)
Definition beside (w w' : World) : Prop :=
  broker w' = broker w /\ outbox (db w') = outbox (db w) /\ (uuids w <= uuids w')%nat.

#[global] Instance beside_order : WorldOrder beside.
Proof.
  unfold beside. split; [split|].
  - done.
  - intros w1 w2 w3 (? & ? & ?) (? & ? & ?). split_and!; [congruence|congruence|lia].
  - intros w. destruct (tick_spec w) as (_ & _ & -> & -> & -> & _). done.
Qed.

Lemma beside_deliver d : keeps beside (deliver d).
Proof. by apply keeps_exec; [apply _|]. Qed.

Lemma beside_log f : keeps beside (exec (upd_notifications f)).
Proof. by apply keeps_exec; [apply _|]. Qed.

Lemma beside_create_row status error c w : beside w (create_row channel event status error c w).2.
Proof. unfold create_row. repeat case_match; unfold beside; cbn; split_and!; done || lia. Qed.

Lemma beside_settle status error : keeps beside (settle channel event status error).
Proof. apply keeps_io; [apply _|]. intros w. destruct (row_of _ _ w); [done|apply beside_create_row]. Qed.

Lemma async_send_beside : every_call beside (async_send config channel event).
Proof.
  assert (forall id, keeps beside (removePushSubscription id)) as Hrm.
  { intros id. apply keeps_io; [apply _|]. intros w. cbv beta zeta. by destruct (existsb _ _). }
  assert (forall c e d, keeps beside (markDelivered c e d)) as Hmark by (intros; apply beside_log).
  assert (forall subs p, every_call beside (async_push_all event subs p)) as Hpush.
  { induction subs as [|s subs IH]; intros p; cbn [async_push_all]; [done|].
    apply every_call_pbind; [|auto]. unfold async_push_one. every_call_tac; auto using beside_deliver. }
  destruct channel; cbn [async_send]; unfold async_telegram_send, async_email_send, async_webpush_send, async_fan_out,
    telegramChatId, emailRecipient, pushSubscriptions, deliveredDestinations; every_call_tac; auto using beside_deliver.
Qed.

Lemma beside_create_claim at_ : keeps beside (create_claim at_).
Proof. unfold create_claim. keeps_tac. apply keeps_io; [apply _|]. intros w. apply beside_create_row. Qed.

Lemma beside_take_over at_ c : keeps beside (io (take_over channel event at_ c)).
Proof. by apply keeps_io; [apply _|]. Qed.

Lemma beside_release : keeps beside (releaseClaim_ channel event).
Proof. unfold releaseClaim_, releaseClaim. keeps_tac. by apply keeps_exec; [apply _|]. Qed.

Lemma async_claim_beside : every_call beside async_claim.
Proof. unfold async_claim, async_take_over, async_lookup. every_call_tac; auto using beside_create_claim, beside_take_over. Qed.

Lemma async_dispatch_beside : every_call beside async_dispatch.
Proof.
  unfold async_dispatch. apply every_call_pbind; [apply async_claim_beside|].
  intros []; cbn [after_claim]; [|done..]. unfold under_claim, async_release.
  every_call_tac; auto using async_send_beside, beside_release, beside_settle.
Qed.

(** What is left of [dispatch]. *)
Definition rest (a : Attempt) : Proc DispatchOutcome :=
  match a with
  | Claiming => async_dispatch
  | TakingOver at_ => pbind (async_take_over at_) after_claim
  | LookingUp _ => pbind async_lookup after_claim
  | Sending _ p => under_claim p
  | Returning _ err => do* async_release err in do* await (settle channel event SENT None) in resolve sent
  | Settling _ => do* await (settle channel event SENT None) in resolve sent
  | Ended r => Return r
  end.

Lemma rest_sending at_ p : rest (sending at_ p) = under_claim p.
Proof. by destruct p as [[]|]. Qed.

Definition waiting (a : Attempt) : Prop :=
  match a with Sending _ (Return _) | Ended _ => False | _ => True end.

Lemma release_never_throws w e : (releaseClaim_ channel event w).1 <> Throw e.
Proof. unfold releaseClaim_, catch. by destruct (releaseClaim _ _ w) as [[]]. Qed.

(** Each step of an attempt is a step of [dispatch]. *)
Lemma attempt_is_dispatch a w :
  waiting a ->
  resume (rest a) w = (rest <$> (attempt_step a w).1, (attempt_step a w).2).
Proof.
  destruct a as [|at_|at_|at_ p|at_ err|at_|r]; cbn [waiting rest attempt_step]; intros Hw; try done.
  - unfold async_dispatch, async_claim. cbn. unfold bind, ret, get_now.
    destruct (create_claim (now w) w) as [[[]|e|] w1]; cbn; by rewrite ?rest_sending.
  - cbn. destruct (io _ w) as [[n|e|] w1]; cbn; [|done..].
    destruct n; [done|]. cbn. by rewrite rest_sending.
  - cbn. destruct (query _ w) as [[[n|]|e|] w1]; cbn; rewrite ?rest_sending; [|done..]. by case_decide.
  - destruct p as [r|B call k]; [done|]. cbn.
    destruct (call w) as [[b|e|] w1]; cbn; by rewrite ?rest_sending.
  - cbn. pose proof (release_never_throws w) as Hno.
    destruct (releaseClaim_ channel event w) as [[u|e|] w1]; [done|by destruct (Hno e)|done].
  - cbn. by destruct (settle _ _ _ _ w) as [[u|e|] w1].
Qed.

End Attempts.

(** ** Many attempts on one delivery *)

Section Race.
Context `{UuidSupply} (config : ChannelConfig) (channel : Channel) (event : TriggerFiredEvent).
Notation attempt_step := (attempt_step config channel event).
Notation the_row := (row_of channel (ev_eventId event)).

(** The consumers attempting the same event on the same channel. *)
Record Race := {
  r_world : World;
  r_attempts : list Attempt;
}.

(** A row keeps the lease it is under. *)
Definition lease_kept (w w' : World) : Prop :=
  (log_unique w -> log_unique w') /\ now w <= now w' /\
  (forall n, the_row w = Some n -> exists n', the_row w' = Some n' /\ n_claimedAt n' = n_claimedAt n).

Inductive race_step : Race -> Race -> Prop :=
  | race_joins s : race_step s {| r_world := r_world s; r_attempts := r_attempts s ++ [Claiming] |}
  | race_goes_on s i a a' w' :
      r_attempts s !! i = Some a -> attempt_step a (r_world s) = (Some a', w') ->
      race_step s {| r_world := w'; r_attempts := <[i := a']> (r_attempts s) |}
  (* the process dies, in a call or anywhere else; its lease stays *)
  | race_dies s i a w' :
      r_attempts s !! i = Some a -> attempt_step a (r_world s) = (None, w') ->
      race_step s {| r_world := w'; r_attempts := delete i (r_attempts s) |}
  | race_killed s i : race_step s {| r_world := r_world s; r_attempts := delete i (r_attempts s) |}
  (* a failed attempt that was the last one records it *)
  | race_gives_up s i e message :
      r_attempts s !! i = Some (Ended (inr e)) ->
      race_step s {| r_world := (settle channel event FAILED (Some message) (r_world s)).2;
                     r_attempts := r_attempts s |}
  (* the rest of the system leaves this row to the notifier *)
  | race_elsewhere s w' :
      lease_kept (r_world s) w' -> race_step s {| r_world := w'; r_attempts := r_attempts s |}.

(** The instant of the claim an attempt sends under. *)
Definition owns (a : Attempt) : option Z :=
  match a with Sending at_ _ | Returning at_ _ | Settling at_ => Some at_ | _ => None end.

(** Nobody holds a delivery longer than its lease. *)
Definition in_time (s : Race) : Prop :=
  forall a at_, a ∈ r_attempts s -> owns a = Some at_ -> now (r_world s) <= at_ + CLAIM_LEASE_MS.

(** *** What the calls do to the row *)

#[global] Instance lease_kept_order : WorldOrder lease_kept.
Proof.
  split; [split|].
  - intros w. split_and!; [done|done|eauto].
  - intros w1 w2 w3 (U12 & N12 & R12) (U23 & N23 & R23). split_and!; [auto|lia|].
    intros n (n' & Hn' & Hc)%R12. apply R23 in Hn' as (n'' & Hn'' & Hc'). exists n''. split; [done|congruence].
  - intros w. destruct (tick_spec w) as (Hn & _). split_and!; [apply tick_log_unique|done|].
    intros n Hrow. exists n. by rewrite tick_row.
Qed.

Lemma lease_kept_same w w' :
  notifications (db w') = notifications (db w) -> now w <= now w' -> lease_kept w w'.
Proof.
  intros Hdb Hn. split_and!; [by apply unique_kept_same|done|]. unfold row_of. rewrite Hdb. eauto.
Qed.

(** An update that keeps the key and the lease of the rows it touches. *)
Lemma lease_kept_update p f w :
  (forall n, n_eventId (f n) = n_eventId n /\ n_channel (f n) = n_channel n /\ n_claimedAt (f n) = n_claimedAt n) ->
  lease_kept w (upd_notifications (fun t => (update_many p f t).1) w).
Proof.
  intros Hf. split_and!; [|done|].
  - apply unique_kept_update. intros n. by destruct (Hf n) as (? & ? & _).
  - intros n Hn. unfold row_of in *. cbn [upd_notifications db set_db set_notifications notifications].
    rewrite find_first_update; [rewrite Hn; cbn; eexists; split; [done|]|].
    + destruct (p n); [|done]. by destruct (Hf n) as (_ & _ & ->).
    + intros r. destruct (p r); [|done]. unfold is_row. by destruct (Hf r) as (-> & -> & _).
Qed.

Lemma lease_kept_deliver d : keeps lease_kept (deliver d).
Proof. apply keeps_exec; [apply _|]. intros w. by apply lease_kept_same. Qed.

Lemma lease_kept_send : every_call lease_kept (async_send config channel event).
Proof.
  assert (forall c e d, keeps lease_kept (markDelivered c e d)) as Hmark.
  { intros. apply keeps_exec; [apply _|]. intros w. by apply lease_kept_update. }
  assert (forall id, keeps lease_kept (removePushSubscription id)) as Hrm.
  { intros id. apply keeps_io; [apply _|]. intros w. cbv beta zeta. destruct (existsb _ _); by apply lease_kept_same. }
  assert (forall subs p, every_call lease_kept (async_push_all event subs p)) as Hpush.
  { induction subs as [|s subs IH]; intros p; cbn [async_push_all]; [done|].
    apply every_call_pbind; [|auto]. unfold async_push_one. every_call_tac; auto using lease_kept_deliver. }
  destruct channel; cbn [async_send]; unfold async_telegram_send, async_email_send, async_webpush_send, async_fan_out,
    telegramChatId, emailRecipient, pushSubscriptions, deliveredDestinations;
    every_call_tac; auto using lease_kept_deliver.
Qed.

Lemma lease_kept_settle status error : keeps lease_kept (settle channel event status error).
Proof.
  apply keeps_io; [apply _|]. intros w. destruct (the_row w) as [n|] eqn:Hrow; [by apply lease_kept_update|].
  split_and!; [apply unique_kept_create| |intros n Hn; congruence].
  unfold create_row. destruct (create _ _ _); [|done]. by case_match.
Qed.

(** What every step keeps. *)
Definition row_kept (w w' : World) : Prop :=
  (log_unique w -> log_unique w') /\ now w <= now w' /\ (is_Some (the_row w) -> is_Some (the_row w')).

Lemma lease_row_kept w w' : lease_kept w w' -> row_kept w w'.
Proof. intros (Hu & Hn & Hr). split_and!; [done|done|]. intros [n Hrow]. destruct (Hr n Hrow) as (n' & ? & _). eauto. Qed.

Lemma row_kept_update p f w :
  (forall n, n_eventId (f n) = n_eventId n /\ n_channel (f n) = n_channel n) ->
  row_kept w (upd_notifications (fun t => (update_many p f t).1) w).
Proof.
  intros Hf. split_and!; [by apply unique_kept_update|done|]. intros [n Hn].
  unfold row_of in *. cbn [upd_notifications db set_db set_notifications notifications].
  rewrite find_first_update; [rewrite Hn; by eexists|]. intros r. destruct (p r); [|done]. unfold is_row. by destruct (Hf r) as (-> & ->).
Qed.

Lemma row_kept_tick w w' : row_kept (tick w) w' -> row_kept w w'.
Proof.
  intros (Hu & Hn & Hr). destruct (tick_spec w) as (Ht & _). split_and!; [intros; by apply Hu, tick_log_unique|lia|].
  by rewrite tick_row in Hr.
Qed.

(** The row is leased since [at_]. *)
Definition leased (at_ : Z) (w : World) : Prop :=
  exists n, the_row w = Some n /\ n_claimedAt n = Some at_.

Lemma leased_kept at_ w w' : lease_kept w w' -> leased at_ w -> leased at_ w'.
Proof. intros (_ & _ & Hr) (n & Hn & Hc). destruct (Hr n Hn) as (n' & Hn' & Hc'). exists n'. split; [done|congruence]. Qed.

(** The insert finds the row, or there was none and now it is ours. *)
Lemma create_claim_run at_ w r w' :
  create_claim channel event at_ w = (r, w') ->
  lease_kept w w' /\
  (r = Ok true -> the_row w = None /\ leased at_ w') /\
  (r = Ok false -> is_Some (the_row w')).
Proof.
  unfold create_claim, catch, bind. destruct (io _ w) as [r1 w1] eqn:Hio. destruct (tick_spec w) as (Hn & _).
  assert (lease_kept w (tick w)) as Htick by apply wo_tick.
  assert (lease_kept (tick w) (create_row channel event PENDING None (Some at_) (tick w)).2) as Hcreate.
  { split_and!; [apply unique_kept_create|unfold create_row; destruct (create _ _ _); [by case_match|done]|].
    intros n Hrow. exists n. split; [|done]. by rewrite (create_row_refused _ _ _ _ _ _ _ Hrow). }
  assert (lease_kept w w1) as Hkept.
  { apply io_effect in Hio as [[-> _]|[-> _]]; [done|]. by etrans. }
  intros Hrun. destruct r1 as [u|e|]; unfold ret, throw in Hrun.
  - injection Hrun as <- <-. split_and!; [done| |done]. intros _.
    apply io_effect in Hio as [[_ Hno]|[-> Hok]]; [by destruct (Hno u)|]. specialize (Hok u eq_refl).
    rewrite <- (tick_row channel (ev_eventId event) w). unfold create_row in *. destruct (create _ _ _) as [t|] eqn:Hc; [|done].
    case_match; [|done]. apply create_Some in Hc as [Hfree ->].
    split; [by apply find_first_None|]. unfold leased, row_of. cbn [snd upd_notifications db set_db set_notifications notifications set_uuids].
    rewrite find_first_app, (proj2 (find_first_None _ _) Hfree). cbn. unfold is_row. cbn. rewrite !bool_decide_true by done.
    cbn. eexists. by split.
  - destruct e; injection Hrun as <- <-; (split; [done|]); (split; [done|]); try done. intros _.
    unfold io in Hio. destruct (next_fault w) as [|? []|[]]; try done. unfold create_row in Hio.
    destruct (create _ _ _) as [t|] eqn:Hc; [destruct (references_ok _ _); discriminate Hio|]. injection Hio as <-.
    unfold create in Hc. rewrite existsb_find_first in Hc. unfold row_of. destruct (find_first _ _); [by eexists|done].
  - injection Hrun as <- <-. done.
Qed.

(** With the unique index the row of the key is the only one. *)
Lemma the_row_elem w n :
  log_unique w -> n ∈ notifications (db w) -> is_row channel (ev_eventId event) n = true -> the_row w = Some n.
Proof.
  intros Hu Hin Hr. destruct (the_row w) as [n'|] eqn:Hrow.
  - apply row_of_Some in Hrow as [Hin' Hr']. f_equal. by eapply Hu.
  - apply find_first_None in Hrow. rewrite Forall_forall in Hrow. specialize (Hrow n Hin). congruence.
Qed.

(** The conditional update of a claim: a row it touches is ours, and a lease
    that has not run out is left alone. *)
Lemma take_over_run at_ cutoff w r w' :
  io (take_over channel event at_ cutoff) w = (r, w') -> log_unique w ->
  row_kept w w' /\
  (forall n, r = Ok n -> (0 < n)%nat -> leased at_ w') /\
  (forall c, leased c w -> cutoff <= c -> lease_kept w w' /\ forall n, r = Ok n -> n = 0%nat).
Proof.
  intros Hio Hu. assert (lease_kept w (tick w)) as Htick by apply wo_tick.
  set (q := fun n => is_row channel (ev_eventId event) n && takeable cutoff n).
  assert (row_kept (tick w) (take_over channel event at_ cutoff (tick w)).2) as Hop
    by by apply (row_kept_update q (reclaim at_)).
  apply row_kept_tick in Hop. assert (log_unique (tick w)) as Hu1 by by apply tick_log_unique.
  split_and!.
  - apply io_effect in Hio as [[-> _]|[-> _]]; [by apply lease_row_kept|done].
  - intros n -> Hpos. apply io_effect in Hio as [[_ Hno]|[-> Hok]]; [by destruct (Hno n)|].
    specialize (Hok n eq_refl). injection Hok as <-. apply count_where_pos in Hpos as (m & Hm & Hq).
    pose proof Hq as [Hr Ht]%andb_true_iff. exists (reclaim at_ m). split; [|done]. unfold row_of.
    cbn [snd take_over upd_notifications db set_db set_notifications notifications].
    change ((update_many q (reclaim at_) (notifications (db (tick w)))).1) with
      ((update_many q (reclaim at_) (notifications (db (tick w)))).1).
    fold q. rewrite (find_first_update _ q).
    + fold (the_row (tick w)). rewrite (the_row_elem _ m) by done. cbn. unfold q. by rewrite Hr, Ht.
    + intros x. by destruct (q x).
  - intros c (n & Hrow & Hc) Hcut.
    assert (take_over channel event at_ cutoff (tick w) = (inl 0%nat, tick w)) as Hnone.
    { eapply take_over_refused; [done|by rewrite tick_row|]. unfold takeable. rewrite Hc.
      rewrite (proj2 (Z.ltb_ge _ _)) by lia. apply andb_false_r. }
    apply io_effect in Hio as [[-> Hno]|[-> Hok]]; [split; [done|intros n' ->; by destruct (Hno n')]|].
    rewrite Hnone in *. split; [done|]. intros n' ->. specialize (Hok n' eq_refl). by injection Hok.
Qed.

Lemma release_run w r w' : releaseClaim_ channel event w = (r, w') -> row_kept w w'.
Proof.
  unfold releaseClaim_, catch. destruct (releaseClaim _ _ w) as [r1 w1] eqn:Hrel.
  assert (row_kept w w1) as Hk; [|by destruct r1; unfold ret; intros [= _ <-]].
  apply io_effect in Hrel as [[-> _]|[-> _]].
  - apply lease_row_kept, wo_tick.
  - apply row_kept_tick. by apply row_kept_update.
Qed.

(** *** The invariant of a race *)

Definition attempt_ok (w : World) (a : Attempt) : Prop :=
  match a with
  | Claiming | Ended _ => True
  | TakingOver at_ | LookingUp at_ => is_Some (the_row w) /\ at_ <= now w
  | Sending at_ p => leased at_ w /\ every_call lease_kept p
  | Returning at_ _ | Settling at_ => leased at_ w
  end.

Definition owners (l : list Attempt) : list Z := omap owns l.

Definition race_ok (s : Race) : Prop :=
  log_unique (r_world s) /\ Forall (attempt_ok (r_world s)) (r_attempts s) /\
  (length (owners (r_attempts s)) <= 1)%nat.

Lemma attempt_ok_kept w w' a : lease_kept w w' -> attempt_ok w a -> attempt_ok w' a.
Proof.
  intros Hk. pose proof (lease_row_kept _ _ Hk) as (_ & Hn & Hr).
  destruct a; cbn; try done; intros; destruct_and?; split_and?; eauto using leased_kept; lia.
Qed.

(** Only an owner minds its lease being changed. *)
Lemma attempt_ok_row_kept w w' a : owns a = None -> row_kept w w' -> attempt_ok w a -> attempt_ok w' a.
Proof. intros Ho (_ & Hn & Hr). destruct a; cbn in *; try done; intros; destruct_and?; split_and?; eauto; lia. Qed.

Lemma owner_leased w a at_ : owns a = Some at_ -> attempt_ok w a -> leased at_ w.
Proof. destruct a; cbn; intros [=]; subst; tauto. Qed.

Lemma sending_ok w at_ p : leased at_ w -> every_call lease_kept p -> attempt_ok w (sending at_ p).
Proof. intros Hl Hp. destruct p as [[]|]; cbn; auto. Qed.

Lemma owns_sending at_ p : owns (sending at_ p) = Some at_.
Proof. by destruct p as [[]|]. Qed.

(** Who owns the delivery when there is no lease, or when [a] does. *)
Lemma no_owner w l : Forall (attempt_ok w) l -> (forall at_, ~ leased at_ w) -> owners l = [].
Proof.
  intros Hok Hno. induction Hok as [|a l Ha _ IH]; [done|]. cbn. destruct (owns a) as [at_|] eqn:Ho; [|done].
  by destruct (Hno at_ (owner_leased _ _ _ Ho Ha)).
Qed.

Lemma others_own_nothing l i a at_ :
  l !! i = Some a -> owns a = Some at_ -> (length (owners l) <= 1)%nat -> owners (delete i l) = [].
Proof.
  intros Hi Ho Hlen. destruct (omap_split owns l i a Hi) as (l1 & l2 & Hl & _ & Hd).
  unfold owners in *. rewrite Hl, Ho in Hlen. rewrite Hd. cbn in Hlen. rewrite length_app in Hlen. cbn in Hlen.
  destruct l1; cbn in *; [destruct l2; cbn in *; [done|lia]|lia].
Qed.

Lemma owners_delete l i : owners l = [] -> owners (delete i l) = [].
Proof.
  intros Hl. destruct (owners (delete i l)) as [|c cs] eqn:Hd; [done|].
  assert (c ∈ owners (delete i l)) as (x & Hx & Hc)%list_elem_of_omap by (rewrite Hd; set_solver).
  assert (c ∈ owners l) as Hin; [|rewrite Hl in Hin; by apply elem_of_nil in Hin].
  apply list_elem_of_omap. exists x. split; [|done]. rewrite delete_take_drop in Hx.
  apply elem_of_app in Hx as [Hx|Hx]; [by apply subseteq_take in Hx|by apply subseteq_drop in Hx].
Qed.

(** A step of one attempt: it leaves every lease alone and gains nothing, or
    it is the only one concerned. *)
Lemma attempt_step_ok s i a r w' :
  race_ok s -> in_time s -> r_attempts s !! i = Some a -> attempt_step a (r_world s) = (r, w') ->
  (lease_kept (r_world s) w' /\ forall a', r = Some a' -> attempt_ok w' a' /\ (owns a' = owns a \/ owns a' = None)) \/
  (row_kept (r_world s) w' /\ owners (delete i (r_attempts s)) = [] /\ forall a', r = Some a' -> attempt_ok w' a').
Proof.
  destruct s as [w l]. unfold race_ok, in_time. cbn [r_world r_attempts]. intros (Hu & Hok & Hone) Htime Hi Hstep.
  pose proof (Forall_lookup_1 _ _ _ _ Hok Hi) as Ha.
  destruct a as [|at_|at_|at_ p|at_ err|at_|e]; cbn [attempt_step attempt_ok] in Hstep, Ha.
  - destruct (create_claim _ _ (now w) w) as [r1 w1] eqn:Hc. apply create_claim_run in Hc as (Hk & Htrue & Hfalse).
    destruct r1 as [[]|e|]; injection Hstep as <- <-; [| |left; (split; [done|]); intros a' [= <-]; split; [done|auto]|by left].
    + destruct (Htrue eq_refl) as [Hnone Hl]. right. split_and!; [by apply lease_row_kept| |].
      * apply owners_delete, (no_owner w); [done|]. intros c (n & Hn & _). congruence.
      * intros a' [= <-]. apply sending_ok; [done|apply lease_kept_send].
    + left. split; [done|]. intros a' [= <-]. split; [|by right]. split; [by apply Hfalse|]. by destruct Hk as (_ & ? & _).
  - destruct Ha as [Hrow Hnow].
    destruct (io _ w) as [r1 w1] eqn:Hio. apply take_over_run in Hio as (Hk & Hpos & Hrefused); [|done].
    destruct (owners l) as [|c cs] eqn:Hown.
    + right. assert (w' = w1) as -> by (by destruct r1; injection Hstep). split_and!; [done|by apply owners_delete|].
      intros a' ->. destruct Hk as (_ & Hn & Hr).
      destruct r1 as [n|e|]; [|by injection Hstep as <-|done]. injection Hstep as <-.
      destruct (0 <? n)%nat eqn:Hn0.
      * apply sending_ok; [|apply lease_kept_send]. apply (Hpos n); [done|by apply Nat.ltb_lt].
      * split; [by apply Hr|lia].
    + assert (exists b, b ∈ l /\ owns b = Some c) as (b & Hb & Hbc).
      { apply list_elem_of_omap. fold (owners l). rewrite Hown. set_solver. }
      rewrite Forall_forall in Hok. pose proof (owner_leased _ _ _ Hbc (Hok b Hb)) as Hl.
      specialize (Htime b c Hb Hbc). destruct (Hrefused c Hl) as [Hkept Hzero]; [lia|].
      left. assert (w' = w1) as -> by (by destruct r1; injection Hstep). split; [done|].
      intros a' ->. destruct r1 as [n|e|]; [|injection Hstep as <-; split; [done|by right]|done]. injection Hstep as <-.
      rewrite (Hzero n) by done. cbn. split; [|by right]. destruct Hk as (_ & Hn & Hr). split; [by apply Hr|lia].
  - destruct Ha as [[n Hrow] Hnow]. destruct (query _ w) as [r1 w1] eqn:Hq.
    assert (lease_kept w w1) as Hk.
    { pose proof (keeps_query lease_kept the_row w) as Hk. by rewrite Hq in Hk. }
    assert (r1 <> Ok None) as Hsome.
    { apply io_effect in Hq as [[_ Hno]|[_ Hq]]; [by apply Hno|]. intros ->. specialize (Hq None eq_refl).
      injection Hq as Hq. rewrite tick_row in Hq. congruence. }
    left. destruct r1 as [[m|]|e|]; injection Hstep as <- <-; [|done|..]; (split; [done|]); intros a' [= <-]; (split; [exact I|by right]).
  - destruct Ha as [Hl Hp]. destruct (every_call_resume lease_kept p w Hp) as [Hk Hnext].
    left. destruct (resume p w) as [[p'|] w1]; injection Hstep as <- <-; (split; [done|]); [|done].
    intros a' [= <-]. split; [|left; apply owns_sending]. apply sending_ok; [by eapply leased_kept|by apply Hnext].
  - destruct (releaseClaim_ channel event w) as [r1 w1] eqn:Hrel. apply release_run in Hrel.
    right. assert (w' = w1) as -> by (by destruct r1; injection Hstep). split_and!; [done|by eapply others_own_nothing|].
    intros a' ->. destruct r1; [by injection Hstep as <-..|done].
  - pose proof (lease_kept_settle SENT None w) as Hk. destruct (settle _ _ _ _ w) as [r1 w1].
    left. assert (w' = w1) as -> by (by destruct r1; injection Hstep). split; [done|].
    intros a' ->. destruct r1; [injection Hstep as <-; (split; [exact I|by right])..|done].
  - left. injection Hstep as <- <-. split; [reflexivity|]. intros a' [= <-]. auto.
Qed.

Lemma owners_insert l i a a' :
  l !! i = Some a -> (owns a' = owns a \/ owns a' = None) ->
  (length (owners (<[i:=a']> l)) <= length (owners l))%nat.
Proof.
  intros Hi Ho. destruct (omap_split owns l i a Hi) as (l1 & l2 & Hl & Hins & _). unfold owners.
  rewrite Hins, Hl, !length_app. destruct Ho as [->| ->]; [done|]. cbn. lia.
Qed.

Lemma owners_insert_only l i a' :
  (i < length l)%nat -> owners (delete i l) = [] -> (length (owners (<[i:=a']> l)) <= 1)%nat.
Proof.
  intros [a Hi]%lookup_lt_is_Some_2. destruct (omap_split owns l i a Hi) as (l1 & l2 & Hl & Hins & Hd). unfold owners.
  rewrite Hd, Hins. intros [-> ->]%app_nil. cbn. destruct (owns a'); cbn; lia.
Qed.

Lemma owners_delete_le l i : (length (owners (delete i l)) <= length (owners l))%nat.
Proof.
  destruct (decide (i < length l)%nat) as [Hi|Hi].
  - apply lookup_lt_is_Some_2 in Hi as [a Hi]. destruct (omap_split owns l i a Hi) as (l1 & l2 & Hl & _ & Hd).
    unfold owners. rewrite Hd, Hl, !length_app. lia.
  - by rewrite delete_take_drop, take_ge, drop_ge, app_nil_r by lia.
Qed.

Lemma elem_of_others (l : list Attempt) (i j : nat) x : l !! j = Some x -> j <> i -> x ∈ delete i l.
Proof.
  intros Hj Hne. apply list_elem_of_lookup. destruct (decide (j < i)%nat).
  - exists j. by rewrite list_lookup_delete_lt.
  - exists (pred j). rewrite list_lookup_delete_ge by lia. by replace (S (pred j)) with j by lia.
Qed.

(** What is left alone stays in order. *)
Lemma others_ok w w' (l : list Attempt) (i : nat) :
  (lease_kept w w' \/ (row_kept w w' /\ owners (delete i l) = [])) ->
  Forall (attempt_ok w) l -> forall j x, l !! j = Some x -> j <> i -> attempt_ok w' x.
Proof.
  intros Hk Hok j x Hj Hne. pose proof (Forall_lookup_1 _ _ _ _ Hok Hj) as Hx.
  destruct Hk as [Hk|[Hk Hown]]; [by eapply attempt_ok_kept|]. eapply attempt_ok_row_kept; [|exact Hk|done].
  destruct (owns x) as [c|] eqn:Hc; [|done]. assert (c ∈ owners (delete i l)) as Hin; [|rewrite Hown in Hin; set_solver].
  apply list_elem_of_omap. exists x. split; [by eapply elem_of_others|done].
Qed.

Lemma race_step_ok s s' : race_step s s' -> in_time s -> race_ok s -> race_ok s'.
Proof.
  intros Hstep Htime Hinv. pose proof Hinv as (Hu & Hok & Hone).
  destruct Hstep as [s|s i a a' w' Hi Hs|s i a w' Hi Hs|s i|s i e message Hi|s w' Hw]; unfold race_ok; cbn [r_world r_attempts].
  - split_and!; [done|apply Forall_app; split; [done|by apply Forall_singleton]|].
    unfold owners. rewrite omap_app. cbn. by rewrite app_nil_r.
  - destruct (attempt_step_ok s i a (Some a') w' Hinv Htime Hi Hs) as [[Hk Ha']|(Hk & Hdel & Ha')].
    + destruct (Ha' a' eq_refl) as [Hok' Hown]. split_and!; [by apply Hk|..].
      * apply Forall_lookup_2. intros j x [(<- & <- & _)|[Hne Hj]]%list_lookup_insert_Some; [done|].
        eapply (others_ok _ _ _ i); [by left|exact Hok|done|done].
      * etrans; [by eapply owners_insert|done].
    + split_and!; [by apply Hk|..].
      * apply Forall_lookup_2. intros j x [(<- & <- & _)|[Hne Hj]]%list_lookup_insert_Some; [by apply Ha'|].
        eapply (others_ok _ _ _ i); [by right|exact Hok|done|done].
      * apply owners_insert_only; [by eapply lookup_lt_Some|done].
  - assert (log_unique w' /\ (lease_kept (r_world s) w' \/ (row_kept (r_world s) w' /\ owners (delete i (r_attempts s)) = []))) as [Hu' Hk].
    { destruct (attempt_step_ok s i a None w' Hinv Htime Hi Hs) as [[Hk _]|(Hk & Hdel & _)]; (split; [by apply Hk|tauto]). }
    split_and!; [done|..].
    + apply Forall_forall. intros x Hx. apply list_elem_of_lookup in Hx as [j Hj].
      destruct (decide (j < i)%nat).
      * rewrite list_lookup_delete_lt in Hj by done. eapply (others_ok _ _ _ i); [exact Hk|exact Hok|done|lia].
      * rewrite list_lookup_delete_ge in Hj by lia. eapply (others_ok _ _ _ i); [exact Hk|exact Hok|done|lia].
    + etrans; [apply owners_delete_le|done].
  - split_and!; [done| |etrans; [apply owners_delete_le|done]].
    apply Forall_forall. intros x Hx. rewrite Forall_forall in Hok. apply Hok.
    rewrite delete_take_drop in Hx. apply elem_of_app in Hx as [Hx|Hx]; [by apply subseteq_take in Hx|by apply subseteq_drop in Hx].
  - pose proof (lease_kept_settle FAILED (Some message) (r_world s)) as Hk.
    split_and!; [by apply Hk| |done]. eapply Forall_impl; [exact Hok|]. intros x. by apply attempt_ok_kept.
  - split_and!; [by apply Hw| |done]. eapply Forall_impl; [exact Hok|]. intros x. by apply attempt_ok_kept.
Qed.

(** C8. Two consumers never both own a delivery: any number of them attempt
    the same event on the same channel, their calls interleaved with each
    other's, failing, losing replies or killing them; as long as nobody holds
    the delivery longer than its lease, at most one of them is between its
    claim and the settlement of its send. *)
Theorem one_consumer_sends s s' :
  log_unique (r_world s) -> r_attempts s = [] ->
  rtc (fun s s' => in_time s /\ race_step s s') s s' ->
  (length (owners (r_attempts s')) <= 1)%nat.
Proof.
  intros Hu Hnone Hrun. assert (race_ok s) as Hok by (unfold race_ok; rewrite Hnone; split_and!; [done|constructor|cbn; lia]).
  clear Hu Hnone. enough (race_ok s') as (_ & _ & Hone) by done.
  induction Hrun as [s|s s1 s' [Ht Hstep] _ IH]; [done|]. apply IH. by eapply race_step_ok.
Qed.

(** *** A reported success is final for whoever comes later *)

Definition sent_row (w : World) : Prop := exists n, the_row w = Some n /\ n_status n = SENT.

(** Attempts that begin once the row is sent, and whatever else happens as
    long as it leaves the row sent: earlier attempts that do not record a
    failure over it included. *)
Inductive late_step : Race -> Race -> Prop :=
  | late_joins s : late_step s {| r_world := r_world s; r_attempts := r_attempts s ++ [Claiming] |}
  | late_goes_on s i a a' w' :
      r_attempts s !! i = Some a -> attempt_step a (r_world s) = (Some a', w') ->
      late_step s {| r_world := w'; r_attempts := <[i := a']> (r_attempts s) |}
  | late_dies s i a w' :
      r_attempts s !! i = Some a -> attempt_step a (r_world s) = (None, w') ->
      late_step s {| r_world := w'; r_attempts := delete i (r_attempts s) |}
  | late_killed s i : late_step s {| r_world := r_world s; r_attempts := delete i (r_attempts s) |}
  | late_elsewhere s w' :
      (log_unique (r_world s) -> log_unique w') -> (sent_row (r_world s) -> sent_row w') ->
      late_step s {| r_world := w'; r_attempts := r_attempts s |}.

(** An attempt that has not got past the claim, or was told to leave off. *)
Definition idle (a : Attempt) : Prop :=
  match a with
  | Claiming | TakingOver _ | LookingUp _ | Ended (inl skipped) | Ended (inr _) => True
  | Sending _ _ | Returning _ _ | Settling _ | Ended (inl sent) => False
  end.

Lemma create_claim_refused at_ w n r w' :
  the_row w = Some n -> create_claim channel event at_ w = (r, w') -> w' = tick w /\ r <> Ok true.
Proof.
  intros Hrow Hc. pose proof (create_claim_run _ _ _ _ Hc) as (_ & Htrue & _).
  split; [|intros ->; destruct (Htrue eq_refl); congruence]. revert Hc. clear Htrue. unfold create_claim, catch, bind.
  destruct (io _ w) as [r1 w1] eqn:Hio. assert (w1 = tick w) as ->.
  { apply io_effect in Hio as [[-> _]|[-> _]]; [done|]. by rewrite (create_row_refused _ _ _ _ _ (tick w) n) by by rewrite tick_row. }
  destruct r1 as [u|[]|]; unfold ret, throw; by intros [= _ <-].
Qed.

(** On a sent row such an attempt only asks, and stays what it is. *)
Lemma idle_step a w r w' :
  log_unique w -> sent_row w -> idle a -> attempt_step a w = (r, w') ->
  (w' = w \/ w' = tick w) /\ forall a', r = Some a' -> idle a'.
Proof.
  intros Hu (n & Hrow & Hsent) Ha Hs. destruct a as [|at_|at_| | | |o]; cbn [attempt_step] in Hs; try done.
  - destruct (create_claim _ _ _ w) as [r1 w1] eqn:Hc. destruct (create_claim_refused _ _ _ _ _ Hrow Hc) as [-> Hno].
    destruct r1 as [[]|e|]; simplify_eq; (split; [by right|]); intros a' [=]; by subst.
  - destruct (io _ w) as [r1 w1] eqn:Hio.
    assert (take_over channel event at_ (at_ - CLAIM_LEASE_MS) (tick w) = (inl 0%nat, tick w)) as Hnone.
    { eapply take_over_refused; [by apply tick_log_unique|by rewrite tick_row|]. unfold takeable. by rewrite bool_decide_true. }
    assert (w1 = tick w /\ forall k, r1 = Ok k -> k = 0%nat) as [-> Hz].
    { apply io_effect in Hio as [[-> Hno]|[-> Hok]]; [split; [done|]; intros k ->; by destruct (Hno k)|].
      rewrite Hnone in *. split; [done|]. intros k ->. specialize (Hok k eq_refl). by injection Hok. }
    destruct r1 as [k|e|]; simplify_eq; (split; [by right|]); intros a' [=]; subst; [by rewrite (Hz k)|done].
  - destruct (query _ w) as [r1 w1] eqn:Hq.
    assert (w1 = tick w /\ forall x, r1 = Ok x -> x = Some n) as [-> Hx].
    { apply io_effect in Hq as [[-> Hno]|[-> Hok]]; [split; [done|]; intros x ->; by destruct (Hno x)|].
      split; [done|]. intros x ->. specialize (Hok x eq_refl). injection Hok as <-. by rewrite tick_row. }
    destruct r1 as [x|e|]; [rewrite (Hx x eq_refl) in Hs|..]; simplify_eq; (split; [by right|]); intros a' [=]; subst; [|done].
    by rewrite decide_True.
  - simplify_eq. split; [by left|]. by intros a' [= <-].
Qed.

Lemma sent_row_tick w w' : w' = w \/ w' = tick w -> sent_row w -> sent_row w'.
Proof. intros [->| ->]; [done|]. unfold sent_row. by rewrite tick_row. Qed.

Lemma unique_tick w w' : w' = w \/ w' = tick w -> log_unique w -> log_unique w'.
Proof. intros [->| ->]; [done|]. apply tick_log_unique. Qed.

Definition sealed (s : Race) : Prop := log_unique (r_world s) /\ sent_row (r_world s) /\ Forall idle (r_attempts s).

Lemma late_step_sealed s s' : late_step s s' -> sealed s -> sealed s'.
Proof.
  intros Hstep (Hu & Hsent & Hidle).
  destruct Hstep as [s|s i a a' w' Hi Hs|s i a w' Hi Hs|s i|s w' Hw Hw']; unfold sealed; cbn [r_world r_attempts].
  - split_and!; [done|done|]. apply Forall_app. split; [done|]. by apply Forall_singleton.
  - destruct (idle_step _ _ _ _ Hu Hsent (Forall_lookup_1 _ _ _ _ Hidle Hi) Hs) as [Ht Ha'].
    split_and!; [by eapply unique_tick|by eapply sent_row_tick|]. apply Forall_insert; auto.
  - destruct (idle_step _ _ _ _ Hu Hsent (Forall_lookup_1 _ _ _ _ Hidle Hi) Hs) as [Ht _].
    split_and!; [by eapply unique_tick|by eapply sent_row_tick|by apply Forall_delete].
  - split_and!; [done|done|by apply Forall_delete].
  - split_and!; auto.
Qed.

Lemma reports_sent a w w1 :
  a <> Ended (inl sent) -> attempt_step a w = (Some (Ended (inl sent)), w1) -> exists at_, a = Settling at_ /\ settle channel event SENT None w = (Ok tt, w1).
Proof.
  intros Hne Hs. assert (forall at_ p, sending at_ p <> Ended (inl sent)) as Hno by (by intros at_ [[]|]).
  destruct a as [|at_|at_|at_ p|at_ err|at_|o]; cbn [attempt_step] in Hs.
  - destruct (create_claim _ _ _ w) as [[[]|e|] w2]; by simplify_eq; naive_solver.
  - destruct (io _ w) as [[k|e|] w2]; [destruct (0 <? k)%nat|..]; by simplify_eq; naive_solver.
  - destruct (query _ w) as [[[n|]|e|] w2]; simplify_eq; [by case_decide|naive_solver].
  - destruct (resume p w) as [[q|] w2]; by simplify_eq; naive_solver.
  - destruct (releaseClaim_ _ _ w) as [[]]; by simplify_eq.
  - destruct (settle _ _ _ _ w) as [[[]|e|] w2]; simplify_eq. eauto.
  - by simplify_eq.
Qed.

(** C24. At most once after success. Once an attempt has reported a delivery
    as sent, its row is sent, and any number of attempts that begin later, on
    any consumer, interleaved call by call with each other and with anything
    that leaves the row sent, failing and dying as they may: none of them
    passes the claim or reports success, none of their calls delivers anything
    or writes the log, and the row stays sent. (A consumer that records a
    final failure over the row is what can undo it.) *)
Theorem dispatch_once a w w1 s :
  log_unique w -> a <> Ended (inl sent) -> attempt_step a w = (Some (Ended (inl sent)), w1) ->
  rtc late_step {| r_world := w1; r_attempts := [] |} s ->
  sent_row (r_world s) /\ Ended (inl sent) ∉ r_attempts s /\ owners (r_attempts s) = [] /\
  forall i b r w', r_attempts s !! i = Some b -> attempt_step b (r_world s) = (r, w') ->
    delivered w' = delivered (r_world s) /\ db w' = db (r_world s).
Proof.
  intros Hu Hne Hs Hrun. destruct (reports_sent a w w1 Hne Hs) as (at_ & -> & Hset).
  assert (sealed s) as (Hu' & Hsent & Hidle).
  { assert (sealed {| r_world := w1; r_attempts := [] |}) as Hinit.
    { split_and!; [|by eapply settle_settles|constructor]. pose proof (settle_unique channel event SENT None w Hu) as Hk.
      by rewrite Hset in Hk. }
    clear -Hrun Hinit. induction Hrun as [|s s1 s2 Hstep _ IH]; [done|]. by apply IH, (late_step_sealed s). }
  rewrite Forall_forall in Hidle. split_and!; [done|by intros Hin%Hidle| |].
  - destruct (owners (r_attempts s)) as [|c cs] eqn:Ho; [done|].
    assert (c ∈ owners (r_attempts s)) as (b & Hb & Hc)%list_elem_of_omap by (rewrite Ho; apply list_elem_of_here).
    specialize (Hidle b Hb). by destruct b.
  - intros i b r w' Hi Hb. destruct (idle_step b _ _ _ Hu' Hsent (Hidle b (list_elem_of_lookup_2 _ _ _ Hi)) Hb) as [[->| ->] _]; [done|].
    destruct (tick_spec (r_world s)) as (_ & _ & _ & -> & _ & ->). done.
Qed.

End Race.

(** ** Concrete runs *)

Inductive Move := Joins | Goes_on (i : nat) | Gives_up (i : nat) | Waits (ms : Z).

Section Moves.
Context `{UuidSupply} (config : ChannelConfig) (channel : Channel) (event : TriggerFiredEvent).

(** A move that is not possible is skipped. *)
Definition move (m : Move) (s : Race) : Race :=
  match m with
  | Joins => {| r_world := r_world s; r_attempts := r_attempts s ++ [Claiming] |}
  | Goes_on i =>
      match r_attempts s !! i with
      | None => s
      | Some a =>
          match attempt_step config channel event a (r_world s) with
          | (Some a', w') => {| r_world := w'; r_attempts := <[i := a']> (r_attempts s) |}
          | (None, w') => {| r_world := w'; r_attempts := delete i (r_attempts s) |}
          end
      end
  | Gives_up i =>
      match r_attempts s !! i with
      | Some (Ended (inr e)) =>
          {| r_world := (settle channel event FAILED (Some "gave up") (r_world s)).2; r_attempts := r_attempts s |}
      | _ => s
      end
  | Waits ms => {| r_world := (sleep (Z.abs ms) (r_world s)).2; r_attempts := r_attempts s |}
  end.

Fixpoint moves (ms : list Move) (s : Race) : Race :=
  match ms with [] => s | m :: ms => moves ms (move m s) end.

(** Nobody holds the delivery too long. *)
Definition timely (s : Race) : bool :=
  forallb (fun a => match owns a with Some at_ => now (r_world s) <=? at_ + CLAIM_LEASE_MS | None => true end) (r_attempts s).

Lemma timely_in_time s : timely s = true -> in_time s.
Proof.
  unfold timely. rewrite forallb_forall. intros Ht a at_ Ha Ho. apply list_elem_of_In, Ht in Ha. rewrite Ho in Ha. lia.
Qed.

Definition timely_step (s s' : Race) : Prop := in_time s /\ race_step config channel event s s'.

Lemma move_step m s : timely s = true -> rtc timely_step s (move m s).
Proof.
  intros Ht%timely_in_time. destruct m as [|i|i|ms]; cbn.
  - apply rtc_once. split; [done|apply race_joins].
  - destruct (r_attempts s !! i) as [a|] eqn:Hi; [|done].
    destruct (attempt_step _ _ _ a _) as [[a'|] w'] eqn:Hs; apply rtc_once;
      (split; [done|]); [by eapply race_goes_on|by eapply race_dies].
  - destruct (r_attempts s !! i) as [[| | | | | |[o|e]]|] eqn:Hi; try done.
    eapply rtc_once. split; [done|by eapply race_gives_up].
  - apply rtc_once. split; [done|]. apply race_elsewhere. split_and!; [done|cbn; lia|eauto].
Qed.

Fixpoint all_timely (ms : list Move) (s : Race) : bool :=
  timely s && match ms with [] => true | m :: ms => all_timely ms (move m s) end.

Lemma moves_steps ms s : all_timely ms s = true -> rtc timely_step s (moves ms s).
Proof.
  revert s. induction ms as [|m ms IH]; intros s; cbn; [done|]. intros [Ht Hr]%andb_true_iff.
  etrans; [by apply move_step|by apply IH].
Qed.

End Moves.

Definition sample_race : Race := {| r_world := notifier_world notifier_db; r_attempts := [] |}.

(** Telegram refuses the fifth call. *)
Definition refused_fifth : Race :=
  let fine := {| k_fault := Fine; k_elapsed := 1 |} in
  let w := notifier_world notifier_db in
  {| r_world := {| now := now w; uuids := uuids w;
                   oracle := [fine; fine; fine; fine; {| k_fault := Fail (Some 502) false; k_elapsed := 1 |}];
                   db := db w; redis := redis w; broker := broker w; delivered := delivered w |};
     r_attempts := [] |}.

Notation sample_moves := (moves (H:=sample_uuids) sample_config TELEGRAM (sample_event "e1")).

(** A lease that ran out can break the one that replaced it: the release
    of a claim does not ask whose claim it is. A first consumer outlives its
    lease, a second takes the delivery over, the first fails and releases the
    claim of the second, and a third consumer claims and sends next to the
    second, well inside its lease: the user is notified twice. *)
Theorem late_release_frees_anothers_claim :
  let s := sample_moves [Joins; Goes_on 0; Goes_on 0; Waits 61000; Joins; Goes_on 1; Goes_on 1; Goes_on 0; Goes_on 0;
                         Joins; Goes_on 2; Goes_on 2] refused_fifth in
  length (owners (r_attempts s)) = 2%nat /\ timely s = true /\
  let s := sample_moves [Goes_on 1; Goes_on 1; Goes_on 2; Goes_on 2] s in
  length (delivered (r_world s)) = 2%nat.
Proof. vm_compute. auto. Qed.

(** A delivery recorded as sent can be recorded as failed afterwards, and
    sent again: a redelivered copy on its last attempt finds the delivery in
    flight, the holder settles it as sent, and then the consumer of the copy
    writes FAILED over it; once the lease has run out the next copy sends. *)
Theorem failed_overwrites_sent :
  let s := sample_moves [Joins; Joins; Goes_on 0; Goes_on 1; Goes_on 1; Goes_on 1; Goes_on 0; Goes_on 0; Goes_on 0] sample_race in
  map n_status (notifications (db (r_world s))) = [SENT] /\ length (delivered (r_world s)) = 1%nat /\
  let s := sample_moves [Gives_up 1] s in
  map n_status (notifications (db (r_world s))) = [FAILED] /\
  let s := sample_moves [Waits 61000; Joins; Goes_on 2; Goes_on 2; Goes_on 2; Goes_on 2] s in
  length (delivered (r_world s)) = 2%nat.
Proof. vm_compute. auto. Qed.

(** Two consumers arrive together: one sends, the other is told. *)
Definition arrive_together : list Move := [Joins; Joins; Goes_on 0; Goes_on 1; Goes_on 1; Goes_on 1; Goes_on 0].

Lemma one_consumer_sends_witness :
  (length (owners (r_attempts (sample_moves arrive_together sample_race))) <= 1)%nat.
Proof.
  apply (one_consumer_sends (H:=sample_uuids) sample_config TELEGRAM (sample_event "e1") sample_race).
  - apply notifier_world_unique.
  - reflexivity.
  - apply (moves_steps (H:=sample_uuids) sample_config TELEGRAM (sample_event "e1")). vm_compute. reflexivity.
Defined.

(** The move [m] among attempts that begin late. *)
Lemma late_moves ms s :
  Forall (fun m => match m with Joins | Goes_on _ => True | _ => False end) ms ->
  rtc (late_step (H:=sample_uuids) sample_config TELEGRAM (sample_event "e1")) s (sample_moves ms s).
Proof.
  intros Hms. revert s. induction Hms as [|m ms Hm _ IH]; intros s; [done|]. cbn [moves]. etrans; [|apply IH].
  destruct m as [|i| |]; try done; cbn [move]; [apply rtc_once, late_joins|].
  destruct (r_attempts s !! i) as [a|] eqn:Hi; [|done].
  destruct (attempt_step _ _ _ a _) as [[a'|] w'] eqn:Hs; apply rtc_once; [by eapply late_goes_on|by eapply late_dies].
Qed.

(** The world in which a first attempt has sent and is about to settle. *)
Definition about_to_settle : Race := sample_moves [Joins; Goes_on 0; Goes_on 0; Goes_on 0] sample_race.

(** The first attempt settles, two more arrive together: the alert was sent
    once. *)
Lemma dispatch_once_witness :
  let w1 := r_world (sample_moves [Goes_on 0] about_to_settle) in
  let s := sample_moves [Joins; Joins; Goes_on 0; Goes_on 1; Goes_on 1; Goes_on 0; Goes_on 1; Goes_on 0]
             {| r_world := w1; r_attempts := [] |} in
  owners (r_attempts s) = [] /\ length (delivered (r_world s)) = 1%nat /\ length (r_attempts s) = 2%nat.
Proof.
  intros w1 s. split; [|vm_compute; auto].
  destruct (dispatch_once (H:=sample_uuids) sample_config TELEGRAM (sample_event "e1") (Settling 100000)
    (r_world about_to_settle) w1 s) as (_ & _ & Ho & _); [..|exact Ho].
  - intros c e n n' Hn Hn' _ _. assert (length (notifications (db (r_world about_to_settle))) = 1%nat) as Hlen by (vm_compute; reflexivity).
    destruct (notifications (db (r_world about_to_settle))) as [|m [|m' l]]; try discriminate Hlen.
    apply list_elem_of_singleton in Hn as ->. by apply list_elem_of_singleton in Hn' as ->.
  - discriminate.
  - vm_compute. reflexivity.
  - apply late_moves. repeat constructor.
Defined.
