(* ===== verification/Consumer.v ===== *)
(** * The consumer ([apps/notifier/src/messaging/rabbit-consumer.service.ts])

    What happens to a message: dispatched and acknowledged, republished onto
    the next retry stage, or parked in the dead queue. *)

From S2P Require Import Prelude JsNumber Enums Contracts Table World Samples Effects Outbox Format DeliveryLog Channels Notifier.

(** ** Topology *)

Record Binding := { b_queue : string; b_exchange : string; b_key : string }.

(** A queue with a TTL hands its messages to an exchange when they expire. *)
Record RetryQueue := { q_name : string; q_ttl : Z; q_deadLetterExchange : string; q_deadLetterKey : string }.

Section Topology.
Context (retryDelaysMs : list Z).

Definition maxAttempts : Z := Z.of_nat (length retryDelaysMs) + 1.

(** [entries()] with the 1-based stage. *)
Definition stages : list (Z * Z) := imap (fun i delay => (Z.of_nat i + 1, delay)) retryDelaysMs.

Definition retry_queues (channel : Channel) : list RetryQueue :=
  map (fun '(attempt, delay) =>
    {| q_name := retryQueueNameFor channel attempt; q_ttl := delay;
       q_deadLetterExchange := NOTIFICATIONS_EXCHANGE; q_deadLetterKey := routingKeyFor channel |}) stages.

Definition channel_bindings (channel : Channel) : list Binding :=
  [{| b_queue := queueNameFor channel; b_exchange := NOTIFICATIONS_EXCHANGE; b_key := routingKeyFor channel |}] ++
  map (fun '(attempt, _) =>
    {| b_queue := retryQueueNameFor channel attempt; b_exchange := DLX_EXCHANGE;
       b_key := retryRoutingKeyFor channel attempt |}) stages ++
  [{| b_queue := deadQueueNameFor channel; b_exchange := DLX_EXCHANGE; b_key := deadRoutingKeyFor channel |}].

(** The bindings [setupTopology] declares for the registered channels. The
    keys hold no wildcard, so a message is routed by equality. *)
Definition setupTopology (channels : list Channel) : list Binding :=
  concat (map channel_bindings channels).

Definition routed_to (bs : list Binding) (exchange key : string) : list string :=
  map b_queue (find_many (fun b => bool_decide (b_exchange b = exchange) && bool_decide (b_key b = key)) bs).

End Topology.

(** ** Handling a message *)

Inductive DeadReason := unparseable | permanent | attempts_exhausted.

Definition DeadReason_text (r : DeadReason) : string :=
  match r with
  | unparseable => "unparseable"
  | permanent => "permanent"
  | attempts_exhausted => "attempts_exhausted"
  end.

Definition Channel_text (c : Channel) : string :=
  match c with TELEGRAM => "TELEGRAM" | EMAIL => "EMAIL" | WEB_PUSH => "WEB_PUSH" end.

(** [err.message] *)
Definition exn_message (e : exn) : string :=
  match e with
  | PermanentNotificationError m | JsError m | HttpException _ m => m
  | DeliveryInFlightError channel => "Another consumer is already delivering this event on " +:+ Channel_text channel
  | IoError _ => "call failed"
  | UniqueViolation => "P2002"
  | RecordNotFound => "P2025"
  | RangeError => "RangeError"
  end.

Definition is_permanent (e : exn) : bool :=
  match e with PermanentNotificationError _ => true | _ => false end.

Section Consumer.
Context `{UuidSupply} (config : ChannelConfig) (retryDelaysMs : list Z).
Notation senders := (CHANNEL_IMPLEMENTATIONS config).

Definition attemptCount (msg : Message) : Z := default 0 (h_attempts (m_headers msg)).

(** Acknowledging is not awaited: it is lost with the connection. *)
Definition ack (tag : nat) : M unit :=
  catch (exec (fun w => set_broker {| published := published (broker w); acked := acked (broker w) ++ [tag] |} w))
        (fun _ => ret tt).

(** [headerString(msg, EVENT_ID_HEADER)], kept when it is not empty. *)
Definition kept_eventId (msg : Message) : option string :=
  match h_eventId (m_headers msg) with Some "" => None | id => id end.

(** The copy of a message on the dead-letter exchange. *)
Definition republished (msg : Message) (routingKey : string) (attempts : Z) (reason : option DeadReason) : Message :=
  {| m_exchange := DLX_EXCHANGE; m_routingKey := routingKey; m_content := m_content msg;
     m_headers := {| h_attempts := Some attempts; h_eventId := kept_eventId msg;
                     h_deadReason := DeadReason_text <$> reason |};
     m_messageId := m_messageId msg |}.

Definition republish (msg : Message) (routingKey : string) (attempts : Z) (reason : option DeadReason) : M unit :=
  exec (accept (republished msg routingKey attempts reason)).

Definition park (channel : Channel) (tag : nat) (msg : Message) (reason : DeadReason) : M unit :=
  do* republish msg (deadRoutingKeyFor channel) (attemptCount msg) (Some reason) in
  ack tag.

Definition handleFailure (channel : Channel) (tag : nat) (msg : Message) (event : TriggerFiredEvent) (err : exn) : M unit :=
  let thisAttempt := attemptCount msg + 1 in
  if is_permanent err || (maxAttempts retryDelaysMs <=? thisAttempt) then
    do* settle channel event FAILED (Some (exn_message err)) in
    park channel tag msg (if is_permanent err then permanent else attempts_exhausted)
  else
    do* republish msg (retryRoutingKeyFor channel thisAttempt) thisAttempt None in
    ack tag.

Definition process (channel : Channel) (tag : nat) (msg : Message) : M unit :=
  match m_content msg with
  | Garbage _ => park channel tag msg unparseable
  | Json event =>
      catch (do* dispatch senders channel event in ack tag)
            (fun err => handleFailure channel tag msg event err)
  end.

(** An error that escapes leaves the message unacknowledged. *)
Definition handle (channel : Channel) (tag : nat) (msg : Message) : M unit :=
  catch (process channel tag msg) (fun _ => ret tt).

End Consumer.

(** ** Routing *)

Lemma elem_of_stages delays a :
  1 <= a <= Z.of_nat (length delays) <-> exists d, (a, d) ∈ stages delays.
Proof.
  unfold stages. split.
  - intros Ha. destruct (lookup_lt_is_Some_2 delays (Z.to_nat (a - 1))) as [d Hd]; [lia|]. exists d.
    apply list_elem_of_lookup. exists (Z.to_nat (a - 1)). rewrite list_lookup_imap, Hd. cbn. do 2 f_equal. lia.
  - intros (d & Hin). apply list_elem_of_lookup in Hin as [i Hi]. rewrite list_lookup_imap in Hi.
    apply fmap_Some in Hi as (d' & Hd' & [= -> ->]). apply lookup_lt_Some in Hd'. lia.
Qed.

Section Routing.
Context `{UuidSupply} (config : ChannelConfig) (delays : list Z).
Let channels := registeredChannels (CHANNEL_IMPLEMENTATIONS config).

Lemma elem_of_topology b :
  b ∈ setupTopology delays channels <-> exists c, b ∈ channel_bindings delays c.
Proof.
  change (setupTopology delays channels) with
    (channel_bindings delays TELEGRAM ++ channel_bindings delays EMAIL ++ channel_bindings delays WEB_PUSH ++ []).
  rewrite !elem_of_app. split.
  - intros [?|[?|[?|[]%elem_of_nil]]]; eauto.
  - intros [[] ?]; tauto.
Qed.

Lemma elem_of_channel_bindings c b :
  b ∈ channel_bindings delays c <->
  b = {| b_queue := queueNameFor c; b_exchange := NOTIFICATIONS_EXCHANGE; b_key := routingKeyFor c |} \/
  (exists a, 1 <= a <= Z.of_nat (length delays) /\
    b = {| b_queue := retryQueueNameFor c a; b_exchange := DLX_EXCHANGE; b_key := retryRoutingKeyFor c a |}) \/
  b = {| b_queue := deadQueueNameFor c; b_exchange := DLX_EXCHANGE; b_key := deadRoutingKeyFor c |}.
Proof.
  unfold channel_bindings. rewrite !elem_of_app, !list_elem_of_singleton, list_elem_of_fmap.
  split; (intros [Hb|[Hb|Hb]]; [auto| |auto]); right; left.
  - destruct Hb as ([a d] & -> & Hin). exists a. split; [|done]. apply elem_of_stages. eauto.
  - destruct Hb as (a & Ha & ->). apply elem_of_stages in Ha as [d Hd]. exists (a, d). done.
Qed.

Lemma deadRoutingKeyFor_inj c d : deadRoutingKeyFor c = deadRoutingKeyFor d -> c = d.
Proof. by destruct c, d. Qed.

Lemma exchanges_differ : NOTIFICATIONS_EXCHANGE <> DLX_EXCHANGE.
Proof. done. Qed.

Lemma elem_of_routed x k q :
  q ∈ routed_to (setupTopology delays channels) x k <->
  exists d b, b ∈ channel_bindings delays d /\ b_exchange b = x /\ b_key b = k /\ q = b_queue b.
Proof.
  unfold routed_to. rewrite list_elem_of_fmap. setoid_rewrite elem_of_find_many.
  setoid_rewrite elem_of_topology. setoid_rewrite andb_true_iff. setoid_rewrite bool_decide_eq_true. naive_solver.
Qed.

Lemma routed_main c q :
  q ∈ routed_to (setupTopology delays channels) NOTIFICATIONS_EXCHANGE (routingKeyFor c) <-> q = queueNameFor c.
Proof.
  rewrite elem_of_routed. setoid_rewrite elem_of_channel_bindings. split.
  - intros (d & b & [->|[(a' & _ & ->)| ->]] & Hx & Hk & ->); cbn in *; [|done..].
    by apply routingKeyFor_inj in Hk as ->.
  - intros ->. eexists c, _. split; [left; reflexivity|done].
Qed.

Lemma routed_dead c q :
  q ∈ routed_to (setupTopology delays channels) DLX_EXCHANGE (deadRoutingKeyFor c) <-> q = deadQueueNameFor c.
Proof.
  rewrite elem_of_routed. setoid_rewrite elem_of_channel_bindings. split.
  - intros (d & b & [->|[(a' & _ & ->)| ->]] & Hx & Hk & ->); cbn in *; [done| |].
    + by apply retry_not_dead in Hk.
    + by apply deadRoutingKeyFor_inj in Hk as ->.
  - intros ->. eexists c, _. split; [right; right; reflexivity|done].
Qed.

Lemma routed_retry c a q :
  q ∈ routed_to (setupTopology delays channels) DLX_EXCHANGE (retryRoutingKeyFor c a) <->
  q = retryQueueNameFor c a /\ 1 <= a <= Z.of_nat (length delays).
Proof.
  rewrite elem_of_routed. setoid_rewrite elem_of_channel_bindings. split.
  - intros (d & b & [->|[(a' & Ha & ->)| ->]] & Hx & Hk & ->); cbn in *; [done| |].
    + by apply retryRoutingKeyFor_inj in Hk as [-> ->].
    + symmetry in Hk. by apply retry_not_dead in Hk.
  - intros [-> Ha]. eexists c, _. split; [right; left; eauto|done].
Qed.

Lemma elem_of_retry_queues c rq :
  rq ∈ retry_queues delays c <->
  exists a d, (a, d) ∈ stages delays /\
    rq = {| q_name := retryQueueNameFor c a; q_ttl := d; q_deadLetterExchange := NOTIFICATIONS_EXCHANGE; q_deadLetterKey := routingKeyFor c |}.
Proof. unfold retry_queues. rewrite list_elem_of_fmap. split; [intros ([a d] & -> & Hin); by exists a, d|intros (a & d & Hin & ->); by exists (a, d)]. Qed.

(** C26. Nothing the services publish is unroutable or duplicated by the
    topology: the key of a fired event reaches the channel's queue and no
    other, each stage of the retry ladder and the dead key reach their own
    queue and no other, and what expires in a retry queue returns to the
    channel's main queue. *)
Theorem topology_routes_everything c a :
  (forall q, q ∈ routed_to (setupTopology delays channels) NOTIFICATIONS_EXCHANGE (routingKeyFor c) <-> q = queueNameFor c) /\
  (forall q, q ∈ routed_to (setupTopology delays channels) DLX_EXCHANGE (deadRoutingKeyFor c) <-> q = deadQueueNameFor c) /\
  (forall q, q ∈ routed_to (setupTopology delays channels) DLX_EXCHANGE (retryRoutingKeyFor c a) <->
     q = retryQueueNameFor c a /\ 1 <= a <= Z.of_nat (length delays)) /\
  (forall rq, rq ∈ retry_queues delays c ->
     forall q, q ∈ routed_to (setupTopology delays channels) (q_deadLetterExchange rq) (q_deadLetterKey rq) <-> q = queueNameFor c).
Proof.
  split_and!; [apply routed_main|apply routed_dead|apply routed_retry|].
  intros rq (a' & d & _ & ->)%elem_of_retry_queues. apply routed_main.
Qed.

End Routing.

(** ** What an acknowledgement means *)

(** A step that leaves the broker alone. *)
Definition broker_same (w w' : World) : Prop := broker w' = broker w.

#[global] Instance broker_same_order : WorldOrder broker_same.
Proof.
  unfold broker_same. split; [split|]; [done|congruence|].
  intros w. by destruct (tick_spec w) as (_ & _ & _ & _ & -> & _).
Qed.

Section Handle.
Context `{UuidSupply} (config : ChannelConfig) (delays : list Z).
Notation senders := (CHANNEL_IMPLEMENTATIONS config).

Lemma deliver_broker d : keeps broker_same (deliver d).
Proof. by apply keeps_exec; [apply _|]. Qed.

Lemma create_row_broker channel event status error c w : broker_same w (create_row channel event status error c w).2.
Proof. unfold create_row. by repeat case_match. Qed.

Lemma settle_broker channel event status error : keeps broker_same (settle channel event status error).
Proof. apply keeps_io; [apply _|]. intros w. destruct (row_of _ _ w); [done|apply create_row_broker]. Qed.

Lemma send_broker sender event : sender ∈ senders -> keeps broker_same (nc_send sender event).
Proof.
  assert (forall id, keeps broker_same (removePushSubscription id)) as Hrm.
  { intros id. apply keeps_io; [apply _|]. intros w. cbv beta zeta. by destruct (existsb _ _). }
  assert (forall c e d, keeps broker_same (markDelivered c e d)) as Hmark by (intros; by apply keeps_exec; [apply _|]).
  assert (forall subs p, keeps broker_same (push_all event subs p)) as Hpush.
  { induction subs as [|s subs IH]; intros p; cbn [push_all]; [keeps_tac|].
    apply keeps_bind; [apply _| |auto]. unfold push_one. keeps_tac; auto using deliver_broker. }
  intros Hin.
  assert (sender = {| nc_channel := TELEGRAM; nc_send := telegram_send config |} \/
          sender = {| nc_channel := EMAIL; nc_send := email_send config |} \/
          sender = {| nc_channel := WEB_PUSH; nc_send := webpush_send config |}) as [->|[->| ->]]
    by (unfold CHANNEL_IMPLEMENTATIONS in Hin; set_solver); cbn.
  - unfold telegram_send, telegramChatId. keeps_tac; auto using deliver_broker.
  - unfold email_send, emailRecipient. keeps_tac; auto using deliver_broker.
  - unfold webpush_send, fan_out, pushSubscriptions, deliveredDestinations. keeps_tac; auto.
Qed.

Lemma dispatch_broker channel event : keeps broker_same (dispatch senders channel event).
Proof.
  unfold dispatch, claim, releaseClaim_, releaseClaim. destruct (registry_get _ _) as [sender|] eqn:Hs; [|keeps_tac].
  apply registry_get_elem in Hs. keeps_tac; auto using send_broker, settle_broker;
    try (by apply keeps_exec; [apply _|]); apply keeps_io; try apply _; intros w; [apply create_row_broker|done].
Qed.

(** A claim that answers "duplicate" saw the row settled. *)
Lemma claim_duplicate channel event cutoff w w' :
  claim channel event cutoff w = (Ok duplicate, w') ->
  exists n, row_of channel (ev_eventId event) w' = Some n /\ n_status n = SENT.
Proof.
  unfold claim. intros (at_ & w0 & _ & Hc)%bind_Ok. apply bind_Ok in Hc as (created & w1 & _ & Hc).
  destruct created; [done|]. apply bind_Ok in Hc as (k & w2 & _ & Hc). destruct (0 <? k)%nat; [done|].
  apply bind_Ok in Hc as (existing & w3 & Hq & Hc). apply io_effect in Hq as [[_ Hno]|[-> Hok]]; [by destruct (Hno existing)|].
  specialize (Hok existing eq_refl). injection Hok as <-. cbn in Hc.
  destruct (row_of channel (ev_eventId event) (tick w2)) as [n|] eqn:Hrow; [|done].
  case_decide; [|done]. injection Hc as <-. eauto.
Qed.

(** A dispatch that returns leaves the row settled as sent. *)
Lemma dispatch_returns channel event w o w' :
  dispatch senders channel event w = (Ok o, w') ->
  exists n, row_of channel (ev_eventId event) w' = Some n /\ n_status n = SENT.
Proof.
  destruct o; [apply dispatch_sent_settles|]. unfold dispatch. destruct (registry_get _ _) as [sender|]; [|done].
  intros (at_ & w0 & _ & Hd)%bind_Ok. apply bind_Ok in Hd as (c & w1 & Hc & Hd). destruct c; [| |done].
  - apply bind_Ok in Hd as (? & ? & _ & Hd). apply bind_Ok in Hd as (? & ? & _ & Hd). done.
  - injection Hd as <-. by eapply claim_duplicate.
Qed.

Lemma ack_run tag w :
  db (ack tag w).2 = db w /\ published (broker (ack tag w).2) = published (broker w) /\ (forall e, (ack tag w).1 <> Throw e).
Proof.
  unfold ack, catch, exec. destruct (io _ w) as [r w'] eqn:Hio. destruct (tick_spec w) as (_ & _ & _ & Hdb & Hb & _).
  apply io_effect in Hio as [[-> _]|[-> _]]; destruct r; cbn; by rewrite ?Hdb, ?Hb.
Qed.

(** The copies handling a message may publish. *)
Definition retry_copy (channel : Channel) (msg : Message) : Message :=
  republished msg (retryRoutingKeyFor channel (attemptCount msg + 1)) (attemptCount msg + 1) None.
Definition dead_copy (channel : Channel) (msg : Message) (reason : DeadReason) : Message :=
  republished msg (deadRoutingKeyFor channel) (attemptCount msg) (Some reason).

(** Publishing a copy and acknowledging: no acknowledgement without it. *)
Lemma republish_ack msg key attempts reason tag w :
  let w' := (bind (republish msg key attempts reason) (fun _ => ack tag) w).2 in
  broker w' = broker w \/ published (broker w') = published (broker w) ++ [republished msg key attempts reason].
Proof.
  cbv zeta. rewrite bind_world. unfold republish, exec. destruct (io _ w) as [r w1] eqn:Hio. cbn [fst snd].
  destruct (tick_spec w) as (_ & _ & _ & _ & Hb & _).
  apply io_effect in Hio as [[-> Hno]|[-> Hok]]; [destruct r as [u| |]; [by destruct (Hno u)|by left..]|].
  right. destruct r; cbn; [|by rewrite Hb..].
  destruct (ack_run tag (accept (republished msg key attempts reason) (tick w))) as (_ & -> & _). cbn. by rewrite Hb.
Qed.

Lemma handleFailure_run channel tag msg event err w :
  let w' := (handleFailure delays channel tag msg event err w).2 in
  broker w' = broker w \/
  (published (broker w') = published (broker w) ++ [retry_copy channel msg] /\ attemptCount msg + 1 < maxAttempts delays) \/
  (exists reason, published (broker w') = published (broker w) ++ [dead_copy channel msg reason]).
Proof.
  cbv zeta. unfold handleFailure. destruct (is_permanent err || _) eqn:Hterm.
  - pose proof (settle_broker channel event FAILED (Some (exn_message err)) w) as Hb. unfold broker_same in Hb.
    rewrite bind_world. destruct (settle _ _ _ _ w) as [r w1]. cbn [fst snd] in *.
    destruct r; [|by left..]. unfold park.
    destruct (republish_ack msg (deadRoutingKeyFor channel) (attemptCount msg)
      (Some (if is_permanent err then permanent else attempts_exhausted)) tag w1) as [He|Hin];
      rewrite Hb in *; [by left|]. right; right. eexists. exact Hin.
  - bool_to_prop. destruct (republish_ack msg (retryRoutingKeyFor channel (attemptCount msg + 1)) (attemptCount msg + 1) None tag w)
      as [He|Hin]; [by left|]. right; left. split; [exact Hin|lia].
Qed.

(** Everything handling a message can do to the broker: acknowledge a settled
    delivery, move the message one stage on, or park it. *)
Lemma handle_run channel tag msg w :
  let w' := (handle config delays channel tag msg w).2 in
  broker w' = broker w \/
  (published (broker w') = published (broker w) /\
   exists event n, m_content msg = Json event /\ row_of channel (ev_eventId event) w' = Some n /\ n_status n = SENT) \/
  (published (broker w') = published (broker w) ++ [retry_copy channel msg] /\
   attemptCount msg + 1 < maxAttempts delays /\ exists event, m_content msg = Json event) \/
  (exists reason, published (broker w') = published (broker w) ++ [dead_copy channel msg reason]).
Proof.
  cbv zeta.
  assert ((handle config delays channel tag msg w).2 = (process config delays channel tag msg w).2) as ->
    by (unfold handle, catch; by destruct (process _ _ _ _ _ w) as [[] ?]).
  unfold process. destruct (m_content msg) as [event|bytes].
  - pose proof (dispatch_broker channel event w) as Hb. unfold broker_same, catch, bind in *.
    destruct (dispatch _ channel event w) as [[o|e|] w1] eqn:Hd; cbn [snd] in *; [| |by left].
    + destruct (ack_run tag w1) as (Hdb & Hp & Hth).
      destruct (dispatch_returns _ _ _ _ _ Hd) as (n & Hrow & Hs). right; left.
      destruct (ack tag w1) as [[u|e|] w2]; cbn [snd fst] in *; [|by destruct (Hth e)|];
        (split; [by rewrite Hp, Hb|]; exists event, n; unfold row_of in *; by rewrite Hdb).
    + destruct (handleFailure_run channel tag msg event e w1) as [He|[[Hin Hlt]|[reason Hin]]]; rewrite Hb in *;
        [by left|right; right; left; eauto|right; right; right; eauto].
  - unfold park. destruct (republish_ack msg (deadRoutingKeyFor channel) (attemptCount msg) (Some unparseable) tag w) as [He|Hin];
      [by left|]. right; right; right. exists unparseable. exact Hin.
Qed.

(** C6. No alert is acknowledged away: if handling a message acknowledged it,
    then its delivery is settled as sent (by this attempt or an earlier one),
    or a copy with the same content sits on the next retry stage, which
    exists, or a copy with the reason is parked in the dead queue; and a body
    that is not JSON is always parked. This holds whichever calls fail, lose
    their reply or kill the process. *)
Theorem acknowledged_means_accounted channel tag msg w :
  tag ∉ acked (broker w) ->
  tag ∈ acked (broker (handle config delays channel tag msg w).2) ->
  let w' := (handle config delays channel tag msg w).2 in
  (exists event n, m_content msg = Json event /\ row_of channel (ev_eventId event) w' = Some n /\ n_status n = SENT) \/
  (exists event, m_content msg = Json event /\ retry_copy channel msg ∈ published (broker w') /\
     attemptCount msg + 1 < maxAttempts delays) \/
  (exists reason, dead_copy channel msg reason ∈ published (broker w')).
Proof.
  intros Hno Hack. cbv zeta.
  destruct (handle_run channel tag msg w) as [He|[[_ Hs]|[(Hp & Hlt & event & Hj)|[reason Hp]]]].
  - by rewrite He in Hack.
  - by left.
  - right; left. exists event. rewrite Hp. set_solver.
  - right; right. exists reason. rewrite Hp. set_solver.
Qed.

(** *** The retry ladder *)

(** What a retry queue hands back when the copy expires. *)
Definition bounced (channel : Channel) (copy : Message) : Message :=
  {| m_exchange := NOTIFICATIONS_EXCHANGE; m_routingKey := routingKeyFor channel; m_content := m_content copy;
     m_headers := m_headers copy; m_messageId := m_messageId copy |}.

(** One round: some consumer, in some world and under some faults, handles
    [msg] and puts a copy on a retry stage, which comes back as [msg']. *)
Definition retry_round (channel : Channel) (msg msg' : Message) : Prop :=
  exists tag w, let w' := (handle config delays channel tag msg w).2 in
  published (broker w') = published (broker w) ++ [retry_copy channel msg] /\ msg' = bounced channel (retry_copy channel msg).

Lemma retry_round_counts channel msg msg' :
  retry_round channel msg msg' ->
  attemptCount msg' = attemptCount msg + 1 /\ attemptCount msg' < maxAttempts delays /\ m_content msg' = m_content msg.
Proof.
  intros (tag & w & Hp & ->). cbn. split; [done|]. split; [|done]. unfold attemptCount at 1. cbn.
  assert (forall (x : Message) l, l <> l ++ [x]) as Hgrow.
  { intros x l Hl. apply (f_equal length) in Hl. rewrite length_app in Hl. cbn in Hl. lia. }
  destruct (handle_run channel tag msg w) as [He|[[Hs _]|[(_ & Hlt & _)|[reason Hd]]]].
  - rewrite He in Hp. by apply Hgrow in Hp.
  - rewrite Hs in Hp. by apply Hgrow in Hp.
  - done.
  - rewrite Hp in Hd. apply app_inj_2 in Hd as [_ Hd]; [|done]. by injection Hd.
Qed.

(** C25. The retry ladder ends: whatever consumers, worlds and faults a fresh
    message goes through, it is retried at most once per configured delay,
    its header counts the rounds exactly, and its content is unchanged; so it
    is attempted at most [maxAttempts] times before it is settled or parked. *)
Theorem retry_ladder_bounded channel k msg msg' :
  h_attempts (m_headers msg) = None -> nsteps (retry_round channel) k msg msg' ->
  (k <= length delays)%nat /\ attemptCount msg' = Z.of_nat k /\ m_content msg' = m_content msg.
Proof.
  intros H0.
  assert (attemptCount msg = 0) as Hstart by (unfold attemptCount; by rewrite H0). clear H0.
  assert (forall k m m', nsteps (retry_round channel) k m m' ->
    attemptCount m' = attemptCount m + Z.of_nat k /\ m_content m' = m_content m /\
    ((0 < k)%nat -> attemptCount m' < maxAttempts delays)) as Hsteps.
  { clear. induction k as [|k IH]; intros m m' Hk; inversion Hk as [|? ? m1 ? H1 H2]; subst; [split_and!; [lia|done|lia]|].
    apply retry_round_counts in H1 as (Hc & Hlt & Hm). destruct (IH _ _ H2) as (Hc' & Hm' & Hlt').
    split_and!; [lia|congruence|]. intros _. destruct k; [inversion H2; by subst|apply Hlt'; lia]. }
  intros Hk. destruct (Hsteps _ _ _ Hk) as (Hc & Hm & Hlt). split_and!; [|lia|done].
  destruct k; [lia|]. specialize (Hlt ltac:(lia)). unfold maxAttempts in Hlt. lia.
Qed.

End Handle.

(** ** Progress *)

Section Progress.
Context `{UuidSupply} (config : ChannelConfig) (delays : list Z).
Notation senders := (CHANNEL_IMPLEMENTATIONS config).

(** Calls of the notifier write neither users nor triggers. *)
Definition refs_same (w w' : World) : Prop :=
  users (db w') = users (db w) /\ triggers (db w') = triggers (db w).

#[global] Instance refs_same_order : WorldOrder refs_same.
Proof.
  unfold refs_same. split; [split|]; [done|intros a b c [? ?] [? ?]; split; congruence|].
  intros w. by destruct (tick_spec w) as (_ & _ & _ & -> & _).
Qed.

Definition quiet_step {A} (m : M A) : Prop := keeps refs_same m /\ calm m.

Lemma create_row_quiet channel event status error c : quiet_step (io (create_row channel event status error c)).
Proof.
  split; [apply keeps_io; [apply _|]|apply calm_io]; intros w; unfold create_row;
    destruct (create _ _ _); [destruct (references_ok _ _)| |destruct (references_ok _ _)|]; done.
Qed.

Lemma settle_quiet channel event status error : quiet_step (settle channel event status error).
Proof.
  split; [apply keeps_io; [apply _|]|apply calm_io]; intros w; (destruct (row_of _ _ w); [done|]);
    unfold create_row; (destruct (create _ _ _); [destruct (references_ok _ _)|]); done.
Qed.

Lemma exec_log_quiet f : quiet_step (exec (upd_notifications f)).
Proof. split; [by apply keeps_exec; [apply _|]|by apply calm_exec]. Qed.

Lemma deliver_quiet d : quiet_step (deliver d).
Proof. split; [by apply keeps_exec; [apply _|]|by apply calm_exec]. Qed.

Lemma remove_quiet id : quiet_step (removePushSubscription id).
Proof.
  split; [apply keeps_io; [apply _|]|apply calm_io]; intros w; cbv beta zeta; by destruct (existsb _ _).
Qed.

Lemma bind_quiet {A B} (m : M A) (k : A -> M B) : quiet_step m -> (forall a, quiet_step (k a)) -> quiet_step (bind m k).
Proof. intros [? ?] Hk. split; [apply keeps_bind; [apply _|done|]|apply calm_bind; [done|]]; intros a; by destruct (Hk a). Qed.

Lemma catch_quiet {A} (m : M A) (h : exn -> M A) : quiet_step m -> (forall e, quiet_step (h e)) -> quiet_step (catch m h).
Proof. intros [? ?] Hh. split; [apply keeps_catch; [apply _|done|]|apply calm_catch; [done|]]; intros e; by destruct (Hh e). Qed.

Ltac quiet_tac :=
  repeat match goal with
    | |- quiet_step (bind _ _) => apply bind_quiet
    | |- quiet_step (catch _ _) => apply catch_quiet
    | |- quiet_step (match _ with _ => _ end) => case_match
    | |- quiet_step (ret _) => split; [apply keeps_ret, _|apply calm_ret]
    | |- quiet_step (throw _) => split; [apply keeps_throw, _|apply calm_throw]
    | |- quiet_step (query _) => split; [apply keeps_query, _|apply calm_query]
    | |- quiet_step get_now => split; [apply keeps_get_now, _|apply calm_get_now]
    | |- quiet_step _ => solve [auto using create_row_quiet, settle_quiet, exec_log_quiet, deliver_quiet, remove_quiet]
    | |- forall _, quiet_step _ => intros ?
    end.

Lemma push_all_quiet event subs p : quiet_step (push_all event subs p).
Proof.
  revert p. induction subs as [|s subs IH]; intros p; cbn [push_all]; [quiet_tac|].
  apply bind_quiet; [|auto]. unfold push_one, markDelivered. quiet_tac.
Qed.

Lemma dispatch_quiet channel event : quiet_step (dispatch senders channel event).
Proof.
  unfold dispatch, registry_get, find_first, CHANNEL_IMPLEMENTATIONS. cbn [List.find nc_channel].
  unfold claim, take_over, releaseClaim_, releaseClaim.
  assert (forall e, quiet_step (telegram_send config e)) by (intros e; unfold telegram_send, telegramChatId; quiet_tac).
  assert (forall e, quiet_step (email_send config e)) by (intros e; unfold email_send, emailRecipient; quiet_tac).
  assert (forall e, quiet_step (webpush_send config e))
    by (intros e; unfold webpush_send, fan_out, pushSubscriptions, deliveredDestinations; quiet_tac; apply push_all_quiet).
  quiet_tac; simplify_eq/=; auto;
    (split; [apply keeps_io; [apply _|done]|apply calm_io; done]).
Qed.

(** Without faults a settlement of an event whose user and trigger exist
    lands, and an acknowledgement arrives. *)
Lemma settle_lands channel event status error w :
  oracle w = [] -> references_ok event (db w) = true ->
  (settle channel event status error w).1 = Ok tt /\ oracle (settle channel event status error w).2 = [].
Proof.
  intros Ho Href. split; [|by apply settle_quiet]. unfold settle. rewrite (io_fine _ _ Ho).
  destruct (row_of _ _ w) as [n|] eqn:Hrow; [done|]. unfold create_row, create. rewrite existsb_find_first.
  unfold row_of in Hrow. by rewrite Hrow, Href.
Qed.

Lemma republish_ack_lands msg key attempts reason tag w :
  oracle w = [] -> tag ∈ acked (broker (bind (republish msg key attempts reason) (fun _ => ack tag) w).2).
Proof.
  intros Ho. unfold republish, ack. erewrite bind_ok; [|by apply exec_ok].
  erewrite catch_ok; [|by apply exec_ok]. cbn. set_solver.
Qed.

Lemma handleFailure_lands channel tag msg event err w :
  oracle w = [] -> references_ok event (db w) = true ->
  tag ∈ acked (broker (handleFailure delays channel tag msg event err w).2).
Proof.
  intros Ho Href. unfold handleFailure. destruct (is_permanent err || _); [|by apply republish_ack_lands].
  destruct (settle_lands channel event FAILED (Some (exn_message err)) w Ho Href) as [Hr Ho'].
  rewrite bind_world, Hr. by apply republish_ack_lands.
Qed.

(** Progress of the consumer: in a world whose calls answer, handling a
    message whose user and trigger still exist always ends with the message
    acknowledged, whatever the channel answers, whatever the state of its
    row, and whether or not its body parses. *)
Theorem handle_acknowledges channel tag msg w :
  oracle w = [] ->
  (forall event, m_content msg = Json event -> references_ok event (db w) = true) ->
  tag ∈ acked (broker (handle config delays channel tag msg w).2).
Proof.
  intros Ho Href.
  assert ((handle config delays channel tag msg w).2 = (process config delays channel tag msg w).2) as ->
    by (unfold handle, catch; by destruct (process _ _ _ _ _ w) as [[] ?]).
  unfold process. destruct (m_content msg) as [event|bytes]; [|by apply republish_ack_lands].
  destruct (dispatch_quiet channel event) as [Hrefs Hcalm].
  specialize (Hrefs w). destruct (Hcalm w Ho) as [Ho' Hnc]. unfold catch, bind.
  destruct (dispatch senders channel event w) as [[o|e|] w1]; cbn in *; [| |done].
  - assert (ack tag w1 = (Ok tt, _)) as -> by (eapply catch_ok; by apply exec_ok). cbn. set_solver.
  - apply handleFailure_lands; [done|]. destruct Hrefs as [Hu Ht]. unfold references_ok. rewrite Hu, Ht. by apply Href.
Qed.

(** An event whose user or trigger is gone: without a row, neither the claim
    nor the settlement can create one. *)
Lemma create_row_orphan channel event status error c w :
  row_of channel (ev_eventId event) w = None -> references_ok event (db w) = false ->
  create_row channel event status error c w = (inr ForeignKeyViolation, w).
Proof.
  intros Hrow Href. unfold create_row, create. rewrite existsb_find_first. unfold row_of in Hrow. by rewrite Hrow, Href.
Qed.

Lemma dispatch_orphan channel event w :
  row_of channel (ev_eventId event) w = None -> references_ok event (db w) = false ->
  (forall o, (dispatch senders channel event w).1 <> Ok o) /\
  (forall m, (dispatch senders channel event w).1 <> Throw (PermanentNotificationError m)) /\
  (dispatch senders channel event w).2 = tick w.
Proof.
  intros Hrow Href. destruct (tick_spec w) as (_ & _ & _ & Hdb & _).
  destruct (io_idle (create_row channel event PENDING None (Some (now w))) w (inr ForeignKeyViolation)) as (Hw & Hok & Hth).
  { apply create_row_orphan; [by rewrite tick_row|by rewrite Hdb]. }
  unfold dispatch. destruct (registry_get _ _) as [sender|] eqn:Hs; [|by destruct channel].
  unfold get_now, claim, bind, catch, throw, get_now.
  destruct (io _ w) as [[b|e|] w1]; cbn in *; subst; [by specialize (Hok b eq_refl)| |done].
  destruct (Hth e eq_refl) as [[= <-]|[code ->]]; by cbn.
Qed.

(** The poison message: when the user or the trigger of an event was
    deleted before its first attempt, no attempt can record anything, and on
    the last one the message is neither acknowledged, nor parked, nor
    retried; the broker is left as it was, whatever else happens, so the
    message keeps its place among the unacknowledged ones. *)
Theorem orphan_event_wedges channel tag msg event w :
  m_content msg = Json event ->
  row_of channel (ev_eventId event) w = None -> references_ok event (db w) = false ->
  maxAttempts delays <= attemptCount msg + 1 ->
  broker (handle config delays channel tag msg w).2 = broker w.
Proof.
  intros Hj Hrow Href Hlast.
  assert ((handle config delays channel tag msg w).2 = (process config delays channel tag msg w).2) as ->
    by (unfold handle, catch; by destruct (process _ _ _ _ _ w) as [[] ?]).
  unfold process. rewrite Hj. destruct (dispatch_orphan channel event w Hrow Href) as (Hno & _ & Hw).
  destruct (tick_spec w) as (_ & _ & _ & Hdb & Hb & _). unfold catch, bind.
  destruct (dispatch senders channel event w) as [[o|e|] w1]; cbn in *; subst w1; [by destruct (Hno o)| |done].
  unfold handleFailure. rewrite (proj2 (Z.leb_le _ _) Hlast), orb_true_r, bind_world.
  destruct (io_idle (fun w => match row_of channel (ev_eventId event) w with
    | Some _ => (inl tt, upd_notifications (fun t =>
                  (update_many (is_row channel (ev_eventId event)) (set_status FAILED (Some (exn_message e))) t).1) w)
    | None => create_row channel event FAILED (Some (exn_message e)) None w
    end) (tick w) (inr ForeignKeyViolation)) as (Hw2 & Hok2 & _).
  { destruct (tick_spec (tick w)) as (_ & _ & _ & Hdb2 & _). rewrite !tick_row, Hrow.
    apply create_row_orphan; [by rewrite !tick_row|by rewrite Hdb2, Hdb]. }
  fold (settle channel event FAILED (Some (exn_message e))) in Hw2, Hok2.
  destruct (tick_spec (tick w)) as (_ & _ & _ & _ & Hb2 & _).
  destruct (settle _ _ _ _ (tick w)) as [[u|e'|] w2]; cbn in *; subst w2; [by specialize (Hok2 u eq_refl)|by rewrite Hb2..].
Qed.

End Progress.

(** ** Concrete runs *)

Definition sample_delays : list Z := [5000; 30000; 300000].

Definition sample_message (attempts : option Z) : Message :=
  {| m_exchange := NOTIFICATIONS_EXCHANGE; m_routingKey := routingKeyFor TELEGRAM;
     m_content := Json (sample_event "e1");
     m_headers := {| h_attempts := attempts; h_eventId := Some "e1"; h_deadReason := None |};
     m_messageId := Some "e1" |}.

(** Telegram refuses the request, after the claim and the lookup went well. *)
Definition refused (w : World) : World :=
  {| now := now w; uuids := uuids w;
     oracle := [{| k_fault := Fine; k_elapsed := 1 |}; {| k_fault := Fine; k_elapsed := 1 |}; {| k_fault := Fail (Some 502) false; k_elapsed := 1 |}];
     db := db w; redis := redis w; broker := broker w; delivered := delivered w |}.

Notation sample_handle := (handle (H:=sample_uuids) sample_config sample_delays TELEGRAM 7).

Definition sample_retry_queue : RetryQueue :=
  {| q_name := retryQueueNameFor EMAIL 2; q_ttl := 30000; q_deadLetterExchange := NOTIFICATIONS_EXCHANGE;
     q_deadLetterKey := routingKeyFor EMAIL |}.

Lemma topology_routes_everything_witness :
  queueNameFor EMAIL ∈ routed_to (setupTopology sample_delays (registeredChannels (CHANNEL_IMPLEMENTATIONS sample_config)))
                         (q_deadLetterExchange sample_retry_queue) (q_deadLetterKey sample_retry_queue).
Proof.
  destruct (topology_routes_everything sample_config sample_delays EMAIL 2) as (_ & _ & _ & Hback).
  apply (Hback sample_retry_queue); [|reflexivity]. apply list_elem_of_lookup. exists 1%nat. reflexivity.
Defined.

Lemma acknowledged_means_accounted_witness :
  exists event, m_content (sample_message None) = Json event /\
    retry_copy TELEGRAM (sample_message None) ∈
      published (broker (sample_handle (sample_message None) (refused (notifier_world notifier_db))).2).
Proof.
  destruct (acknowledged_means_accounted (H:=sample_uuids) sample_config sample_delays TELEGRAM 7 (sample_message None)
    (refused (notifier_world notifier_db))) as [(event & n & Hev & Hrow & Hs)|[(event & Hj & Hin & _)|(reason & Hin)]].
  - cbn. set_solver.
  - vm_compute. constructor.
  - exfalso. rename Hs into Hsent. assert (event = sample_event "e1") as -> by (injection Hev; auto).
    vm_compute in Hrow. injection Hrow as <-. discriminate Hsent.
  - exists event. auto.
  - exfalso. vm_compute in Hin. apply list_elem_of_singleton in Hin. destruct reason; discriminate Hin.
Defined.

Lemma retry_ladder_bounded_witness :
  exists msg', nsteps (retry_round (H:=sample_uuids) sample_config sample_delays TELEGRAM) 1 (sample_message None) msg' /\
    attemptCount msg' = 1.
Proof.
  set (msg' := bounced TELEGRAM (retry_copy TELEGRAM (sample_message None))).
  assert (nsteps (retry_round (H:=sample_uuids) sample_config sample_delays TELEGRAM) 1 (sample_message None) msg') as Hs.
  { apply nsteps_once. exists 7%nat, (refused (notifier_world notifier_db)). split; [vm_compute; reflexivity|reflexivity]. }
  exists msg'. split; [exact Hs|].
  apply (retry_ladder_bounded (H:=sample_uuids) sample_config sample_delays TELEGRAM 1 (sample_message None) msg' eq_refl Hs).
Defined.

Lemma handle_acknowledges_witness :
  7%nat ∈ acked (broker (sample_handle (sample_message (Some 3)) (notifier_world notifier_db)).2).
Proof.
  apply (handle_acknowledges (H:=sample_uuids) sample_config sample_delays TELEGRAM 7 (sample_message (Some 3)) (notifier_world notifier_db)).
  - reflexivity.
  - intros event [= <-]. vm_compute. reflexivity.
Defined.

(** The account was deleted while the event was queued. *)
Lemma orphan_event_wedges_witness :
  broker (sample_handle (sample_message (Some 3)) (notifier_world empty_db)).2 = broker (notifier_world empty_db).
Proof.
  apply (orphan_event_wedges (H:=sample_uuids) sample_config sample_delays TELEGRAM 7 (sample_message (Some 3)) (sample_event "e1")
    (notifier_world empty_db)).
  - reflexivity.
  - reflexivity.
  - reflexivity.
  - vm_compute. discriminate.
Defined.
