(* ===== verification/Attempt.v ===== *)
(** * What one undisturbed delivery attempt does

    A reference for [RabbitConsumerService.handle] when calls answer: what it
    sends, which copies it publishes and how it leaves the log, as a function
    of the world it finds; and that the code does exactly that. *)

From S2P Require Import Prelude JsNumber Enums Contracts Table World Samples Effects Outbox Format DeliveryLog Channels Notifier Consumer.

(** ** The reference *)

(** The row of a delivery, seen by an attempt: nothing stands in its way, it
    was sent, another consumer holds it, or there is none and none can be
    created, since the user or the trigger of the event is gone. *)
Inductive Outlook := free | done_before | held_elsewhere | orphaned.

Section Reference.
Context (config : ChannelConfig) (retryDelaysMs : list Z) (channel : Channel) (event : TriggerFiredEvent).

Definition outlook (w : World) : Outlook :=
  match row_of channel (ev_eventId event) w with
  | None => if references_ok event (db w) then free else orphaned
  | Some n => if takeable (now w - CLAIM_LEASE_MS) n then free
              else if decide (n_status n = SENT) then done_before else held_elsewhere
  end.

(** The endpoints earlier attempts reached. *)
Definition reached (w : World) : list string :=
  match row_of channel (ev_eventId event) w with Some n => n_deliveredTo n | None => [] end.

(** What is due to the user, or why nothing can be delivered. *)
Definition owed (w : World) : list Delivery + string :=
  match channel with
  | TELEGRAM =>
      if decide (telegram_token config = "") then inr "TELEGRAM_BOT_TOKEN is not set" else
      match user_by_id (ev_userId event) w ≫= u_telegramChatId with
      | None | Some "" => inr "User has no linked Telegram chat"
      | Some chatId => inl [TelegramMessage chatId ("🌦️ " +:+ alertText event)]
      end
  | EMAIL =>
      if smtp_configured config then
        match user_by_id (ev_userId event) w with
        | None => inr "User has no email"
        | Some u =>
            if decide (u_email u = "") then inr "User has no email"
            else if u_emailVerified u then inl [Mail (u_email u) (alertTitle event) (alertHtml event)]
            else inr "Email is not verified"
        end
      else inr "Mailer is not configured"
  | WEB_PUSH =>
      if vapid_configured config then
        match find_many (fun s => bool_decide (s_userId s = ev_userId event)) (pushSubs (db w)) with
        | [] => inr "User has no push subscriptions"
        | subs => inl (pushes event (s_endpoint <$> find_many (fun s => negb (bool_decide (s_endpoint s ∈ reached w))) subs))
        end
      else inr "VAPID keys are not set"
  end.

Definition log_entry (w : World) : option (NotifStatus * option string) :=
  (fun n => (n_status n, n_error n)) <$> row_of channel (ev_eventId event) w.

(** What an attempt sends, the copies it publishes, the log entry it leaves,
    and whether the message is acknowledged. *)
Definition attempt_spec (msg : Message) (w : World) :
    list Delivery * list Message * option (NotifStatus * option string) * bool :=
  let last := maxAttempts retryDelaysMs <=? attemptCount msg + 1 in
  match outlook w with
  | done_before => ([], [], log_entry w, true)
  | held_elsewhere =>
      if last
      then ([], [dead_copy channel msg attempts_exhausted],
            Some (FAILED, Some (exn_message (DeliveryInFlightError channel))), true)
      else ([], [retry_copy channel msg], log_entry w, true)
  | orphaned => if last then ([], [], None, false) else ([], [retry_copy channel msg], None, true)
  | free =>
      match owed w with
      | inl ds => (ds, [], Some (SENT, None), true)
      | inr reason => ([], [dead_copy channel msg permanent], Some (FAILED, Some reason), true)
      end
  end.

End Reference.

(** ** Steps that touch one row of the log *)

Section Steps.
Context `{UuidSupply} (config : ChannelConfig) (channel : Channel) (event : TriggerFiredEvent).
Notation key := (is_row channel (ev_eventId event)).

(** Everything but the row of this delivery, the deliveries and the broker
    stays as it was. *)
Record log_only (w w' : World) : Prop := {
  lo_oracle : oracle w' = oracle w;
  lo_now : now w' = now w;
  lo_redis : redis w' = redis w;
  lo_tables : db w' = set_notifications (notifications (db w')) (db w);
  lo_rows : find_many (fun n => negb (key n)) (notifications (db w')) = find_many (fun n => negb (key n)) (notifications (db w));
}.

#[global] Instance log_only_preorder : PreOrder log_only.
Proof.
  split.
  - intros w. split; try done. by destruct w as [? ? ? [] ? ? ?].
  - intros w1 w2 w3 [] []. split; try congruence. rewrite lo_tables1, lo_tables0. done.
Qed.

(** A step that writes the log, and only rows of the key. *)
Lemma log_only_rows f w :
  find_many (fun n => negb (key n)) (f (notifications (db w))) = find_many (fun n => negb (key n)) (notifications (db w)) ->
  log_only w (upd_notifications f w).
Proof. intros Hf. by split. Qed.

Lemma log_only_update (q : Notification -> bool) g w :
  (forall n, q n = true -> key n = true) -> (forall n, key (g n) = key n) ->
  log_only w (upd_notifications (fun t => (update_many q g t).1) w).
Proof.
  intros Hq Hg. apply log_only_rows, find_many_update. intros n _ Hn. apply Hq in Hn. by rewrite Hg, Hn.
Qed.

(** Worlds that differ in what was sent, in the broker or in the supply. *)
Lemma log_only_same w w' :
  oracle w' = oracle w -> now w' = now w -> redis w' = redis w -> db w' = db w -> log_only w w'.
Proof. intros ? ? ? Hdb. split; rewrite ?Hdb; try done. by destruct (db w). Qed.

Lemma row_of_update (q : Notification -> bool) g w :
  (forall n, key (g n) = key n) ->
  row_of channel (ev_eventId event) (upd_notifications (fun t => (update_many q g t).1) w) =
  (fun n => if q n then g n else n) <$> row_of channel (ev_eventId event) w.
Proof. intros Hg. unfold row_of. cbn [upd_notifications db set_db set_notifications notifications]. apply find_first_update. intros n. by destruct (q n). Qed.

(** What is owed depends on nothing an attempt changes. *)
Lemma owed_log_only w w' :
  log_only w w' -> reached channel event w' = reached channel event w -> owed config channel event w' = owed config channel event w.
Proof. intros [] Hr. unfold owed, user_by_id. rewrite lo_tables0, Hr. done. Qed.

Lemma references_log_only w w' : log_only w w' -> references_ok event (db w') = references_ok event (db w).
Proof. intros []. unfold references_ok. by rewrite lo_tables0. Qed.

(** Nothing but the log changed. *)
Record log_step (w w' : World) : Prop := {
  ls_only : log_only w w';
  ls_delivered : delivered w' = delivered w;
  ls_broker : broker w' = broker w;
}.

Lemma claim_free w :
  oracle w = [] -> outlook channel event w = free ->
  exists w', claim channel event (now w - CLAIM_LEASE_MS) w = (Ok claimed, w') /\ log_step w w' /\
    is_Some (row_of channel (ev_eventId event) w') /\ reached channel event w' = reached channel event w.
Proof.
  intros Ho Hfree. unfold claim. rewrite bind_get_now. cbv beta. unfold outlook in Hfree.
  destruct (row_of channel (ev_eventId event) w) as [n|] eqn:Hrow.
  - assert (takeable (now w - CLAIM_LEASE_MS) n = true) as Ht by (repeat case_match; done).
    erewrite bind_ok; [|unfold catch, bind; rewrite io_fine, (create_row_refused _ _ _ _ _ _ _ Hrow) by done; reflexivity].
    cbv iota. erewrite bind_ok; [|by apply io_ok]. set (q := fun n => key n && takeable (now w - CLAIM_LEASE_MS) n).
    apply row_of_Some in Hrow as Hn. destruct Hn as [Hin Hkey].
    assert ((0 <? (update_many q (reclaim (now w)) (notifications (db w))).2)%nat = true) as Hcount.
    { apply Nat.ltb_lt, count_where_pos. exists n. unfold q. by rewrite Hkey, Ht. }
    fold q. rewrite Hcount. eexists. split; [reflexivity|].
    change (upd_notifications (fun _ => _) w) with (upd_notifications (fun t => (update_many q (reclaim (now w)) t).1) w).
    assert (row_of channel (ev_eventId event) (upd_notifications (fun t => (update_many q (reclaim (now w)) t).1) w) =
      Some (if q n then reclaim (now w) n else n)) as Hru by (rewrite row_of_update by done; by rewrite Hrow).
    split_and!; [split; [|done|done]|..].
    + apply log_only_update; [|done]. by intros m [? _]%andb_true_iff.
    + rewrite Hru. eauto.
    + unfold reached. rewrite Hru, Hrow. by destruct (q n).
  - assert (references_ok event (db w) = true) as Href by (by destruct (references_ok event (db w))).
    erewrite bind_ok; [|eapply catch_ok; erewrite bind_ok; [reflexivity|]; apply io_ok; [done|];
      unfold create_row, create; rewrite existsb_find_first; unfold row_of in Hrow; rewrite Hrow, Href; reflexivity].
    eexists. split; [reflexivity|]. unfold row_of in Hrow. split_and!; [split; [|done|done]|..].
    + split; try done. cbn. rewrite find_many_app. cbn. unfold is_row at 2. cbn. rewrite !bool_decide_true by done. cbn. apply app_nil_r.
    + unfold row_of. cbn. rewrite find_first_app, Hrow. cbn. unfold is_row. cbn. rewrite !bool_decide_true by done. by eexists.
    + unfold reached, row_of. cbn. rewrite find_first_app, Hrow. cbn. unfold is_row. cbn. by rewrite !bool_decide_true by done.
Qed.

(** A claim that is not granted leaves everything as it was. *)
Lemma claim_refused w n :
  oracle w = [] -> log_unique w -> row_of channel (ev_eventId event) w = Some n -> takeable (now w - CLAIM_LEASE_MS) n = false ->
  claim channel event (now w - CLAIM_LEASE_MS) w = (Ok (if decide (n_status n = SENT) then duplicate else in_flight), w).
Proof.
  intros Ho Hu Hrow Ht. unfold claim. rewrite bind_get_now. cbv beta.
  erewrite bind_ok; [|unfold catch, bind; rewrite io_fine, (create_row_refused _ _ _ _ _ _ _ Hrow) by done; reflexivity].
  cbv iota. erewrite bind_ok; [|apply io_ok; [done|by apply (take_over_refused _ _ _ _ _ _ Hu Hrow)]].
  change (0 <? 0)%nat with false. cbv iota. erewrite bind_ok; [|by apply query_ok]. by rewrite Hrow.
Qed.

(** An attempt on an event whose user or trigger is gone. *)
Lemma outlook_orphaned w :
  outlook channel event w = orphaned -> row_of channel (ev_eventId event) w = None /\ references_ok event (db w) = false.
Proof.
  unfold outlook. destruct (row_of _ _ w); [by repeat case_match|]. by destruct (references_ok event (db w)).
Qed.

Lemma claim_orphan w :
  oracle w = [] -> outlook channel event w = orphaned ->
  claim channel event (now w - CLAIM_LEASE_MS) w = (Throw ForeignKeyViolation, w).
Proof.
  intros Ho [Hrow Href]%outlook_orphaned. unfold claim. rewrite bind_get_now. cbv beta.
  unfold bind, catch. rewrite io_fine by done. by rewrite create_row_orphan.
Qed.

Lemma settle_orphan status error w :
  oracle w = [] -> outlook channel event w = orphaned -> settle channel event status error w = (Throw ForeignKeyViolation, w).
Proof. intros Ho [Hrow Href]%outlook_orphaned. unfold settle. rewrite io_fine by done. by rewrite Hrow, create_row_orphan. Qed.

(** Settling a row that exists. *)
Lemma settle_ok status error w :
  oracle w = [] -> is_Some (row_of channel (ev_eventId event) w) ->
  exists w', settle channel event status error w = (Ok tt, w') /\ log_step w w' /\
    log_entry channel event w' = Some (status, error).
Proof.
  intros Ho [n Hrow]. eexists. split; [apply io_ok; [done|]; rewrite Hrow; reflexivity|].
  apply row_of_Some in Hrow as Hn. destruct Hn as [_ Hkey]. split; [split; [by apply log_only_update|done|done]|].
  unfold log_entry. rewrite row_of_update, Hrow by done. cbn. by rewrite Hkey.
Qed.

(** *** Sending *)

Lemma deliver_ok d w : oracle w = [] -> deliver d w = (Ok tt, set_delivered (delivered w ++ [d]) w).
Proof. exact (exec_ok (fun w => set_delivered (delivered w ++ [d]) w) w). Qed.

(** What a channel that delivers leaves behind. *)
Record sent_step (ds : list Delivery) (w w' : World) : Prop := {
  ss_only : log_only w w';
  ss_delivered : delivered w' = delivered w ++ ds;
  ss_broker : broker w' = broker w;
  ss_row : is_Some (row_of channel (ev_eventId event) w) -> is_Some (row_of channel (ev_eventId event) w');
}.

Lemma sent_step_nil w : sent_step [] w w.
Proof. split; [reflexivity|by rewrite app_nil_r|done|done]. Qed.

Lemma sent_step_app ds1 ds2 w1 w2 w3 : sent_step ds1 w1 w2 -> sent_step ds2 w2 w3 -> sent_step (ds1 ++ ds2) w1 w3.
Proof.
  intros [] []. split; [by etrans| |congruence|auto]. by rewrite ss_delivered1, ss_delivered0, app_assoc.
Qed.

Lemma sent_step_deliver d w : sent_step [d] w (set_delivered (delivered w ++ [d]) w).
Proof. split; try done. by apply log_only_same. Qed.

End Steps.

Section Push.
Context `{UuidSupply} (event : TriggerFiredEvent).

Lemma push_one_ok sub p w :
  oracle w = [] -> exists w', push_one event sub p w = (Ok {| pg_delivered := S (pg_delivered p); pg_lastError := pg_lastError p |}, w') /\
    sent_step WEB_PUSH event (pushes event [s_endpoint sub]) w w'.
Proof.
  intros Ho. unfold push_one. erewrite bind_ok; [|eapply catch_ok; by erewrite bind_ok by by apply deliver_ok]. cbv iota zeta.
  set (w1 := set_delivered _ w). eexists. split.
  - erewrite (bind_ok _ _ _ None); [reflexivity|]. eapply catch_ok. erewrite bind_ok; [reflexivity|]. by apply exec_ok.
  - change (pushes event [s_endpoint sub]) with ([WebPush (s_endpoint sub) (alertTitle event) (alertText event)] ++ []).
    eapply sent_step_app; [apply sent_step_deliver|]. split; [by apply log_only_update|by rewrite app_nil_r|done|].
    intros Hn. rewrite row_of_update by done. by apply fmap_is_Some.
Qed.

Lemma push_all_ok subs p w :
  oracle w = [] -> exists w', push_all event subs p w = (Ok {| pg_delivered := length subs + pg_delivered p; pg_lastError := pg_lastError p |}, w') /\
    sent_step WEB_PUSH event (pushes event (s_endpoint <$> subs)) w w'.
Proof.
  revert p w. induction subs as [|sub subs IH]; intros p w Ho; cbn [push_all].
  { exists w. split; [by destruct p|apply sent_step_nil]. }
  destruct (push_one_ok sub p w Ho) as (w1 & Hrun & Hs1). erewrite bind_ok by exact Hrun.
  destruct (IH {| pg_delivered := S (pg_delivered p); pg_lastError := pg_lastError p |} w1) as (w2 & Hrun2 & Hs2).
  { by rewrite (lo_oracle _ _ _ _ (ss_only _ _ _ _ _ Hs1)). }
  exists w2. split; [rewrite Hrun2; cbn; by rewrite Nat.add_succ_r|].
  change (pushes event (s_endpoint <$> sub :: subs)) with (pushes event [s_endpoint sub] ++ pushes event (s_endpoint <$> subs)).
  by eapply sent_step_app.
Qed.

Lemma fan_out_ok subs already w :
  oracle w = [] -> exists w', fan_out event subs already w = (Ok tt, w') /\
    sent_step WEB_PUSH event (pushes event (s_endpoint <$> find_many (fun s => negb (bool_decide (s_endpoint s ∈ already))) subs)) w w'.
Proof.
  intros Ho. unfold fan_out, find_many. destruct (List.filter _ subs) as [|s rest] eqn:Hp.
  { exists w. split; [done|apply sent_step_nil]. }
  destruct (push_all_ok (s :: rest) {| pg_delivered := 0; pg_lastError := None |} w Ho) as (w' & Hrun & Hs).
  exists w'. split; [by erewrite bind_ok by exact Hrun|exact Hs].
Qed.

End Push.

(** ** The attempt *)

Section Attempt.
Context `{UuidSupply} (config : ChannelConfig) (retryDelaysMs : list Z) (channel : Channel) (event : TriggerFiredEvent).
Notation senders := (CHANNEL_IMPLEMENTATIONS config).
Notation owed := (owed config channel event).

(** The implementation of a channel sends what is owed, or refuses for good
    before it sent anything. *)
Lemma send_ok sender w :
  registry_get senders channel = Some sender -> oracle w = [] ->
  match owed w with
  | inl ds => exists w', nc_send sender event w = (Ok tt, w') /\ sent_step channel event ds w w'
  | inr reason => nc_send sender event w = (Throw (PermanentNotificationError reason), w)
  end.
Proof.
  intros Hs Ho. unfold owed. destruct channel; injection Hs as <-; cbn [nc_send].
  - unfold telegram_send. case_decide; [done|]. erewrite bind_ok; [|by apply query_ok].
    destruct (_ ≫= _) as [[|a chat]|]; [done| |done].
    eexists. split; [by apply deliver_ok|apply sent_step_deliver].
  - unfold email_send. destruct (smtp_configured config); [|done]. cbn [negb]. cbv iota.
    erewrite bind_ok; [|by apply query_ok]. destruct (user_by_id _ w) as [u|]; [|done]. cbn.
    destruct (u_email u) as [|a rest]; [done|]. cbn. destruct (u_emailVerified u); [|done].
    eexists. split; [by apply deliver_ok|apply sent_step_deliver].
  - unfold webpush_send. destruct (vapid_configured config); [|done]. cbn [negb]. cbv iota.
    erewrite bind_ok; [|by apply query_ok]. destruct (find_many _ (pushSubs (db w))) as [|s subs]; [done|].
    erewrite bind_ok; [|by apply query_ok]. by apply fan_out_ok.
Qed.

(** What handling leaves: deliveries, copies on the broker,
    acknowledgements and an entry of the log, and nothing else. *)
Record handled (tags : list nat) (ds : list Delivery) (ms : list Message) (entry : option (NotifStatus * option string)) (w w' : World) : Prop := {
  hd_delivered : delivered w' = delivered w ++ ds;
  hd_published : published (broker w') = published (broker w) ++ ms;
  hd_acked : acked (broker w') = acked (broker w) ++ tags;
  hd_entry : log_entry channel event w' = entry;
  hd_only : log_only channel event w w';
}.

Definition acknowledged (tag : nat) (w : World) : World :=
  set_broker {| published := published (broker w); acked := acked (broker w) ++ [tag] |} w.

Lemma ack_ok tag w : oracle w = [] -> ack tag w = (Ok tt, acknowledged tag w).
Proof.
  intros Ho. eapply catch_ok.
  exact (exec_ok (fun w => set_broker {| published := published (broker w); acked := acked (broker w) ++ [tag] |} w) w Ho).
Qed.

(** An acknowledgement after a run that left the broker alone. *)
Lemma acknowledged_handled [tag] ds w w1 :
  log_only channel event w w1 -> delivered w1 = delivered w ++ ds -> broker w1 = broker w ->
  handled [tag] ds [] (log_entry channel event w1) w (acknowledged tag w1).
Proof.
  intros Ho Hd Hb. split; [exact Hd|cbn; by rewrite Hb, app_nil_r|cbn; by rewrite Hb|done|].
  etrans; [exact Ho|]. by apply log_only_same.
Qed.

(** Publishing a copy and acknowledging. *)
Lemma republish_handled msg key attempts reason tag w w1 :
  oracle w = [] -> log_only channel event w w1 -> delivered w1 = delivered w -> broker w1 = broker w ->
  exists w', bind (republish msg key attempts reason) (fun _ => ack tag) w1 = (Ok tt, w') /\
    handled [tag] [] [republished msg key attempts reason] (log_entry channel event w1) w w'.
Proof.
  intros Ho Hl Hd Hb. assert (oracle w1 = []) as Ho1 by (by rewrite (lo_oracle _ _ _ _ Hl)).
  eexists. split; [rewrite (bind_ok _ _ _ tt (accept (republished msg key attempts reason) w1)); [by apply ack_ok|by apply exec_ok]|].
  split; [cbn; by rewrite Hd, app_nil_r|cbn; by rewrite Hb|cbn; by rewrite Hb|done|].
  etrans; [exact Hl|]. by apply log_only_same.
Qed.

(** A failure that ends the delivery settles its row and parks the message. *)
Lemma terminal_failure tag msg err w w1 :
  oracle w = [] -> is_permanent err || (maxAttempts retryDelaysMs <=? attemptCount msg + 1) = true ->
  is_Some (row_of channel (ev_eventId event) w1) ->
  log_only channel event w w1 -> delivered w1 = delivered w -> broker w1 = broker w ->
  exists w', handleFailure retryDelaysMs channel tag msg event err w1 = (Ok tt, w') /\
    handled [tag] [] [dead_copy channel msg (if is_permanent err then permanent else attempts_exhausted)]
      (Some (FAILED, Some (exn_message err))) w w'.
Proof.
  intros Ho Hterm Hrow Hl Hd Hb. unfold handleFailure. rewrite Hterm.
  destruct (settle_ok channel event FAILED (Some (exn_message err)) w1) as (w2 & Hrun & [Hl2 Hd2 Hb2] & <-).
  { by rewrite (lo_oracle _ _ _ _ Hl). }
  { exact Hrow. }
  erewrite bind_ok by exact Hrun. apply republish_handled; [done|by etrans|congruence..].
Qed.

Lemma dispatch_free w :
  oracle w = [] -> outlook channel event w = free ->
  match owed w with
  | inl ds => exists w', dispatch senders channel event w = (Ok sent, w') /\ log_only channel event w w' /\
      delivered w' = delivered w ++ ds /\ broker w' = broker w /\ log_entry channel event w' = Some (SENT, None)
  | inr reason => exists w', dispatch senders channel event w = (Throw (PermanentNotificationError reason), w') /\
      log_only channel event w w' /\ delivered w' = delivered w /\ broker w' = broker w /\ is_Some (row_of channel (ev_eventId event) w')
  end.
Proof.
  intros Ho Hfree. assert (exists sender, registry_get senders channel = Some sender) as [sender Hs] by (destruct channel; by eexists).
  destruct (claim_free channel event w Ho Hfree) as (w1 & Hclaim & [Hl Hd Hb] & Hrow & Hreached).
  assert (oracle w1 = []) as Ho1 by (by rewrite (lo_oracle _ _ _ _ Hl)).
  pose proof (send_ok sender w1 Hs Ho1) as Hsend. rewrite (owed_log_only _ _ _ _ _ Hl Hreached) in Hsend.
  unfold dispatch. rewrite Hs, bind_get_now. cbv beta. destruct (owed w) as [ds|reason].
  - destruct Hsend as (w2 & Hrun & [Hl2 Hd2 Hb2 Hrow2]).
    destruct (settle_ok channel event SENT None w2) as (w3 & Hset & [Hl3 Hd3 Hb3] & He).
    { by rewrite (lo_oracle _ _ _ _ Hl2). }
    { by apply Hrow2. }
    exists w3. split.
    + erewrite bind_ok by exact Hclaim. cbv iota. erewrite bind_ok by (eapply catch_ok; exact Hrun). by erewrite bind_ok by exact Hset.
    + split_and!; [by etrans; [|etrans]|congruence|congruence|done].
  - exists (upd_notifications (fun t => (update_many (fun n => is_row channel (ev_eventId event) n && bool_decide (n_status n = PENDING)) (set_claimedAt None) t).1) w1).
    split_and!; [|etrans; [exact Hl|]; apply log_only_update; [by intros m [? _]%andb_true_iff|done]|done|done|].
    + erewrite bind_ok by exact Hclaim. cbv iota. unfold bind at 1, catch at 1. rewrite Hsend.
      assert (forall w0, oracle w0 = [] -> releaseClaim_ channel event w0 = (Ok tt, _)) as Hrel by
        (intros w0 Hw0; eapply catch_ok; by apply exec_ok).
      by erewrite bind_ok by by apply Hrel.
    + rewrite row_of_update by done. by apply fmap_is_Some.
Qed.

(** A handler whose body answers. *)
Lemma handle_ok tag msg w w' :
  m_content msg = Json event ->
  catch (do* dispatch senders channel event in ack tag) (fun err => handleFailure retryDelaysMs channel tag msg event err) w = (Ok tt, w') ->
  handle config retryDelaysMs channel tag msg w = (Ok tt, w').
Proof. intros Hm Hrun. eapply catch_ok. unfold process. by rewrite Hm. Qed.

Lemma handle_thrown tag msg err w w1 w' :
  m_content msg = Json event -> dispatch senders channel event w = (Throw err, w1) ->
  handleFailure retryDelaysMs channel tag msg event err w1 = (Ok tt, w') ->
  handle config retryDelaysMs channel tag msg w = (Ok tt, w').
Proof. intros Hm Hd Hf. apply handle_ok; [done|]. unfold catch, bind. by rewrite Hd. Qed.

Lemma handled_free tag msg w :
  oracle w = [] -> m_content msg = Json event -> outlook channel event w = free ->
  exists w', handle config retryDelaysMs channel tag msg w = (Ok tt, w') /\
    match owed w with
    | inl ds => handled [tag] ds [] (Some (SENT, None)) w w'
    | inr reason => handled [tag] [] [dead_copy channel msg permanent] (Some (FAILED, Some reason)) w w'
    end.
Proof.
  intros Ho Hm Hfree. pose proof (dispatch_free w Ho Hfree) as Hd. destruct (owed w) as [ds|reason].
  - destruct Hd as (w1 & Hrun & Hl & Hdel & Hb & He). exists (acknowledged tag w1). split.
    + apply handle_ok; [done|]. eapply catch_ok. erewrite bind_ok by exact Hrun. apply ack_ok. by rewrite (lo_oracle _ _ _ _ Hl).
    + rewrite <- He. by apply acknowledged_handled.
  - destruct Hd as (w1 & Hrun & Hl & Hdel & Hb & Hrow).
    destruct (terminal_failure tag msg (PermanentNotificationError reason) w w1) as (w' & Hf & Hh); try done.
    exists w'. split; [by eapply handle_thrown|exact Hh].
Qed.

(** An attempt that fails for a passing reason and is not the last. *)
Lemma handled_retry tag msg err w :
  oracle w = [] -> m_content msg = Json event -> dispatch senders channel event w = (Throw err, w) -> is_permanent err = false ->
  (maxAttempts retryDelaysMs <=? attemptCount msg + 1) = false ->
  exists w', handle config retryDelaysMs channel tag msg w = (Ok tt, w') /\
    handled [tag] [] [retry_copy channel msg] (log_entry channel event w) w w'.
Proof.
  intros Ho Hm Hd Hp Hlast.
  destruct (republish_handled msg (retryRoutingKeyFor channel (attemptCount msg + 1)) (attemptCount msg + 1) None tag w w)
    as (w' & Hf & Hh); try done.
  exists w'. split; [|exact Hh]. eapply handle_thrown; [done|exact Hd|]. unfold handleFailure. rewrite Hp, Hlast. exact Hf.
Qed.

(** A claim that throws is what the dispatch throws. *)
Lemma dispatch_claim_throws w e w' :
  claim channel event (now w - CLAIM_LEASE_MS) w = (Throw e, w') -> dispatch senders channel event w = (Throw e, w').
Proof.
  intros Hc. unfold dispatch. destruct (registry_get senders channel) eqn:Hs; [|by destruct channel].
  rewrite bind_get_now. cbv beta. unfold bind. by rewrite Hc.
Qed.

Lemma dispatch_refused w n :
  oracle w = [] -> log_unique w -> row_of channel (ev_eventId event) w = Some n -> takeable (now w - CLAIM_LEASE_MS) n = false ->
  dispatch senders channel event w =
    (if decide (n_status n = SENT) then Ok skipped else Throw (DeliveryInFlightError channel), w).
Proof.
  intros Ho Hu Hrow Ht. pose proof (claim_refused channel event w n Ho Hu Hrow Ht) as Hc.
  unfold dispatch. destruct (registry_get senders channel) eqn:Hs; [|by destruct channel].
  rewrite bind_get_now. cbv beta. erewrite bind_ok by exact Hc. by case_decide.
Qed.

(** C4. One attempt implements its reference. When calls answer, handling a
    message does exactly this. If nothing stands in the way, what is owed to
    the user on the channel is sent and the delivery is logged as sent, or,
    when nothing can be owed, it is logged as failed with the reason and one
    copy is parked. A delivery that was sent before sends nothing. One that
    another consumer holds goes to its next retry stage, or is parked after
    the last. One that has no row, and can get none because its user or its
    trigger is gone, goes to its next retry stage without a trace in the log.
    In all these cases the message is acknowledged, once. On the last attempt
    of a message of the last kind nothing happens at all and it is left
    unacknowledged. Nothing else in the world changes. *)
Theorem attempt_refines tag msg w :
  oracle w = [] -> log_unique w -> m_content msg = Json event ->
  let '(ds, ms, entry, acknowledges) := attempt_spec config retryDelaysMs channel event msg w in
  exists w', handle config retryDelaysMs channel tag msg w = (Ok tt, w') /\
    handled (if (acknowledges : bool) then [tag] else []) ds ms entry w w'.
Proof.
  intros Ho Hu Hm. unfold attempt_spec. destruct (outlook channel event w) eqn:Hout.
  - pose proof (handled_free tag msg w Ho Hm Hout) as Hh. by destruct (owed w).
  - unfold outlook in Hout. destruct (row_of channel (ev_eventId event) w) as [n|] eqn:Hrow; [|by case_match].
    destruct (takeable _ n) eqn:Ht; [done|]. pose proof (dispatch_refused w n Ho Hu Hrow Ht) as Hd. case_decide; [|done].
    exists (acknowledged tag w). split; [|apply acknowledged_handled; [reflexivity|by rewrite app_nil_r|done]].
    apply handle_ok; [done|]. eapply catch_ok. erewrite bind_ok; [by apply ack_ok|exact Hd].
  - unfold outlook in Hout. destruct (row_of channel (ev_eventId event) w) as [n|] eqn:Hrow; [|by case_match].
    destruct (takeable _ n) eqn:Ht; [done|]. pose proof (dispatch_refused w n Ho Hu Hrow Ht) as Hd. case_decide; [done|].
    destruct (maxAttempts retryDelaysMs <=? attemptCount msg + 1) eqn:Hlast; [|by eapply handled_retry].
    destruct (terminal_failure tag msg (DeliveryInFlightError channel) w w) as (w' & Hf & Hh); try done.
    exists w'. split; [by eapply handle_thrown|exact Hh].
  - pose proof (dispatch_claim_throws w _ _ (claim_orphan channel event w Ho Hout)) as Hd.
    assert (log_entry channel event w = None) as Hno by (apply outlook_orphaned in Hout as [Hrow _]; unfold log_entry; by rewrite Hrow).
    destruct (maxAttempts retryDelaysMs <=? attemptCount msg + 1) eqn:Hlast; [|rewrite <- Hno; by eapply handled_retry].
    exists w. split.
    + unfold handle, catch at 1, process. rewrite Hm. unfold catch, bind. rewrite Hd. unfold handleFailure. rewrite Hlast.
      cbn [is_permanent orb ForeignKeyViolation]. unfold bind. by rewrite (settle_orphan channel event _ _ w Ho Hout).
    + split; rewrite ?app_nil_r; done.
Qed.

End Attempt.

(** ** A concrete attempt *)

(** Telegram is linked: the alert is sent and logged. *)
Lemma attempt_refines_witness :
  exists w', sample_handle (sample_message None) (notifier_world notifier_db) = (Ok tt, w') /\
    delivered w' = [TelegramMessage "42" ("🌦️ " +:+ alertText (sample_event "e1"))] /\
    acked (broker w') = [7%nat] /\ log_entry TELEGRAM (sample_event "e1") w' = Some (SENT, None).
Proof.
  destruct (attempt_refines (H:=sample_uuids) sample_config sample_delays TELEGRAM (sample_event "e1") 7 (sample_message None)
    (notifier_world notifier_db)) as (w' & Hrun & [Hd _ Ha He _]);
    [reflexivity|apply notifier_world_unique|reflexivity|].
  exists w'. split_and!; [exact Hrun|exact Hd|exact Ha|exact He].
Defined.
