(* ===== verification/Arrival.v ===== *)
(** * A due alert arrives

    The whole way of an alert when nothing is in the way: the poll cycle of
    Alerts.v that stages it, the relay passes of Outbox.v that hand it to the
    broker, the queue it is routed to, and the attempt of Attempt.v that
    sends it to its owner. *)

From S2P Require Import Prelude JsNumber Enums Conditions QuietHours TriggerStateMachine Location Contracts Table World Samples Effects RedisService Weather Outbox Watcher Async Cycle CycleProps Alerts Format DeliveryLog Channels Notifier Consumer Attempt.

Section Arrival.
Context `{UuidSupply} `{Intl} `{!IntlLaws} `{WeatherUpstream}.
Context (shard : ShardConfig) (weatherTtl : Z) (batchSize : nat) (config : ChannelConfig) (retryDelaysMs : list Z).

(** Events are logged under ids that were drawn. *)
Definition log_keys (w : World) : Prop :=
  forall n e, n ∈ notifications (db w) -> n_eventId n = Some e -> drawn w e.

Definition relay_passes (n : nat) (w : World) : World := Nat.iter n (fun w => (runRelay batchSize w).2) w.

(** *** The relay *)

Lemma relay_passes_keeps (R : relation World) `{!WorldOrder R} n w : keeps R (runRelay batchSize) -> R w (relay_passes n w).
Proof. intros Hk. induction n as [|n IH]; [reflexivity|]. etrans; [exact IH|apply Hk]. Qed.

Lemma runRelay_same_triggers : keeps same_triggers (runRelay batchSize).
Proof. unfold runRelay. keeps_tac. apply flush_same_triggers. Qed.

(** Enough passes have handed over whatever was on its way. *)
Lemma relay_passes_send n w row :
  quiet w -> (length (staged w) <= n * batchSize)%nat -> accounted row w ->
  row_message row ∈ published (broker (relay_passes n w)).
Proof.
  intros Hq Hn Hacc. destruct (runRelay_passes batchSize n w Hq) as (_ & _ & Hp). fold (relay_passes n w) in Hp.
  rewrite Hp, take_ge by done. destruct Hacc as [Hm|[Hin Hpd]]; [set_solver|].
  apply elem_of_app. right. apply list_elem_of_fmap_2. unfold staged. by rewrite elem_of_order_asc, elem_of_find_many.
Qed.

(** *** The message finds its references *)

Lemma active_user ts snap w t :
  settled shard weatherTtl w ts snap -> t ∈ ts -> exists u, u ∈ users (db w) /\ u_id u = wt_userId t.
Proof.
  intros Hs Ht. pose proof (st_active _ _ _ _ _ Hs) as Ha. apply mapM_Some in Ha.
  apply list_elem_of_lookup in Ht as [i Hi]. destruct (Forall2_lookup_r _ _ _ _ _ Ha Hi) as (row & _ & Hu).
  apply fmap_Some in Hu as (u & Hu & ->). apply find_first_Some in Hu as [Hin Hid%bool_decide_eq_true]. by exists u.
Qed.

Lemma alert_references ts snap w d t eventId :
  settled shard weatherTtl w ts snap -> t ∈ ts -> users d = users (db w) -> t_id <$> triggers d = t_id <$> triggers (db w) ->
  references_ok (alert_of w snap t eventId) d = true.
Proof.
  intros Hs Ht Hu Hids. destruct (active_user ts snap w t Hs Ht) as (u & Hin & Hid).
  destruct (active_row _ _ _ _ _ _ Hs Ht) as (i & row & u' & Hi & Hrow).
  apply andb_true_iff. split; apply existsb_exists.
  - exists u. rewrite Hu. split; [by apply list_elem_of_In|by apply bool_decide_true].
  - assert (wt_id t ∈ t_id <$> triggers d) as (r & Hr & Hrin)%list_elem_of_fmap.
    { rewrite Hids, Hrow. apply (list_elem_of_fmap_2 t_id _ row). by eapply list_elem_of_lookup_2. }
    exists r. split; [by apply list_elem_of_In|by apply bool_decide_true].
Qed.

(** A new event has no row. *)
Lemma new_event_free w channel eventId :
  log_keys w -> ~ drawn w eventId -> row_of channel eventId w = None.
Proof.
  intros Hlog Hnew. apply find_first_None, Forall_forall. intros n Hn. unfold is_row.
  case_bool_decide as He; [|done]. by destruct Hnew; eapply Hlog.
Qed.

(** What a delivery is owed is read from tables the watcher leaves alone. *)
Lemma owed_bystanders w w' channel event :
  bystanders w w' -> owed config channel event w' = owed config channel event w.
Proof.
  intros (Hu & Hn & Hp & _). unfold owed, user_by_id, reached, row_of. by rewrite Hu, Hn, Hp.
Qed.

(** C2. A due alert arrives. When calls answer, the locks are free and the
    weather can be read, then after a poll cycle and as many relay passes as
    drain the outbox, the broker holds for every due trigger and each of its
    channels a message that is routed to that channel's queue, and handling
    it sends the owner exactly what the channel owes for the alert and logs
    it as sent, or, when the owner cannot be reached there, logs it as failed
    with the reason and sends nothing. *)
Theorem due_alert_arrives ts snap w t channel :
  settled shard weatherTtl w ts snap -> quiet w -> peek (cycleLockKey shard) w = None -> log_keys w ->
  t ∈ ts -> due w snap t -> channel ∈ wt_channels t ->
  exists w1 eventId row,
    let event := alert_of w snap t eventId in
    runCycle shard weatherTtl batchSize [] w = (Ok tt, w1) /\ m_content (row_message row) = Json event /\
    forall n, (length (staged w1) <= n * batchSize)%nat ->
      row_message row ∈ published (broker (relay_passes n w1)) /\
      queueNameFor channel ∈ routed_to (setupTopology retryDelaysMs (registeredChannels (CHANNEL_IMPLEMENTATIONS config)))
        (m_exchange (row_message row)) (m_routingKey (row_message row)) /\
      forall tag, exists w2, handle config retryDelaysMs channel tag (row_message row) (relay_passes n w1) = (Ok tt, w2) /\
        match owed config channel event w with
        | inl ds => delivered w2 = delivered w ++ ds /\ log_entry channel event w2 = Some (SENT, None)
        | inr reason => delivered w2 = delivered w /\ log_entry channel event w2 = Some (FAILED, Some reason)
        end.
Proof.
  intros Hs Hq Hfree Hlog Ht Hdue Hc. destruct (cycle_run shard weatherTtl batchSize ts snap w Hs Hq Hfree) as (w1 & l & Hrun & Hl & Hp).
  set (wc := cmd_del (cycleLockKey shard) w1) in *.
  destruct (cycle_alert shard ts snap w w1 l t Hp Hl Ht Hdue) as (eventId & Hnew & Hrows).
  destruct (Hrows channel Hc) as (row & Hk & Hpay & Hacc). exists wc, eventId, row. cbv zeta.
  split; [exact Hrun|]. split; [cbn; by rewrite Hpay|]. intros n Hn.
  pose proof (released_quiet _ _ _ _ _ _ Hp) as Hqc. fold wc in Hqc.
  pose proof (relay_passes_keeps bystanders n wc (runRelay_bystanders batchSize)) as Hby.
  pose proof (runCycle_bystanders shard weatherTtl batchSize [] w) as Hby0. rewrite Hrun in Hby0.
  assert (bystanders w (relay_passes n wc)) as Hby1 by (by etrans).
  pose proof (relay_passes_keeps same_triggers n wc runRelay_same_triggers) as Htr.
  destruct (runRelay_passes batchSize n wc Hqc) as ((Ho & _) & _). fold (relay_passes n wc) in Ho.
  split; [by apply relay_passes_send|]. split.
  { change (m_routingKey (row_message row)) with (o_routingKey row). rewrite Hk. by apply routed_main. } intros tag.
  assert (references_ok (alert_of w snap t eventId) (db (relay_passes n wc)) = true) as Href.
  { apply (alert_references ts); [done|done|apply Hby1|]. rewrite (proj1 Htr). apply (pg_ids _ _ _ _ _ _ Hp). }
  assert (outlook channel (alert_of w snap t eventId) (relay_passes n wc) = free) as Hout.
  { assert (row_of channel eventId (relay_passes n wc) = None) as Hno.
    { unfold row_of. destruct Hby1 as (_ & -> & _). by apply (new_event_free w). }
    unfold outlook. change (ev_eventId (alert_of w snap t eventId)) with eventId. by rewrite Hno, Href. }
  destruct (handled_free config retryDelaysMs channel (alert_of w snap t eventId) tag (row_message row) (relay_passes n wc))
    as (w2 & Hh & Hres); [exact Ho|by cbn; rewrite Hpay|exact Hout|].
  exists w2. split; [exact Hh|]. rewrite (owed_bystanders w) in Hres by done. destruct Hby1 as (_ & _ & _ & Hd & _).
  destruct (owed _ _ _ w) as [ds|reason]; destruct Hres as [Hd2 _ _ He _]; rewrite Hd2, Hd; (split; [|exact He]); [done|apply app_nil_r].
Qed.

End Arrival.

(** ** A concrete alert *)

(** The frost at the second location reaches its owner by mail. *)
Lemma due_alert_arrives_witness :
  exists w1 row w2, runCycle (H:=sample_uuids) (H0:=sample_intl) (H1:=freezing_upstream) single_shard 240 10 [] two_locations = (Ok tt, w1) /\
    handle (H:=sample_uuids) sample_config sample_delays EMAIL 7 (row_message row) (relay_passes (H:=sample_uuids) 10 (length (staged w1)) w1) = (Ok tt, w2) /\
    ev_triggerId (o_payload row) = "t2" /\ length (delivered w2) = 1%nat.
Proof.
  destruct (due_alert_arrives (H:=sample_uuids) (H0:=sample_intl) (H2:=freezing_upstream) single_shard 240 10 sample_config sample_delays
    two_watched (fun _ => freezing) two_locations
    (Repository.project (db two_locations) (sample_trigger "t2" 48 2) sample_user) EMAIL)
    as (w1 & eventId & row & Hrun & Hcontent & Hrest).
  - apply two_locations_settled.
  - apply two_locations_quiet.
  - reflexivity.
  - intros n e []%elem_of_nil.
  - exact (list_elem_of_lookup_2 two_watched 1%nat _ eq_refl).
  - vm_compute. reflexivity.
  - exact (list_elem_of_lookup_2 [TELEGRAM; EMAIL] 1%nat EMAIL eq_refl).
  - destruct (Hrest (length (staged w1))) as (Hpub & _ & Hhandle); [lia|].
    destruct (Hhandle 7%nat) as (w2 & Hh & Hd & _). exists w1, row, w2. split_and!; [exact Hrun|exact Hh|by injection Hcontent as ->|by rewrite Hd].
Defined.
