(* ===== verification/Shutdown.v ===== *)
(** * The consumer at run time

    [apps/notifier/src/messaging/rabbit-consumer.service.ts]: messages are
    delivered while fewer than [prefetch] are unacknowledged, handlers run
    next to each other, and a shutdown cancels the consumer, drains what is in
    flight and closes the channel. *)

From S2P Require Import Prelude JsNumber Enums Contracts Table World Samples Effects Outbox Format DeliveryLog Channels Notifier Consumer Async Deliveries.

(** ** [handle], suspended at each call *)

Section Functions.
Context `{UuidSupply} (config : ChannelConfig) (retryDelaysMs : list Z).
Local Open Scope async_scope.

Definition async_park (channel : Channel) (tag : nat) (msg : Message) (reason : DeadReason) : Proc unit :=
  do* await (republish msg (deadRoutingKeyFor channel) (attemptCount msg) (Some reason)) in
  await (ack tag).

Definition async_handleFailure (channel : Channel) (tag : nat) (msg : Message) (event : TriggerFiredEvent) (err : exn) : Proc unit :=
  let thisAttempt := attemptCount msg + 1 in
  if is_permanent err || (maxAttempts retryDelaysMs <=? thisAttempt) then
    do* await (settle channel event FAILED (Some (exn_message err))) in
    async_park channel tag msg (if is_permanent err then permanent else attempts_exhausted)
  else
    do* await (republish msg (retryRoutingKeyFor channel thisAttempt) thisAttempt None) in
    await (ack tag).

Definition async_process (channel : Channel) (tag : nat) (msg : Message) : Proc unit :=
  match m_content msg with
  | Garbage _ => async_park channel tag msg unparseable
  | Json event =>
      pcatch (do* async_dispatch config channel event in await (ack tag))
             (fun err => async_handleFailure channel tag msg event err)
  end.

Definition async_handle (channel : Channel) (tag : nat) (msg : Message) : Proc unit :=
  pcatch (async_process channel tag msg) (fun _ => resolve tt).

Lemma alone_handle channel tag msg w :
  alone (async_handle channel tag msg) w = handle config retryDelaysMs channel tag msg w.
Proof.
  unfold async_handle, handle, async_process, process, async_handleFailure, handleFailure, async_park, park.
  alone_tac; auto using alone_dispatch.
Qed.

(** It settles, and never with an error. *)
Lemma handle_settles channel tag msg w r w' :
  alone (async_handle channel tag msg) w = (r, w') -> forall e, r <> Throw e.
Proof.
  rewrite alone_handle. unfold handle, catch, ret.
  destruct (process _ _ _ _ _ w) as [[u|e|] w1]; intros [= <- _]; done.
Qed.

End Functions.

(** ** The state *)

Definition DRAIN_TIMEOUT_MS : Z := 30000.
Definition DRAIN_POLL_MS : Z := 50.

(** [onModuleDestroy]: not called, cancelling, in the loop of [drain] until
    its deadline and asleep until [wake], closing, closed. *)
Inductive Phase :=
  | Running
  | Cancelling
  | Draining (deadline wake : Z)
  | Closing
  | Closed.

(** One queue and the consumer on it. [arrived] is everything ever routed to
    the queue, [taken] what was delivered on this channel with its tag,
    [handlers] the calls of [handle] in progress, by tag. *)
Record Runtime := {
  world : World;
  arrived : list Message;
  ready : list Message;
  taken : list (nat * Message);
  handlers : list (nat * Proc unit);
  inFlight : nat;
  consuming : bool;
  phase : Phase;
}.

Definition upd_world (w : World) (s : Runtime) : Runtime :=
  {| world := w; arrived := arrived s; ready := ready s; taken := taken s; handlers := handlers s;
     inFlight := inFlight s; consuming := consuming s; phase := phase s |}.
Definition set_phase (p : Phase) (s : Runtime) : Runtime :=
  {| world := world s; arrived := arrived s; ready := ready s; taken := taken s; handlers := handlers s;
     inFlight := inFlight s; consuming := consuming s; phase := p |}.
Definition set_handlers (l : list (nat * Proc unit)) (n : nat) (s : Runtime) : Runtime :=
  {| world := world s; arrived := arrived s; ready := ready s; taken := taken s; handlers := l;
     inFlight := n; consuming := consuming s; phase := phase s |}.

(** Delivered and not acknowledged. *)
Definition unacked (s : Runtime) : list (nat * Message) :=
  find_many (fun d => negb (bool_decide (d.1 ∈ acked (broker (world s))))) (taken s).
Definition settled (s : Runtime) : list (nat * Message) :=
  find_many (fun d => bool_decide (d.1 ∈ acked (broker (world s)))) (taken s).

(** ** What can happen *)

Inductive Turn :=
  | Arrives (msg : Message)
  | Delivers (tag : nat)
  | Handles (i : nat)
  | Stops
  | Cancels (ok : bool)
  | Checks
  | Closes
  | Dies_
  | Passes (ms : Z).

(** The channel is gone and the process with it, killed or at the end of its
    shutdown: what was not acknowledged goes back to the front of the queue. *)
Definition requeue (s : Runtime) : Runtime :=
  {| world := world s; arrived := arrived s; ready := map snd (unacked s) ++ ready s; taken := settled s;
     handlers := []; inFlight := 0; consuming := false; phase := Closed |}.

Section Turns.
Context `{UuidSupply} (config : ChannelConfig) (retryDelaysMs : list Z) (prefetch : nat) (channel : Channel).

(** [prefetch(0)] is no limit. *)
Definition has_room (s : Runtime) : bool :=
  (prefetch =? 0)%nat || (length (unacked s) <? prefetch)%nat.

Definition fresh_tag (tag : nat) (s : Runtime) : bool :=
  negb (bool_decide (tag ∈ acked (broker (world s)))) && negb (bool_decide (tag ∈ fst <$> taken s)).

(** A turn that is not possible changes nothing. *)
Definition turn (t : Turn) (s : Runtime) : Runtime :=
  match t with
  | Arrives msg =>
      {| world := world s; arrived := arrived s ++ [msg]; ready := ready s ++ [msg]; taken := taken s;
         handlers := handlers s; inFlight := inFlight s; consuming := consuming s; phase := phase s |}
  | Delivers tag =>
      match ready s with
      | msg :: rest =>
          if consuming s && has_room s && fresh_tag tag s then
            {| world := world s; arrived := arrived s; ready := rest; taken := taken s ++ [(tag, msg)];
               handlers := handlers s ++ [(tag, async_handle config retryDelaysMs channel tag msg)];
               inFlight := S (inFlight s); consuming := true; phase := phase s |}
          else s
      | [] => s
      end
  | Handles i =>
      match handlers s !! i with
      | None => s
      | Some (tag, p) =>
          match resume p (world s) with
          | (Some (Return _), w') => upd_world w' (set_handlers (delete i (handlers s)) (pred (inFlight s)) s)
          | (Some p', w') => upd_world w' (set_handlers (<[i := (tag, p')]> (handlers s)) (inFlight s) s)
          | (None, w') => requeue (upd_world w' s)
          end
      end
  | Stops => match phase s with Running => set_phase Cancelling s | _ => s end
  | Cancels ok =>
      match phase s with
      | Cancelling =>
          {| world := world s; arrived := arrived s; ready := ready s; taken := taken s; handlers := handlers s;
             inFlight := inFlight s; consuming := if (ok : bool) then false else consuming s;
             phase := Draining (now (world s) + DRAIN_TIMEOUT_MS) (now (world s)) |}
      | _ => s
      end
  | Checks =>
      match phase s with
      | Draining deadline wake =>
          if now (world s) <? wake then s
          else if (0 <? inFlight s)%nat && (now (world s) <? deadline)
          then set_phase (Draining deadline (now (world s) + DRAIN_POLL_MS)) s
          else set_phase Closing s
      | _ => s
      end
  | Closes => match phase s with Closing => requeue s | _ => s end
  | Dies_ => requeue s
  | Passes ms => upd_world (sleep (Z.abs ms) (world s)).2 s
  end.

Definition turns (ts : list Turn) (s : Runtime) : Runtime := fold_left (fun s t => turn t s) ts s.

End Turns.

(** The service as [onModuleInit] leaves it. *)
Definition started (w : World) : Runtime :=
  {| world := w; arrived := []; ready := []; taken := []; handlers := []; inFlight := 0; consuming := true;
     phase := Running |}.

(** ** A handler acknowledges its own message, as the last thing it does *)

Definition is_return {A} (p : Proc A) : Prop := match p with Return _ => True | _ => False end.

(** What becomes of the outcome of a call. *)
Definition after_call {A B} (P : Proc A -> Prop) (r : outcome B) (k : B + exn -> Proc A) : Prop :=
  match r with Ok b => P (k (inl b)) | Throw e => P (k (inr e)) | Crash => True end.

Fixpoint acks_last (tag : nat) {A} (p : Proc A) : Prop :=
  match p with
  | Return _ => True
  | Await call k => forall w,
      (acked (broker (call w).2) = acked (broker w) /\
       match (call w).1 with Ok b => acks_last tag (k (inl b)) | Throw e => acks_last tag (k (inr e)) | Crash => True end) \/
      (acked (broker (call w).2) = acked (broker w) ++ [tag] /\ after_call is_return (call w).1 k)
  end.

Definition acked_same (w w' : World) : Prop := acked (broker w') = acked (broker w).

#[global] Instance acked_same_order : WorldOrder acked_same.
Proof.
  unfold acked_same. split; [split|]; [done|congruence|].
  intros w. by destruct (tick_spec w) as (_ & _ & _ & _ & -> & _).
Qed.

Lemma broker_acked {A} (m : M A) : keeps broker_same m -> keeps acked_same m.
Proof. intros Hm w. unfold acked_same. by rewrite (Hm w). Qed.

Lemma acks_last_then tag {A B} (p : Proc A) (f : A + exn -> Proc B) :
  acks_last tag p -> (forall r, is_return (f r)) -> acks_last tag (then_ p f).
Proof.
  intros Hp Hf. induction p as [r|C call k IH]; cbn; [specialize (Hf r); by destruct (f r)|].
  intros w. destruct (Hp w) as [[Hs Hk]|[Hs Hk]]; [left|right]; (split; [done|]).
  - destruct ((call w).1); auto.
  - unfold after_call in *. destruct ((call w).1) as [b|e|]; [|..|done].
    + destruct (k (inl b)); [by apply Hf|done].
    + destruct (k (inr e)); [by apply Hf|done].
Qed.

Lemma acks_last_quiet tag {A B} (p : Proc A) (f : A + exn -> Proc B) :
  every_call acked_same p -> (forall r, acks_last tag (f r)) -> acks_last tag (then_ p f).
Proof.
  intros Hp Hf. induction p as [r|C call k IH]; cbn; [done|]. destruct Hp as [Hc Hk]. intros w. left.
  split; [apply Hc|]. destruct ((call w).1); auto.
Qed.

Lemma acks_last_quiet_then tag {A B C} (p : Proc A) (f : A + exn -> Proc B) (g : B + exn -> Proc C) :
  every_call acked_same p -> (forall r, acks_last tag (then_ (f r) g)) -> acks_last tag (then_ (then_ p f) g).
Proof.
  intros Hp Hf. induction p as [r|D call k IH]; cbn; [done|]. destruct Hp as [Hc Hk]. intros w. left.
  split; [apply Hc|]. destruct ((call w).1); auto.
Qed.

Lemma ack_step tag w :
  (acked (broker (ack tag w).2) = acked (broker w) \/ acked (broker (ack tag w).2) = acked (broker w) ++ [tag]) /\
  forall e, (ack tag w).1 <> Throw e.
Proof.
  split; [|by apply ack_run]. unfold ack, catch, exec. destruct (io _ w) as [r w'] eqn:Hio.
  destruct (tick_spec w) as (_ & _ & _ & _ & Hb & _).
  apply io_effect in Hio as [[-> _]|[-> _]]; [left|right]; destruct r; cbn; by rewrite Hb.
Qed.

(** The acknowledgement and whatever would follow its failure. *)
Lemma acks_last_ack tag (f : unit + exn -> Proc unit) :
  (forall u, is_return (f (inl u))) -> acks_last tag (then_ (await (ack tag)) f).
Proof.
  intros Hf w. destruct (ack_step tag w) as [[Hs|Hs] Hno]; [left|right]; (split; [done|]);
    destruct ((ack tag w).1) as [u|e|]; cbn; try done; try by destruct (Hno e).
  specialize (Hf u). by destruct (f (inl u)).
Qed.

Section Handlers.
Context `{UuidSupply} (config : ChannelConfig) (retryDelaysMs : list Z).
Notation async_handle := (async_handle config retryDelaysMs).

Lemma acked_dispatch channel event : every_call acked_same (async_dispatch config channel event).
Proof. eapply every_call_mono, async_dispatch_beside. intros w w' [Hb _]. unfold acked_same. by rewrite Hb. Qed.

Lemma republish_acked msg key attempts reason : keeps acked_same (republish msg key attempts reason).
Proof. by apply keeps_exec; [apply _|]. Qed.

Lemma handle_acks_last channel tag msg : acks_last tag (async_handle channel tag msg).
Proof.
  assert (forall r, is_return ((fun r : unit + exn => match r with inl a => resolve a | inr _ => resolve tt end) r)) as Hend
    by by intros [].
  assert (forall u : unit, is_return (resolve u)) as Hres by done.
  assert (forall reason, acks_last tag (async_park channel tag msg reason)) as Hpark.
  { intros reason. unfold async_park. apply acks_last_quiet; [apply every_call_await, republish_acked|].
    intros [u|e]; [|done]. apply (acks_last_ack tag (fun r => Return r)). done. }
  assert (forall event err, acks_last tag (async_handleFailure retryDelaysMs channel tag msg event err)) as Hfail.
  { intros event err. unfold async_handleFailure. destruct (is_permanent err || _); apply acks_last_quiet.
    - apply every_call_await, broker_acked, settle_broker.
    - intros [u|e]; [apply Hpark|done].
    - apply every_call_await, republish_acked.
    - intros [u|e]; [|done]. apply (acks_last_ack tag (fun r => Return r)). done. }
  unfold async_handle, pcatch. apply acks_last_then; [|done].
  unfold async_process. destruct (m_content msg) as [event|bytes]; [|apply Hpark].
  unfold pcatch, pbind. apply acks_last_quiet_then; [apply acked_dispatch|].
  intros [o|e]; [by apply acks_last_ack|apply Hfail].
Qed.

End Handlers.

(** ** What holds at every moment *)

Section Runtime.
Context `{UuidSupply} (config : ChannelConfig) (retryDelaysMs : list Z) (prefetch : nat) (channel : Channel).
Notation turn := (turn config retryDelaysMs prefetch channel).

(** A turn of this consumer, or of the rest of the system, which acknowledges
    other deliveries than these. *)
Inductive goes : Runtime -> Runtime -> Prop :=
  | goes_turn t s : goes s (turn t s)
  | goes_elsewhere s w' :
      now (world s) <= now w' ->
      (forall tag, tag ∈ fst <$> taken s -> tag ∈ acked (broker w') <-> tag ∈ acked (broker (world s))) ->
      goes s (upd_world w' s).

Definition runtime_ok (s : Runtime) : Prop :=
  arrived s ≡ₚ ready s ++ map snd (taken s) /\
  NoDup (fst <$> taken s) /\
  NoDup (fst <$> handlers s) /\
  Forall (fun h => h.1 ∈ fst <$> unacked s /\ acks_last h.1 h.2) (handlers s) /\
  inFlight s = length (handlers s) /\
  ((0 < prefetch)%nat -> (length (unacked s) <= prefetch)%nat) /\
  (phase s = Closed -> unacked s = [] /\ handlers s = [] /\ consuming s = false).

(** What is unacknowledged depends on the world only through the deliveries
    taken here. *)
Lemma unacked_elem s tag : tag ∈ fst <$> unacked s <-> tag ∈ fst <$> taken s /\ tag ∉ acked (broker (world s)).
Proof.
  unfold unacked. rewrite !list_elem_of_fmap. setoid_rewrite elem_of_find_many. split.
  - intros ([t m] & -> & Hin & Hn). split; [by exists (t, m)|]. by apply negb_true_iff, bool_decide_eq_false in Hn.
  - intros [([t m] & -> & Hin) Hn]. exists (t, m). split; [done|]. split; [done|].
    by apply negb_true_iff, bool_decide_eq_false.
Qed.

Lemma unacked_world s w' :
  (forall tag, tag ∈ fst <$> taken s -> tag ∈ acked (broker w') <-> tag ∈ acked (broker (world s))) ->
  unacked (upd_world w' s) = unacked s.
Proof.
  intros Hw. apply find_many_ext. intros [t m] Hin. cbn. f_equal. apply bool_decide_ext, Hw, list_elem_of_fmap.
  by exists (t, m).
Qed.

Lemma find_many_fewer {A} (p q : A -> bool) l :
  (forall x, p x = true -> q x = true) -> (length (find_many p l) <= length (find_many q l))%nat.
Proof.
  intros Hpq. unfold find_many. induction l as [|x l IH]; cbn; [done|].
  specialize (Hpq x). destruct (p x), (q x); cbn; lia.
Qed.

Lemma unacked_fewer s w' :
  (forall tag, tag ∈ acked (broker (world s)) -> tag ∈ acked (broker w')) ->
  (length (unacked (upd_world w' s)) <= length (unacked s))%nat.
Proof.
  intros Hw. apply find_many_fewer. intros [t m]. cbn. rewrite !negb_true_iff, !bool_decide_eq_false. auto.
Qed.

Lemma settled_unacked s : taken s ≡ₚ settled s ++ unacked s.
Proof.
  unfold settled, unacked, find_many. induction (taken s) as [|d l IH]; cbn; [done|].
  destruct (bool_decide _); cbn; [by rewrite IH at 1|]. rewrite IH at 1. apply Permutation_middle.
Qed.

(** At most one handler per unacknowledged delivery. *)
Lemma handlers_le_unacked s : runtime_ok s -> (length (handlers s) <= length (unacked s))%nat.
Proof.
  intros (_ & _ & Hnd & Hh & _). rewrite <- (length_fmap fst (handlers s)), <- (length_fmap fst (unacked s)).
  apply submseteq_length, NoDup_submseteq; [done|]. intros tag ([t p] & -> & Hin)%list_elem_of_fmap.
  rewrite Forall_forall in Hh. by apply (Hh (t, p)).
Qed.

(** A call of one handler, seen by the others. *)
Lemma runtime_ok_world s w' (l : list (nat * Proc unit)) n :
  runtime_ok s -> phase s <> Closed ->
  (forall tag, tag ∈ acked (broker (world s)) -> tag ∈ acked (broker w')) ->
  NoDup (fst <$> l) -> n = length l ->
  Forall (fun h => h.1 ∈ fst <$> taken s /\ h.1 ∉ acked (broker w') /\ acks_last h.1 h.2) l ->
  runtime_ok (upd_world w' (set_handlers l n s)).
Proof.
  intros (Harr & Hnd & _ & _ & _ & Hroom & _) Hopen Hmono Hndl Hn Hl. unfold runtime_ok. cbn -[unacked].
  split_and!; [done..| |done| |done].
  - eapply Forall_impl; [exact Hl|]. intros h (Ht & Ha & Hk). split; [|done]. by apply unacked_elem.
  - intros Hp. etrans; [exact (unacked_fewer (set_handlers l n s) w' Hmono)|by apply Hroom].
Qed.

Lemma requeue_ok s :
  arrived s ≡ₚ ready s ++ map snd (taken s) -> NoDup (fst <$> taken s) -> runtime_ok (requeue s).
Proof.
  intros Harr Hnd.
  assert (unacked (requeue s) = []) as Hnone.
  { unfold unacked, requeue, settled. cbn. unfold find_many. clear. induction (taken s) as [|d l IH]; cbn; [done|].
    destruct (bool_decide (d.1 ∈ _)) eqn:Hd; cbn; [rewrite Hd; exact IH|exact IH]. }
  unfold runtime_ok. cbn -[unacked]. rewrite Hnone. split_and!; try done.
  - rewrite Harr, (settled_unacked s) at 1. rewrite map_app. solve_Permutation.
  - eapply sublist_NoDup; [exact Hnd|]. apply fmap_sublist, find_many_sublist.
  - constructor.
  - cbn. lia.
Qed.

Lemma delivers_ok s tag : runtime_ok s -> runtime_ok (turn (Delivers tag) s).
Proof.
  intros Hok. pose proof Hok as (Harr & Hnd & Hndh & Hh & Hin & Hroom & Hclosed). cbn.
  destruct (ready s) as [|msg rest] eqn:Hready; [done|].
  destruct (consuming s && has_room prefetch s && fresh_tag tag s) eqn:Hguard; [|done].
  apply andb_true_iff in Hguard as [[Hc Hr]%andb_true_iff Hf]. unfold fresh_tag in Hf.
  apply andb_true_iff in Hf as [Hfa%negb_true_iff%bool_decide_eq_false Hft%negb_true_iff%bool_decide_eq_false].
  set (s' := {| world := world s; arrived := _; ready := _; taken := _; handlers := _; inFlight := _; consuming := _; phase := _ |}).
  assert (unacked s' = unacked s ++ [(tag, msg)]) as Hun.
  { unfold unacked, s'. cbn. rewrite find_many_app. f_equal. unfold find_many. cbn. by rewrite bool_decide_false. }
  unfold runtime_ok. rewrite Hun. cbn -[unacked]. rewrite !fmap_app. cbn. split_and!.
  - rewrite Harr. cbn. rewrite (app_assoc rest). apply Permutation_cons_append.
  - apply NoDup_app. split_and!; [done|set_solver|apply NoDup_singleton].
  - apply NoDup_app. split_and!; [done| |apply NoDup_singleton].
    intros t (h & Heq & Hhin)%list_elem_of_fmap Ht%list_elem_of_singleton. rewrite Forall_forall in Hh.
    destruct (Hh h Hhin) as [Hu _]. rewrite <- Heq, Ht in Hu. apply unacked_elem in Hu as [Hu _]. done.
  - apply Forall_app. split.
    + eapply Forall_impl; [exact Hh|]. intros h [Hu Ha]. split; [set_solver|done].
    + apply Forall_singleton. split; [set_solver|apply handle_acks_last].
  - rewrite Hin, length_app. cbn. lia.
  - intros Hp. rewrite length_app. cbn. unfold has_room in Hr. apply orb_true_iff in Hr as [Hr|Hr].
    + apply Nat.eqb_eq in Hr. lia.
    + apply Nat.ltb_lt in Hr. lia.
  - intros Hcl. destruct (Hclosed Hcl) as (_ & _ & Hno). congruence.
Qed.

Lemma handles_ok s i : runtime_ok s -> runtime_ok (turn (Handles i) s).
Proof.
  intros Hok. pose proof Hok as (Harr & Hnd & Hndh & Hh & Hin & Hroom & Hclosed). cbn.
  destruct (handlers s !! i) as [[tag p]|] eqn:Hi; [|done].
  assert (phase s <> Closed) as Hopen by (intros Hc; destruct (Hclosed Hc) as (_ & Hnil & _); by rewrite Hnil in Hi).
  rewrite Forall_forall in Hh. pose proof (list_elem_of_lookup_2 _ _ _ Hi) as Hhin.
  destruct (Hh _ Hhin) as [Hut Hp]. cbn in Hut, Hp. apply unacked_elem in Hut as [Htaken Hnot].
  assert (Forall (fun h => h.1 <> tag) (delete i (handlers s))) as Hothers.
  { apply Forall_forall. intros h Hd Heq. rewrite (delete_Permutation _ _ _ Hi) in Hndh. cbn in Hndh.
    apply NoDup_cons in Hndh as [Hndh _]. apply Hndh, list_elem_of_fmap. by exists h. }
  (* the state after a call that acknowledged nothing *)
  assert (forall w', acked (broker w') = acked (broker (world s)) ->
    forall l n, NoDup (fst <$> l) -> n = length l ->
      (forall h, h ∈ l -> h.1 ∈ fst <$> handlers s /\ acks_last h.1 h.2) ->
      runtime_ok (upd_world w' (set_handlers l n s))) as Hsame.
  { intros w' Hw l n Hndl Hn Hl. apply runtime_ok_world; [done|done|by rewrite Hw|done|done|]. apply Forall_forall.
    intros h Hhl. destruct (Hl h Hhl) as [([t q] & Ht & Hq)%list_elem_of_fmap Hk]. rewrite Hw, Ht.
    destruct (Hh _ Hq) as [Hu _]. apply unacked_elem in Hu as [? ?]. cbn in *. subst. auto. }
  assert (forall h, h ∈ delete i (handlers s) -> h ∈ handlers s) as Hdel.
  { intros h Hd. rewrite (delete_Permutation _ _ _ Hi). set_solver. }
  assert (NoDup (fst <$> delete i (handlers s))) as Hnddel.
  { rewrite (delete_Permutation _ _ _ Hi) in Hndh. cbn in Hndh. by apply NoDup_cons in Hndh as [_ ?]. }
  assert (pred (inFlight s) = length (delete i (handlers s))) as Hlen.
  { rewrite Hin, length_delete by eauto. lia. }
  assert (forall w', acked (broker w') = acked (broker (world s)) ->
    runtime_ok (upd_world w' (set_handlers (delete i (handlers s)) (pred (inFlight s)) s))) as Hfinished.
  { intros w' Hw. apply Hsame; [done..|]. intros h Hd%Hdel. split; [apply list_elem_of_fmap; by exists h|by apply Hh]. }
  destruct p as [r|B call k]; [by apply Hfinished|]. cbn [resume].
  assert (runtime_ok (requeue (upd_world (call (world s)).2 s))) as Hdies by by apply requeue_ok.
  assert (forall w' q, acked (broker w') = acked (broker (world s)) -> acks_last tag q ->
    runtime_ok (upd_world w' (set_handlers (<[i := (tag, q)]> (handlers s)) (inFlight s) s))) as Hnext.
  { intros w' q Hw Hq. apply Hsame; [done| |by rewrite length_insert|].
    - by rewrite list_fmap_insert, list_insert_id by (by rewrite list_lookup_fmap, Hi).
    - intros h [j Hj]%list_elem_of_lookup. apply list_lookup_insert_Some in Hj as [(_ & <- & _)|[_ Hj]].
      + split; [apply list_elem_of_fmap; by exists (tag, Await call k)|done].
      + apply list_elem_of_lookup_2 in Hj. split; [apply list_elem_of_fmap; by exists h|by apply Hh]. }
  assert (forall w', acked (broker w') = acked (broker (world s)) ++ [tag] ->
    runtime_ok (upd_world w' (set_handlers (delete i (handlers s)) (pred (inFlight s)) s))) as Hacked.
  { intros w' Hw. apply runtime_ok_world; [done|done|rewrite Hw; set_solver|done|done|].
    apply Forall_forall. intros h Hd. rewrite Forall_forall in Hothers. specialize (Hothers h Hd).
    destruct (Hh h (Hdel h Hd)) as [Hu Ha]. apply unacked_elem in Hu as [Hu Hn]. rewrite Hw.
    split; [done|]. split; [set_solver|done]. }
  destruct (Hp (world s)) as [[Hw Hk]|[Hw Hk]]; unfold after_call in Hk;
    destruct (call (world s)) as [[b|e|] w']; cbn in Hw, Hk, Hdies |- *; try done.
  - destruct (k (inl b)); [by apply Hfinished|by apply Hnext].
  - destruct (k (inr e)); [by apply Hfinished|by apply Hnext].
  - destruct (k (inl b)); [by apply Hacked|done].
  - destruct (k (inr e)); [by apply Hacked|done].
Qed.

(** Only closing says anything about the phase. *)
Lemma steer_ok c p s :
  runtime_ok s -> p <> Closed ->
  runtime_ok {| world := world s; arrived := arrived s; ready := ready s; taken := taken s; handlers := handlers s;
                inFlight := inFlight s; consuming := c; phase := p |}.
Proof. intros (? & ? & ? & ? & ? & ? & _) Hp. by split_and!. Qed.

Lemma turn_ok t s : runtime_ok s -> runtime_ok (turn t s).
Proof.
  intros Hok. destruct t as [msg|tag|i| |ok| | | |ms]; [|by apply delivers_ok|by apply handles_ok|..].
  - pose proof Hok as (Harr & ? & ? & ? & ? & ? & Hc). unfold runtime_ok. cbn -[unacked]. split_and!; try done.
    rewrite Harr. solve_Permutation.
  - cbn. destruct (phase s); try done. by apply (steer_ok (consuming s) Cancelling).
  - cbn. destruct (phase s); try done. by apply (steer_ok (if ok then false else consuming s) (Draining _ _)).
  - cbn. destruct (phase s); try done. destruct (_ <? wake); [done|].
    destruct (_ && _); by apply (steer_ok (consuming s)).
  - cbn. destruct (phase s); try done. by apply requeue_ok; apply Hok.
  - by apply requeue_ok; apply Hok.
  - exact Hok.
Qed.

Lemma goes_ok s s' : goes s s' -> runtime_ok s -> runtime_ok s'.
Proof.
  intros [t s0|s0 w' _ Hw]; [apply turn_ok|]. unfold runtime_ok. rewrite unacked_world by done. done.
Qed.

(** C9. The consumer loses no message and is bounded by its prefetch: at any
    moment, whatever its handlers, the other services, faults, a kill or a
    shutdown did, every message ever routed to the queue is in exactly one of
    three places, waiting in the queue, delivered and not acknowledged, or
    acknowledged; there are never more handlers in flight than unacknowledged
    deliveries nor more of those than the prefetch, the counter a shutdown
    waits on is the number of handlers, and once the channel is closed
    nothing is left unacknowledged outside the queue. *)
Theorem consumer_keeps_messages w s :
  rtc goes (started w) s ->
  arrived s ≡ₚ ready s ++ map snd (unacked s) ++ map snd (settled s) /\
  inFlight s = length (handlers s) /\
  (length (handlers s) <= length (unacked s))%nat /\
  ((0 < prefetch)%nat -> (length (unacked s) <= prefetch)%nat) /\
  (phase s = Closed -> unacked s = []).
Proof.
  intros Hrun. assert (runtime_ok s) as Hok.
  { assert (runtime_ok (started w)) as H0 by (unfold runtime_ok; cbn; split_and!; try done; try constructor; lia).
    revert H0. induction Hrun as [|s1 s2 s3 Hstep _ IH]; [done|]. intros H1. by eapply IH, goes_ok. }
  pose proof (handlers_le_unacked s Hok) as Hle. destruct Hok as (Harr & _ & _ & _ & Hin & Hroom & Hclosed).
  split_and!; [|done..|]; [|intros Hc; by destruct (Hclosed Hc)].
  rewrite Harr, (settled_unacked s), map_app. solve_Permutation.
Qed.

(** *** The drain *)

(** [drain] went back to sleep. *)
Definition slept (s s' : Runtime) : bool :=
  match phase s, phase s' with Draining _ wake, Draining _ wake' => wake <? wake' | _, _ => false end.

(** A run during which it went back to sleep [k] times. *)
Inductive drain_run : nat -> Runtime -> Runtime -> Prop :=
  | drain_start s : drain_run 0 s s
  | drain_step k s s1 s2 :
      drain_run k s s1 -> goes s1 s2 -> drain_run (if slept s1 s2 then S k else k) s s2.

(** What any step makes of a drain. *)
Lemma goes_draining s s' deadline wake :
  goes s s' -> phase s = Draining deadline wake ->
  phase s' = Draining deadline wake \/
  (wake <= now (world s) < deadline /\ (0 < inFlight s)%nat /\ phase s' = Draining deadline (now (world s) + DRAIN_POLL_MS)) \/
  (phase s' = Closing /\ (inFlight s = 0%nat \/ deadline <= now (world s))) \/
  phase s' = Closed.
Proof.
  intros [t s0|s0 w' _ _] Hp; [|by left]. destruct t as [msg|tag|i| |ok| | | |ms]; cbn -[Nat.ltb]; try rewrite Hp; auto.
  - destruct (ready s0); [auto|]. destruct (consuming s0 && has_room prefetch s0 && fresh_tag tag s0); auto.
  - destruct (handlers s0 !! i) as [[tag p]|]; [|auto].
    destruct (resume p (world s0)) as [[[r|B call k]|] w1]; cbn; auto.
  - destruct (now (world s0) <? wake) eqn:Hw; [auto|]. destruct ((0 <? inFlight s0)%nat && (now (world s0) <? deadline)) eqn:Hgo; cbn.
    + apply andb_true_iff in Hgo as [Hi%Nat.ltb_lt Hd]. right; left. repeat split; (lia || done).
    + right; right; left. split; [done|]. apply andb_false_iff in Hgo as [Hi%Nat.ltb_ge|Hd]; lia.
Qed.

Lemma goes_past_drain s s' :
  goes s s' -> phase s = Closing \/ phase s = Closed -> phase s' = Closing \/ phase s' = Closed.
Proof.
  intros [t s0|s0 w' _ _] Hp; [|done]. destruct t as [msg|tag|i| |ok| | | |ms]; cbn -[Nat.ltb]; auto.
  - destruct (ready s0); [auto|]. destruct (consuming s0 && has_room prefetch s0 && fresh_tag tag s0); auto.
  - destruct (handlers s0 !! i) as [[tag p]|]; [|auto].
    destruct (resume p (world s0)) as [[[r|B call k]|] w1]; cbn; auto.
  - destruct Hp as [Hp|Hp]; rewrite Hp; cbn; auto.
  - destruct Hp as [Hp|Hp]; rewrite Hp; cbn; auto.
  - destruct Hp as [Hp|Hp]; rewrite Hp; cbn; auto.
  - destruct Hp as [Hp|Hp]; rewrite Hp; cbn; auto.
Qed.

(** C13. A shutdown waits for the deliveries in flight and for nothing else: it
    goes back to sleep at most 600 times, whatever happens meanwhile; it
    stops waiting only when no handler is in flight or the 30 seconds are
    over; and from the first look at either of those it closes. *)
Theorem drain_bounded s0 ok k s :
  phase s0 = Cancelling -> drain_run k (turn (Cancels ok) s0) s ->
  let deadline := now (world s0) + DRAIN_TIMEOUT_MS in
  (k <= 600)%nat /\
  ((exists wake, phase s = Draining deadline wake) \/ phase s = Closing \/ phase s = Closed) /\
  (forall wake, phase s = Draining deadline wake -> wake <= now (world s) ->
     phase (turn Checks s) = Closing <-> inFlight s = 0%nat \/ deadline <= now (world s)).
Proof.
  intros Hc Hrun. cbv zeta. set (deadline := now (world s0) + DRAIN_TIMEOUT_MS).
  assert ((phase s = Closing \/ phase s = Closed) /\ (k <= 600)%nat \/
    exists wake, phase s = Draining deadline wake /\ now (world s0) + DRAIN_POLL_MS * Z.of_nat k <= wake /\
      wake < deadline + DRAIN_POLL_MS) as Hinv.
  { remember (turn (Cancels ok) s0) as s1 eqn:Hs1. induction Hrun as [s|k s s1 s2 _ IH Hstep].
    - right. subst s. cbn. rewrite Hc. eexists. split; [reflexivity|]. unfold deadline, DRAIN_TIMEOUT_MS, DRAIN_POLL_MS. lia.
    - specialize (IH Hs1) as [[Hp Hk]|(wake & Hp & Hlow & Hup)].
      + left. split; [by eapply goes_past_drain|]. unfold slept. by destruct Hp as [-> | ->].
      + assert ((k <= 600)%nat) as Hk by (unfold deadline, DRAIN_TIMEOUT_MS, DRAIN_POLL_MS in *; lia).
        unfold slept. rewrite Hp. destruct (goes_draining _ _ _ _ Hstep Hp) as [Hp'|[([Hw Hd] & _ & Hp')|[[Hp' _]|Hp']]]; rewrite Hp'.
        * rewrite Z.ltb_irrefl. right. eauto.
        * rewrite (proj2 (Z.ltb_lt _ _)) by (unfold DRAIN_POLL_MS; lia). right. eexists. split; [done|].
          unfold DRAIN_POLL_MS in *. lia.
        * left. auto.
        * left. auto. }
  split_and!.
  - destruct Hinv as [[_ Hk]|(wake & _ & Hlow & Hup)]; [done|].
    unfold deadline, DRAIN_TIMEOUT_MS, DRAIN_POLL_MS in *. lia.
  - destruct Hinv as [[Hp _]|(wake & Hp & _)]; eauto.
  - intros wake Hp Hw. cbn -[Nat.ltb]. rewrite Hp, (proj2 (Z.ltb_ge _ _)) by lia.
    destruct ((0 <? inFlight s)%nat && (now (world s) <? deadline)) eqn:Hgo; cbn.
    + apply andb_true_iff in Hgo as [Hi%Nat.ltb_lt Hd]. split; [done|]. lia.
    + split; [intros _|done]. apply andb_false_iff in Hgo as [Hi%Nat.ltb_ge|Hd]; lia.
Qed.

Lemma turns_goes ts s : rtc goes s (turns config retryDelaysMs prefetch channel ts s).
Proof.
  induction ts as [|t ts IH] using rev_ind; [done|]. unfold turns in *. rewrite fold_left_app. cbn.
  eapply rtc_r; [exact IH|apply goes_turn].
Qed.

Lemma turns_drain ts s : exists k, drain_run k s (turns config retryDelaysMs prefetch channel ts s).
Proof.
  induction ts as [|t ts [k IH]] using rev_ind; [exists 0%nat; constructor|]. unfold turns in *. rewrite fold_left_app. cbn.
  eexists. eapply drain_step; [exact IH|apply goes_turn].
Qed.

End Runtime.

(** ** Concrete runs *)

Section Samples.

Notation go := (turns (H:=sample_uuids) sample_config sample_delays 1 TELEGRAM).

(** A message whose account was deleted, on its last attempt, and a good one
    behind it. *)
Definition orphan : Message :=
  {| m_exchange := NOTIFICATIONS_EXCHANGE; m_routingKey := routingKeyFor TELEGRAM;
     m_content := Json {| ev_eventId := "e0"; ev_triggerId := "gone"; ev_userId := "gone"; ev_triggerName := ""; ev_city := "";
                          ev_conditions := []; ev_conditionLogic := AND; ev_channels := [TELEGRAM]; ev_firedAt := 0;
                          ev_test := None |};
     m_headers := {| h_attempts := Some 3; h_eventId := Some "e0"; h_deadReason := None |};
     m_messageId := Some "e0" |}.

(** With room for one message, the orphan occupies the channel for good: it
    is left unacknowledged, and the message behind it is not delivered until
    the process ends and the queue starts over with the orphan in front. *)
Theorem orphan_stalls_the_queue :
  let s := go ([Arrives orphan; Arrives (sample_message None); Delivers 1] ++ replicate 10 (Handles 0)) (started (notifier_world notifier_db)) in
  handlers s = [] /\ inFlight s = 0%nat /\ map fst (unacked s) = [1%nat] /\ length (ready s) = 1%nat /\
  length (ready (go [Delivers 2] s)) = 1%nat /\
  ready (go [Dies_] s) = [orphan; sample_message None].
Proof. vm_compute. auto 10. Qed.

(** Two messages, one of them sent and acknowledged, then a shutdown. *)
Definition busy : list Turn :=
  [Arrives (sample_message None); Arrives orphan; Delivers 1] ++ replicate 5 (Handles 0) ++ [Delivers 2].

(** The end of a run, seen only through what a statement reads of it. *)
Ltac forget_run s :=
  match goal with |- context [world ?x] => generalize x | |- context [unacked ?x] => generalize x end; intros s.

Lemma consumer_keeps_messages_witness :
  let s := go (busy ++ [Stops; Cancels true; Checks; Passes 50; Checks; Dies_]) (started (notifier_world notifier_db)) in
  unacked s = [] /\ [sample_message None; orphan] ≡ₚ ready s ++ map snd (settled s).
Proof.
  cbv zeta. match goal with |- context [unacked ?x] =>
    assert (phase x = Closed) as Hp by (vm_compute; reflexivity);
    assert (arrived x = [sample_message None; orphan]) as Ha by (vm_compute; reflexivity) end.
  match goal with |- context [go ?ts ?s0] => pose proof (turns_goes (H:=sample_uuids) sample_config sample_delays 1 TELEGRAM ts s0) as Hrun end.
  revert Hp Ha Hrun. forget_run s. intros Hp Ha Hrun.
  destruct (consumer_keeps_messages (H:=sample_uuids) sample_config sample_delays 1 TELEGRAM
    (notifier_world notifier_db) s Hrun) as (Hall & _ & _ & _ & Hclosed).
  pose proof (Hclosed Hp) as Hnone. split; [exact Hnone|]. rewrite Hnone, Ha in Hall. exact Hall.
Defined.

Lemma drain_bounded_witness :
  let s := go [Checks; Passes 50; Checks; Passes 29950] (turn (H:=sample_uuids) sample_config sample_delays 1 TELEGRAM (Cancels true)
             (go (busy ++ [Stops]) (started (notifier_world notifier_db)))) in
  phase (turn (H:=sample_uuids) sample_config sample_delays 1 TELEGRAM Checks s) = Closing.
Proof.
  cbv zeta. match goal with |- context [turn _ _ _ _ Checks ?x] =>
    assert (match phase x with Draining d w => bool_decide (d = 130000 /\ w = 100100 /\ d <= now (world x)) | _ => false end = true) as Hp
      by (vm_compute; reflexivity) end.
  match goal with |- context [turns _ _ _ _ [Checks; Passes 50; Checks; Passes 29950] (turn _ _ _ _ _ ?x)] =>
    assert (phase x = Cancelling) as Hc by (vm_compute; reflexivity);
    assert (now (world x) = 100000) as Hnow by (vm_compute; reflexivity);
    revert Hp Hc Hnow; generalize x end.
  intros s0 Hp Hc Hnow.
  destruct (turns_drain (H:=sample_uuids) sample_config sample_delays 1 TELEGRAM [Checks; Passes 50; Checks; Passes 29950]
    (turn (H:=sample_uuids) sample_config sample_delays 1 TELEGRAM (Cancels true) s0)) as [k Hk].
  revert Hp Hk. match goal with |- context [drain_run _ _ _ _ k _ ?x] => generalize x end. intros s Hp Hk.
  destruct (drain_bounded (H:=sample_uuids) sample_config sample_delays 1 TELEGRAM s0 true k s Hc Hk) as (_ & _ & Hclose).
  rewrite Hnow in Hclose.
  destruct (phase s) as [| |d w| |] eqn:Hph; try discriminate Hp. apply bool_decide_eq_true in Hp as (-> & -> & Hn).
  apply (Hclose 100100); [reflexivity|lia|right; exact Hn].
Defined.

End Samples.
