(* ===== verification/Pipeline.v ===== *)
(** * From a staged row to a delivered alert

    The whole way of an event: the outbox and the relays of the watchers
    (Fleet.v), the exchanges and queues of the broker, and the handlers of any
    number of notifiers (Shutdown.v), all interleaved call by call. *)

From S2P Require Import Prelude JsNumber Enums Conditions QuietHours TriggerStateMachine Location Contracts Table World Samples Effects RedisService Weather Outbox Watcher Async Cycle CycleProps Fleet Format DeliveryLog Channels Notifier Deliveries Consumer Shutdown.

(** ** The system *)

(** A message delivered to some notifier and not acknowledged, with its call
    of [handle]. *)
Record Serving := { sv_channel : Channel; sv_tag : nat; sv_message : Message; sv_handler : Proc unit }.

(** [routed] of the published messages have been routed to their queues;
    [held] says which queue holds which message. *)
Record Pipeline := {
  pl_world : World;
  pl_watchers : list Process;
  routed : nat;
  held : list (string * Message);
  serving : list Serving;
}.

(** A message goes to every queue bound to its key. *)
Definition into (queues : list string) (m : Message) : list (string * Message) := (fun q => (q, m)) <$> queues.

(** What a retry queue hands to its exchange when the message expires. *)
Definition rerouted (rq : RetryQueue) (m : Message) : Message :=
  {| m_exchange := q_deadLetterExchange rq; m_routingKey := q_deadLetterKey rq; m_content := m_content m;
     m_headers := m_headers m; m_messageId := m_messageId m |}.

Definition set_held (l : list (string * Message)) (s : Pipeline) : Pipeline :=
  {| pl_world := pl_world s; pl_watchers := pl_watchers s; routed := routed s; held := l; serving := serving s |}.
Definition set_serving (w : World) (l : list (string * Message)) (ds : list Serving) (s : Pipeline) : Pipeline :=
  {| pl_world := w; pl_watchers := pl_watchers s; routed := routed s; held := l; serving := ds |}.

Definition continued (d : Serving) (p : Proc unit) : Serving :=
  {| sv_channel := sv_channel d; sv_tag := sv_tag d; sv_message := sv_message d; sv_handler := p |}.

(** The delivery goes back to its queue. *)
Definition returned (d : Serving) : string * Message := (queueNameFor (sv_channel d), sv_message d).

Section Pipeline.
Context `{UuidSupply} `{Intl} `{WeatherUpstream}.
Context (weatherTtl : Z) (batchSize concurrency : nat) (config : ChannelConfig) (retryDelaysMs : list Z).
Notation topology := (setupTopology retryDelaysMs (registeredChannels (CHANNEL_IMPLEMENTATIONS config))).

Inductive pipeline_step : Pipeline -> Pipeline -> Prop :=
  (* a watcher, or the rest of the system *)
  | upstream s w' ps' :
      fleet_step weatherTtl batchSize concurrency
        {| f_world := pl_world s; f_processes := pl_watchers s |} {| f_world := w'; f_processes := ps' |} ->
      pipeline_step s {| pl_world := w'; pl_watchers := ps'; routed := routed s; held := held s; serving := serving s |}
  | routes s m :
      published (broker (pl_world s)) !! routed s = Some m ->
      pipeline_step s {| pl_world := pl_world s; pl_watchers := pl_watchers s; routed := S (routed s);
        held := held s ++ into (routed_to topology (m_exchange m) (m_routingKey m)) m; serving := serving s |}
  | expires s i channel rq m :
      held s !! i = Some (q_name rq, m) -> rq ∈ retry_queues retryDelaysMs channel ->
      pipeline_step s (set_held (delete i (held s) ++
        into (routed_to topology (q_deadLetterExchange rq) (q_deadLetterKey rq)) (rerouted rq m)) s)
  (* the dead queue has a maximal length, and can be emptied by hand *)
  | drops s i channel m :
      held s !! i = Some (deadQueueNameFor channel, m) -> pipeline_step s (set_held (delete i (held s)) s)
  | delivers s i channel tag m :
      held s !! i = Some (queueNameFor channel, m) -> tag ∉ acked (broker (pl_world s)) ->
      pipeline_step s (set_serving (pl_world s) (delete i (held s)) (serving s ++
        [{| sv_channel := channel; sv_tag := tag; sv_message := m;
            sv_handler := async_handle config retryDelaysMs channel tag m |}]) s)
  | handler_goes_on s i d p' w' :
      serving s !! i = Some d -> resume (sv_handler d) (pl_world s) = (Some p', w') ->
      acked (broker w') = acked (broker (pl_world s)) ->
      pipeline_step s (set_serving w' (held s) (<[i := continued d p']> (serving s)) s)
  | handler_acks s i d r w' :
      serving s !! i = Some d -> resume (sv_handler d) (pl_world s) = (r, w') ->
      acked (broker w') <> acked (broker (pl_world s)) ->
      pipeline_step s (set_serving w' (held s) (delete i (serving s)) s)
  | handler_dies s i d w' :
      serving s !! i = Some d -> resume (sv_handler d) (pl_world s) = (None, w') ->
      acked (broker w') = acked (broker (pl_world s)) ->
      pipeline_step s (set_serving w' (held s ++ [returned d]) (delete i (serving s)) s)
  (* its channel is closed, or its notifier is gone *)
  | returns s i d :
      serving s !! i = Some d ->
      pipeline_step s (set_serving (pl_world s) (held s ++ [returned d]) (delete i (serving s)) s).

(** ** What a handler owes *)

Section Owes.
Context (channel : Channel) (event : TriggerFiredEvent).

(** The delivery is recorded as sent. *)
Definition recorded (w : World) : Prop := exists n, row_of channel (ev_eventId event) w = Some n /\ n_status n = SENT.

(** A message with the event on its way to a queue of the channel. *)
Definition carries (m : Message) : Prop := m_content m = Json event /\ 0 <= attemptCount m.
Definition to_queue (m : Message) : Prop := m_exchange m = NOTIFICATIONS_EXCHANGE /\ m_routingKey m = routingKeyFor channel.
Definition to_retry (m : Message) : Prop :=
  exists a, 1 <= a <= Z.of_nat (length retryDelaysMs) /\ m_exchange m = DLX_EXCHANGE /\ m_routingKey m = retryRoutingKeyFor channel a.
Definition to_dead (m : Message) : Prop := m_exchange m = DLX_EXCHANGE /\ m_routingKey m = deadRoutingKeyFor channel.

Definition handed_on (w w' : World) : Prop :=
  exists m, published (broker w') = published (broker w) ++ [m] /\ carries m /\ (to_retry m \/ to_dead m).

(** Until a call of it has recorded the delivery or handed the event on, [p]
    acknowledges nothing; if it settles before that, [Q] holds. *)
Fixpoint owes {A} (p : Proc A) (Q : A + exn -> Prop) : Prop :=
  match p with
  | Return r => Q r
  | Await call k => forall w,
      recorded (call w).2 \/ handed_on w (call w).2 \/
      (acked (broker (call w).2) = acked (broker w) /\
       match (call w).1 with Ok b => owes (k (inl b)) Q | Throw e => owes (k (inr e)) Q | Crash => True end)
  end.

Lemma owes_weaken {A} (p : Proc A) (Q Q' : A + exn -> Prop) : (forall r, Q r -> Q' r) -> owes p Q -> owes p Q'.
Proof.
  intros HQ. induction p as [r|B call k IH]; cbn; [apply HQ|]. intros Hp w.
  destruct (Hp w) as [?|[?|[? Hk]]]; [by left|by right; left|right; right]. split; [done|].
  destruct ((call w).1); auto.
Qed.

Lemma owes_then {A B} (p : Proc A) (f : A + exn -> Proc B) Q :
  owes p (fun r => owes (f r) Q) -> owes (then_ p f) Q.
Proof.
  induction p as [r|C call k IH]; cbn; [done|]. intros Hp w.
  destruct (Hp w) as [?|[?|[? Hk]]]; [by left|by right; left|right; right]. split; [done|].
  destruct ((call w).1); auto.
Qed.

Lemma owes_quiet {A} (p : Proc A) : every_call acked_same p -> owes p (fun _ => True).
Proof.
  induction p as [r|B call k IH]; cbn; [done|]. intros [Hc Hk] w. right; right. split; [apply Hc|].
  destruct ((call w).1); auto.
Qed.

Lemma owes_pbind {A B} (p : Proc A) (f : A -> Proc B) (Q : B + exn -> Prop) :
  owes p (fun r => match r with inl a => owes (f a) Q | inr e => Q (inr e) end) -> owes (pbind p f) Q.
Proof. intros Hp. apply owes_then. eapply owes_weaken, Hp. by intros [a|e]. Qed.

Lemma owes_pbind_quiet {A B} (p : Proc A) (f : A -> Proc B) (Q : B + exn -> Prop) :
  every_call acked_same p -> (forall a, owes (f a) Q) -> (forall e, Q (inr e)) -> owes (pbind p f) Q.
Proof. intros Hp Hf He. apply owes_pbind. eapply owes_weaken, owes_quiet, Hp. intros [a|e] _; [apply Hf|apply He]. Qed.

(** *** A dispatch that is answered has recorded the delivery *)

Definition failed {A} (r : A + exn) : Prop := exists e, r = inr e.

Lemma owes_settle : owes (await (settle channel event SENT None)) failed.
Proof.
  intros w. destruct (settle channel event SENT None w) as [[[]|e|] w'] eqn:Hs; cbn [fst snd owes].
  - left. by eapply settle_settles.
  - right; right. split; [|by eexists]. pose proof (beside_settle channel event SENT None w) as [Hb _].
    rewrite Hs in Hb. cbn in Hb. by rewrite Hb.
  - right; right. split; [|done]. pose proof (beside_settle channel event SENT None w) as [Hb _].
    rewrite Hs in Hb. cbn in Hb. by rewrite Hb.
Qed.

Lemma acked_beside {A} (p : Proc A) : every_call beside p -> every_call acked_same p.
Proof. apply every_call_mono. intros w w' [Hb _]. unfold acked_same. by rewrite Hb. Qed.

Lemma owes_lookup : owes (async_lookup channel event) (fun r => forall c, r = inl c -> c <> duplicate).
Proof.
  intros w. unfold query. destruct (io _ w) as [r w'] eqn:Hio. cbn [fst snd].
  destruct (tick_spec w) as (_ & _ & _ & Hdb & Hb & _).
  assert (w' = tick w) as -> by (apply io_effect in Hio as [[-> _]|[-> _]]; done).
  destruct r as [found|e|]; [|by right; right; rewrite Hb; split..].
  apply io_effect in Hio as [[_ Hno]|[_ Hok]]; [by destruct (Hno found)|].
  specialize (Hok _ eq_refl). injection Hok as Hrow. cbn. destruct found as [n|]; [|right; right; rewrite Hb; split; [done|by intros ? [= <-]]].
  destruct (decide (n_status n = SENT)) as [Hsent|_]; [left; by exists n|].
  right; right. rewrite Hb. split; [done|]. by intros ? [= <-].
Qed.

Lemma owes_claim : owes (async_claim channel event) (fun r => forall c, r = inl c -> c <> duplicate).
Proof.
  unfold async_claim. apply owes_pbind_quiet; [|intros [at_ created]; cbn [fst snd]|done].
  { apply acked_beside. every_call_tac; auto using beside_create_claim. }
  destruct created; [by intros ? [= <-]|]. unfold async_take_over. apply owes_pbind_quiet; [|intros count|done].
  { apply acked_beside. every_call_tac; auto using beside_take_over. }
  destruct (0 <? count)%nat; [by intros ? [= <-]|apply owes_lookup].
Qed.

Lemma owes_dispatch : owes (async_dispatch config channel event) failed.
Proof.
  unfold async_dispatch. apply owes_pbind. eapply owes_weaken, owes_claim.
  intros [[| |]|e] Hc; [|by destruct (Hc duplicate)|by eexists|by eexists]. cbn [after_claim]. unfold under_claim.
  apply owes_pbind_quiet; [|intros _|by eexists].
  - apply acked_beside. unfold async_release. every_call_tac; auto using async_send_beside, beside_release.
  - apply owes_pbind. eapply owes_weaken, owes_settle. intros [u|e] [e' He]; [done|by eexists].
Qed.

(** *** A handler hands the event on before it acknowledges *)

Lemma owes_republish m key attempts reason (f : unit -> Proc unit) :
  carries (republished m key attempts reason) ->
  to_retry (republished m key attempts reason) \/ to_dead (republished m key attempts reason) ->
  owes (pbind (await (republish m key attempts reason)) f) (fun _ => True).
Proof.
  intros Hm Hto w. unfold republish, exec. destruct (io _ w) as [r w'] eqn:Hio. cbn [fst snd].
  destruct (tick_spec w) as (_ & _ & _ & _ & Hb & _). apply io_effect in Hio as [[-> Hno]|[-> _]].
  - right; right. rewrite Hb. destruct r as [u|e|]; [by destruct (Hno u)|done|done].
  - right; left. eexists. cbn. by rewrite Hb.
Qed.

Lemma owes_handle tag m : carries m -> owes (async_handle config retryDelaysMs channel tag m) (fun _ => True).
Proof.
  intros [Hj Ha]. unfold async_handle. apply owes_then.
  enough (owes (async_process config retryDelaysMs channel tag m) (fun _ => True)) as Hp
    by (eapply owes_weaken, Hp; by intros [u|e] _).
  unfold async_process. rewrite Hj. apply owes_then, owes_pbind. eapply owes_weaken, owes_dispatch.
  intros r [err ->]. unfold async_handleFailure, async_park.
  destruct (is_permanent err || (maxAttempts retryDelaysMs <=? attemptCount m + 1)) eqn:Hterm.
  - apply owes_pbind_quiet; [|intros _|done]; [apply acked_beside, every_call_await, beside_settle|].
    apply owes_republish; [by split|by right].
  - apply owes_republish; [split; [done|unfold attemptCount at 1; cbn; lia]|]. left. exists (attemptCount m + 1).
    bool_to_prop. unfold maxAttempts in *. split_and!; [lia|lia|done|done].
Qed.

End Owes.

(** Nothing a handler does concerns the outbox. *)
Lemma elsewhere_beside w w' : beside w w' -> elsewhere w w'.
Proof. intros (Hb & Ho & Hu). unfold elsewhere. by rewrite Hb. Qed.

#[local] Instance elsewhere_order : WorldOrder elsewhere.
Proof.
  unfold elsewhere. split; [split|].
  - done.
  - intros w1 w2 w3 (? & ? & ?) (? & ? & ?). split_and!; [congruence|lia|by etrans].
  - intros w. destruct (tick_spec w) as (_ & _ & -> & -> & -> & _). done.
Qed.

Lemma elsewhere_republish m key attempts reason : keeps elsewhere (republish m key attempts reason).
Proof. apply keeps_exec; [apply _|]. intros w. split_and!; [done..|by eexists]. Qed.

Lemma elsewhere_ack tag : keeps elsewhere (ack tag).
Proof. unfold ack. keeps_tac. by apply keeps_exec; [apply _|]. Qed.

Lemma handle_elsewhere channel tag m : every_call elsewhere (async_handle config retryDelaysMs channel tag m).
Proof.
  assert (forall event, every_call elsewhere (async_dispatch config channel event)) as Hd
    by (intros; eapply every_call_mono, async_dispatch_beside; apply elsewhere_beside).
  assert (forall event status error, keeps elsewhere (settle channel event status error)) as Hs
    by (intros event status error w; apply elsewhere_beside, beside_settle).
  unfold async_handle, async_process, async_handleFailure, async_park.
  every_call_tac; auto using elsewhere_republish, elsewhere_ack.
Qed.

(** ** Following one event *)

Lemma resume_elsewhere p w r w' : every_call elsewhere p -> resume p w = (r, w') ->
  elsewhere w w' /\ forall q : Proc unit, r = Some q -> every_call elsewhere q.
Proof. intros Hp Hr. pose proof (every_call_resume elsewhere p w Hp) as Hk. by rewrite Hr in Hk. Qed.

Definition sound_pipeline (s : Pipeline) : Prop :=
  fleet_sound {| f_world := pl_world s; f_processes := pl_watchers s |} /\
  (routed s <= length (published (broker (pl_world s))))%nat /\
  Forall (fun d => every_call elsewhere (sv_handler d)) (serving s).

(** A handler's call, seen by everything else. *)
Lemma sound_handler_call s w' l ds :
  sound_pipeline s -> elsewhere (pl_world s) w' -> Forall (fun d => every_call elsewhere (sv_handler d)) ds ->
  steady (pl_world s) w' /\ sound_pipeline (set_serving w' l ds s).
Proof.
  intros (Hf & Hr & _) Hw Hd.
  set (f := {| f_world := pl_world s; f_processes := pl_watchers s |}) in Hf.
  destruct (fleet_step_sound weatherTtl batchSize concurrency f _ (step_elsewhere _ _ _ f w' Hw) Hf) as [Hs Hf'].
  split; [exact Hs|]. split_and!; [exact Hf'| |done]. etrans; [exact Hr|]. apply prefix_length, Hw.
Qed.

Lemma step_sound s s' :
  pipeline_step s s' -> sound_pipeline s ->
  steady (pl_world s) (pl_world s') /\ sound_pipeline s' /\
  published (broker (pl_world s)) `prefix_of` published (broker (pl_world s')).
Proof.
  intros Hstep Hok. destruct (Hok) as (Hf & Hr & Hd).
  enough (steady (pl_world s) (pl_world s') /\ sound_pipeline s') as [Hs Hok'].
  { split_and!; [done|done|]. destruct Hs as [Hs _], Hf as [Hk _]. by destruct (Hs Hk) as (_ & Hp & _). }
  assert (steady (pl_world s) (pl_world s)) as Hrefl by reflexivity.
  destruct Hstep as [s w' ps' Hu|s m Hm|s i c rq m _ _|s i c m _|s i c tag m _ _|s i d p' w' Hi Hres _|s i d r w' Hi Hres _|s i d w' Hi Hres _|s i d Hi].
  - destruct (fleet_step_sound _ _ _ _ _ Hu Hf) as [Hs Hf']. split; [done|]. split_and!; [done| |done].
    destruct Hs as [Hs _], Hf as [Hk _]. destruct (Hs Hk) as (_ & Hp & _). etrans; [exact Hr|]. by apply prefix_length.
  - split; [done|]. split_and!; [done| |done]. by apply lookup_lt_Some in Hm.
  - by split.
  - by split.
  - split; [done|]. split_and!; [done..|]. apply Forall_app. split; [done|]. apply Forall_singleton, handle_elsewhere.
  - destruct (resume_elsewhere _ _ _ _ (Forall_lookup_1 _ _ _ _ Hd Hi) Hres) as [Hw Hk].
    apply sound_handler_call; [done..|]. apply Forall_insert; [done|]. by apply Hk.
  - destruct (resume_elsewhere _ _ _ _ (Forall_lookup_1 _ _ _ _ Hd Hi) Hres) as [Hw Hk].
    apply sound_handler_call; [done..|]. by apply Forall_delete.
  - destruct (resume_elsewhere _ _ _ _ (Forall_lookup_1 _ _ _ _ Hd Hi) Hres) as [Hw Hk].
    apply sound_handler_call; [done..|]. by apply Forall_delete.
  - split; [done|]. split_and!; [done..|]. by apply Forall_delete.
Qed.

Section Event.
Context (channel : Channel) (event : TriggerFiredEvent).

(** Published and not yet routed. *)
Definition published_for (s : Pipeline) : Prop :=
  exists i m, (routed s <= i)%nat /\ published (broker (pl_world s)) !! i = Some m /\
    carries event m /\ (to_queue channel m \/ to_retry channel m).

(** In the queue of the channel or in one of its retry queues. *)
Definition queued_for (s : Pipeline) : Prop :=
  exists q m, (q, m) ∈ held s /\ carries event m /\ (q = queueNameFor channel \/ exists a, q = retryQueueNameFor channel a).

(** With a handler that acknowledges nothing before it has recorded the
    delivery or handed the event on. *)
Definition served_for (s : Pipeline) : Prop :=
  exists d, d ∈ serving s /\ sv_channel d = channel /\ carries event (sv_message d) /\
    owes channel event (sv_handler d) (fun _ => True).

Definition parked_for (s : Pipeline) : Prop :=
  exists m, m ∈ published (broker (pl_world s)) /\ m_content m = Json event /\ to_dead channel m.

(** Recorded as sent at some moment between [s0] and [s]. *)
Definition recorded_between (s0 s : Pipeline) : Prop :=
  exists s1, rtc pipeline_step s0 s1 /\ rtc pipeline_step s1 s /\ recorded channel event (pl_world s1).

Definition circulating (s0 s : Pipeline) : Prop :=
  published_for s \/ queued_for s \/ served_for s \/ parked_for s \/ recorded_between s0 s.

Lemma owes_resume (p : Proc unit) Q w r w' :
  owes channel event p Q -> resume p w = (r, w') ->
  recorded channel event w' \/ handed_on channel event w w' \/
  (acked (broker w') = acked (broker w) /\ forall q, r = Some q -> owes channel event q Q).
Proof.
  destruct p as [x|B call k]; cbn; [intros Hp [= <- <-]; right; right; split; [done|by intros q [= <-]]|].
  intros Hp Hr. specialize (Hp w). destruct (call w) as [[b|e|] w1]; injection Hr as <- <-; cbn in Hp;
    (destruct Hp as [?|[?|[? Hk]]]; [by left|by right; left|right; right; split; [done|]]); by intros q [= <-].
Qed.

(** What a handler hands on is found again. *)
Lemma handed_on_circulates s0 s s' :
  handed_on channel event (pl_world s) (pl_world s') -> (routed s' <= length (published (broker (pl_world s))))%nat ->
  circulating s0 s'.
Proof.
  intros (m & Hp & Hc & [Hto|Hto]) Hr.
  - left. exists (length (published (broker (pl_world s)))), m. rewrite Hp, lookup_app_r, Nat.sub_diag by done. auto.
  - right; right; right; left. exists m. rewrite Hp. destruct Hc. split_and!; [set_solver|done|done].
Qed.

Lemma recorded_now s0 s : rtc pipeline_step s0 s -> recorded channel event (pl_world s) -> circulating s0 s.
Proof. intros Hrun Hrec. do 4 right. by exists s. Qed.

Lemma published_for_step s0 s s' :
  sound_pipeline s -> pipeline_step s s' -> published_for s -> circulating s0 s'.
Proof.
  intros Hok Hstep (i & m & Hi & Hm & Hc & Hto).
  destruct (step_sound _ _ Hstep Hok) as (_ & _ & Hp).
  assert ((routed s' <= i)%nat -> circulating s0 s') as Hsame.
  { intros Hi'. left. exists i, m. split_and!; [done| |done..]. by eapply prefix_lookup_Some. }
  destruct Hstep as [| s m' Hm'| | | | | | |]; try by apply Hsame.
  destruct (decide (routed s = i)) as [<-|Hne]; [|apply Hsame; cbn; lia].
  rewrite Hm in Hm'. injection Hm' as <-. right; left.
  assert (exists q, q ∈ routed_to topology (m_exchange m) (m_routingKey m) /\
    (q = queueNameFor channel \/ exists a, q = retryQueueNameFor channel a)) as (q & Hq & Hname).
  { destruct Hto as [[-> ->]|(a & Ha & -> & ->)].
    - exists (queueNameFor channel). split; [by apply routed_main|by left].
    - exists (retryQueueNameFor channel a). split; [by apply routed_retry|eauto]. }
  exists q, m. split; [|done]. cbn. apply elem_of_app. right. apply list_elem_of_fmap. eauto.
Qed.

Lemma queued_for_step s0 s s' : pipeline_step s s' -> queued_for s -> circulating s0 s'.
Proof.
  intros Hstep (q & m & Hin & Hc & Hq).
  assert (forall l, (q, m) ∈ l -> held s' = l -> circulating s0 s') as Hstill
    by (intros l Hl He; right; left; exists q, m; by rewrite He).
  destruct Hstep as [| | s i c rq m' Hi Hrq|s i c m' Hi|s i c tag m' Hi _| | |s i d w'|s i d]; try (eapply Hstill; [|reflexivity]; done).
  - eapply Hstill; [|reflexivity]. set_solver.
  - rewrite (delete_Permutation _ _ _ Hi) in Hin. apply elem_of_cons in Hin as [Heq|Hin];
      [|eapply Hstill; [|reflexivity]; set_solver].
    injection Heq as Hname ->. apply elem_of_retry_queues in Hrq as (a & dl & _ & ->). cbn in Hname.
    assert (c = channel) as ->.
    { destruct Hq as [Hq|[a' Hq]]; rewrite Hname in Hq; [by symmetry in Hq; apply queue_not_retry in Hq|].
      by apply retryQueueNameFor_inj in Hq as [-> _]. }
    right; left. exists (queueNameFor channel).
    match goal with |- context [rerouted ?rq m'] => exists (rerouted rq m') end. split_and!; [|exact Hc|by left].
    cbn [held set_held]. apply elem_of_app. right. apply list_elem_of_fmap. exists (queueNameFor channel).
    split; [reflexivity|]. cbn [q_deadLetterExchange q_deadLetterKey]. by apply routed_main.
  - rewrite (delete_Permutation _ _ _ Hi) in Hin. apply elem_of_cons in Hin as [Heq|Hin];
      [|eapply Hstill; [|reflexivity]; set_solver].
    injection Heq as Hname _. destruct Hq as [Hq|[a' Hq]]; rewrite Hname in Hq; [by apply dead_not_queue in Hq|by apply dead_not_retry in Hq].
  - rewrite (delete_Permutation _ _ _ Hi) in Hin. apply elem_of_cons in Hin as [Heq|Hin];
      [|eapply Hstill; [|reflexivity]; set_solver].
    injection Heq as Hname ->. assert (c = channel) as ->.
    { destruct Hq as [Hq|[a' Hq]]; rewrite Hname in Hq; [by apply queueNameFor_inj in Hq|by apply queue_not_retry in Hq]. }
    do 2 right. left. eexists. split_and!; [cbn; apply elem_of_app; right; by apply list_elem_of_singleton|done|done|].
    by apply owes_handle.
  - eapply Hstill; [|reflexivity]. set_solver.
  - eapply Hstill; [|reflexivity]. set_solver.
Qed.

Lemma served_for_step s0 s s' :
  sound_pipeline s -> rtc pipeline_step s0 s -> pipeline_step s s' -> served_for s -> circulating s0 s'.
Proof.
  intros Hok Hrun Hstep (d & Hin & Hch & Hc & Hp).
  assert (rtc pipeline_step s0 s') as Hrun' by (by eapply rtc_r).
  assert ((routed s <= length (published (broker (pl_world s))))%nat) as Hrouted by apply Hok.
  assert (forall l, d ∈ l -> serving s' = l -> circulating s0 s') as Hstill
    by (intros l Hl He; right; right; left; exists d; by rewrite He).
  assert (forall l, returned d ∈ l -> held s' = l -> circulating s0 s') as Hback.
  { intros l Hl He. right; left. exists (queueNameFor channel), (sv_message d). rewrite He. split_and!; [|done|by left].
    unfold returned in Hl. by rewrite Hch in Hl. }
  destruct Hstep as [| | | | |s i x p' w' Hi Hres Hack|s i x r w' Hi Hres Hack|s i x w' Hi Hres Hack|s i x Hi];
    try (eapply Hstill; [|reflexivity]; set_solver).
  - apply list_elem_of_lookup in Hin as [j Hj]. destruct (decide (i = j)) as [<-|Hne].
    2: { eapply Hstill; [|reflexivity]. apply list_elem_of_lookup. exists j. cbn. by rewrite list_lookup_insert_ne. }
    rewrite Hj in Hi. injection Hi as <-. destruct (owes_resume _ _ _ _ _ Hp Hres) as [Hrec|[Hon|[_ Hk]]].
    + by apply recorded_now.
    + by eapply handed_on_circulates.
    + do 2 right. left. exists (continued d p'). split_and!; [|done|done|by apply Hk]. cbn. apply list_elem_of_lookup.
      exists i. apply list_lookup_insert_eq. by eapply lookup_lt_Some.
  - rewrite (delete_Permutation _ _ _ Hi) in Hin. apply elem_of_cons in Hin as [->|Hin]; [|by eapply Hstill].
    destruct (owes_resume _ _ _ _ _ Hp Hres) as [Hrec|[Hon|[Hsame _]]].
    + by apply recorded_now.
    + by eapply handed_on_circulates.
    + done.
  - rewrite (delete_Permutation _ _ _ Hi) in Hin. apply elem_of_cons in Hin as [->|Hin]; [|by eapply Hstill].
    eapply Hback; [|reflexivity]. set_solver.
  - rewrite (delete_Permutation _ _ _ Hi) in Hin. apply elem_of_cons in Hin as [->|Hin]; [|by eapply Hstill].
    eapply Hback; [|reflexivity]. set_solver.
Qed.

Lemma circulating_step s0 s s' :
  sound_pipeline s -> rtc pipeline_step s0 s -> pipeline_step s s' -> circulating s0 s -> circulating s0 s'.
Proof.
  intros Hok Hrun Hstep [Hp|[Hq|[Hs|[(m & Hm & Hc & Hto)|(s1 & Hfrom & Hto & Hrec)]]]].
  - by eapply published_for_step.
  - by eapply queued_for_step.
  - by eapply served_for_step.
  - do 3 right. left. exists m. split_and!; [|done|done]. destruct (step_sound _ _ Hstep Hok) as (_ & _ & Hpre).
    by eapply elem_of_prefix.
  - do 4 right. exists s1. split_and!; [done|by eapply rtc_r|done].
Qed.

End Event.

(** What is published was published before, or is there to be routed. *)
Lemma newly_published s s' m :
  pipeline_step s s' -> sound_pipeline s -> m ∈ published (broker (pl_world s')) ->
  m ∈ published (broker (pl_world s)) \/
  exists i, (routed s' <= i)%nat /\ published (broker (pl_world s')) !! i = Some m.
Proof.
  intros Hstep Hok [i Hi]%list_elem_of_lookup.
  destruct (step_sound _ _ Hstep Hok) as (_ & _ & Hp). destruct Hok as (_ & Hr & _).
  destruct (published (broker (pl_world s)) !! i) as [m'|] eqn:Hm'.
  - left. pose proof (prefix_lookup_Some _ _ _ _ Hm' Hp) as Heq. rewrite Hi in Heq. injection Heq as ->.
    by apply list_elem_of_lookup_2 in Hm'.
  - apply lookup_ge_None in Hm'. destruct Hstep as [| s m' Hm| | | | | | |]; try (right; exists i; cbn in *; split; [lia|done]).
    left. by apply list_elem_of_lookup_2 in Hi.
Qed.

(** C1. No alert is lost on its way: whatever any number of watchers,
    notifiers and other services do, interleaved call by call, whichever calls
    fail, lose their reply or kill their process, and whatever the broker
    delivers, redelivers and expires: an event a firing has staged for a
    channel is still staged, or published and on its way to a queue, or in a
    queue of the channel, or delivered to a handler that acknowledges nothing
    before it has recorded the delivery or handed the event on, or parked in
    the dead queue, or its delivery was recorded as sent. *)
Theorem pipeline_loses_no_alert s0 s row channel :
  outbox_keys (pl_world s0) -> Forall (fun p => p_cycles p = [] /\ p_jobs p = []) (pl_watchers s0) -> serving s0 = [] ->
  (routed s0 <= length (published (broker (pl_world s0))))%nat ->
  row ∈ outbox (db (pl_world s0)) -> o_publishedAt row = None -> o_routingKey row = routingKeyFor channel ->
  row_message row ∉ published (broker (pl_world s0)) ->
  rtc pipeline_step s0 s ->
  row ∈ outbox (db (pl_world s)) \/ circulating channel (o_payload row) s0 s.
Proof.
  intros Hk Hidle Hnone Hrouted Hin Hpend Hkey Hno Hrun.
  assert (sound_pipeline s0) as Hsound0.
  { split_and!; [split; [done|]|done|by rewrite Hnone].
    eapply Forall_impl; [exact Hidle|]. intros p [Hc Hj]. unfold process_sound. rewrite Hc, Hj. split; constructor. }
  assert (sound_pipeline s /\ steady (pl_world s0) (pl_world s) /\
    (row_message row ∈ published (broker (pl_world s)) -> circulating channel (o_payload row) s0 s)) as (_ & [Hs _] & Hcirc).
  { revert s Hrun. apply (rtc_ind_r (R:=pipeline_step) (fun s => sound_pipeline s /\ steady (pl_world s0) (pl_world s) /\
      (row_message row ∈ published (broker (pl_world s)) -> circulating channel (o_payload row) s0 s)) s0).
    - split_and!; [done|reflexivity|done].
    - intros s1 s2 H01 H12 (Hok & Hst & Hcirc). destruct (step_sound _ _ H12 Hok) as (Hst' & Hok' & _).
      split_and!; [done|by etrans|]. intros Hpub.
      destruct (newly_published _ _ _ H12 Hok Hpub) as [Hold|(i & Hi & Hm)]; [by eapply circulating_step, Hcirc|].
      left. exists i, (row_message row).
      split_and!; [done|done|by split|by left]. }
  destruct (Hs Hk) as (_ & _ & Hacc). assert (is_pending row = true) as Hp by (unfold is_pending; by rewrite Hpend).
  destruct (Hacc row Hp Hin) as [Hpub|[Hrow _]]; [right; by apply Hcirc|by left].
Qed.

(** ** Schedules *)

(** The functions in flight in one watcher, resumed as [schedule] says. *)
Lemma jobs_run schedule s p jobs :
  pl_watchers s = [{| p_shard := p; p_cycles := []; p_jobs := jobs |}] ->
  rtc pipeline_step s
    {| pl_world := (run_procs schedule (pl_world s) jobs).1;
       pl_watchers := [{| p_shard := p; p_cycles := []; p_jobs := (run_procs schedule (pl_world s) jobs).2 |}];
       routed := routed s; held := held s; serving := serving s |}.
Proof.
  revert s jobs. induction schedule as [|i rest IH]; intros [w ps n l ds] jobs Hw; cbn in *; subst ps; [done|].
  destruct (jobs !! i) as [job|] eqn:Hi; [|by apply (IH (Build_Pipeline w [Build_Process p [] jobs] n l ds))].
  destruct (resume job w) as [[job'|] w'] eqn:Hr; [|done].
  eapply rtc_l; [|by apply (IH (Build_Pipeline w' [Build_Process p [] (<[i := job']> jobs)] n l ds))]. apply upstream.
  eapply (step_process _ _ _ (Build_Fleet w [Build_Process p [] jobs]) 0 (Build_Process p [] jobs)); [reflexivity|].
  by apply (job_goes_on _ _ _ w (Build_Process p [] jobs) i job job').
Qed.

(** The calls of one handler, one after another, up to its acknowledgement. *)
Fixpoint serve (fuel : nat) (d : Serving) (w : World) : option Serving * World :=
  match fuel with
  | O => (Some d, w)
  | S n => match resume (sv_handler d) w with
           | (Some p, w') => if decide (acked (broker w') = acked (broker w)) then serve n (continued d p) w' else (None, w')
           | (None, _) => (Some d, w)
           end
  end.

Lemma handler_runs fuel s d :
  serving s = [d] ->
  rtc pipeline_step s (set_serving (serve fuel d (pl_world s)).2 (held s) (option_list (serve fuel d (pl_world s)).1) s).
Proof.
  revert s d. induction fuel as [|n IH]; intros [w ps k l ds] d Hd; cbn in *; subst ds; [done|].
  destruct (resume (sv_handler d) w) as [[p|] w'] eqn:Hr; [|done]. case_decide as Hack.
  - eapply rtc_l; [by apply (handler_goes_on (Build_Pipeline w ps k l [d]) 0 d p w')|].
    by apply (IH (Build_Pipeline w' ps k l [continued d p]) (continued d p)).
  - eapply rtc_l; [by apply (handler_acks (Build_Pipeline w ps k l [d]) 0 d (Some p) w')|]. done.
Qed.

End Pipeline.

(** ** A concrete run: staged, relayed, routed, delivered, sent *)

Definition staged_world : World :=
  set_uuids 3 (notifier_world (set_outbox [sample_row 0 TELEGRAM 20] notifier_db)).

Definition staged_message : Message := row_message (sample_row 0 TELEGRAM 20).
Definition one_watcher (jobs : list (Proc unit)) : list Process := [{| p_shard := single_shard; p_cycles := []; p_jobs := jobs |}].

Definition staged_pipeline : Pipeline :=
  {| pl_world := staged_world; pl_watchers := one_watcher []; routed := 0; held := []; serving := [] |}.

Definition relay_jobs : list (Proc unit) := [async_runRelay (H:=sample_uuids) 1].
Definition relayed : World * list (Proc unit) := run_procs (replicate 20 0%nat) staged_world relay_jobs.

Definition sample_delays : list Z := [5000; 60000].
Definition sample_serving : Serving :=
  {| sv_channel := TELEGRAM; sv_tag := 7; sv_message := staged_message;
     sv_handler := async_handle (H:=sample_uuids) sample_config sample_delays TELEGRAM 7 staged_message |}.
Definition served : option Serving * World := serve 20 sample_serving relayed.1.

Definition served_pipeline : Pipeline :=
  {| pl_world := served.2; pl_watchers := one_watcher relayed.2; routed := 1; held := []; serving := option_list served.1 |}.

Notation sample_step := (pipeline_step (H:=sample_uuids) (H0:=sample_intl) (H1:=freezing_upstream) 240 1 2 sample_config sample_delays).

Lemma sample_relay_run :
  rtc sample_step staged_pipeline
    {| pl_world := relayed.1; pl_watchers := one_watcher relayed.2; routed := 0; held := []; serving := [] |}.
Proof.
  eapply rtc_l; [|exact (jobs_run (H:=sample_uuids) (H0:=sample_intl) (H1:=freezing_upstream) 240 1 2 sample_config sample_delays
    (replicate 20 0%nat) {| pl_world := staged_world; pl_watchers := one_watcher relay_jobs; routed := 0; held := []; serving := [] |}
    single_shard relay_jobs eq_refl)].
  apply upstream. apply (step_process _ _ _ (Build_Fleet staged_world (one_watcher [])) 0 sample_process staged_world); [reflexivity|].
  exact (cron_relay (H:=sample_uuids) (H0:=sample_intl) (H1:=freezing_upstream) 240 1 2 staged_world sample_process).
Qed.

Lemma sample_serve_run w ps :
  published (broker w) !! 0%nat = Some staged_message -> 7%nat ∉ acked (broker w) ->
  rtc sample_step {| pl_world := w; pl_watchers := ps; routed := 0; held := []; serving := [] |}
    {| pl_world := (serve 20 sample_serving w).2; pl_watchers := ps; routed := 1; held := [];
       serving := option_list (serve 20 sample_serving w).1 |}.
Proof.
  intros Hm Hno. eapply rtc_l; [by apply (routes _ _ _ _ _ (Build_Pipeline w ps 0 [] []) staged_message)|].
  eapply rtc_l; [by apply (delivers _ _ _ _ _ (Build_Pipeline w ps 1 [(queueNameFor TELEGRAM, staged_message)] []) 0 TELEGRAM 7 staged_message)|].
  apply (handler_runs _ _ _ _ _ 20 (Build_Pipeline w ps 1 [] [sample_serving]) sample_serving). reflexivity.
Qed.

(** The user has the alert, the broker holds nothing and the row is marked. *)
Lemma pipeline_loses_no_alert_witness :
  delivered (pl_world served_pipeline) = [TelegramMessage "42" ("🌦️ " +:+ alertText (sample_event "uuid-2"))] /\
  serving served_pipeline = [] /\ staged (pl_world served_pipeline) = [] /\
  circulating (H:=sample_uuids) (H0:=sample_intl) (H1:=freezing_upstream) 240 1 2 sample_config sample_delays
    TELEGRAM (sample_event "uuid-2") staged_pipeline served_pipeline.
Proof.
  split; [vm_compute; reflexivity|]. split; [vm_compute; reflexivity|]. split; [vm_compute; reflexivity|].
  destruct (pipeline_loses_no_alert (H:=sample_uuids) (H0:=sample_intl) (H1:=freezing_upstream) 240 1 2 sample_config sample_delays
    staged_pipeline served_pipeline (sample_row 0 TELEGRAM 20) TELEGRAM) as [Hrow|Hc].
  - split; [apply (bool_decide_unpack _); vm_compute; exact I|]. intros row ->%list_elem_of_singleton.
    split; [exists 0%nat|exists 2%nat]; (split; [done|cbn; lia]).
  - by apply Forall_singleton.
  - reflexivity.
  - cbn. lia.
  - by left.
  - reflexivity.
  - reflexivity.
  - by intros ?%elem_of_nil.
  - etrans; [apply sample_relay_run|]. apply (sample_serve_run relayed.1 (one_watcher relayed.2)); [vm_compute; reflexivity|].
    vm_compute. by intros ?%elem_of_nil.
  - exfalso. vm_compute in Hrow. by apply list_elem_of_singleton in Hrow.
  - exact Hc.
Defined.
