(* ===== verification/Crypto.v ===== *)
(** * Cryptography and tokens

    The primitives the API calls: SHA-256, bcrypt and JSON web tokens, as a
    class with the laws the code relies on, and the hexadecimal fingerprints
    it stores. *)

From S2P Require Import Prelude JsNumber Enums.
From Stdlib Require Import Ascii.

(** The claims of a token ([apps/core-api/src/auth/types.ts]): an access token
    carries the role, a refresh token the id of its row. *)
Record JwtPayload := {
  sub : string;
  email : string;
  role : option Role;
  jti : option string;
}.

Class Crypto := {
  sha256 : string -> list ascii;
  bcrypt_hash : nat -> string -> string;          (** random salt, password *)
  bcrypt_compare : string -> string -> bool;      (** password, hash *)
  jwt_sign : string -> JwtPayload -> Z -> Z -> string;       (** secret, claims, issued at, expires at (s) *)
  jwt_verify : string -> Z -> string -> option JwtPayload;  (** secret, now (s), token *)
}.

Class CryptoLaws `{Crypto} : Prop := {
  (** no two texts the code hashes collide *)
  sha256_inj :: Inj (=) (=) sha256;
  bcrypt_correct : forall salt password, bcrypt_compare password (bcrypt_hash salt password) = true;
  (** a token is not the empty text *)
  jwt_sign_not_empty : forall secret claims iat exp, jwt_sign secret claims iat exp <> "";
  (** a token verifies until it expires *)
  jwt_verify_sign : forall secret claims iat exp at_,
    at_ < exp -> jwt_verify secret at_ (jwt_sign secret claims iat exp) = Some claims;
  (** and not from then on *)
  jwt_expired : forall secret claims iat exp at_,
    exp <= at_ -> jwt_verify secret at_ (jwt_sign secret claims iat exp) = None;
  (** only tokens signed with the secret verify *)
  jwt_signed : forall secret at_ token claims,
    jwt_verify secret at_ token = Some claims -> exists iat exp, token = jwt_sign secret claims iat exp;
}.

(** ** Fingerprints *)

(** [digest('hex')] *)
Definition hex_digit (n : N) : ascii :=
  ascii_of_N (if (n <? 10)%N then 48 + n else 87 + n).

Fixpoint to_hex (bytes : list ascii) : string :=
  match bytes with
  | [] => ""
  | b :: rest => String (hex_digit (N_of_ascii b / 16)) (String (hex_digit (N_of_ascii b mod 16)) (to_hex rest))
  end.

Definition hex_value (c : ascii) : option N :=
  let n := N_of_ascii c in
  if ((48 <=? n) && (n <=? 57))%N then Some (n - 48)%N
  else if ((97 <=? n) && (n <=? 102))%N then Some (n - 87)%N
  else if ((65 <=? n) && (n <=? 70))%N then Some (n - 55)%N
  else None.

(** [Buffer.from(s, 'hex')]: decodes up to the first pair that is not
    hexadecimal. *)
Fixpoint from_hex (s : string) : list ascii :=
  match s with
  | String a (String b rest) =>
      match hex_value a, hex_value b with
      | Some x, Some y => ascii_of_N (16 * x + y) :: from_hex rest
      | _, _ => []
      end
  | _ => []
  end.

Lemma from_to_hex bytes : from_hex (to_hex bytes) = bytes.
Proof.
  induction bytes as [|b bytes IH]; [done|]. cbn [to_hex from_hex].
  assert (match hex_value (hex_digit (N_of_ascii b / 16)), hex_value (hex_digit (N_of_ascii b mod 16)) with
          | Some x, Some y => ascii_of_N (16 * x + y) | _, _ => "000"%char end = b /\
          is_Some (hex_value (hex_digit (N_of_ascii b / 16))) /\ is_Some (hex_value (hex_digit (N_of_ascii b mod 16))))
    as (Hb & [x Hx] & [y Hy]).
  { destruct b as [[] [] [] [] [] [] [] []]; vm_compute; split_and!; eauto. }
  rewrite Hx, Hy in *. by rewrite Hb, IH.
Qed.

#[global] Instance to_hex_inj : Inj (=) (=) to_hex.
Proof. intros a b Hab. by rewrite <- (from_to_hex a), Hab, from_to_hex. Qed.

Section Fingerprint.
Context `{Crypto}.

Definition hashToken (token : string) : string := to_hex (sha256 token).

(** Constant-time comparison of the decoded fingerprints. *)
Definition verifyTokenHash (token stored : string) : bool :=
  bool_decide (from_hex (hashToken token) = from_hex stored).

#[global] Instance hashToken_inj `{!CryptoLaws} : Inj (=) (=) hashToken.
Proof. intros a b Hab. by apply (inj to_hex), (inj sha256) in Hab. Qed.

Lemma verifyTokenHash_hash `{!CryptoLaws} token token' :
  verifyTokenHash token (hashToken token') = bool_decide (token = token').
Proof.
  unfold verifyTokenHash, hashToken. rewrite !from_to_hex. apply bool_decide_ext. split; [apply (inj sha256)|congruence].
Qed.

End Fingerprint.

(** ** A concrete instance *)

(** Codes as texts of binary digits, up to a point. *)
Fixpoint pos_text (p : positive) : string :=
  match p with
  | xH => "."
  | xO p => String "0" (pos_text p)
  | xI p => String "1" (pos_text p)
  end.

Fixpoint text_pos (s : string) : positive :=
  match s with
  | String "0" s => xO (text_pos s)
  | String "1" s => xI (text_pos s)
  | _ => xH
  end.

Lemma text_pos_text p : text_pos (pos_text p) = p.
Proof. induction p as [p IH|p IH|]; cbn; by rewrite ?IH. Qed.

#[global] Instance Role_countable : Countable Role.
Proof.
  refine (inj_countable' (fun r => match r with USER => true | ADMIN => false end)
                         (fun b => if b : bool then USER else ADMIN) _). by intros [].
Defined.

#[global] Instance JwtPayload_eq_dec : EqDecision JwtPayload.
Proof. solve_decision. Defined.

#[global] Instance JwtPayload_countable : Countable JwtPayload.
Proof.
  refine (inj_countable' (fun c => (sub c, email c, role c, jti c))
                         (fun '(s, e, r, j) => {| sub := s; email := e; role := r; jti := j |}) _). by intros [].
Defined.

Definition sample_sign (secret : string) (c : JwtPayload) (iat exp : Z) : string := pos_text (encode (secret, c, iat, exp)).

Definition sample_verify (secret : string) (at_ : Z) (token : string) : option JwtPayload :=
  match decode (A := string * JwtPayload * Z * Z) (text_pos token) with
  | Some (s, c, iat, exp) =>
      if bool_decide (sample_sign s c iat exp = token) && bool_decide (s = secret) && (at_ <? exp) then Some c else None
  | None => None
  end.

Definition sample_crypto : Crypto :=
  {| sha256 := String.list_ascii_of_string;
     bcrypt_hash := fun _ p => "$2b$" +:+ p;
     bcrypt_compare := fun p h => bool_decide (h = "$2b$" +:+ p);
     jwt_sign := sample_sign; jwt_verify := sample_verify |}.

#[global] Instance sample_crypto_laws : @CryptoLaws sample_crypto.
Proof.
  split; cbn.
  - intros a b Hab. by rewrite <- (String.string_of_list_ascii_of_string a), Hab, String.string_of_list_ascii_of_string.
  - intros salt p. by apply bool_decide_true.
  - intros secret c iat exp. unfold sample_sign. by destruct (encode _).
  - intros secret c iat exp at_ Hlt. unfold sample_verify, sample_sign. rewrite text_pos_text, decode_encode.
    rewrite !bool_decide_true by done. by rewrite (proj2 (Z.ltb_lt _ _) Hlt).
  - intros secret c iat exp at_ Hle. unfold sample_verify, sample_sign. rewrite text_pos_text, decode_encode.
    rewrite !bool_decide_true by done. by rewrite (proj2 (Z.ltb_ge _ _) Hle).
  - intros secret at_ token c. unfold sample_verify. destruct (decode _) as [[[[s c'] iat] exp]|]; [|done].
    intros Hv. case_match eqn:Hb; [|done]. simplify_eq. bool_to_prop. rewrite bool_decide_eq_true in *. subst. eauto.
Qed.
