(* ===== verification/Auth.v ===== *)
(** * Authentication ([apps/core-api/src/auth/auth.service.ts])

    Registration, sign-in with lockout, refresh-token rotation with reuse
    detection, e-mail verification and password reset. *)

From S2P Require Import Prelude JsNumber JsParse Enums Contracts Table World Effects RedisService Outbox Format Crypto.
From Stdlib Require Import Ascii.

(** ** Durations ([apps/core-api/src/auth/duration.ts]) *)

(** The unit letter, in milliseconds. *)
Definition unit_ms (c : ascii) : option Z :=
  if decide (c = "s"%char) then Some 1000
  else if decide (c = "m"%char) then Some 60000
  else if decide (c = "h"%char) then Some 3600000
  else if decide (c = "d"%char) then Some 86400000
  else None.

Definition decimal (c : ascii) : option Z :=
  let n := Z.of_N (N_of_ascii c) in if (48 <=? n) && (n <=? 57) then Some (n - 48) else None.

(** [/^(\d+)([smhd])$/]: digits, at least one, then the unit at the end. *)
Fixpoint scan_duration (seen : bool) (amount : Z) (s : string) : option Z :=
  match s with
  | EmptyString => None
  | String c s' =>
      match decimal c with
      | Some d => scan_duration true (amount * 10 + d) s'
      | None => match s', unit_ms c with
                | EmptyString, Some u => if seen then Some (amount * u) else None
                | _, _ => None
                end
      end
  end.

(** [None] is the thrown error. *)
Definition parseDurationMs (value : string) : option Z := scan_duration false 0 (trim value).

(** ** Users the service needs ([apps/core-api/src/users/users.service.ts]) *)

Definition upd_user (p : User -> bool) (f : User -> User) (w : World) : (unit + exn) * World :=
  match update_one p f (users (db w)) with
  | Some t => (inl tt, set_db (set_users t (db w)) w)
  | None => (inr RecordNotFound, w)
  end.

Definition has_id (id : string) (u : User) : bool := bool_decide (u_id u = id).

Definition findByEmail (email : string) : M (option User) :=
  query (fun w => find_first (fun u => bool_decide (u_email u = email)) (users (db w))).

Definition findById (id : string) : M (option User) :=
  query (fun w => find_first (has_id id) (users (db w))).

Section Users.
Context `{UuidSupply}.

(** Columns the caller leaves out take their defaults. *)
Definition new_user (id email passwordHash : string) (at_ : Z) : User :=
  {| u_id := id; u_email := email; u_passwordHash := passwordHash; u_role := USER; u_telegramChatId := None;
     u_telegramLinkTokenHash := None; u_telegramLinkTokenExpiresAt := None; u_quietHoursStart := None;
     u_quietHoursEnd := None; u_timezone := None; u_emailVerified := false; u_emailVerificationTokenHash := None;
     u_emailVerificationTokenExpiresAt := None; u_passwordResetTokenHash := None;
     u_passwordResetTokenExpiresAt := None; u_createdAt := at_ |}.

Definition create_user (email passwordHash : string) : M User :=
  io (fun w =>
    let row := new_user (uuid (uuids w)) email passwordHash (now w) in
    match create (fun u => bool_decide (u_email u = email)) row (users (db w)) with
    | Some t => (inl row, set_uuids (S (uuids w)) (set_db (set_users t (db w)) w))
    | None => (inr UniqueViolation, w)
    end).

End Users.

(** Column updates. *)

Definition set_verification (hash : option string) (exp : option Z) (verified : bool) (u : User) : User :=
  {| u_id := u_id u; u_email := u_email u; u_passwordHash := u_passwordHash u; u_role := u_role u;
     u_telegramChatId := u_telegramChatId u; u_telegramLinkTokenHash := u_telegramLinkTokenHash u;
     u_telegramLinkTokenExpiresAt := u_telegramLinkTokenExpiresAt u; u_quietHoursStart := u_quietHoursStart u;
     u_quietHoursEnd := u_quietHoursEnd u; u_timezone := u_timezone u; u_emailVerified := verified;
     u_emailVerificationTokenHash := hash; u_emailVerificationTokenExpiresAt := exp;
     u_passwordResetTokenHash := u_passwordResetTokenHash u;
     u_passwordResetTokenExpiresAt := u_passwordResetTokenExpiresAt u; u_createdAt := u_createdAt u |}.

Definition set_reset (passwordHash : string) (hash : option string) (exp : option Z) (verified : bool) (u : User) : User :=
  {| u_id := u_id u; u_email := u_email u; u_passwordHash := passwordHash; u_role := u_role u;
     u_telegramChatId := u_telegramChatId u; u_telegramLinkTokenHash := u_telegramLinkTokenHash u;
     u_telegramLinkTokenExpiresAt := u_telegramLinkTokenExpiresAt u; u_quietHoursStart := u_quietHoursStart u;
     u_quietHoursEnd := u_quietHoursEnd u; u_timezone := u_timezone u; u_emailVerified := verified;
     u_emailVerificationTokenHash := u_emailVerificationTokenHash u;
     u_emailVerificationTokenExpiresAt := u_emailVerificationTokenExpiresAt u;
     u_passwordResetTokenHash := hash; u_passwordResetTokenExpiresAt := exp; u_createdAt := u_createdAt u |}.

(** ** The service *)

Definition VERIFY_TTL_MS : Z := 24 * 60 * 60 * 1000.
Definition RESET_TTL_MS : Z := 60 * 60 * 1000.
Definition PRUNE_LOCK_KEY : string := "core-api:refresh-tokens:prune".
Definition PRUNE_LOCK_TTL_SEC : Z := 300.
Definition LOGIN_MAX_FAILURES : Z := 10.
Definition LOGIN_LOCKOUT_SEC : Z := 15 * 60.

Record Tokens := { accessToken : string; refreshToken : string }.

Record AuthConfig := {
  accessSecret : string;
  refreshSecret : string;
  accessTtlMs : Z;
  refreshTtlMs : Z;
  frontUrl : string;
  mailConfigured : bool;
  absentUserHash : string;
}.

(** Framework exceptions. *)
Definition Unauthorized (message : string) : exn := HttpException 401 message.
Definition BadRequest (message : string) : exn := HttpException 400 message.
Definition Conflict (message : string) : exn := HttpException 409 message.
Definition TooManyRequests (message : string) : exn := HttpException 429 message.

Definition lower (c : ascii) : ascii :=
  let n := N_of_ascii c in if ((65 <=? n) && (n <=? 90))%N then ascii_of_N (n + 32) else c.

Fixpoint toLowerCase (s : string) : string :=
  match s with String c s' => String (lower c) (toLowerCase s') | EmptyString => "" end.

Definition quoted (s : string) : string := String dquote (s +:+ String dquote "").

Section Service.
Context `{UuidSupply} `{Crypto} (config : AuthConfig).

(** Addresses fold on ASCII letters. *)
Definition loginFailureKey (email : string) : string :=
  "auth:login-fail:" +:+ to_hex (sha256 (toLowerCase (trim email))).

(** Not awaited; whatever happens is logged. *)
Definition sendDetached (to subject html : string) : M unit :=
  if mailConfigured config then catch (exec (fun w => set_delivered (delivered w ++ [Mail to subject html]) w)) (fun _ => ret tt)
  else ret tt.

Definition create_refresh (row : RefreshToken) : M unit :=
  io (fun w =>
    match create (fun r => bool_decide (r_id r = r_id row)) row (refreshTokens (db w)) with
    | None => (inr UniqueViolation, w)
    | Some t =>
        if existsb (has_id (r_userId row)) (users (db w))
        then (inl tt, set_db (set_refreshTokens t (db w)) w)
        else (inr (JsError "P2003"), w)
    end).

(** The library stamps tokens with whole seconds. *)
Definition issueTokens (userId email : string) : M Tokens :=
  let* user := findById userId in
  let* at1 := get_now in
  let access := jwt_sign (accessSecret config)
    {| sub := userId; email := email; role := Some (match user with Some u => u_role u | None => USER end); jti := None |}
    (at1 / 1000) (at1 / 1000 + accessTtlMs config / 1000) in
  let* jti := randomUUID in
  let* at2 := get_now in
  let refresh := jwt_sign (refreshSecret config) {| sub := userId; email := email; role := None; jti := Some jti |}
    (at2 / 1000) (at2 / 1000 + refreshTtlMs config / 1000) in
  let* at3 := get_now in
  do* create_refresh {| r_id := jti; r_userId := userId; r_tokenHash := hashToken refresh;
                        r_expiresAt := at3 + refreshTtlMs config; r_revoked := false |} in
  ret {| accessToken := access; refreshToken := refresh |}.

Definition verification_html (link : string) : string :=
  "<p>Confirm your email address by clicking <a href=" +:+ quoted link +:+ ">this link</a>. It expires in 24 hours.</p>".

Definition sendVerificationEmail (userId email : string) : M unit :=
  let* token := randomUUID in
  let* at_ := get_now in
  do* io (upd_user (has_id userId) (fun u =>
        set_verification (Some (hashToken token)) (Some (at_ + VERIFY_TTL_MS)) (u_emailVerified u) u)) in
  sendDetached email "Verify your email" (verification_html (frontUrl config +:+ "/verify-email?token=" +:+ token)).

(** [bcrypt.hash], awaited: the salt is drawn afresh. Like every call it takes
    its time, and others run meanwhile. *)
Definition bcrypt (password : string) : M string :=
  io (fun w => (inl (bcrypt_hash (uuids w) password), set_uuids (S (uuids w)) w)).

(** [bcrypt.compare], awaited. *)
Definition bcryptCompare (password hash : string) : M bool := query (fun _ => bcrypt_compare password hash).

Definition register (email password : string) : M Tokens :=
  let* existing := findByEmail email in
  match existing with
  | Some _ => throw (Conflict "An account with this email already exists")
  | None =>
      let* passwordHash := bcrypt password in
      let* user := create_user email passwordHash in
      do* sendVerificationEmail (u_id user) (u_email user) in
      issueTokens (u_id user) (u_email user)
  end.

Definition verifyEmail (token : string) : M bool :=
  let* user := query (fun w => find_first (fun u => bool_decide (u_emailVerificationTokenHash u = Some (hashToken token)))
                                          (users (db w))) in
  let* at_ := get_now in
  match user with
  | Some u =>
      match u_emailVerificationTokenExpiresAt u with
      | Some exp =>
          if exp <? at_ then throw (BadRequest "Invalid or expired verification token")
          else do* io (upd_user (has_id (u_id u)) (set_verification None None true)) in ret true
      | None => throw (BadRequest "Invalid or expired verification token")
      end
  | None => throw (BadRequest "Invalid or expired verification token")
  end.

Definition resendVerification (userId : string) : M bool :=
  let* user := findById userId in
  match user with
  | None => throw (Unauthorized "Unauthorized")
  | Some u =>
      if u_emailVerified u then ret false
      else do* sendVerificationEmail (u_id u) (u_email u) in ret true
  end.

Definition reset_html (link : string) : string :=
  "<p>Reset your password by clicking <a href=" +:+ quoted link +:+ ">this link</a>. It expires in one hour.</p>" +:+
  "<p>If you did not ask for this, ignore this email — your password has not changed.</p>".

(** The answer is [{ accepted: true }] in either case. *)
Definition forgotPassword (email : string) : M bool :=
  let* user := findByEmail email in
  match user with
  | None => ret true
  | Some u =>
      let* token := randomUUID in
      let* at_ := get_now in
      do* io (upd_user (has_id (u_id u)) (fun u =>
            set_reset (u_passwordHash u) (Some (hashToken token)) (Some (at_ + RESET_TTL_MS)) (u_emailVerified u) u)) in
      do* sendDetached email "Reset your password" (reset_html (frontUrl config +:+ "/reset-password?token=" +:+ token)) in
      ret true
  end.

Definition revoke (r : RefreshToken) : RefreshToken :=
  {| r_id := r_id r; r_userId := r_userId r; r_tokenHash := r_tokenHash r; r_expiresAt := r_expiresAt r; r_revoked := true |}.

Definition live_of (userId : string) (r : RefreshToken) : bool :=
  bool_decide (r_userId r = userId) && negb (r_revoked r).

(** [updateMany({ where: p, data: { revoked: true } })] *)
Definition revoke_where (p : RefreshToken -> bool) (w : World) : nat * World :=
  let r := update_many p revoke (refreshTokens (db w)) in
  (r.2, set_db (set_refreshTokens r.1 (db w)) w).

(** The account a reset link belongs to, while it has not expired. *)
Definition reset_lookup (token : string) : M User :=
  let* user := query (fun w => find_first (fun u => bool_decide (u_passwordResetTokenHash u = Some (hashToken token)))
                                          (users (db w))) in
  let* at_ := get_now in
  match user with
  | Some u =>
      match u_passwordResetTokenExpiresAt u with
      | Some exp => if exp <? at_ then throw (BadRequest "Invalid or expired reset token") else ret u
      | None => throw (BadRequest "Invalid or expired reset token")
      end
  | None => throw (BadRequest "Invalid or expired reset token")
  end.

(** One transaction, keyed by the account alone: the new hash, the end of the
    link and the end of every session. *)
Definition reset_commit (userId passwordHash : string) : M unit :=
  io (fun w => match upd_user (has_id userId) (set_reset passwordHash None None true) w with
               | (inl _, w1) => (inl tt, (revoke_where (live_of userId) w1).2)
               | (inr e, w1) => (inr e, w1)
               end).

Definition resetPassword (token password : string) : M bool :=
  let* user := reset_lookup token in
  let* passwordHash := bcrypt password in
  do* reset_commit (u_id user) passwordHash in
  ret true.

Definition login (email password : string) : M Tokens :=
  let failureKey := loginFailureKey email in
  let* locked := failureCount failureKey in
  if LOGIN_MAX_FAILURES <=? fw_count locked
  then throw (TooManyRequests "Too many failed attempts. Try again later.")
  else
    let* user := findByEmail email in
    let* passwordMatches := bcryptCompare password
      (match user with Some u => u_passwordHash u | None => absentUserHash config end) in
    match user, passwordMatches with
    | Some u, true =>
        do* clearFailures failureKey in
        issueTokens (u_id u) (u_email u)
    | _, _ =>
        do* recordFailure failureKey LOGIN_LOCKOUT_SEC in
        throw (Unauthorized "Invalid credentials")
    end.

Definition revokeFamily (userId : string) : M unit :=
  exec (fun w => (revoke_where (live_of userId) w).2).

Definition InvalidRefresh : exn := Unauthorized "Invalid refresh token".

(** The first half of [refresh]: what the request is checked against. *)
Definition refresh_lookup (token : string) : M (JwtPayload * RefreshToken) :=
  let* at1 := get_now in
  match jwt_verify (refreshSecret config) (at1 / 1000) token with
  | None => throw InvalidRefresh
  | Some payload =>
      match jti payload with
      | None => throw (JsError "PrismaClientValidationError")
      | Some jti =>
          let* row := query (fun w => find_first (fun r => bool_decide (r_id r = jti)) (refreshTokens (db w))) in
          let* at2 := get_now in
          match row with
          | None => throw InvalidRefresh
          | Some row =>
              if r_expiresAt row <? at2 then throw InvalidRefresh
              else if negb (verifyTokenHash token (r_tokenHash row)) then throw InvalidRefresh
              else ret (payload, row)
          end
      end
  end.

(** The second half: the compare-and-set that spends the token. *)
Definition refresh_spend (payload : JwtPayload) (row : RefreshToken) : M Tokens :=
  if r_revoked row then
    do* revokeFamily (r_userId row) in throw InvalidRefresh
  else
    let* count := io (fun w => let r := revoke_where (fun x => bool_decide (r_id x = r_id row) && negb (r_revoked x)) w in
                               (inl r.1, r.2)) in
    if (count =? 0)%nat then
      do* revokeFamily (r_userId row) in throw InvalidRefresh
    else issueTokens (sub payload) (email payload).

Definition refresh (token : string) : M Tokens :=
  let* found := refresh_lookup token in
  refresh_spend found.1 found.2.

(** A filter on an absent id is no filter. *)
Definition logout (token : string) : M bool :=
  let* at_ := get_now in
  match jwt_verify (refreshSecret config) (at_ / 1000) token with
  | Some payload =>
      do* catch (exec (fun w => (revoke_where (fun x => match jti payload with Some j => bool_decide (r_id x = j) | None => true end && negb (r_revoked x)) w).2))
                (fun _ => ret tt) in
      ret true
  | None => ret true
  end.

Definition pruneStaleTokens : M unit :=
  let* token := acquireLock PRUNE_LOCK_KEY PRUNE_LOCK_TTL_SEC in
  match token with
  | None => ret tt
  | Some token =>
      finally
        (let* at_ := get_now in
         exec (fun w => set_db (set_refreshTokens (delete_many (fun r => r_expiresAt r <? at_) (refreshTokens (db w))).1 (db w)) w))
        (do* releaseLock PRUNE_LOCK_KEY token in ret tt)
  end.

End Service.
