(* ===== verification/OpenMeteo.v ===== *)
(** * Weather and city lookups ([apps/core-api/src/open-meteo])

    Two proxies of Open-Meteo with a cache in Redis. What the upstream
    answers is a parameter. *)

From S2P Require Import Prelude JsNumber JsParse Enums Conditions Contracts OpenMeteoTypes World Samples Effects RedisService Weather Crypto Auth.

(** ** The upstream *)

(** [forecastSchema] *)
Record ForecastCurrent := {
  c_time : string;
  c_temperature_2m : number;
  c_apparent_temperature : number;
  c_relative_humidity_2m : number;
  c_wind_speed_10m : number;
  c_precipitation : number;
  c_weather_code : number;
}.

Record ForecastDaily := {
  d_time : list string;
  d_weather_code : list number;
  d_temperature_2m_max : list number;
  d_temperature_2m_min : list number;
  d_precipitation_probability_max : list (option number);
}.

Record ForecastBody := { f_current : ForecastCurrent; f_daily : ForecastDaily }.

(** One entry of [geocodingResponseSchema], which is the shape of the answer
    but for absent fields. *)
Record GeocodePlace := {
  g_name : string;
  g_country : option string;
  g_admin1 : option string;
  g_latitude : number;
  g_longitude : number;
}.

(** What Open-Meteo answers at an instant; [None] is a body the schema
    refuses. *)
Record Upstream := {
  ask_forecast : Z -> number -> number -> option ForecastBody;
  ask_geocode : Z -> string -> option (option (list GeocodePlace));
}.

(** ** The services *)

Definition FORECAST_CACHE_TTL_SEC : Z := 300.
Definition GEOCODE_CACHE_TTL_SEC : Z := 24 * 60 * 60.

Definition toReport (data : ForecastBody) : ForecastResponse :=
  let c := f_current data in
  let d := f_daily data in
  {| fr_current :=
       {| cw_time := c_time c; cw_temperature := c_temperature_2m c; cw_apparentTemp := c_apparent_temperature c;
          cw_humidity := c_relative_humidity_2m c; cw_windSpeed := c_wind_speed_10m c;
          cw_precipitation := c_precipitation c; cw_weatherCode := c_weather_code c |};
     fr_daily := imap (fun i date =>
       {| df_date := date; df_weatherCode := d_weather_code d !! i; df_tempMax := d_temperature_2m_max d !! i;
          df_tempMin := d_temperature_2m_min d !! i;
          df_precipitationProbability := mjoin (d_precipitation_probability_max d !! i) |}) (d_time d) |}.

Definition toPlace (r : GeocodePlace) : GeocodeResult :=
  {| gr_name := g_name r; gr_country := g_country r; gr_admin1 := g_admin1 r; gr_latitude := g_latitude r; gr_longitude := g_longitude r |}.

(** [redis.getJson] at the type a key is used with. *)
Definition getJson_as {A} (decode : RedisValue -> option A) (key : string) : M (option A) :=
  let* raw := query (cmd_get key) in
  match raw with
  | None => ret None
  | Some v => match decode v with Some a => ret (Some a) | None => throw (JsError "SyntaxError") end
  end.

Definition report_of (v : RedisValue) : option ForecastResponse := match v with RReport r => Some r | _ => None end.
Definition places_of (v : RedisValue) : option (list GeocodeResult) := match v with RPlaces l => Some l | _ => None end.

Definition setJson_of (key : string) (v : RedisValue) (ttlSec : Z) : M unit := io (cmd_set_px key v (ttlSec * 1000)).

Definition forecastKey (latitude longitude : number) : string :=
  "forecast:" +:+ toFixed2 latitude +:+ ":" +:+ toFixed2 longitude.

Section Services.
Context `{Crypto} (up : Upstream).

Definition forecast_get (latitude longitude : number) : M ForecastResponse :=
  let key := forecastKey latitude longitude in
  let* cached := getJson_as report_of key in
  match cached with
  | Some r => ret r
  | None =>
      let* report :=
        catch (let* data := query (fun w => ask_forecast up (now w) latitude longitude) in
               match data with
               | Some d => ret (toReport d)
               | None => throw (JsError "ZodError")
               end)
              (fun _ => throw (HttpException 503 "Weather data is unavailable")) in
      do* setJson_of key (RReport report) FORECAST_CACHE_TTL_SEC in
      ret report
  end.

Definition geocode_cacheKey (q : string) : string := "geocode:" +:+ to_hex (sha256 (toLowerCase (trim q))).

(** An upstream that fails is answered with no matches, which are not kept. *)
Definition geocode_search (q : string) : M (list GeocodeResult) :=
  let key := geocode_cacheKey q in
  let* cached := getJson_as places_of key in
  match cached with
  | Some l => ret l
  | None =>
      let* results :=
        catch (let* data := query (fun w => ask_geocode up (now w) q) in
               match data with
               | Some places => ret (Some (map toPlace (default [] places)))
               | None => throw (JsError "ZodError")
               end)
              (fun _ => ret None) in
      match results with
      | None => ret []
      | Some l => do* setJson_of key (RPlaces l) GEOCODE_CACHE_TTL_SEC in ret l
      end
  end.

End Services.

(** ** The cache *)

Section Cache.
Context `{Crypto}.

(** An entry is served until it expires. *)
Lemma getJson_hit {A} (decode : RedisValue -> option A) key v a d w :
  oracle w = [] -> redis w !! key = Some {| e_value := v; e_expiresAt := Some d |} -> now w < d -> decode v = Some a ->
  getJson_as decode key w = (Ok (Some a), w).
Proof.
  intros Ho Hk Hlt Hd. unfold getJson_as. rewrite (bind_ok _ _ _ _ _ (query_ok _ _ Ho)).
  unfold cmd_get, peek. rewrite Hk. unfold expired. cbn. replace (d <=? now w) with false by lia. cbn. by rewrite Hd.
Qed.

Lemma getJson_miss {A} (decode : RedisValue -> option A) key w :
  oracle w = [] -> peek key w = None -> getJson_as decode key w = (Ok None, w).
Proof.
  intros Ho Hk. unfold getJson_as. rewrite (bind_ok _ _ _ _ _ (query_ok _ _ Ho)). unfold cmd_get. by rewrite Hk.
Qed.

Lemma setJson_stores key v ttlSec w :
  oracle w = [] -> 0 < ttlSec -> setJson_of key v ttlSec w = (Ok tt, put key v (Some (now w + ttlSec * 1000)) w).
Proof. intros Ho Ht. unfold setJson_of. rewrite io_fine by done. unfold cmd_set_px. by replace (ttlSec * 1000 <=? 0) with false by lia. Qed.

(** A miss that is answered stores the answer. *)
Lemma forecast_stores up lat lon w r w1 :
  oracle w = [] -> peek (forecastKey lat lon) w = None -> forecast_get up lat lon w = (Ok r, w1) ->
  w1 = put (forecastKey lat lon) (RReport r) (Some (now w + 300000)) w.
Proof.
  intros Ho Hm Hrun. unfold forecast_get in Hrun. rewrite (bind_ok _ _ _ _ _ (getJson_miss _ _ _ Ho Hm)) in Hrun.
  apply bind_Ok in Hrun as (report & w2 & Hc & Hrun). unfold catch in Hc.
  rewrite (bind_ok _ _ _ _ _ (query_ok _ _ Ho)) in Hc.
  destruct (ask_forecast up (now w) lat lon) as [d|]; [|done]. injection Hc as <- <-.
  rewrite (bind_ok _ _ _ _ _ (setJson_stores _ _ _ _ Ho (eq_refl : 0 < FORECAST_CACHE_TTL_SEC))) in Hrun. by injection Hrun as <- <-.
Qed.

Lemma geocode_stores up q w l w1 :
  oracle w = [] -> peek (geocode_cacheKey q) w = None -> ask_geocode up (now w) q <> None -> geocode_search up q w = (Ok l, w1) ->
  w1 = put (geocode_cacheKey q) (RPlaces l) (Some (now w + 86400000)) w.
Proof.
  intros Ho Hm Hup Hrun. unfold geocode_search in Hrun. rewrite (bind_ok _ _ _ _ _ (getJson_miss _ _ _ Ho Hm)) in Hrun.
  apply bind_Ok in Hrun as (results & w2 & Hc & Hrun). unfold catch in Hc.
  rewrite (bind_ok _ _ _ _ _ (query_ok _ _ Ho)) in Hc.
  destruct (ask_geocode up (now w) q) as [places|]; [|done]. injection Hc as <- <-.
  rewrite (bind_ok _ _ _ _ _ (setJson_stores _ _ _ _ Ho (eq_refl : 0 < GEOCODE_CACHE_TTL_SEC))) in Hrun. by injection Hrun as <- <-.
Qed.

(** What was stored [ms] ago is still served. *)
Lemma getJson_later {A} (decode : RedisValue -> option A) key v a ttl w ms :
  oracle w = [] -> 0 <= ms < ttl -> decode v = Some a ->
  let w' := (sleep ms (put key v (Some (now w + ttl)) w)).2 in getJson_as decode key w' = (Ok (Some a), w').
Proof. intros Ho Hms Hd. eapply getJson_hit; [done|apply lookup_insert_eq|cbn; lia|done]. Qed.

(** Lookups are shared: when Redis answers, an answered weather lookup is
    served for five minutes to everybody whose coordinates agree to two
    decimals, and an answered city search for a day to every spelling that
    differs in case or outer blanks only, with the same answer, without
    asking the upstream and without writing anything. *)
Theorem lookups_are_shared up up' w w1 ms :
  oracle w = [] -> 0 <= ms ->
  (forall lat lon lat' lon' r,
     peek (forecastKey lat lon) w = None -> forecast_get up lat lon w = (Ok r, w1) -> ms < 300000 ->
     toFixed2 lat' = toFixed2 lat -> toFixed2 lon' = toFixed2 lon ->
     forecast_get up' lat' lon' (sleep ms w1).2 = (Ok r, (sleep ms w1).2)) /\
  (forall q q' l,
     peek (geocode_cacheKey q) w = None -> ask_geocode up (now w) q <> None -> geocode_search up q w = (Ok l, w1) -> ms < 86400000 ->
     toLowerCase (trim q') = toLowerCase (trim q) ->
     geocode_search up' q' (sleep ms w1).2 = (Ok l, (sleep ms w1).2)).
Proof.
  intros Ho Hms. split.
  - intros lat lon lat' lon' r Hm Hrun Hlt Hlat Hlon. rewrite (forecast_stores _ _ _ _ _ _ Ho Hm Hrun).
    unfold forecast_get. assert (forecastKey lat' lon' = forecastKey lat lon) as -> by (unfold forecastKey; by rewrite Hlat, Hlon).
    by rewrite (bind_ok _ _ _ _ _ (getJson_later report_of _ (RReport r) r _ _ _ Ho (conj Hms Hlt) eq_refl)).
  - intros q q' l Hm Hup Hrun Hlt Hq. rewrite (geocode_stores _ _ _ _ _ Ho Hm Hup Hrun).
    unfold geocode_search. assert (geocode_cacheKey q' = geocode_cacheKey q) as -> by (unfold geocode_cacheKey; by rewrite Hq).
    by rewrite (bind_ok _ _ _ _ _ (getJson_later places_of _ (RPlaces l) l _ _ _ Ho (conj Hms Hlt) eq_refl)).
Qed.

(** ** Outages *)

(** An upstream that fails, by rejecting the call or by a body the schema
    refuses, is a 503 for the weather page and no matches for the city field,
    and neither is kept: the next lookup asks again. *)
Theorem outage_is_not_cached up w c k ks :
  oracle w = c :: k :: ks -> k_fault c = Fine ->
  (forall lat lon, peek (forecastKey lat lon) (tick w) = None ->
     (exists code applied, k_fault k = Fail code applied) \/ (k_fault k = Fine /\ ask_forecast up (now (tick (tick w))) lat lon = None) ->
     forecast_get up lat lon w = (Throw (HttpException 503 "Weather data is unavailable"), tick (tick w))) /\
  (forall q, peek (geocode_cacheKey q) (tick w) = None ->
     (exists code applied, k_fault k = Fail code applied) \/ (k_fault k = Fine /\ ask_geocode up (now (tick (tick w))) q = None) ->
     geocode_search up q w = (Ok [], tick (tick w))).
Proof.
  intros Ho Hc. assert (next_fault w = Fine) as Hf by (unfold next_fault; by rewrite Ho).
  assert (next_fault (tick w) = k_fault k) as Hf' by (unfold next_fault, tick; by rewrite Ho).
  assert (forall A (decode : RedisValue -> option A) key, peek key (tick w) = None -> getJson_as decode key w = (Ok None, tick w)) as Hget.
  { intros A decode key Hp. unfold getJson_as, bind, query, io. rewrite Hf. unfold cmd_get. by rewrite Hp. }
  split; [intros lat lon Hp Hfail; unfold forecast_get|intros q Hp Hfail; unfold geocode_search];
    rewrite (bind_ok _ _ _ _ _ (Hget _ _ _ Hp)); unfold bind, catch, query, io; rewrite Hf';
    (destruct Hfail as [(code & applied & ->)|[-> Hz]]; [by destruct applied|by rewrite Hz]).
Qed.

End Cache.

(** ** Concrete runs *)

Definition here : number := Num.lit 5223 100.

Definition sample_upstream : Upstream :=
  {| ask_forecast := fun _ _ _ => Some
       {| f_current := {| c_time := "12:00"; c_temperature_2m := here; c_apparent_temperature := here; c_relative_humidity_2m := here;
                          c_wind_speed_10m := here; c_precipitation := here; c_weather_code := here |};
          f_daily := {| d_time := ["Mon"; "Tue"]; d_weather_code := [here; here]; d_temperature_2m_max := [here];
                        d_temperature_2m_min := [here; here]; d_precipitation_probability_max := [None; Some here] |} |};
     ask_geocode := fun _ q => Some (Some [ {| g_name := q; g_country := None; g_admin1 := None; g_latitude := here; g_longitude := here |} ]) |}.

Definition dead_upstream : Upstream := {| ask_forecast := fun _ _ _ => None; ask_geocode := fun _ _ => None |}.

Definition first_search := geocode_search (H:=sample_crypto) sample_upstream "Berlin" empty_world.

Lemma lookups_are_shared_witness :
  exists l, first_search.1 = Ok l /\ l <> [] /\
    geocode_search (H:=sample_crypto) dead_upstream " berlin " (sleep 86399999 first_search.2).2 = (Ok l, (sleep 86399999 first_search.2).2).
Proof.
  destruct (lookups_are_shared (H:=sample_crypto) sample_upstream dead_upstream empty_world first_search.2 86399999) as [_ Hg]; [reflexivity|lia|].
  eexists. split; [vm_compute; reflexivity|]. split; [discriminate|].
  apply (Hg "Berlin" " berlin "); [reflexivity|discriminate|vm_compute; reflexivity|lia|reflexivity].
Defined.

(** The call to the upstream times out. *)
Definition outage : World :=
  {| now := 0; uuids := 0; oracle := [ {| k_fault := Fine; k_elapsed := 1 |}; {| k_fault := Fail None false; k_elapsed := 5000 |} ];
     db := empty_db; redis := ∅; broker := {| published := []; acked := [] |}; delivered := [] |}.

Lemma outage_is_not_cached_witness :
  forecast_get sample_upstream here here outage = (Throw (HttpException 503 "Weather data is unavailable"), tick (tick outage)) /\
  geocode_search (H:=sample_crypto) sample_upstream "Berlin" outage = (Ok [], tick (tick outage)).
Proof.
  destruct (outage_is_not_cached (H:=sample_crypto) sample_upstream outage _ _ _ eq_refl eq_refl) as [Hf Hg].
  split; [apply Hf|apply Hg]; (reflexivity || (left; exists None, false; reflexivity)).
Defined.
