(* ===== verification/AuthSessions.v ===== *)
(** * Sessions: rotation and reuse detection

    A refresh token is spent by a compare-and-set on its row. The theorems
    hold across any sequence of operations of the service, any faults, and
    any interleaving of the two halves of [refresh]. *)

From S2P Require Import Prelude JsNumber Enums Contracts Table World Samples Effects RedisService Outbox Crypto Auth.

(** ** Requests *)

Section Requests.
Context `{UuidSupply} `{Crypto} (config : AuthConfig).

(** Requests to the service, the two halves of a refresh apart so that others
    may come between them, and time passing. *)
Inductive AuthOp :=
  | Register (email password : string)
  | VerifyEmail (token : string)
  | ResendVerification (userId : string)
  | ForgotPassword (email : string)
  | ResetPassword (token password : string)
  | Login (email password : string)
  | RefreshLookup (token : string)
  | RefreshSpend (payload : JwtPayload) (row : RefreshToken)
  | Logout (token : string)
  | Prune
  | Idle (ms : nat).

Definition run_auth (op : AuthOp) (w : World) : World :=
  match op with
  | Register email password => (register config email password w).2
  | VerifyEmail token => (verifyEmail token w).2
  | ResendVerification userId => (resendVerification config userId w).2
  | ForgotPassword email => (forgotPassword config email w).2
  | ResetPassword token password => (resetPassword token password w).2
  | Login email password => (login config email password w).2
  | RefreshLookup token => (refresh_lookup config token w).2
  | RefreshSpend payload row => (refresh_spend config payload row w).2
  | Logout token => (logout config token w).2
  | Prune => (pruneStaleTokens w).2
  | Idle ms => (sleep (Z.of_nat ms) w).2
  end.

Definition run_auths (ops : list AuthOp) (w : World) : World := fold_left (fun w op => run_auth op w) ops w.

(** A relation between worlds that every write of the service satisfies. *)
Class AuthEffects (R : relation World) : Prop := {
  ae_mail : forall l w, R w (set_delivered l w);
  ae_sleep : forall ms w, 0 <= ms -> R w (sleep ms w).2;
  ae_verification : forall id hash exp (verified : User -> bool),
    keeps R (io (upd_user (has_id id) (fun u => set_verification hash exp (verified u) u)));
  ae_create : forall email hash, keeps R (create_user email hash);
  ae_revoke : forall p w, R w (revoke_where p w).2;
  ae_issue : forall userId email, keeps R (issueTokens config userId email);
  ae_reset : forall id hash, keeps R (reset_commit id hash);
  ae_forgot : forall email, keeps R (forgotPassword config email);
  ae_prune : keeps R pruneStaleTokens;
}.

Context (R : relation World) `{!WorldOrder R} `{!IgnoresRedis R} `{!AuthEffects R}.

Lemma keeps_revoke p : keeps R (exec (fun w => (revoke_where p w).2)).
Proof. apply keeps_exec; [done|]. intros w. apply ae_revoke. Qed.

Lemma keeps_sendVerificationEmail userId email : keeps R (sendVerificationEmail config userId email).
Proof.
  unfold sendVerificationEmail, sendDetached. keeps_tac; [apply ae_verification|].
  apply keeps_exec; [done|]. intros w. apply ae_mail.
Qed.

Lemma keeps_bcrypt password : keeps R (bcrypt password).
Proof. apply keeps_io; [done|]. intros w. apply ir_uuids. cbn. lia. Qed.

Lemma keeps_reset_lookup token : keeps R (reset_lookup token).
Proof. unfold reset_lookup. keeps_tac. Qed.

#[local] Hint Resolve keeps_reset_lookup keeps_revoke keeps_sendVerificationEmail keeps_bcrypt ae_create ae_issue ae_reset : keeps.

Lemma run_auth_keeps op w : R w (run_auth op w).
Proof.
  destruct op; cbn [run_auth]; revert w.
  - change (keeps R (register config email password)). unfold register. keeps_tac.
  - change (keeps R (verifyEmail token)). unfold verifyEmail. keeps_tac. apply (ae_verification _ None None (fun _ => true)).
  - change (keeps R (resendVerification config userId)). unfold resendVerification. keeps_tac.
  - apply ae_forgot.
  - change (keeps R (resetPassword token password)). unfold resetPassword. keeps_tac.
  - change (keeps R (login config email password)). unfold login. keeps_tac.
  - change (keeps R (refresh_lookup config token)). unfold refresh_lookup. keeps_tac.
  - change (keeps R (refresh_spend config payload row)). unfold refresh_spend, revokeFamily. keeps_tac.
    apply keeps_io; [done|]. intros w. apply ae_revoke.
  - change (keeps R (logout config token)). unfold logout. keeps_tac.
  - apply ae_prune.
  - intros w. apply ae_sleep. lia.
Qed.

(** Any sequence of requests, whatever fails. *)
Lemma run_auths_keeps ops w : R w (run_auths ops w).
Proof. revert w. induction ops as [|op ops IH]; intros w; [reflexivity|]. cbn. etrans; [apply run_auth_keeps|apply IH]. Qed.

End Requests.

(** ** How the table of tokens evolves *)

Section Evolve.
Context `{UuidSupply}.

Definition tokens (w : World) : list RefreshToken := refreshTokens (db w).

Definition tokens_ok (w : World) : Prop :=
  NoDup (r_id <$> tokens w) /\ (forall r, r ∈ tokens w -> drawn w (r_id r)).

(** The same token, possibly revoked in between, never restored. *)
Definition same_token (r r' : RefreshToken) : Prop :=
  r_id r' = r_id r /\ r_userId r' = r_userId r /\ r_tokenHash r' = r_tokenHash r /\ r_expiresAt r' = r_expiresAt r /\
  (r_revoked r = true -> r_revoked r' = true).

(** Time and the supply move forward, a row has an ancestor or a new id, and a
    row that has not expired is still there. *)
Definition tokens_evolve (w w' : World) : Prop :=
  tokens_ok w ->
  tokens_ok w' /\ (uuids w <= uuids w')%nat /\ now w <= now w' /\
  (forall r', r' ∈ tokens w' -> ~ drawn w (r_id r') \/ exists r, r ∈ tokens w /\ same_token r r') /\
  (forall r, r ∈ tokens w -> now w' <= r_expiresAt r -> exists r', r' ∈ tokens w' /\ same_token r r').

#[global] Instance same_token_preorder : PreOrder same_token.
Proof.
  split; [by intros r|]. intros a b c (? & ? & ? & ? & ?) (? & ? & ? & ? & ?). unfold same_token. split_and!; congruence || auto.
Qed.

Lemma tokens_evolve_same w w' :
  tokens w' = tokens w -> (uuids w <= uuids w')%nat -> now w <= now w' -> tokens_evolve w w'.
Proof.
  intros Ht Hu Hn [Hnd Hid]. unfold tokens_ok. rewrite Ht. split_and!; try done.
  - intros r Hr. eauto using drawn_mono.
  - intros r Hr. right. by exists r.
  - intros r Hr _. by exists r.
Qed.

#[global] Instance tokens_evolve_order : WorldOrder tokens_evolve.
Proof.
  split; [split|].
  - intros w. by apply tokens_evolve_same.
  - intros w1 w2 w3 H12 H23 Hok. destruct (H12 Hok) as (Hok2 & Hu2 & Hn2 & Ho2 & Hs2).
    destruct (H23 Hok2) as (Hok3 & Hu3 & Hn3 & Ho3 & Hs3). split_and!; [done|lia|lia| |].
    + intros r3 Hr3. destruct (Ho3 r3 Hr3) as [Hnew|(r2 & Hr2 & Hst)].
      { left. intros Hd. apply Hnew. by eapply drawn_mono. }
      destruct (Ho2 r2 Hr2) as [Hnew|(r1 & Hr1 & Hst1)].
      * left. by destruct Hst as (-> & _).
      * right. exists r1. split; [done|by etrans].
    + intros r1 Hr1 Hexp. destruct (Hs2 r1 Hr1) as (r2 & Hr2 & Hst); [lia|].
      destruct (Hs3 r2 Hr2) as (r3 & Hr3 & Hst'); [destruct Hst as (_ & _ & _ & -> & _); lia|].
      exists r3. split; [done|by etrans].
  - intros w. destruct (tick_spec w) as (Hn & _ & Hu & Hdb & _). apply tokens_evolve_same; [unfold tokens; by rewrite Hdb|lia|lia].
Qed.

Lemma revoke_where_evolves p w : tokens_evolve w (revoke_where p w).2.
Proof.
  assert (forall r, same_token r (if p r then revoke r else r)) as Hst by (intros r; by destruct (p r)).
  intros [Hnd Hid]. split_and!; [split|done|done| |].
  - unfold tokens. cbn [revoke_where snd db set_db refreshTokens set_refreshTokens]. by rewrite update_many_field.
  - intros r' (r & Hr & ->)%elem_of_update_many. specialize (Hid r Hr). by case_match.
  - intros r' (r & Hr & ->)%elem_of_update_many. right. eauto.
  - intros r Hr _. exists (if p r then revoke r else r). split; [|done]. apply elem_of_update_many. eauto.
Qed.

(** Sweeping what has expired by now. *)
Lemma prune_evolves w at_ :
  at_ <= now w ->
  tokens_evolve w (set_db (set_refreshTokens (delete_many (fun r => r_expiresAt r <? at_) (refreshTokens (db w))).1 (db w)) w).
Proof.
  intros Hat [Hnd Hid]. split_and!; [split|done|done| |]; cbn [db set_db now].
  - eapply sublist_NoDup; [exact Hnd|]. apply fmap_sublist, find_many_sublist.
  - intros r [Hr _]%elem_of_delete_many. by apply Hid.
  - intros r [Hr _]%elem_of_delete_many. right. by exists r.
  - intros r Hr Hexp. exists r. split; [|done]. apply elem_of_delete_many. split; [done|]. apply Z.ltb_ge.
    cbn in Hexp. lia.
Qed.

(** Issuing draws the id of the new row afresh. *)
Lemma create_refresh_evolves w row :
  r_id row = uuid (uuids w) -> tokens_evolve w (create_refresh row (set_uuids (S (uuids w)) w)).2.
Proof.
  intros Hrow [Hnd Hid]. set (w0 := set_uuids (S (uuids w)) w).
  assert (tokens_evolve w w0) as H0 by (apply tokens_evolve_same; cbn; lia || done).
  destruct (tick_spec w0) as (Hn & _ & Hu & Hdb & _).
  assert (tokens_evolve w (tick w0)) as H1 by (etrans; [exact H0|apply wo_tick]).
  destruct (create_refresh row w0) as [r w'] eqn:E. apply io_effect in E as [[-> _]|[-> _]]; [by apply H1|].
  destruct (create _ _ _) as [t|] eqn:Hc; [|by apply H1]. destruct (existsb _ _); [|by apply H1].
  apply create_Some in Hc as [_ ->]. rewrite Hdb. cbn [snd].
  assert (~ drawn w (r_id row)) as Hfresh.
  { intros (i & Hi & Hlt). rewrite Hrow in Hi. apply (inj uuid) in Hi. lia. }
  destruct (H1 (conj Hnd Hid)) as ([_ Hid1] & Hu1 & Hn1 & _).
  assert (tokens (tick w0) = tokens w) as Htk by (unfold tokens; by rewrite Hdb).
  split_and!; [split| | | |]; cbn [db set_db now uuids].
  - unfold tokens. cbn. rewrite fmap_app. apply NoDup_app. split_and!; [done| |apply NoDup_singleton].
    intros s (r0 & Hs & Hr0)%list_elem_of_fmap Hin%list_elem_of_singleton. apply Hfresh. cbn in Hin. rewrite <- Hin, Hs. by apply Hid.
  - intros r0 [Hr0|Hr0%list_elem_of_singleton]%elem_of_app.
    + apply Hid1. by rewrite Htk.
    + subst. exists (uuids w). rewrite Hrow. cbn. split; [done|]. cbn in Hu. lia.
  - exact Hu1.
  - exact Hn1.
  - intros r0 [Hr0|Hr0%list_elem_of_singleton]%elem_of_app; [right; by exists r0|left; by subst].
  - intros r0 Hr0 _. exists r0. split; [|done]. apply elem_of_app. by left.
Qed.

End Evolve.

(** ** Every operation of the service *)

Section Operations.
Context `{UuidSupply} `{Crypto} (config : AuthConfig).

#[global] Instance tokens_evolve_redis : IgnoresRedis tokens_evolve.
Proof.
  split.
  - intros w w' (r & ->). by apply tokens_evolve_same.
  - intros w n Hn. by apply tokens_evolve_same.
Qed.

Lemma upd_user_evolves p f : keeps tokens_evolve (io (upd_user p f)).
Proof.
  apply keeps_io; [apply _|]. intros w. unfold upd_user. destruct (update_one _ _ _); [by apply tokens_evolve_same|reflexivity].
Qed.

Lemma create_user_evolves email hash : keeps tokens_evolve (create_user email hash).
Proof.
  apply keeps_io; [apply _|]. intros w. cbv zeta. destruct (create _ _ _); [|reflexivity]. apply tokens_evolve_same; cbn; lia || done.
Qed.

Lemma sendDetached_evolves to subject html : keeps tokens_evolve (sendDetached config to subject html).
Proof. unfold sendDetached. keeps_tac. apply keeps_exec; [apply _|]. intros w. by apply tokens_evolve_same. Qed.

Lemma revoke_exec_evolves p : keeps tokens_evolve (exec (fun w => (revoke_where p w).2)).
Proof. apply keeps_exec; [apply _|]. intros w. apply revoke_where_evolves. Qed.

Lemma issueTokens_evolves userId email : keeps tokens_evolve (issueTokens config userId email).
Proof.
  intros w. unfold issueTokens. apply bind_run; [apply _|apply (keeps_query tokens_evolve)|]. intros user w1 _. clear w. rename w1 into w.
  unfold bind at 1 2 3 4 5, get_now, randomUUID. cbn [now set_uuids].
  set (row := {| r_id := _ |}). pose proof (create_refresh_evolves w row eq_refl) as Hc.
  unfold bind. by destruct (create_refresh row _) as [[]].
Qed.

Lemma reset_commit_evolves id hash :
  keeps tokens_evolve (reset_commit id hash).
Proof.
  apply keeps_io; [apply _|]. intros w. unfold upd_user. destruct (update_one _ _ _); [|reflexivity]. cbn [snd].
  etrans; [|apply revoke_where_evolves]. by apply tokens_evolve_same.
Qed.

#[local] Hint Resolve upd_user_evolves create_user_evolves sendDetached_evolves revoke_exec_evolves
  issueTokens_evolves reset_commit_evolves : keeps.

Lemma spend_evolves payload row : keeps tokens_evolve (refresh_spend config payload row).
Proof.
  unfold refresh_spend, revokeFamily. keeps_tac. apply keeps_io; [apply _|]. intros w. apply revoke_where_evolves.
Qed.

Lemma lookup_evolves token : keeps tokens_evolve (refresh_lookup config token).
Proof. unfold refresh_lookup. keeps_tac. Qed.

Lemma pruneStaleTokens_evolves : keeps tokens_evolve pruneStaleTokens.
Proof.
  apply keeps_bind; [apply _|auto with keeps|]. intros [token|]; [|auto with keeps].
  apply keeps_finally; [apply _| |keeps_tac]. intros w. unfold bind, get_now. cbn [fst snd].
  set (f := fun w0 => set_db _ w0). destruct (tick_spec w) as (Hn & _ & Hu & Hdb & _).
  destruct (exec f w) as [r w'] eqn:E. apply io_effect in E as [[-> _]|[-> _]]; [apply wo_tick|]. cbn [snd].
  etrans; [apply wo_tick|]. by apply prune_evolves.
Qed.

#[global] Instance tokens_evolve_effects : AuthEffects config tokens_evolve.
Proof.
  split; auto with keeps.
  - intros l w. by apply tokens_evolve_same.
  - intros ms w Hms. apply tokens_evolve_same; cbn; [done|lia..].
  - apply revoke_where_evolves.
  - intros email. unfold forgotPassword. keeps_tac.
  - apply pruneStaleTokens_evolves.
Qed.

End Operations.

(** ** A refresh token is spent once *)

Section SpentOnce.
Context `{UuidSupply} `{Crypto} (config : AuthConfig).

Definition spent (j : string) (w : World) : Prop :=
  drawn w j /\ forall r, r ∈ tokens w -> r_id r = j -> r_revoked r = true.

Lemma spent_kept j w w' : tokens_ok w -> tokens_evolve w w' -> spent j w -> spent j w'.
Proof.
  intros Hok Hev [Hd Hs]. destruct (Hev Hok) as (_ & Hu & _ & Hold & _). split; [by eapply drawn_mono|].
  intros r' Hr' Hj. destruct (Hold r' Hr') as [Hnew|(r & Hr & Hid & _ & _ & _ & Hrev)]; [by rewrite Hj in Hnew|].
  apply Hrev, Hs; congruence.
Qed.

Definition unspent (row : RefreshToken) (x : RefreshToken) : bool := bool_decide (r_id x = r_id row) && negb (r_revoked x).

(** What a refresh that answers did first. *)
Lemma spend_Ok payload row w t w' :
  refresh_spend config payload row w = (Ok t, w') ->
  r_revoked row = false /\ (0 < (revoke_where (unspent row) (tick w)).1)%nat /\
  issueTokens config (sub payload) (email payload) (revoke_where (unspent row) (tick w)).2 = (Ok t, w').
Proof.
  unfold refresh_spend. destruct (r_revoked row); intros Hrun; apply bind_Ok in Hrun as (a & w1 & Hio & Hk); [done|].
  apply io_effect in Hio as [[_ Hno]|[-> Hok]]; [by destruct (Hno a)|].
  specialize (Hok a eq_refl). injection Hok as Ha. rewrite <- Ha in Hk. fold (unspent row) in *. cbn [snd] in Hk.
  change (revoke_where _ _).1 with (count_where (unspent row) (refreshTokens (db (tick w)))).
  destruct (Nat.eqb_spec (count_where (unspent row) (refreshTokens (db (tick w)))) 0) as [|Hne].
  - apply bind_Ok in Hk as (? & ? & _ & ?). done.
  - split_and!; [done|lia|done].
Qed.

(** The compare-and-set that finds a row leaves it spent. *)
Lemma cas_spends row w :
  tokens_ok w -> (0 < (revoke_where (unspent row) (tick w)).1)%nat ->
  ~ spent (r_id row) w /\ spent (r_id row) (revoke_where (unspent row) (tick w)).2.
Proof.
  intros Hok Hcount. destruct (tick_spec w) as (_ & _ & Hu & Hdb & _).
  assert (exists x, x ∈ tokens w /\ r_id x = r_id row /\ r_revoked x = false) as (x & Hx & Hid & Hrev).
  { apply count_where_pos in Hcount as (x & Hx & Hp). rewrite Hdb in Hx.
    apply andb_true_iff in Hp as [Hid%bool_decide_eq_true Hrev%negb_true_iff]. by exists x. }
  split; [intros [_ Hall]; by rewrite (Hall x Hx Hid) in Hrev|]. split.
  - rewrite <- Hid. destruct Hok as [_ Hd]. eapply drawn_mono, Hd, Hx. cbn. lia.
  - intros r (r0 & Hr0 & ->)%elem_of_update_many. unfold unspent. intros Hj.
    assert (r_id r0 = r_id row) as Hr by by destruct (_ && _). rewrite bool_decide_true by done.
    by destruct (r_revoked r0) eqn:?.
Qed.

Lemma spend_spends payload row w t w' :
  tokens_ok w -> refresh_spend config payload row w = (Ok t, w') -> spent (r_id row) w' /\ tokens_ok w'.
Proof.
  intros Hok Hrun. destruct (spend_Ok _ _ _ _ _ Hrun) as (_ & Hcount & Hissue).
  destruct (cas_spends row w Hok Hcount) as [_ Hspent]. set (w1 := (revoke_where (unspent row) (tick w)).2) in *.
  assert (tokens_evolve w w1) as H1 by (etrans; [apply wo_tick|apply revoke_where_evolves]).
  destruct (H1 Hok) as (Hok1 & _). pose proof (issueTokens_evolves config (sub payload) (email payload) w1) as H2.
  rewrite Hissue in H2. cbn in H2. split; [by eapply spent_kept|by apply H2].
Qed.

Lemma spent_refuses payload row w t w' :
  spent (r_id row) w -> refresh_spend config payload row w <> (Ok t, w').
Proof.
  intros [_ Hs] Hrun. destruct (spend_Ok _ _ _ _ _ Hrun) as (_ & Hcount & _).
  apply count_where_pos in Hcount as (x & Hx & Hp). apply andb_true_iff in Hp as [Hid%bool_decide_eq_true Hrev].
  destruct (tick_spec w) as (_ & _ & _ & Hdb & _). rewrite Hdb in Hx. by rewrite (Hs x Hx Hid) in Hrev.
Qed.

(** Rotation is single use. Once a refresh has been answered for a
    token's row, no later refresh on that row is ever answered: whatever
    requests come in between, whatever fails or dies, whatever either request
    had read of the row beforehand, and however long it takes. *)
Theorem refresh_token_spent_once payload row w t w1 ops payload' row' t' w' :
  tokens_ok w ->
  refresh_spend config payload row w = (Ok t, w1) ->
  r_id row' = r_id row ->
  refresh_spend config payload' row' (run_auths config ops w1) <> (Ok t', w').
Proof.
  intros Hok Hrun Hid. destruct (spend_spends _ _ _ _ _ Hok Hrun) as [Hs Hok1].
  apply spent_refuses. rewrite Hid. eapply spent_kept; [exact Hok1|apply (run_auths_keeps config tokens_evolve)|exact Hs].
Qed.

End SpentOnce.

(** ** A replayed token ends every session of its owner *)

Section Replay.
Context `{UuidSupply} `{CryptoLaws} (config : AuthConfig).

Lemma jwt_claims_agree secret at1 at2 token c1 c2 :
  jwt_verify secret at1 token = Some c1 -> jwt_verify secret at2 token = Some c2 -> c1 = c2.
Proof.
  intros (iat1 & exp1 & ->)%jwt_signed (iat2 & exp2 & Heq)%jwt_signed.
  pose proof (jwt_verify_sign secret c1 iat1 exp1 (Z.min exp1 exp2 - 1) ltac:(lia)) as Hs1.
  pose proof (jwt_verify_sign secret c2 iat2 exp2 (Z.min exp1 exp2 - 1) ltac:(lia)) as Hs2. congruence.
Qed.

Lemma lookup_Ok token payload row w w' :
  refresh_lookup config token w = (Ok (payload, row), w') ->
  jwt_verify (refreshSecret config) (now w / 1000) token = Some payload /\ jti payload = Some (r_id row) /\
  row ∈ tokens w /\ verifyTokenHash token (r_tokenHash row) = true /\ tokens w' = tokens w.
Proof.
  unfold refresh_lookup, bind at 1, get_now. destruct (jwt_verify _ _ _) as [p|] eqn:Hv; [|done].
  destruct (jti p) as [j|] eqn:Hj; [|done]. intros Hrun. apply bind_Ok in Hrun as (found & w1 & Hq & Hk).
  destruct (tick_spec w) as (_ & _ & _ & Hdb & _).
  apply io_effect in Hq as [[_ Hno]|[-> Hok]]; [by destruct (Hno found)|]. specialize (Hok found eq_refl). cbn in Hok, Hk.
  unfold bind in Hk. destruct found as [r|]; [|done]. destruct (r_expiresAt r <? _); [done|].
  destruct (verifyTokenHash _ _) eqn:Hh; [|done]. cbn in Hk. simplify_eq. rewrite Hdb in Hok.
  apply find_first_Some in Hok as [Hin Hid%bool_decide_eq_true].
  injection Hk as -> -> <-. split_and!; [done|congruence|done|done|]. unfold tokens. by rewrite Hdb.
Qed.

(** Looking up a row that is there. *)
Lemma lookup_finds token payload row w :
  oracle w = [] -> NoDup (r_id <$> tokens w) -> row ∈ tokens w ->
  jwt_verify (refreshSecret config) (now w / 1000) token = Some payload -> jti payload = Some (r_id row) ->
  now w <= r_expiresAt row -> verifyTokenHash token (r_tokenHash row) = true ->
  refresh_lookup config token w = (Ok (payload, row), w).
Proof.
  intros Ho Hnd Hin Hv Hj Hexp Hh. unfold refresh_lookup, bind at 1, get_now. rewrite Hv, Hj.
  erewrite bind_ok; [|by apply query_ok]. cbn. unfold bind. fold (tokens w). rewrite (find_first_key r_id) by done.
  replace (r_expiresAt row <? now w) with false by lia. by rewrite Hh.
Qed.

Lemma revokeFamily_revokes userId w :
  oracle w = [] ->
  exists w', revokeFamily userId w = (Ok tt, w') /\ forall r, r ∈ tokens w' -> r_userId r = userId -> r_revoked r = true.
Proof.
  intros Ho. eexists. split; [by apply exec_ok|]. intros r (r0 & Hr0 & ->)%elem_of_update_many. unfold live_of.
  intros Hu. assert (r_userId r0 = userId) as -> by by destruct (_ && _). rewrite bool_decide_true by done.
  by destruct (r_revoked r0) eqn:E.
Qed.

(** C18. Reuse detection. A token that was rotated once is presented again,
    after any requests and faults in between, before it expires: the answer
    is the same 401 as for any invalid token, and afterwards every refresh
    token of its owner is revoked, those issued by the rotation and since
    then included. *)
Theorem replay_ends_every_session token w t w1 ops w2 payload row :
  tokens_ok w ->
  refresh config token w = (Ok t, w1) ->
  w2 = run_auths config ops w1 ->
  jwt_verify (refreshSecret config) (now w2 / 1000) token = Some payload ->
  row ∈ tokens w -> jti payload = Some (r_id row) -> now w2 <= r_expiresAt row ->
  oracle w2 = [] ->
  exists w3, refresh config token w2 = (Throw InvalidRefresh, w3) /\
    forall r, r ∈ tokens w3 -> r_userId r = r_userId row -> r_revoked r = true.
Proof.
  intros Hok Hrun -> Hv Hin Hj Hexp Ho. apply bind_Ok in Hrun as ([p1 row1] & wl & Hl & Hs).
  pose proof (lookup_evolves config token w) as Hevl. rewrite Hl in Hevl. cbn in Hevl, Hs.
  destruct (lookup_Ok _ _ _ _ _ Hl) as (Hv1 & Hj1 & Hin1 & Hh1 & _).
  pose proof (jwt_claims_agree _ _ _ _ _ _ Hv Hv1) as <-.
  assert (row1 = row) as -> by (eapply (key_unique r_id); [apply Hok|done|done|congruence]).
  destruct (Hevl Hok) as (Hokl & _). destruct (spend_spends config _ _ _ _ _ Hokl Hs) as [Hspent Hok1].
  set (w2 := run_auths config ops w1) in *.
  assert (tokens_evolve w w2) as Hev.
  { etrans; [exact Hevl|]. etrans; [|apply (run_auths_keeps config tokens_evolve)]. pose proof (spend_evolves config payload row wl) as He. by rewrite Hs in He. }
  destruct (Hev Hok) as ([Hnd2 _] & _ & _ & _ & Hkeep). destruct (Hkeep row Hin Hexp) as (row2 & Hin2 & Hid & Hu & Hh & He & _).
  assert (r_revoked row2 = true) as Hrev.
  { destruct (spent_kept _ _ _ Hok1 (run_auths_keeps config tokens_evolve ops w1) Hspent) as [_ Hs2]. by apply Hs2. }
  destruct (revokeFamily_revokes (r_userId row2) w2 Ho) as (w3 & Hfam & Hall). exists w3. split; [|by rewrite <- Hu].
  unfold refresh. erewrite bind_ok by (eapply (lookup_finds token payload row2); congruence || done).
  cbn. unfold refresh_spend. rewrite Hrev. by erewrite bind_ok.
Qed.

End Replay.

(** ** An issued token refreshes *)

Section Issued.
Context `{UuidSupply} `{CryptoLaws} (config : AuthConfig).

Definition refresh_claims (userId email : string) (w : World) : JwtPayload :=
  {| sub := userId; email := email; role := None; jti := Some (uuid (uuids w)) |}.

Definition refresh_text (userId email : string) (w : World) : string :=
  jwt_sign (refreshSecret config) (refresh_claims userId email w) (now w / 1000) (now w / 1000 + refreshTtlMs config / 1000).

Definition issued_row (userId email : string) (w : World) : RefreshToken :=
  {| r_id := uuid (uuids w); r_userId := userId; r_tokenHash := hashToken (refresh_text userId email w);
     r_expiresAt := now w + refreshTtlMs config; r_revoked := false |}.

Definition issued (userId email : string) (w : World) : World :=
  set_db (set_refreshTokens (tokens w ++ [issued_row userId email w]) (db w)) (set_uuids (S (uuids w)) w).

Definition access_text (userId email : string) (w : World) : string :=
  jwt_sign (accessSecret config)
    {| sub := userId; email := email; role := Some (match find_first (has_id userId) (users (db w)) with Some u => u_role u | None => USER end); jti := None |}
    (now w / 1000) (now w / 1000 + accessTtlMs config / 1000).

(** Issuing when calls answer and the account exists. *)
Lemma issueTokens_run userId email w :
  oracle w = [] -> tokens_ok w -> existsb (has_id userId) (users (db w)) = true ->
  issueTokens config userId email w =
    (Ok {| accessToken := access_text userId email w; refreshToken := refresh_text userId email w |}, issued userId email w).
Proof.
  intros Ho [Hnd Hid] Hu. unfold issueTokens. erewrite bind_ok by by apply query_ok.
  unfold bind at 1 2 3 4, get_now, randomUUID. cbn [now set_uuids]. erewrite bind_ok; [reflexivity|].
  apply io_ok; [done|]. cbn [db set_uuids r_id r_userId]. fold (tokens w). destruct (create _ _ _) as [t|] eqn:Hc.
  - apply create_Some in Hc as [_ ->]. by rewrite Hu.
  - clear Hu. unfold create in Hc. destruct (existsb _ _) eqn:He; [|done]. apply existsb_exists in He as (r & Hr%list_elem_of_In & Hk).
    apply bool_decide_eq_true in Hk. destruct (Hid r Hr) as (i & Hi & Hlt). rewrite Hk in Hi. apply (inj uuid) in Hi. lia.
Qed.

Lemma issued_row_there userId email w : issued_row userId email w ∈ tokens (issued userId email w).
Proof. apply elem_of_app. right. by apply list_elem_of_singleton. Qed.

(** The row of [w0]'s token is spent, and a pair of the present is issued. *)
Definition spent_row (userId email : string) (w0 w : World) : World :=
  (revoke_where (unspent (issued_row userId email w0)) w).2.

(** Refreshing when calls answer, with the token issued in [w0]. *)
Lemma refresh_run userId email w0 w :
  oracle w = [] -> tokens_ok w -> existsb (has_id userId) (users (db w)) = true ->
  issued_row userId email w0 ∈ tokens w -> now w0 <= now w -> now w / 1000 < now w0 / 1000 + refreshTtlMs config / 1000 ->
  let w3 := spent_row userId email w0 w in
  refresh config (refresh_text userId email w0) w =
    (Ok {| accessToken := access_text userId email w3; refreshToken := refresh_text userId email w3 |}, issued userId email w3).
Proof.
  intros Ho Hok Hu Hin Hnow Hexp. set (row := issued_row userId email w0) in *. cbv zeta.
  unfold refresh. erewrite bind_ok.
  2: { apply (lookup_finds config _ (refresh_claims userId email w0) row w); [done|apply Hok|done| |done| |].
       - apply jwt_verify_sign. exact Hexp.
       - cbn. zdivmod.
       - cbn. rewrite verifyTokenHash_hash. by apply bool_decide_true. }
  cbn [fst snd]. unfold refresh_spend. cbn [row issued_row r_revoked]. fold row.
  pose proof (revoke_where_evolves (unspent row) w Hok) as (Hok3 & _).
  erewrite bind_ok by by apply io_ok. fold (unspent row). unfold spent_row. fold row.
  set (w3 := (revoke_where (unspent row) w).2) in *.
  assert (0 < count_where (unspent row) (refreshTokens (db w)))%nat as Hc.
  { apply count_where_pos. exists row. split; [done|]. unfold unspent. by rewrite bool_decide_true. }
  cbn [revoke_where fst update_many snd]. destruct (Nat.eqb_spec (count_where (unspent row) (refreshTokens (db w))) 0); [lia|].
  exact (issueTokens_run userId email w3 Ho Hok3 Hu).
Qed.

(** A session stays open: the refresh token of any pair that was issued is
    exchanged for a new pair as long as it has not expired (in the seconds
    the token is stamped with), when calls answer and the account exists. *)
Theorem issued_token_refreshes userId email w t w1 ms :
  oracle w = [] -> tokens_ok w -> existsb (has_id userId) (users (db w)) = true ->
  issueTokens config userId email w = (Ok t, w1) ->
  0 <= ms -> (now w + ms) / 1000 < now w / 1000 + refreshTtlMs config / 1000 ->
  exists t' w2, refresh config (refreshToken t) (sleep ms w1).2 = (Ok t', w2).
Proof.
  intros Ho Hok Hu Hrun Hms Hexp. pose proof (issueTokens_evolves config userId email w Hok) as (Hok1 & _).
  rewrite (issueTokens_run userId email w Ho Hok Hu) in *. injection Hrun as <- <-. cbn [snd] in Hok1.
  eexists _, _. apply refresh_run; [done|apply Hok1|done|apply issued_row_there|cbn; lia|exact Hexp].
Qed.

End Issued.

(** ** A concrete session *)

Definition sample_auth : AuthConfig :=
  {| accessSecret := "access"; refreshSecret := "refresh"; accessTtlMs := 900000; refreshTtlMs := 604800000;
     frontUrl := "http://localhost:3001"; mailConfigured := true; absentUserHash := "$2b$absent!" |}.

Definition auth_user : User := set_reset "$2b$pw" None None true sample_user.

Definition auth_world : World := set_db (set_users [auth_user] empty_db) empty_world.

(** Signed in, rotated once, signed in again elsewhere. *)
Definition session_w : World := (login (H:=sample_uuids) (H0:=sample_crypto) sample_auth "a@b.c" "pw" auth_world).2.

Definition session_token : string :=
  match (login (H:=sample_uuids) (H0:=sample_crypto) sample_auth "a@b.c" "pw" auth_world).1 with Ok t => refreshToken t | _ => "" end.

Definition session_payload : JwtPayload := {| sub := "u1"; email := "a@b.c"; role := None; jti := Some "uuid-0" |}.

Definition session_row : RefreshToken :=
  {| r_id := "uuid-0"; r_userId := "u1"; r_tokenHash := hashToken (H:=sample_crypto) session_token; r_expiresAt := 604800000; r_revoked := false |}.

Definition session_ops : list AuthOp := [Idle 60000; Login "a@b.c" "pw"; ForgotPassword "a@b.c"; Prune].

Lemma session_ok : tokens_ok (H:=sample_uuids) session_w.
Proof.
  split; [vm_compute; repeat constructor; set_solver|]. intros r Hr. exists 0%nat. vm_compute in Hr |- *.
  apply list_elem_of_singleton in Hr as ->. split; [done|lia].
Qed.

Lemma refresh_token_spent_once_witness :
  (refresh_spend (H:=sample_uuids) (H0:=sample_crypto) sample_auth session_payload session_row
    (run_auths (H:=sample_uuids) (H0:=sample_crypto) sample_auth session_ops
      (refresh_spend (H:=sample_uuids) (H0:=sample_crypto) sample_auth session_payload session_row session_w).2)).1
  = Throw InvalidRefresh /\
  forall t' w', refresh_spend (H:=sample_uuids) (H0:=sample_crypto) sample_auth session_payload session_row
    (run_auths (H:=sample_uuids) (H0:=sample_crypto) sample_auth session_ops
      (refresh_spend (H:=sample_uuids) (H0:=sample_crypto) sample_auth session_payload session_row session_w).2) <> (Ok t', w').
Proof.
  split; [vm_compute; reflexivity|]. intros t' w'.
  eapply (refresh_token_spent_once (H:=sample_uuids) (H0:=sample_crypto) sample_auth session_payload session_row session_w);
    [exact session_ok|vm_compute; reflexivity|reflexivity].
Defined.

Lemma replay_ends_every_session_witness :
  exists w3, refresh (H:=sample_uuids) (H0:=sample_crypto) sample_auth session_token
      (run_auths (H:=sample_uuids) (H0:=sample_crypto) sample_auth session_ops
        (refresh (H:=sample_uuids) (H0:=sample_crypto) sample_auth session_token session_w).2) = (Throw InvalidRefresh, w3) /\
    forall r, r ∈ tokens w3 -> r_userId r = "u1" -> r_revoked r = true.
Proof.
  eapply (replay_ends_every_session (H:=sample_uuids) (H0:=sample_crypto) sample_auth session_token session_w _
    (refresh (H:=sample_uuids) (H0:=sample_crypto) sample_auth session_token session_w).2 session_ops _ session_payload session_row);
    [exact session_ok|vm_compute; reflexivity|reflexivity|vm_compute; reflexivity| |reflexivity|vm_compute; congruence|vm_compute; reflexivity].
  vm_compute. by left.
Defined.

Lemma issued_token_refreshes_witness :
  exists t w1, issueTokens (H:=sample_uuids) (H0:=sample_crypto) sample_auth "u1" "a@b.c" auth_world = (Ok t, w1) /\
  exists t' w2, refresh (H:=sample_uuids) (H0:=sample_crypto) sample_auth (refreshToken t) (sleep 604799999 w1).2 = (Ok t', w2).
Proof.
  eexists _, _. split; [vm_compute; reflexivity|].
  eapply (issued_token_refreshes (H:=sample_uuids) (H0:=sample_crypto) sample_auth "u1" "a@b.c" auth_world);
    [reflexivity| |reflexivity|vm_compute; reflexivity|lia|vm_compute; reflexivity].
  split; [apply NoDup_nil_2|intros r Hr; by apply elem_of_nil in Hr].
Defined.
