(* ===== verification/AuthAccounts.v ===== *)
(** * Accounts: password reset and sign-in

    Who can hold a reset link (that it works once is in Resets.v) and what a
    reset leaves; sign-in answers alike for known and unknown addresses, and
    a run of failures, one after another, locks the address for a fixed
    window. *)

From S2P Require Import Prelude JsNumber Enums Contracts Table World Samples Effects RedisService Outbox Crypto Auth AuthSessions.

(** ** Reset links *)

Section ResetLinks.
Context `{UuidSupply} `{CryptoLaws} (config : AuthConfig).

Definition no_link (h : string) (w : World) : Prop :=
  forall u, u ∈ users (db w) -> u_passwordResetTokenHash u <> Some h.

(** The key of a user is unique, and a user's link carries a fingerprint of a
    drawn token that no other user has. *)
Definition links_ok (w : World) : Prop :=
  NoDup (u_id <$> users (db w)) /\ (forall u, u ∈ users (db w) -> drawn w (u_id u)) /\
  (forall u h, u ∈ users (db w) -> u_passwordResetTokenHash u = Some h ->
     (exists token, h = hashToken token /\ drawn w token) /\
     forall u', u' ∈ users (db w) -> u_passwordResetTokenHash u' = Some h -> u_id u' = u_id u).

(** Whoever holds a link held it before. *)
Definition not_given (h : string) (w w' : World) : Prop :=
  forall u', u' ∈ users (db w') -> u_passwordResetTokenHash u' = Some h ->
    exists u, u ∈ users (db w) /\ u_id u = u_id u' /\ u_passwordResetTokenHash u = Some h.

(** The link of a token drawn before is given to nobody. *)
Definition links_evolve (w w' : World) : Prop :=
  links_ok w -> links_ok w' /\ (uuids w <= uuids w')%nat /\
  forall token, drawn w token -> not_given (hashToken token) w w'.

Lemma not_given_gone h w w' : not_given h w w' -> no_link h w -> no_link h w'.
Proof. intros Hg Hno u' Hin Hh. destruct (Hg u' Hin Hh) as (u & Hu & _ & Hh'). by eapply Hno. Qed.

Lemma links_evolve_same w w' : users (db w') = users (db w) -> (uuids w <= uuids w')%nat -> links_evolve w w'.
Proof.
  intros Hus Hu (Hnd & Hid & Hl). unfold links_ok, not_given. rewrite Hus. split_and!; try done; [..|by eauto].
  - intros u Hin. eauto using drawn_mono.
  - intros u h Hin Hh. destruct (Hl u h Hin Hh) as [(token & Ht & Hd) Huniq]. eauto 6 using drawn_mono.
Qed.

#[global] Instance links_evolve_order : WorldOrder links_evolve.
Proof.
  split; [split|].
  - intros w. by apply links_evolve_same.
  - intros w1 w2 w3 H12 H23 Hok. destruct (H12 Hok) as (Hok2 & Hu2 & Hs2). destruct (H23 Hok2) as (Hok3 & Hu3 & Hs3).
    split_and!; [done|lia|]. intros token Hd u Hin Hh.
    destruct (Hs3 token (drawn_mono _ _ _ Hu2 Hd) u Hin Hh) as (u2 & Hin2 & <- & Hh2). by apply (Hs2 token Hd).
  - intros w. destruct (tick_spec w) as (_ & _ & Hu & Hdb & _). apply links_evolve_same; [by rewrite Hdb|lia].
Qed.

#[global] Instance links_evolve_redis : IgnoresRedis links_evolve.
Proof. split; [intros w w' (r & ->)|intros w n Hn]; by apply links_evolve_same. Qed.

(** A column update keyed by id that keeps the key and either keeps each link,
    drops it, or replaces it by the link of the token drawn last. *)
Lemma upd_user_links id f w :
  (forall u, u_id (f u) = u_id u) ->
  (forall u, u_passwordResetTokenHash (f u) = u_passwordResetTokenHash u \/ u_passwordResetTokenHash (f u) = None) ->
  links_evolve w (upd_user (has_id id) f w).2.
Proof.
  intros Hid Hlink (Hnd & Hd & Hl). unfold upd_user, update_one. destruct (existsb _ _); [|by apply (links_evolve_same w w)].
  set (g := fun u => if has_id id u then f u else u).
  assert (forall u, u_id (g u) = u_id u) as Hg by (intros u; unfold g; by destruct (has_id id u)).
  assert (forall u h, u_passwordResetTokenHash (g u) = Some h -> u_passwordResetTokenHash u = Some h) as Hgl.
  { intros u h. unfold g. destruct (has_id id u); [|done]. destruct (Hlink u) as [->| ->]; done. }
  split_and!; cbn.
  - split_and!; cbn.
    + rewrite <- list_fmap_compose. erewrite list_fmap_ext; [exact Hnd|]. intros i u _. cbn. by rewrite Hg.
    + intros u' (u & -> & Hin)%list_elem_of_fmap. rewrite Hg. by apply Hd.
    + intros u' h (u & -> & Hin)%list_elem_of_fmap Hh%Hgl. destruct (Hl u h Hin Hh) as [Htok Huniq]. split; [done|].
      intros u2' (u2 & -> & Hin2)%list_elem_of_fmap Hh2%Hgl. rewrite !Hg. eauto.
  - lia.
  - intros token Hdt u' (u & -> & Hin)%list_elem_of_fmap Hh%Hgl. exists u. by rewrite Hg.
Qed.

Lemma fresh_link w : links_ok w -> no_link (hashToken (uuid (uuids w))) w.
Proof.
  intros (_ & _ & Hl) u Hin Hh. destruct (Hl u _ Hin Hh) as [(token & Ht & i & -> & Hi) _].
  apply (inj hashToken), (inj uuid) in Ht. lia.
Qed.

(** Storing the link of a token just drawn. *)
Lemma new_link_evolves id exp w :
  links_evolve w (io (upd_user (has_id id) (fun u =>
    set_reset (u_passwordHash u) (Some (hashToken (uuid (uuids w)))) exp (u_emailVerified u) u)) (set_uuids (S (uuids w)) w)).2.
Proof.
  set (w0 := set_uuids _ w). set (f := fun u => set_reset _ _ _ _ u).
  assert (links_evolve w (tick w0)) as H0' by (etrans; [|apply wo_tick]; apply links_evolve_same; cbn; lia || done).
  destruct (tick_spec w0) as (_ & _ & Hu & Hdb & _). cbn in Hu, Hdb.
  destruct (io _ w0) as [r w'] eqn:E. apply io_effect in E as [[-> _]|[-> _]]; [done|]. cbn [snd]. clear r.
  unfold upd_user, update_one. destruct (existsb _ _); [|done]. cbn [snd]. rewrite Hdb.
  intros Hok. pose proof (fresh_link w Hok) as Hfresh. destruct Hok as (Hnd & Hd & Hl).
  set (g := fun u => if has_id id u then f u else u).
  assert (forall u, u_id (g u) = u_id u) as Hg by (intros u; unfold g; by destruct (has_id id u)).
  assert (forall u h, u_passwordResetTokenHash (g u) = Some h ->
    u_id u = id /\ h = hashToken (uuid (uuids w)) \/ u_passwordResetTokenHash u = Some h) as Hgl.
  { intros u h. unfold g. destruct (has_id id u) eqn:Hi; [|by right].
    apply bool_decide_eq_true in Hi. cbn. intros [= <-]. by left. }
  split_and!; cbn; [split_and!; cbn| |].
  - rewrite <- list_fmap_compose. erewrite list_fmap_ext; [exact Hnd|]. intros i u _. cbn. by rewrite Hg.
  - intros u' (u & -> & Hin)%list_elem_of_fmap. rewrite Hg. eapply drawn_mono; [|by apply Hd]. cbn. lia.
  - intros u' h (u & -> & Hin)%list_elem_of_fmap [[Hi ->]|Hh]%Hgl.
    + split; [exists (uuid (uuids w)); split; [done|]; exists (uuids w); cbn; split; [done|lia]|].
      intros u2' (u2 & -> & Hin2)%list_elem_of_fmap [[Hi2 _]|Hh2]%Hgl; [rewrite !Hg; congruence|by destruct (Hfresh u2 Hin2)].
    + destruct (Hl u h Hin Hh) as [(token & -> & Hdt) Huniq]. split; [exists token; split; [done|]; eapply drawn_mono, Hdt; cbn; lia|].
      intros u2' (u2 & -> & Hin2)%list_elem_of_fmap [[_ Heq]|Hh2]%Hgl; [by destruct (Hfresh u Hin); rewrite <- Heq|rewrite !Hg; eauto].
  - lia.
  - intros token (i & -> & Hi) u' (u & -> & Hin)%list_elem_of_fmap [[_ Heq]|Hh]%Hgl; [|exists u; by rewrite Hg].
    apply (inj hashToken), (inj uuid) in Heq. lia.
Qed.

Lemma create_user_links email hash : keeps links_evolve (create_user email hash).
Proof.
  apply keeps_io; [apply _|]. intros w. cbv zeta. destruct (create _ _ _) as [t|] eqn:Hc; [|reflexivity].
  apply create_Some in Hc as [_ ->]. intros (Hnd & Hd & Hl). set (row := new_user _ _ _ _).
  assert (~ drawn w (u_id row)) as Hfresh by (intros (i & Hi & Hlt); apply (inj uuid) in Hi; lia).
  split_and!; cbn; [split_and!; cbn| |].
  - rewrite fmap_app. apply NoDup_app. split_and!; [done| |apply NoDup_singleton].
    intros s (u & -> & Hin)%list_elem_of_fmap Hs%list_elem_of_singleton. apply Hfresh. rewrite <- Hs. by apply Hd.
  - intros u [Hin|Hin%list_elem_of_singleton]%elem_of_app.
    + eapply drawn_mono; [|by apply Hd]. cbn. lia.
    + subst. exists (uuids w). cbn. split; [done|lia].
  - intros u h [Hin|Hin%list_elem_of_singleton]%elem_of_app Hh; [|by subst].
    destruct (Hl u h Hin Hh) as [(token & -> & Hdt) Huniq]. split; [exists token; split; [done|]; eapply drawn_mono, Hdt; cbn; lia|].
    intros u' [Hin'|Hin'%list_elem_of_singleton]%elem_of_app Hh'; [eauto|by subst].
  - lia.
  - intros token _ u [Hin|Hin%list_elem_of_singleton]%elem_of_app Hh; [by exists u|by subst].
Qed.

Lemma verification_links id hash exp (verified : User -> bool) :
  keeps links_evolve (io (upd_user (has_id id) (fun u => set_verification hash exp (verified u) u))).
Proof. apply keeps_io; [apply _|]. intros w. apply upd_user_links; [done|by left]. Qed.

Lemma sendDetached_links to subject html : keeps links_evolve (sendDetached config to subject html).
Proof. unfold sendDetached. keeps_tac. apply keeps_exec; [apply _|]. intros w. by apply links_evolve_same. Qed.

Lemma bcrypt_links password : keeps links_evolve (bcrypt password).
Proof. apply keeps_io; [apply _|]. intros w. apply links_evolve_same; cbn; [done|lia]. Qed.

Lemma revoke_where_links p w : links_evolve w (revoke_where p w).2.
Proof. by apply links_evolve_same. Qed.

Lemma revoke_links p : keeps links_evolve (exec (fun w => (revoke_where p w).2)).
Proof. apply keeps_exec; [apply _|]. intros w. apply revoke_where_links. Qed.

Lemma issueTokens_links userId email : keeps links_evolve (issueTokens config userId email).
Proof.
  unfold issueTokens. keeps_tac. apply keeps_io; [apply _|]. intros w.
  destruct (create _ _ _); [|reflexivity]. destruct (existsb _ _); [|reflexivity]. by apply links_evolve_same.
Qed.

Lemma reset_commit_links id hash :
  keeps links_evolve (reset_commit id hash).
Proof.
  apply keeps_io; [apply _|]. intros w. pose proof (upd_user_links id (set_reset hash None None true) w) as Hu.
  destruct (upd_user _ _ w) as [[] w1]; cbn [snd] in *; [|by apply Hu; auto].
  etrans; [by apply Hu; auto|apply revoke_where_links].
Qed.

#[local] Hint Resolve create_user_links sendDetached_links bcrypt_links revoke_links issueTokens_links reset_commit_links : keeps.

Lemma forgotPassword_links email : keeps links_evolve (forgotPassword config email).
Proof.
  unfold forgotPassword, findByEmail. apply keeps_bind; [apply _|auto with keeps|]. intros [u|]; [|auto with keeps]. intros w.
  unfold bind at 1 2, randomUUID, get_now. cbn [now set_uuids].
  rewrite bind_world. etrans; [apply (new_link_evolves (u_id u) (Some (now w + RESET_TTL_MS)))|].
  case_match; [|done..].
  assert (keeps links_evolve (do* sendDetached config email "Reset your password"
    (reset_html (frontUrl config +:+ "/reset-password?token=" +:+ uuid (uuids w))) in ret true)) as Hk by keeps_tac.
  apply Hk.
Qed.

#[global] Instance links_evolve_effects : AuthEffects config links_evolve.
Proof.
  split; auto with keeps.
  - intros l w. by apply links_evolve_same.
  - intros ms w Hms. by apply links_evolve_same.
  - intros id hash exp verified. apply verification_links.
  - intros p w. apply revoke_where_links.
  - apply forgotPassword_links.
  - unfold pruneStaleTokens. keeps_tac. apply keeps_exec; [apply _|]. intros w. by apply links_evolve_same.
Qed.

(** The lookup finds the holder of the link. *)
Lemma reset_lookup_run token w r w' :
  reset_lookup token w = (r, w') ->
  w' = tick w /\ forall u, r = Ok u -> u ∈ users (db w) /\ u_passwordResetTokenHash u = Some (hashToken token) /\
    exists exp, u_passwordResetTokenExpiresAt u = Some exp /\ now w <= exp.
Proof.
  unfold reset_lookup, bind at 1. destruct (query _ w) as [r1 w1] eqn:Hq. destruct (tick_spec w) as (Hn & _ & _ & Hdb & _).
  assert (w1 = tick w /\ forall found, r1 = Ok found -> found = find_first (fun u => bool_decide (u_passwordResetTokenHash u = Some (hashToken token))) (users (db w)))
    as [-> Hf].
  { apply io_effect in Hq as [[-> Hno]|[-> Hok]]; (split; [done|]); intros found ->; [by destruct (Hno found)|].
    specialize (Hok found eq_refl). rewrite Hdb in Hok. by injection Hok. }
  destruct r1 as [found|e|]; [|by intros [= <- <-]..]. specialize (Hf found eq_refl). unfold bind, get_now.
  destruct found as [u|]; [|by intros [= <- <-]]. destruct (u_passwordResetTokenExpiresAt u) as [exp|] eqn:He; [|by intros [= <- <-]].
  destruct (Z.ltb_spec exp (now (tick w))); intros [= <- <-]; (split; [done|]); [done|]. intros u' [= <-].
  symmetry in Hf. apply find_first_Some in Hf as [Hin Hh%bool_decide_eq_true]. split_and!; [done|done|]. exists exp. split; [done|lia].
Qed.

(** What a commit leaves. *)
Definition after_reset (id hash : string) (w w' : World) : Prop :=
  users (db w') = map (fun x => if has_id id x then set_reset hash None None true x else x) (users (db w)) /\
  tokens w' = (update_many (live_of id) revoke (tokens w)).1.

Lemma reset_commit_run id hash w r w' :
  reset_commit id hash w = (r, w') -> w' = tick w \/ (after_reset id hash w w') \/ (r <> Ok tt /\ db w' = db w).
Proof.
  destruct (tick_spec w) as (_ & _ & _ & Hdb & _). intros [[-> _]|[-> Hok]]%io_effect; [by left|right].
  unfold upd_user, update_one, after_reset, tokens in *. rewrite Hdb in *. destruct (existsb _ _); [left|right].
  - by rewrite <- Hdb.
  - split; [|exact Hdb]. intros ->. by specialize (Hok tt eq_refl).
Qed.

Lemma reset_commit_Ok id hash w u w' : reset_commit id hash w = (Ok u, w') -> after_reset id hash w w'.
Proof.
  destruct (tick_spec w) as (_ & _ & _ & Hdb & _). intros [[-> Hno]|[-> Hok]]%io_effect; [by destruct (Hno u)|].
  specialize (Hok u eq_refl). unfold upd_user, update_one, after_reset, tokens in *. rewrite Hdb in *. by destruct (existsb _ _).
Qed.

Lemma bcrypt_run password w r w' :
  bcrypt password w = (r, w') -> db w' = db w /\ forall hash, r = Ok hash -> bcrypt_compare password hash = true.
Proof.
  destruct (tick_spec w) as (_ & _ & _ & Hdb & _). intros [[-> Hno]|[-> Hok]]%io_effect; (split; [exact Hdb|]); intros hash ->.
  - by destruct (Hno hash).
  - specialize (Hok hash eq_refl). injection Hok as <-. apply bcrypt_correct.
Qed.

(** What a reset that answers did. *)
Lemma resetPassword_Ok token password w b w' :
  resetPassword token password w = (Ok b, w') ->
  exists u exp hash, u ∈ users (db w) /\ u_passwordResetTokenHash u = Some (hashToken token) /\
    u_passwordResetTokenExpiresAt u = Some exp /\ now w <= exp /\ bcrypt_compare password hash = true /\
    after_reset (u_id u) hash w w'.
Proof.
  intros Hrun. apply bind_Ok in Hrun as (u & w1 & [-> Hl]%reset_lookup_run & Hk). destruct (Hl u eq_refl) as (Hin & Hh & exp & He & Hn).
  destruct (tick_spec w) as (_ & _ & _ & Hdb & _). apply bind_Ok in Hk as (hash & w2 & [Hdb2 Hb]%bcrypt_run & Hk).
  apply bind_Ok in Hk as ([] & w3 & [Hus Htok]%reset_commit_Ok & [= _ <-]). exists u, exp, hash. split_and!; try done; [by apply Hb|].
  unfold after_reset, tokens in *. by rewrite Hus, Htok, Hdb2, Hdb.
Qed.

(** C31. A completed reset belongs to a link that was stored and had not
    expired; afterwards its account verifies the new password, is marked as
    verified, holds no link, and every session it had is revoked. *)
Theorem reset_takes_account_back token password w b w' :
  resetPassword token password w = (Ok b, w') ->
  exists u, u ∈ users (db w) /\ u_passwordResetTokenHash u = Some (hashToken token) /\
    (exists exp, u_passwordResetTokenExpiresAt u = Some exp /\ now w <= exp) /\
    (forall u', u' ∈ users (db w') -> u_id u' = u_id u ->
       bcrypt_compare password (u_passwordHash u') = true /\ u_emailVerified u' = true /\ u_passwordResetTokenHash u' = None) /\
    (forall r, r ∈ tokens w' -> r_userId r = u_id u -> r_revoked r = true).
Proof.
  intros Hrun. destruct (resetPassword_Ok _ _ _ _ _ Hrun) as (u & exp & hash & Hin & Hh & He & Hn & Hb & Hus & Htok).
  exists u. split_and!; [done|done|eauto| |].
  - intros u'. rewrite Hus. intros (x & -> & Hx)%list_elem_of_fmap. unfold has_id. destruct (bool_decide _) eqn:Hi; [done|].
    intros Hid. by apply bool_decide_eq_false in Hi.
  - intros r. rewrite Htok. intros (x & Hx & ->)%elem_of_update_many Hu. unfold live_of in *.
    assert (r_userId x = u_id u) as Hxu by by destruct (_ && _). rewrite bool_decide_true by done. by destruct (r_revoked x) eqn:E.
Qed.

End ResetLinks.

(** ** Sign-in *)

Section DbFree.

(** A computation that neither reads nor writes the database. *)
Definition db_free {A} (m : M A) : Prop := forall d w, m (set_db d w) = ((m w).1, set_db d (m w).2).

Lemma db_free_bind {A B} (m : M A) (k : A -> M B) : db_free m -> (forall a, db_free (k a)) -> db_free (bind m k).
Proof. intros Hm Hk d w. unfold bind. rewrite Hm. destruct (m w) as [[a|e|] w1]; cbn; [apply Hk|done..]. Qed.

Lemma db_free_catch {A} (m : M A) h : db_free m -> (forall e, db_free (h e)) -> db_free (catch m h).
Proof. intros Hm Hh d w. unfold catch. rewrite Hm. destruct (m w) as [[a|e|] w1]; cbn; [done|apply Hh|done]. Qed.

Lemma tick_set_db d w : tick (set_db d w) = set_db d (tick w).
Proof. unfold tick. cbn. by destruct (oracle w). Qed.

Lemma db_free_io {A} (op : World -> (A + exn) * World) :
  (forall d w, op (set_db d w) = ((op w).1, set_db d (op w).2)) -> db_free (io op).
Proof.
  intros Hop d w. unfold io. change (next_fault (set_db d w)) with (next_fault w). rewrite tick_set_db.
  destruct (next_fault w) as [|c []|[]]; rewrite ?Hop; cbn; try done. by destruct (op (tick w)) as [[] ?].
Qed.

Lemma failureCount_db_free key : db_free (failureCount key).
Proof. apply db_free_catch; [apply db_free_bind; [by apply db_free_io|]|]; by intros ?. Qed.

Lemma recordFailure_db_free key windowSec : db_free (recordFailure key windowSec).
Proof.
  apply db_free_catch; [apply db_free_bind; [apply db_free_io|]|]; try by intros ?.
  intros d w. unfold RECORD_FAILURE.
  assert (cmd_incr key (set_db d w) = ((cmd_incr key w).1, set_db d (cmd_incr key w).2)) as ->.
  { unfold cmd_incr. change (peek key (set_db d w)) with (peek key w). destruct (peek key w) as [[[] ?]|]; reflexivity. }
  destruct (cmd_incr key w) as [[hits|e] w1]; [|done]. cbn [fst snd]. destruct (hits =? 1); [|done].
  assert (cmd_pexpire key (windowSec * 1000) (set_db d w1) = set_db d (cmd_pexpire key (windowSec * 1000) w1)) as ->; [|done].
  unfold cmd_pexpire. change (peek key (set_db d w1)) with (peek key w1). destruct (peek key w1); [|done]. by destruct (_ <=? 0).
Qed.

End DbFree.

Section SignIn.
Context `{UuidSupply} `{Crypto} (config : AuthConfig).

(** Whether the database holds an account with these credentials. *)
Definition authenticates (email password : string) (d : Database) : bool :=
  match find_first (fun u => bool_decide (u_email u = email)) (users d) with
  | Some u => bcrypt_compare password (u_passwordHash u)
  | None => false
  end.

(** The branch of a failed comparison. *)
Definition refused (email : string) : M Tokens :=
  do* recordFailure (loginFailureKey email) LOGIN_LOCKOUT_SEC in throw (Unauthorized "Invalid credentials").

(** Sign-in with credentials that do not match, in terms of Redis alone. *)
Definition login_refused (email : string) : M Tokens :=
  let* locked := failureCount (loginFailureKey email) in
  if LOGIN_MAX_FAILURES <=? fw_count locked
  then throw (TooManyRequests "Too many failed attempts. Try again later.")
  else do* query (fun _ => tt) in do* query (fun _ => tt) in refused email.

Lemma failureCount_db key w : db (failureCount key w).2 = db w.
Proof.
  unfold failureCount, catch, bind, query, io. destruct (tick_spec w) as (_ & _ & _ & Hdb & _).
  destruct (next_fault w) as [|? []|[]]; exact Hdb.
Qed.

Lemma login_is_refused email password w :
  authenticates email password (db w) = false -> login config email password w = login_refused email w.
Proof.
  unfold authenticates. intros Hno. apply bind_ext. intros locked w1 Hrun.
  assert (db w1 = db w) as Hdb by (pose proof (failureCount_db (loginFailureKey email) w) as Hf; by rewrite Hrun in Hf).
  destruct (_ <=? _); [done|]. apply bind_query_ext. destruct (tick_spec w1) as (_ & _ & _ & -> & _). rewrite Hdb.
  apply bind_query_ext. by destruct (find_first _ _) as [u|]; [rewrite Hno|].
Qed.

Lemma login_refused_db_free email : db_free (login_refused email).
Proof.
  apply db_free_bind; [apply failureCount_db_free|]. intros locked. case_match; [done|].
  do 2 (apply db_free_bind; [by apply db_free_io|]; intros _). apply db_free_bind; [apply recordFailure_db_free|done].
Qed.

(** C33. A failed sign-in says nothing about who has an account. In two worlds
    that differ only in their databases, neither of which accepts the
    credentials (the address unknown in one, known with another password in
    the other), sign-in gives the same answer, leaves the same counters,
    makes the same calls, the comparison of the password included, and takes
    the same time, whatever each call takes and whether it fails; and it
    leaves the database as it was. *)
Theorem login_reveals_nothing email password w d :
  authenticates email password (db w) = false ->
  authenticates email password d = false ->
  login config email password (set_db d w) =
    ((login config email password w).1, set_db d (login config email password w).2) /\
  db (login config email password w).2 = db w.
Proof.
  intros Hw Hd. rewrite !login_is_refused by done. split; [apply login_refused_db_free|].
  pose proof (login_refused_db_free email (db w) w) as Hfree. replace (set_db (db w) w) with w in Hfree by by destruct w.
  rewrite Hfree. by cbn.
Qed.

End SignIn.

(** ** The lockout *)

Section Lockout.
Context `{UuidSupply} `{Crypto} (config : AuthConfig) (key : string).

(** Calls answer, and [n] failures are counted until [d]. *)
Definition window (n d : Z) (w : World) : Prop :=
  oracle w = [] /\ peek key w = Some {| e_value := RInt n; e_expiresAt := Some d |}.

Lemma failureCount_window n d w :
  window n d w -> exists r, failureCount key w = (Ok {| fw_count := n; fw_retryAfterSec := r |}, w).
Proof.
  intros [Ho Hp]. eexists. unfold failureCount. apply catch_ok. erewrite bind_ok by by apply query_ok.
  unfold READ_FAILURES, cmd_get. by rewrite Hp.
Qed.

Lemma failureCount_none w :
  oracle w = [] -> peek key w = None -> failureCount key w = (Ok {| fw_count := 0; fw_retryAfterSec := 0 |}, w).
Proof.
  intros Ho Hp. unfold failureCount. apply catch_ok. erewrite bind_ok by by apply query_ok.
  unfold READ_FAILURES, cmd_get. by rewrite Hp.
Qed.

Lemma peek_put v d w : now w < d -> peek key (put key v (Some d) w) = Some {| e_value := v; e_expiresAt := Some d |}.
Proof. intros Hlt. unfold peek, put. cbn. rewrite lookup_insert_eq. unfold expired. cbn. by replace (d <=? now w) with false by lia. Qed.

Lemma window_live n d w : window n d w -> now w < d.
Proof.
  intros [_ Hp]. unfold peek in Hp. destruct (redis w !! key) as [e|]; [|done].
  destruct (expired (now w) e) eqn:Hx; [done|]. injection Hp as ->. unfold expired in Hx. cbn in Hx. lia.
Qed.

(** A failure within the window counts; the first opens one. *)
Lemma recordFailure_window n d w :
  window n d w -> 1 <= n ->
  exists r w', recordFailure key LOGIN_LOCKOUT_SEC w = (Ok r, w') /\ window (n + 1) d w' /\ now w' = now w.
Proof.
  intros Hw Hn. pose proof (window_live _ _ _ Hw) as Hd. destruct Hw as [Ho Hp].
  eexists _, (put key (RInt (n + 1)) (Some d) w). split_and!; [|by split; [|apply peek_put]|done].
  apply catch_ok. erewrite bind_ok; [reflexivity|]. apply io_ok; [done|]. unfold RECORD_FAILURE, cmd_incr. rewrite Hp.
  by replace (n + 1 =? 1) with false by lia.
Qed.

Lemma recordFailure_opens w :
  oracle w = [] -> peek key w = None ->
  exists r w', recordFailure key LOGIN_LOCKOUT_SEC w = (Ok r, w') /\ window 1 (now w + LOGIN_LOCKOUT_SEC * 1000) w' /\ now w' = now w.
Proof.
  intros Ho Hp. set (w1 := put key (RInt 1) None w).
  assert (cmd_pexpire key (LOGIN_LOCKOUT_SEC * 1000) w1 = put key (RInt 1) (Some (now w + LOGIN_LOCKOUT_SEC * 1000)) w1) as Hpx.
  { unfold cmd_pexpire, peek, w1, put. cbn [redis set_redis now]. by rewrite lookup_insert_eq. }
  eexists _, _. split_and!.
  - apply catch_ok. erewrite bind_ok; [reflexivity|]. apply io_ok; [done|]. unfold RECORD_FAILURE, cmd_incr. rewrite Hp.
    fold w1. cbn [Z.eqb Pos.eqb]. rewrite Hpx. reflexivity.
  - split; [done|]. apply peek_put. cbn. unfold LOGIN_LOCKOUT_SEC. lia.
  - done.
Qed.

(** One guess at an address that folds to [key]. *)
Record Attempt := { a_gap : N; a_email : string; a_password : string }.

Definition attempt (w : World) (a : Attempt) : World :=
  (login config (a_email a) (a_password a) (sleep (Z.of_N (a_gap a)) w).2).2.

Definition wrong (d : Database) (a : Attempt) : Prop :=
  loginFailureKey (a_email a) = key /\ authenticates (a_email a) (a_password a) d = false.

Definition elapsed (l : list Attempt) : Z := foldr (fun a ms => Z.of_N (a_gap a) + ms) 0 l.

Lemma elapsed_pos l : 0 <= elapsed l.
Proof. induction l as [|a l IH]; cbn; [done|]. fold (elapsed l). lia. Qed.

Lemma login_locked n d w email password :
  window n d w -> LOGIN_MAX_FAILURES <= n -> loginFailureKey email = key ->
  login config email password w = (Throw (TooManyRequests "Too many failed attempts. Try again later."), w).
Proof.
  intros Hw Hn Hkey. unfold login. rewrite Hkey. destruct (failureCount_window _ _ _ Hw) as (r & Hf).
  erewrite bind_ok by exact Hf. cbn. by replace (LOGIN_MAX_FAILURES <=? n) with true by lia.
Qed.

Lemma refused_run email r w w' :
  oracle w = [] -> loginFailureKey email = key -> recordFailure key LOGIN_LOCKOUT_SEC w = (Ok r, w') ->
  (do* query (fun _ => tt) in do* query (fun _ => tt) in refused email) w = (Throw (Unauthorized "Invalid credentials"), w').
Proof.
  intros Ho Hkey Hr. do 2 erewrite bind_ok by by apply query_ok. unfold refused. rewrite Hkey. by erewrite bind_ok by exact Hr.
Qed.

(** One failed guess inside an open window. *)
Lemma attempt_window n d w a dbs :
  db w = dbs -> wrong dbs a -> window n d w -> 1 <= n <= LOGIN_MAX_FAILURES -> now w + Z.of_N (a_gap a) < d ->
  let w' := attempt w a in
  window (Z.min (n + 1) LOGIN_MAX_FAILURES) d w' /\ now w' = now w + Z.of_N (a_gap a) /\ db w' = dbs.
Proof.
  intros Hdb [Hkey Hwrong] Hw Hn Hgap. unfold attempt. set (w0 := (sleep _ w).2).
  assert (window n d w0) as Hw0.
  { destruct Hw as [Ho Hp]. split; [done|]. unfold peek in *. cbn. destruct (redis w !! key) as [e|]; [|done].
    destruct (expired (now w) e); [done|]. injection Hp as ->. unfold expired. cbn. by replace (d <=? _) with false by lia. }
  subst dbs. destruct (login_reveals_nothing config (a_email a) (a_password a) w0 (db w0) Hwrong Hwrong) as [_ Hdb0].
  destruct (Z.eq_dec n LOGIN_MAX_FAILURES) as [->|Hlt].
  { rewrite (login_locked LOGIN_MAX_FAILURES d) by (done || lia). by replace (Z.min _ _) with LOGIN_MAX_FAILURES by lia. }
  rewrite login_is_refused in * by done. unfold login_refused in *. rewrite Hkey in *.
  destruct (failureCount_window _ _ _ Hw0) as (r & Hf). rewrite (bind_ok _ _ _ _ _ Hf) in *. cbn [fw_count] in *.
  replace (LOGIN_MAX_FAILURES <=? n) with false in * by lia.
  destruct (recordFailure_window n d w0 Hw0) as (r' & w' & Hr & Hw' & Hn'); [lia|].
  rewrite (refused_run _ _ _ _ (proj1 Hw0) Hkey Hr) in *. cbn in *. by replace (Z.min _ _) with (n + 1) by lia.
Qed.

Lemma attempts_window l : forall n d w dbs,
  db w = dbs -> Forall (wrong dbs) l -> window n d w -> 1 <= n <= LOGIN_MAX_FAILURES -> now w + elapsed l < d ->
  let w' := fold_left attempt l w in window (Z.min (n + Z.of_nat (length l)) LOGIN_MAX_FAILURES) d w' /\ now w' = now w + elapsed l.
Proof.
  induction l as [|a l IH]; intros n d w dbs Hdb Hall Hw Hn Hgap; cbn [fold_left].
  { cbn. rewrite !Z.add_0_r. by replace (Z.min n LOGIN_MAX_FAILURES) with n by lia. }
  apply Forall_cons in Hall as [Ha Hall]. cbn [elapsed foldr] in Hgap |- *. fold (elapsed l) in *. assert (0 <= elapsed l) by apply elapsed_pos.
  destruct (attempt_window n d w a dbs Hdb Ha Hw Hn) as (Hw1 & Hn1 & Hdb1); [lia|].
  destruct (IH _ d _ dbs Hdb1 Hall Hw1) as [Hw2 Hn2]; [lia|rewrite Hn1; lia|].
  split; [|rewrite Hn2, Hn1; lia]. cbn [length].
  replace (Z.min (n + Z.of_nat (S (length l))) LOGIN_MAX_FAILURES)
    with (Z.min (Z.min (n + 1) LOGIN_MAX_FAILURES + Z.of_nat (length l)) LOGIN_MAX_FAILURES) by lia. done.
Qed.

(** C32. Guesses made one after another are bounded per address and per
    window, while Redis answers. However they are spread over spellings of the
    address that fold together and over time, once the first of them has
    failed at most ten are compared before the window of fifteen minutes from
    that first failure ends: the counter stands at the number of guesses, at
    most ten; at ten every sign-in at the address is refused with 429 and
    changes nothing, the right password included; and when the window ends
    the counter is gone. (Guesses in flight together, and guesses while Redis
    is away, are not bounded so.) *)
Theorem login_lockout a l w :
  oracle w = [] -> peek key w = None ->
  Forall (wrong (db w)) (a :: l) ->
  elapsed l < LOGIN_LOCKOUT_SEC * 1000 ->
  let opened := now w + Z.of_N (a_gap a) in
  let n := Z.min (1 + Z.of_nat (length l)) LOGIN_MAX_FAILURES in
  let w' := fold_left attempt (a :: l) w in
  peek key w' = Some {| e_value := RInt n; e_expiresAt := Some (opened + LOGIN_LOCKOUT_SEC * 1000) |} /\
  (n = LOGIN_MAX_FAILURES -> forall email password, loginFailureKey email = key ->
     login config email password w' = (Throw (TooManyRequests "Too many failed attempts. Try again later."), w')) /\
  (forall ms, opened + LOGIN_LOCKOUT_SEC * 1000 <= now w' + ms -> peek key (sleep ms w').2 = None).
Proof.
  intros Ho Hp [Ha Hall]%Forall_cons Hgap opened n w'. subst w'. cbn [fold_left].
  assert (window 1 (opened + LOGIN_LOCKOUT_SEC * 1000) (attempt w a) /\ now (attempt w a) = opened /\ db (attempt w a) = db w)
    as (Hw1 & Hn1 & Hdb1).
  { unfold attempt. set (w0 := (sleep _ w).2). destruct Ha as [Hkey Hwrong].
    destruct (login_reveals_nothing config (a_email a) (a_password a) w0 (db w0) Hwrong Hwrong) as [_ Hdb0].
    assert (peek key w0 = None) as Hp0.
    { unfold peek in *. cbn. destruct (redis w !! key) as [e|]; [|done]. destruct (expired (now w) e) eqn:Hx; [|done].
      unfold expired in *. destruct (e_expiresAt e); [|done]. by replace (_ <=? _) with true by lia. }
    rewrite login_is_refused in * by done. unfold login_refused in *. rewrite Hkey in *.
    rewrite (bind_ok _ _ _ _ _ (failureCount_none w0 Ho Hp0)) in *. cbn [fw_count] in *.
    replace (LOGIN_MAX_FAILURES <=? 0) with false in * by done.
    destruct (recordFailure_opens w0 Ho Hp0) as (r' & w1 & Hr & Hw' & Hn').
    rewrite (refused_run _ _ w0 _ Ho Hkey Hr) in *. by cbn in *. }
  destruct (attempts_window l 1 _ _ _ Hdb1 Hall Hw1) as [Hw2 Hn2]; [unfold LOGIN_MAX_FAILURES; lia|lia|].
  fold n in Hw2. split_and!; [by apply Hw2| |].
  - intros Hten email password Hkey. eapply login_locked; [exact Hw2|lia|done].
  - intros ms Hms. clear Hp. destruct Hw2 as [_ Hp2]. unfold peek in *. cbn in *. destruct (redis _ !! key) as [e|]; [|done].
    destruct (expired _ e); [done|]. injection Hp2 as ->. unfold expired. cbn. by replace (_ <=? _) with true by lia.
Qed.

End Lockout.

(** ** Concrete runs *)

Definition reset_user : User := set_reset "$2b$old" (Some (hashToken (H:=sample_crypto) "uuid-1")) (Some 3600000) false
  (new_user "uuid-0" "a@b.c" "$2b$old" 0).

Definition reset_world : World := set_uuids 2 (set_db (set_users [reset_user] empty_db) empty_world).

Lemma reset_world_ok : links_ok (H:=sample_uuids) (H0:=sample_crypto) reset_world.
Proof.
  split_and!; [apply NoDup_singleton|..].
  - intros u ->%list_elem_of_singleton. exists 0%nat. split; [done|cbn; lia].
  - intros u h ->%list_elem_of_singleton [= <-]. split.
    + exists "uuid-1". split; [done|]. exists 1%nat. split; [done|cbn; lia].
    + by intros u' ->%list_elem_of_singleton.
Qed.

Definition reset_session : World :=
  set_db (set_refreshTokens [ {| r_id := "r1"; r_userId := "uuid-0"; r_tokenHash := "aa"; r_expiresAt := 10; r_revoked := false |} ]
    (db reset_world)) reset_world.

Lemma reset_takes_account_back_witness :
  exists u, u ∈ users (db reset_session) /\ u_passwordResetTokenHash u = Some (hashToken (H:=sample_crypto) "uuid-1") /\
    (exists exp, u_passwordResetTokenExpiresAt u = Some exp /\ now reset_session <= exp) /\
    (forall u', u' ∈ users (db (resetPassword (H0:=sample_crypto) "uuid-1" "new" reset_session).2) -> u_id u' = u_id u ->
       bcrypt_compare (Crypto:=sample_crypto) "new" (u_passwordHash u') = true /\ u_emailVerified u' = true /\ u_passwordResetTokenHash u' = None) /\
    (forall r, r ∈ tokens (resetPassword (H0:=sample_crypto) "uuid-1" "new" reset_session).2 -> r_userId r = u_id u -> r_revoked r = true).
Proof. eapply (reset_takes_account_back (H0:=sample_crypto) "uuid-1" "new" reset_session). vm_compute. reflexivity. Defined.

Lemma login_reveals_nothing_witness :
  login (H:=sample_uuids) (H0:=sample_crypto) sample_auth "a@b.c" "guess" (set_db empty_db auth_world) =
    ((login (H:=sample_uuids) (H0:=sample_crypto) sample_auth "a@b.c" "guess" auth_world).1,
     set_db empty_db (login (H:=sample_uuids) (H0:=sample_crypto) sample_auth "a@b.c" "guess" auth_world).2) /\
  db (login (H:=sample_uuids) (H0:=sample_crypto) sample_auth "a@b.c" "guess" auth_world).2 = db auth_world.
Proof.
  apply (login_reveals_nothing (H:=sample_uuids) (H0:=sample_crypto) sample_auth "a@b.c" "guess" auth_world empty_db);
    vm_compute; reflexivity.
Defined.

(** Ten guesses, a minute apart, under two spellings. *)
Definition guesses : list Attempt :=
  (fun n : nat => {| a_gap := 60000; a_email := if Nat.even n then "a@b.c" else " A@B.C"; a_password := "guess" |}) <$> seq 0 10.

Lemma login_lockout_witness :
  (login (H:=sample_uuids) (H0:=sample_crypto) sample_auth "a@b.c" "pw" auth_world).1 <> Throw (Unauthorized "Invalid credentials") /\
  login (H:=sample_uuids) (H0:=sample_crypto) sample_auth "a@b.c" "pw"
    (fold_left (attempt (H:=sample_uuids) (H0:=sample_crypto) sample_auth) guesses auth_world) =
  (Throw (TooManyRequests "Too many failed attempts. Try again later."),
   fold_left (attempt (H:=sample_uuids) (H0:=sample_crypto) sample_auth) guesses auth_world).
Proof.
  split; [vm_compute; discriminate|].
  refine (proj1 (proj2 (login_lockout (H:=sample_uuids) (H0:=sample_crypto) sample_auth (loginFailureKey (H0:=sample_crypto) "a@b.c")
    {| a_gap := 60000; a_email := "a@b.c"; a_password := "guess" |} (drop 1 guesses) auth_world _ _ _ _)) _ _ _ _);
    try (vm_compute; reflexivity).
  repeat (apply Forall_cons; split; [split; vm_compute; reflexivity|]). by apply Forall_nil.
Defined.
