(* ===== verification/Triggers.v ===== *)
(** * Triggers: commands and queries ([apps/core-api/src/triggers])

    The repository and the handlers behind the trigger endpoints. A row is
    written together with its conditions in one transaction; deleting one
    cascades to its conditions and detaches its notifications. *)

From S2P Require Import Prelude JsNumber Enums Location Contracts Table World Samples Effects RedisService Outbox Watcher Format Crypto Auth.

(** ** Limits ([apps/core-api/src/meta/limits.ts]) *)

Record ApiLimits := {
  maxTriggersPerUser : nat;
  maxConditionsPerTrigger : nat;
  maxPinnedCities : nat;
  testCooldownSec : Z;
  minCooldownMin : Z;
  maxCooldownMin : Z;
  maxChannelsPerTrigger : nat;
}.

Definition API_LIMITS : ApiLimits :=
  {| maxTriggersPerUser := 10; maxConditionsPerTrigger := 5; maxPinnedCities := 12; testCooldownSec := 600;
     minCooldownMin := 10; maxCooldownMin := 1440; maxChannelsPerTrigger := 3 |}.

(** ** Requests ([dto/create-trigger.dto.ts], [dto/update-trigger.dto.ts]) *)

Record ConditionDto := { cd_metric : Metric; cd_operator : Operator; cd_threshold : number }.

Record CreateTriggerDto := {
  d_name : string;
  d_city : string;
  d_latitude : number;
  d_longitude : number;
  d_conditions : list ConditionDto;
  d_conditionLogic : option ConditionLogic;
  d_channels : list Channel;
  d_cooldownMin : option Z;
  d_isActive : option bool;
}.

(** [PartialType(CreateTriggerDto)] *)
Record UpdateTriggerDto := {
  p_name : option string;
  p_city : option string;
  p_latitude : option number;
  p_longitude : option number;
  p_conditions : option (list ConditionDto);
  p_conditionLogic : option ConditionLogic;
  p_channels : option (list Channel);
  p_cooldownMin : option Z;
  p_isActive : option bool;
}.

Section Validation.
(** The validator's count of the characters of a text. *)
Context (length_of : string -> nat).

Definition valid_text (max : nat) (s : string) : bool := (1 <=? length_of s)%nat && (length_of s <=? max)%nat.

(** [@IsNumber() @Min(-bound) @Max(bound)]: neither NaN nor infinite. *)
Definition valid_degrees (bound : Z) (x : number) : bool :=
  Num.is_finite x && Num.leb (Num.of_Z (- bound)) x && Num.leb x (Num.of_Z bound).

Definition valid_conditions (cs : list ConditionDto) : bool :=
  (1 <=? length cs)%nat && (length cs <=? maxConditionsPerTrigger API_LIMITS)%nat &&
  forallb (fun c => Num.is_finite (cd_threshold c)) cs.

Definition valid_channels (cs : list Channel) : bool :=
  (1 <=? length cs)%nat && (length cs <=? maxChannelsPerTrigger API_LIMITS)%nat && bool_decide (NoDup cs).

Definition valid_cooldown (m : Z) : bool := (minCooldownMin API_LIMITS <=? m) && (m <=? maxCooldownMin API_LIMITS).

(** [@IsOptional()] *)
Definition optional {A} (p : A -> bool) (o : option A) : bool := match o with Some a => p a | None => true end.

Definition valid_create (dto : CreateTriggerDto) : bool :=
  valid_text 80 (d_name dto) && valid_text 120 (d_city dto) &&
  valid_degrees 90 (d_latitude dto) && valid_degrees 180 (d_longitude dto) &&
  valid_conditions (d_conditions dto) && valid_channels (d_channels dto) && optional valid_cooldown (d_cooldownMin dto).

Definition valid_update (dto : UpdateTriggerDto) : bool :=
  optional (valid_text 80) (p_name dto) && optional (valid_text 120) (p_city dto) &&
  optional (valid_degrees 90) (p_latitude dto) && optional (valid_degrees 180) (p_longitude dto) &&
  optional valid_conditions (p_conditions dto) && optional valid_channels (p_channels dto) &&
  optional valid_cooldown (p_cooldownMin dto).

End Validation.

(** ** Repository ([triggers.repository.ts]) *)

(** A row with its conditions. *)
Definition TriggerRow : Type := Trigger * list TriggerCondition.

Definition of_trigger (id : string) (c : TriggerCondition) : bool := bool_decide (c_triggerId c = id).

(** [TRIGGER_INCLUDE] *)
Definition include (d : Database) (t : Trigger) : TriggerRow :=
  (t, order_asc c_order (find_many (of_trigger (t_id t)) (triggerConditions d))).

Definition owned_by (userId : string) (t : Trigger) : bool := bool_decide (t_userId t = userId).
Definition trigger_is (id : string) (t : Trigger) : bool := bool_decide (t_id t = id).

Definition NotFound (message : string) : exn := HttpException 404 message.
Definition Forbidden (message : string) : exn := HttpException 403 message.

Definition countForUser (userId : string) : M nat := query (fun w => count_where (owned_by userId) (triggers (db w))).

Definition isEmailVerified (userId : string) : M bool :=
  let* user := findById userId in
  ret (match user with Some u => u_emailVerified u | None => false end).

Definition findOwned (userId id : string) : M TriggerRow :=
  let* row := query (fun w => include (db w) <$> find_first (fun t => trigger_is id t && owned_by userId t) (triggers (db w))) in
  match row with Some r => ret r | None => throw (NotFound "Trigger not found") end.

(** One transaction: the page and the total. *)
Definition page (userId : string) (skip_ take_ : nat) : M (list TriggerRow * nat) :=
  query (fun w =>
    (map (include (db w)) (page_of skip_ take_ (order_desc t_createdAt (find_many (owned_by userId) (triggers (db w))))),
     count_where (owned_by userId) (triggers (db w)))).

Section Writes.
Context `{UuidSupply}.

(** Rows in the order of the request; ids are drawn from [n] on. *)
Definition conditionRows (triggerId : string) (n : nat) (conditions : list ConditionDto) : list TriggerCondition :=
  imap (fun i c => {| c_id := uuid (n + i); c_triggerId := triggerId; c_metric := cd_metric c; c_operator := cd_operator c;
                      c_threshold := cd_threshold c; c_order := Z.of_nat i; c_lastObservedValue := None; c_lastMatched := None |})
       conditions.

(** Columns left out take the schema's defaults. *)
Definition new_trigger (id userId : string) (dto : CreateTriggerDto) (at_ : Z) : Trigger :=
  {| t_id := id; t_userId := userId; t_name := d_name dto; t_city := d_city dto; t_latitude := d_latitude dto;
     t_longitude := d_longitude dto; t_conditionLogic := default AND (d_conditionLogic dto); t_channels := d_channels dto;
     t_cooldownMin := default 60 (d_cooldownMin dto); t_isActive := default true (d_isActive dto); t_state := ARMED;
     t_lastFiredAt := None; t_lastEvaluatedAt := None; t_locationBucket := locationBucket (d_latitude dto) (d_longitude dto);
     t_createdAt := at_ |}.

(** A row and its conditions in one statement. *)
Definition insert_trigger (row : Trigger) (conditions : list TriggerCondition) (d : Database) : Database :=
  set_triggerConditions (triggerConditions d ++ conditions) (set_triggers (triggers d ++ [row]) d).

Definition create_trigger (userId : string) (dto : CreateTriggerDto) : M TriggerRow :=
  io (fun w =>
    if existsb (has_id userId) (users (db w)) then
      let row := new_trigger (uuid (uuids w)) userId dto (now w) in
      let conditions := conditionRows (t_id row) (S (uuids w)) (d_conditions dto) in
      let d := insert_trigger row conditions (db w) in
      (inl (include d row), set_uuids (S (uuids w) + length (d_conditions dto)) (set_db d w))
    else (inr (JsError "P2003"), w)).

(** The bucket moves when the patch carries both coordinates. *)
Definition bucketPatch (dto : UpdateTriggerDto) : option Z :=
  match p_latitude dto, p_longitude dto with
  | Some latitude, Some longitude => Some (locationBucket latitude longitude)
  | _, _ => None
  end.

Definition patched (dto : UpdateTriggerDto) (t : Trigger) : Trigger :=
  {| t_id := t_id t; t_userId := t_userId t; t_name := default (t_name t) (p_name dto); t_city := default (t_city t) (p_city dto);
     t_latitude := default (t_latitude t) (p_latitude dto); t_longitude := default (t_longitude t) (p_longitude dto);
     t_conditionLogic := default (t_conditionLogic t) (p_conditionLogic dto);
     t_channels := default (t_channels t) (p_channels dto); t_cooldownMin := default (t_cooldownMin t) (p_cooldownMin dto);
     t_isActive := default (t_isActive t) (p_isActive dto); t_state := t_state t; t_lastFiredAt := t_lastFiredAt t;
     t_lastEvaluatedAt := t_lastEvaluatedAt t; t_locationBucket := default (t_locationBucket t) (bucketPatch dto);
     t_createdAt := t_createdAt t |}.

(** [conditions: { deleteMany: {}, create: ... }] when a set is given. *)
Definition replace_conditions (id : string) (n : nat) (conditions : option (list ConditionDto)) (t : list TriggerCondition) : list TriggerCondition :=
  match conditions with
  | Some cs => (delete_many (of_trigger id) t).1 ++ conditionRows id n cs
  | None => t
  end.

Definition change_trigger (id : string) (dto : UpdateTriggerDto) (n : nat) (d : Database) : Database :=
  set_triggerConditions (replace_conditions id n (p_conditions dto) (triggerConditions d))
    (set_triggers (map (fun t => if trigger_is id t then patched dto t else t) (triggers d)) d).

Definition update_trigger (id : string) (dto : UpdateTriggerDto) : M TriggerRow :=
  io (fun w =>
    match find_first (trigger_is id) (triggers (db w)) with
    | Some t =>
        let d := change_trigger id dto (uuids w) (db w) in
        (inl (include d (patched dto t)), set_uuids (uuids w + length (default [] (p_conditions dto))) (set_db d w))
    | None => (inr RecordNotFound, w)
    end).

End Writes.

Definition detach (ids : list string) (n : Notification) : Notification :=
  {| n_id := n_id n; n_eventId := n_eventId n;
     n_triggerId := match n_triggerId n with Some t => if bool_decide (t ∈ ids) then None else Some t | None => None end;
     n_userId := n_userId n; n_channel := n_channel n; n_status := n_status n; n_payload := n_payload n; n_error := n_error n;
     n_claimedAt := n_claimedAt n; n_deliveredTo := n_deliveredTo n; n_createdAt := n_createdAt n |}.

(** Deleting rows of the table: conditions cascade, notifications keep their
    history without the trigger. *)
Definition drop_triggers (p : Trigger -> bool) (d : Database) : Database :=
  let ids := t_id <$> find_many p (triggers d) in
  set_notifications (map (detach ids) (notifications d))
    (set_triggerConditions (delete_many (fun c => bool_decide (c_triggerId c ∈ ids)) (triggerConditions d)).1
      (set_triggers (delete_many p (triggers d)).1 d)).

Definition delete_trigger (id : string) : M unit :=
  io (fun w => if existsb (trigger_is id) (triggers (db w)) then (inl tt, set_db (drop_triggers (trigger_is id) (db w)) w)
               else (inr RecordNotFound, w)).

Definition deleteAllForUser (userId : string) : M nat :=
  io (fun w => (inl (count_where (owned_by userId) (triggers (db w))), set_db (drop_triggers (owned_by userId) (db w)) w)).

(** ** Responses ([dto/trigger-response.dto.ts]) *)

Record TriggerConditionResponse := {
  tcr_id : string;
  tcr_metric : Metric;
  tcr_operator : Operator;
  tcr_threshold : number;
  tcr_order : Z;
  tcr_lastObservedValue : option number;
  tcr_lastMatched : option bool;
}.

Record TriggerResponse := {
  tr_id : string;
  tr_name : string;
  tr_city : string;
  tr_latitude : number;
  tr_longitude : number;
  tr_conditions : list TriggerConditionResponse;
  tr_conditionLogic : ConditionLogic;
  tr_channels : list Channel;
  tr_cooldownMin : Z;
  tr_isActive : bool;
  tr_state : TriggerState;
  tr_lastFiredAt : option Z;
  tr_lastEvaluatedAt : option Z;
  tr_createdAt : Z;
}.

Definition toConditionResponse (c : TriggerCondition) : TriggerConditionResponse :=
  {| tcr_id := c_id c; tcr_metric := c_metric c; tcr_operator := c_operator c; tcr_threshold := c_threshold c;
     tcr_order := c_order c; tcr_lastObservedValue := c_lastObservedValue c; tcr_lastMatched := c_lastMatched c |}.

Definition toTriggerResponse (row : TriggerRow) : TriggerResponse :=
  let t := row.1 in
  {| tr_id := t_id t; tr_name := t_name t; tr_city := t_city t; tr_latitude := t_latitude t; tr_longitude := t_longitude t;
     tr_conditions := map toConditionResponse row.2; tr_conditionLogic := t_conditionLogic t; tr_channels := t_channels t;
     tr_cooldownMin := t_cooldownMin t; tr_isActive := t_isActive t; tr_state := t_state t; tr_lastFiredAt := t_lastFiredAt t;
     tr_lastEvaluatedAt := t_lastEvaluatedAt t; tr_createdAt := t_createdAt t |}.

(** ** Handlers ([commands/], [queries/]) *)

Record Page (A : Type) := { pg_items : list A; pg_total : nat; pg_page : nat; pg_limit : nat }.
Arguments pg_items {A}.
Arguments pg_total {A}.
Arguments pg_page {A}.
Arguments pg_limit {A}.

Definition GetTrigger (userId id : string) : M TriggerResponse :=
  let* row := findOwned userId id in ret (toTriggerResponse row).

(** The validator has let through integers from 1 on, or nothing. *)
Definition ListTriggers (userId : string) (page_ limit_ : option nat) : M (Page TriggerResponse) :=
  let p := default 1%nat page_ in
  let l := default 20%nat limit_ in
  let* r := page userId ((p - 1) * l) l in
  ret {| pg_items := map toTriggerResponse r.1; pg_total := r.2; pg_page := p; pg_limit := l |}.

Section Handlers.
Context `{UuidSupply}.

Definition CreateTrigger (userId : string) (dto : CreateTriggerDto) : M TriggerResponse :=
  let* verified := isEmailVerified userId in
  if negb verified then throw (Forbidden "Please verify your email before creating triggers")
  else
    let* count := countForUser userId in
    if (maxTriggersPerUser API_LIMITS <=? count)%nat
    then throw (BadRequest ("Trigger limit reached (max " +:+ pretty (maxTriggersPerUser API_LIMITS) +:+ ")"))
    else let* created := create_trigger userId dto in ret (toTriggerResponse created).

Definition UpdateTrigger (userId id : string) (dto : UpdateTriggerDto) : M TriggerResponse :=
  do* findOwned userId id in
  let* updated := update_trigger id dto in
  ret (toTriggerResponse updated).

Definition DeleteTrigger (userId id : string) : M string :=
  do* findOwned userId id in
  do* delete_trigger id in
  ret id.

Definition ClearTriggers (userId : string) : M nat := deleteAllForUser userId.

Definition test_condition (c : TriggerCondition) : FiredCondition :=
  {| fc_metric := c_metric c; fc_operator := c_operator c; fc_threshold := c_threshold c;
     fc_observedValue := default (c_threshold c) (c_lastObservedValue c) |}.

Definition test_event (eventId : string) (row : TriggerRow) (firedAt : Z) : TriggerFiredEvent :=
  let t := row.1 in
  {| ev_eventId := eventId; ev_triggerId := t_id t; ev_userId := t_userId t; ev_triggerName := t_name t; ev_city := t_city t;
     ev_conditions := map test_condition row.2; ev_conditionLogic := t_conditionLogic t; ev_channels := t_channels t;
     ev_firedAt := firedAt; ev_test := Some true |}.

Definition testCooldownKey (userId : string) : string := "trigger-test:" +:+ userId.

Definition SendTestNotification (userId id : string) : M (list Channel) :=
  let* trigger := findOwned userId id in
  let cooldownKey := testCooldownKey userId in
  let* retryAfter := consumeCooldown cooldownKey (testCooldownSec API_LIMITS) in
  if 0 <? retryAfter
  then throw (TooManyRequests ("Please wait " +:+ pretty retryAfter +:+ "s before sending another test"))
  else
    let* eventId := randomUUID in
    let* at_ := get_now in
    let event := test_event eventId trigger at_ in
    do* catch (for_each (t_channels trigger.1) (fun channel => publish (routingKeyFor channel) event))
          (fun _ => do* catch (clearCooldown cooldownKey) (fun _ => ret tt) in
                    throw (HttpException 503 "Notifications are temporarily unavailable — please try again shortly")) in
    ret (t_channels trigger.1).

(** The requests that write. *)
Inductive TriggerCommand :=
  | Create (dto : CreateTriggerDto)
  | Update (id : string) (dto : UpdateTriggerDto)
  | Delete (id : string)
  | Clear
  | SendTest (id : string).

Definition run_command (userId : string) (c : TriggerCommand) (w : World) : World :=
  match c with
  | Create dto => (CreateTrigger userId dto w).2
  | Update id dto => (UpdateTrigger userId id dto w).2
  | Delete id => (DeleteTrigger userId id w).2
  | Clear => (ClearTriggers userId w).2
  | SendTest id => (SendTestNotification userId id w).2
  end.

End Handlers.
