(* ===== verification/TriggersProps.v ===== *)
(** * Triggers: what the commands keep

    Well-formedness of the stored triggers, isolation between users, the
    bucket stamp the watcher's shards rely on, round trips and paging. *)

From stdpp Require Import sorting.
From S2P Require Import Prelude JsNumber Enums Location Contracts Table World Samples Effects RedisService Outbox Watcher Format Crypto Auth Triggers.

(** ** Well-formed triggers *)

Section WellFormed.
Context `{UuidSupply}.

Definition conditions_of (d : Database) (id : string) : list TriggerCondition :=
  find_many (of_trigger id) (triggerConditions d).

(** What the validator promises of a request, of a stored row: the columns in
    their ranges, distinct channels, one to five conditions numbered from 0. *)
Definition well_formed (d : Database) (t : Trigger) : Prop :=
  valid_channels (t_channels t) = true /\ valid_cooldown (t_cooldownMin t) = true /\
  valid_degrees 90 (t_latitude t) = true /\ valid_degrees 180 (t_longitude t) = true /\
  (1 <= length (conditions_of d (t_id t)) <= maxConditionsPerTrigger API_LIMITS)%nat /\
  c_order <$> conditions_of d (t_id t) = Z.of_nat <$> seq 0 (length (conditions_of d (t_id t))).

Definition keys_ok (w : World) : Prop :=
  NoDup (t_id <$> triggers (db w)) /\ (forall t, t ∈ triggers (db w) -> drawn w (t_id t)) /\
  (forall c, c ∈ triggerConditions (db w) -> c_triggerId c ∈ t_id <$> triggers (db w)).

Definition triggers_wf (w : World) : Prop :=
  keys_ok w /\ (forall t, t ∈ triggers (db w) -> well_formed (db w) t) /\
  (forall userId, (count_where (owned_by userId) (triggers (db w)) <= maxTriggersPerUser API_LIMITS)%nat).

(** *** Conditions of a row after each write *)

Lemma conditionRows_of id n cs : find_many (of_trigger id) (conditionRows id n cs) = conditionRows id n cs.
Proof. apply find_many_all. intros c (i & x & -> & _)%elem_of_lookup_imap. by apply bool_decide_true. Qed.

Lemma conditionRows_other id id' n cs : id' <> id -> find_many (of_trigger id') (conditionRows id n cs) = [].
Proof. intros Hne. apply find_many_none. intros c (i & x & -> & _)%elem_of_lookup_imap. by apply bool_decide_false. Qed.

Lemma conditionRows_length id n cs : length (conditionRows id n cs) = length cs.
Proof. apply length_imap. Qed.

Lemma conditionRows_order id n cs : c_order <$> conditionRows id n cs = Z.of_nat <$> seq 0 (length cs).
Proof.
  apply list_eq. intros i. rewrite !list_lookup_fmap. unfold conditionRows. rewrite list_lookup_imap.
  destruct (cs !! i) as [c|] eqn:E; cbn.
  - rewrite lookup_seq_lt; [done|]. by eapply lookup_lt_Some.
  - rewrite lookup_seq_ge; [done|]. by apply lookup_ge_None.
Qed.

Lemma conditions_of_fresh w id : keys_ok w -> ~ drawn w id -> conditions_of (db w) id = [].
Proof.
  intros (_ & Hd & Hc) Hfresh. apply find_many_none. intros c Hin. apply bool_decide_false. intros Heq.
  destruct Hfresh. specialize (Hc c Hin). apply list_elem_of_fmap in Hc as (t & Ht & Hin'). rewrite <- Heq, Ht. by apply Hd.
Qed.

Lemma fresh_uuid w : ~ drawn w (uuid (uuids w)).
Proof. intros (i & Hi & Hlt). apply (inj uuid) in Hi. lia. Qed.

Lemma conditions_ok d d' t t' :
  conditions_of d' (t_id t') = conditions_of d (t_id t) -> t_channels t' = t_channels t -> t_cooldownMin t' = t_cooldownMin t ->
  t_latitude t' = t_latitude t -> t_longitude t' = t_longitude t -> well_formed d t -> well_formed d' t'.
Proof. unfold well_formed. by intros -> -> -> -> ->. Qed.

Lemma patched_id dto id t : t_id (if trigger_is id t then patched dto t else t) = t_id t.
Proof. by destruct (trigger_is id t). Qed.

Lemma patched_owner dto id u t : owned_by u (if trigger_is id t then patched dto t else t) = owned_by u t.
Proof. by destruct (trigger_is id t). Qed.

Lemma keys_create w userId dto n :
  keys_ok w -> (uuids w < n)%nat ->
  keys_ok (set_uuids n (set_db (insert_trigger (new_trigger (uuid (uuids w)) userId dto (now w))
    (conditionRows (uuid (uuids w)) (S (uuids w)) (d_conditions dto)) (db w)) w)).
Proof.
  intros (Hnd & Hd & Hc) Hn. split_and!; cbn.
  - rewrite fmap_app. apply NoDup_app. split_and!; [done| |apply NoDup_singleton].
    intros s (t & -> & Ht)%list_elem_of_fmap Hs%list_elem_of_singleton. apply (fresh_uuid w). cbn in Hs. rewrite <- Hs. by apply Hd.
  - intros t [Ht|Ht%list_elem_of_singleton]%elem_of_app; [eapply drawn_mono; [|by apply Hd]; cbn; lia|].
    subst t. exists (uuids w). cbn. split; [done|lia].
  - intros c. rewrite fmap_app. intros [Hin|(i & x & -> & _)%elem_of_lookup_imap]%elem_of_app; apply elem_of_app;
      [left; auto|right; by apply list_elem_of_singleton].
Qed.

Lemma keys_change w id dto n :
  keys_ok w -> id ∈ t_id <$> triggers (db w) -> (uuids w <= n)%nat ->
  keys_ok (set_uuids n (set_db (change_trigger id dto (uuids w) (db w)) w)).
Proof.
  intros (Hnd & Hd & Hc) Hid Hn.
  assert (t_id <$> map (fun t => if trigger_is id t then patched dto t else t) (triggers (db w)) = t_id <$> triggers (db w)) as Hids.
  { rewrite <- list_fmap_compose. apply list_fmap_ext. intros i t _. cbn. apply patched_id. }
  split_and!; cbn; rewrite ?Hids; try done.
  - intros t' (t & -> & Ht)%list_elem_of_fmap. rewrite patched_id. eapply drawn_mono; [|by apply Hd]. cbn. lia.
  - intros c. unfold replace_conditions. destruct (p_conditions dto) as [cs|]; [|auto].
    intros [[Hin _]%elem_of_delete_many|(i & x & -> & _)%elem_of_lookup_imap]%elem_of_app; auto.
Qed.

Lemma keys_drop w p : keys_ok w -> keys_ok (set_db (drop_triggers p (db w)) w).
Proof.
  intros (Hnd & Hd & Hc). split_and!; cbn -[delete_many].
  - eapply sublist_NoDup; [exact Hnd|]. apply fmap_sublist, find_many_sublist.
  - intros t [Ht _]%elem_of_delete_many. by apply Hd.
  - intros c [Hin Hk%bool_decide_eq_false]%elem_of_delete_many. specialize (Hc c Hin).
    apply list_elem_of_fmap in Hc as (t & Heq & Ht). apply list_elem_of_fmap. exists t. split; [done|].
    apply elem_of_delete_many. split; [done|]. destruct (p t) eqn:Hp; [|done]. destruct Hk. rewrite Heq.
    apply list_elem_of_fmap_2, elem_of_find_many. done.
Qed.

Lemma create_wf w userId dto length_of n :
  triggers_wf w -> valid_create length_of dto = true ->
  (count_where (owned_by userId) (triggers (db w)) < maxTriggersPerUser API_LIMITS)%nat -> (uuids w < n)%nat ->
  triggers_wf (set_uuids n (set_db (insert_trigger (new_trigger (uuid (uuids w)) userId dto (now w))
    (conditionRows (uuid (uuids w)) (S (uuids w)) (d_conditions dto)) (db w)) w)).
Proof.
  intros (Hkeys & Hwf & Hlim) Hv Hcount Hn. pose proof (fresh_uuid w) as Hfresh. set (id := uuid (uuids w)) in *.
  pose proof (conditions_of_fresh w id Hkeys Hfresh) as Hnone. destruct (Hkeys) as (_ & Hd & _).
  unfold valid_create in Hv. bool_to_prop.
  split_and!; cbn; [by apply keys_create| |].
  - intros t [Ht|Ht%list_elem_of_singleton]%elem_of_app.
    + apply (conditions_ok (db w) _ t t); auto. unfold conditions_of. cbn. rewrite find_many_app.
      rewrite conditionRows_other, app_nil_r; [done|]. intros Heq. apply Hfresh. rewrite <- Heq. by apply Hd.
    + subst t. unfold well_formed, conditions_of in *. cbn [insert_trigger triggerConditions set_triggerConditions t_id new_trigger].
      rewrite find_many_app, Hnone. cbn [app]. fold id. rewrite conditionRows_of, conditionRows_order, conditionRows_length.
      cbn. split_and!; try done; try (unfold valid_conditions in *; bool_to_prop; apply Nat.leb_le; done).
      destruct (d_cooldownMin dto); done.
  - intros u. specialize (Hlim u). unfold count_where in *. rewrite List.filter_app, length_app. cbn [List.filter].
    destruct (owned_by u (new_trigger _ _ _ _)) eqn:Hu; cbn in *; [|lia]. apply bool_decide_eq_true in Hu. cbn in Hu. subst u. lia.
Qed.

Lemma count_where_map (p : Trigger -> bool) f ts : (forall t, p (f t) = p t) -> count_where p (map f ts) = count_where p ts.
Proof. intros Hp. unfold count_where. induction ts as [|t ts IH]; cbn; [done|]. rewrite Hp. destruct (p t); cbn; lia. Qed.

Lemma replace_other id id' n cs l : id' <> id -> find_many (of_trigger id') (replace_conditions id n cs l) = find_many (of_trigger id') l.
Proof.
  intros Hne. destruct cs as [cs|]; cbn; [|done]. rewrite find_many_app, conditionRows_other, app_nil_r by done.
  fold (find_many (fun r => negb (of_trigger id r)) l). rewrite find_many_find_many. apply find_many_ext. intros c _.
  unfold of_trigger. destruct (bool_decide (c_triggerId c = id)) eqn:E; [|done]. apply bool_decide_eq_true in E as ->.
  symmetry. by apply bool_decide_false.
Qed.

Lemma replace_own id n cs l : find_many (of_trigger id) (replace_conditions id n (Some cs) l) = conditionRows id n cs.
Proof.
  cbn. rewrite find_many_app, conditionRows_of. rewrite find_many_none; [done|]. intros c Hc.
  apply elem_of_find_many in Hc as [_ Hn]. by apply negb_true_iff.
Qed.

Lemma update_wf w id dto length_of n :
  triggers_wf w -> valid_update length_of dto = true -> id ∈ t_id <$> triggers (db w) -> (uuids w <= n)%nat ->
  triggers_wf (set_uuids n (set_db (change_trigger id dto (uuids w) (db w)) w)).
Proof.
  intros (Hkeys & Hwf & Hlim) Hv Hid Hn. unfold valid_update in Hv. bool_to_prop.
  split_and!; cbn; [by apply keys_change| |].
  - intros t' (t & -> & Ht)%list_elem_of_fmap. specialize (Hwf t Ht). unfold trigger_is. destruct (bool_decide (t_id t = id)) eqn:E.
    + apply bool_decide_eq_true in E. destruct Hwf as (? & ? & ? & ? & Hlen & Hord). unfold well_formed, conditions_of in *.
      cbn [t_id patched change_trigger triggerConditions set_triggerConditions t_channels t_cooldownMin t_latitude t_longitude].
      rewrite E in *. split_and!; try by destruct (p_channels dto), (p_cooldownMin dto), (p_latitude dto), (p_longitude dto).
      all: destruct (p_conditions dto) as [cs|]; [rewrite replace_own, ?conditionRows_order, ?conditionRows_length|first [exact Hord|apply Hlen]].
      all: cbn in *; unfold valid_conditions in *; bool_to_prop; try apply Nat.leb_le; done.
    + apply bool_decide_eq_false in E. apply (conditions_ok (db w) _ t t); auto. by apply replace_other.
  - intros u. etrans; [|exact (Hlim u)]. apply Nat.eq_le_incl, (count_where_map (owned_by u)). apply patched_owner.
Qed.

Lemma drop_wf w p : triggers_wf w -> triggers_wf (set_db (drop_triggers p (db w)) w).
Proof.
  intros (Hkeys & Hwf & Hlim). destruct (Hkeys) as (Hnd & _ & _).
  assert (forall t, t ∈ triggers (db w) -> p t = false -> t_id t ∉ t_id <$> find_many p (triggers (db w))) as Hout.
  { intros t Ht Hp (t' & Heq & [Ht' Hp']%elem_of_find_many)%list_elem_of_fmap.
    assert (t = t') as -> by by eapply (key_unique t_id). congruence. }
  split_and!; cbn -[delete_many]; [by apply keys_drop| |].
  - intros t [Ht Hp]%elem_of_delete_many. apply (conditions_ok (db w) _ t t); auto.
    unfold conditions_of. cbn. fold (find_many (fun r : TriggerCondition => negb (bool_decide (c_triggerId r ∈ t_id <$> find_many p (triggers (db w))))) (triggerConditions (db w))).
    rewrite find_many_find_many. apply find_many_ext. intros c _. unfold of_trigger.
    destruct (bool_decide (c_triggerId c = t_id t)) eqn:E; [|by rewrite andb_false_r]. apply bool_decide_eq_true in E as ->.
    rewrite bool_decide_false by auto. done.
  - intros u. etrans; [|exact (Hlim u)]. apply count_where_sublist, find_many_sublist.
Qed.

End WellFormed.

(** ** What every command keeps *)

(** A property of the world that only the tables of triggers and conditions
    and the supply matter to. *)
Class TriggerProperty (I : World -> Prop) : Prop := {
  tp_same : forall w w', triggers (db w') = triggers (db w) -> triggerConditions (db w') = triggerConditions (db w) ->
    (uuids w <= uuids w')%nat -> I w -> I w';
}.

Definition preserves (I : World -> Prop) (w w' : World) : Prop := I w -> I w'.

Section Commands.
Context `{UuidSupply} (I : World -> Prop) `{!TriggerProperty I}.

#[global] Instance preserves_order : WorldOrder (preserves I).
Proof.
  split; [split|].
  - intros w Hw. exact Hw.
  - intros w1 w2 w3 H12 H23 Hw. auto.
  - intros w. destruct (tick_spec w) as (_ & _ & Hu & Hdb & _). intros Hw. apply (tp_same (I:=I) w); rewrite ?Hdb, ?Hu; done.
Qed.

#[global] Instance preserves_redis : IgnoresRedis (preserves I).
Proof. split; [intros w w' (r & ->) Hw|intros w n Hn Hw]; by apply (tp_same (I:=I) w). Qed.

(** What the ownership check establishes for the write that follows it. *)
Lemma findOwned_Ok userId id w row w1 :
  findOwned userId id w = (Ok row, w1) ->
  w1 = tick w /\ db w1 = db w /\ exists t, t ∈ triggers (db w) /\ t_id t = id /\ t_userId t = userId /\ row = include (db w) t.
Proof.
  intros Hrun. apply bind_Ok in Hrun as (o & w2 & Hq & Hk). destruct (tick_spec w) as (_ & _ & _ & Hdb & _).
  apply io_effect in Hq as [[_ Hno]|[-> Hok]]; [by destruct (Hno o)|]. specialize (Hok o eq_refl). cbn in Hok, Hk. rewrite Hdb in Hok.
  destruct o as [r|]; [|done]. injection Hk as -> <-. destruct (find_first _ _) as [t|] eqn:Hf; [|done].
  apply find_first_Some in Hf as [Hin [Hi Ho]%andb_true_iff]. apply bool_decide_eq_true in Hi, Ho. injection Hok as <-. eauto 8.
Qed.

Lemma findOwned_preserves userId id : keeps (preserves I) (findOwned userId id).
Proof. unfold findOwned. keeps_tac. Qed.

(** A write keyed by an owned id, after the check. *)
Lemma guarded_write {A B} userId id (m : M A) (k : A -> M B) w :
  (forall w, I w -> (exists t, t ∈ triggers (db w) /\ t_id t = id /\ t_userId t = userId) -> I (m w).2) ->
  (forall a, keeps (preserves I) (k a)) ->
  I w -> I (bind (findOwned userId id) (fun _ => bind m k) w).2.
Proof.
  intros Hm Hk. apply (bind_run (preserves I)); [apply findOwned_preserves|]. intros row w1 Hrun Hw1.
  destruct (findOwned_Ok _ _ _ _ _ Hrun) as (_ & Hdb & t & Hin & Hid & Hu & _).
  apply (bind_run (preserves I)); [|intros a w2 _; apply Hk|done]. intros _. apply Hm; [done|]. exists t. by rewrite Hdb.
Qed.

(** An atomic write keeps [I] when it does so before and after the clock. *)
Lemma io_keeps_at {A} (op : World -> (A + exn) * World) w : I (tick w) -> I (op (tick w)).2 -> I (io op w).2.
Proof. intros Ht Ho. destruct (io op w) as [r w'] eqn:E. by apply io_effect in E as [[-> _]|[-> _]]. Qed.

Lemma tick_keeps w : I w -> I (tick w).
Proof. apply (wo_tick (R:=preserves I)). Qed.

(** The writes of one user, and the commands whose requests they carry. *)
Context (userId : string) (admissible : TriggerCommand -> Prop).

Hypothesis create_keeps : forall w dto n,
  admissible (Create dto) -> I w ->
  (count_where (owned_by userId) (triggers (db w)) < maxTriggersPerUser API_LIMITS)%nat -> (uuids w < n)%nat ->
  I (set_uuids n (set_db (insert_trigger (new_trigger (uuid (uuids w)) userId dto (now w))
    (conditionRows (uuid (uuids w)) (S (uuids w)) (d_conditions dto)) (db w)) w)).

Hypothesis update_keeps : forall w id dto n,
  admissible (Update id dto) -> I w -> (exists t, t ∈ triggers (db w) /\ t_id t = id /\ t_userId t = userId) -> (uuids w <= n)%nat ->
  I (set_uuids n (set_db (change_trigger id dto (uuids w) (db w)) w)).

Hypothesis drop_keeps : forall w p,
  (forall t, t ∈ triggers (db w) -> p t = true -> t_userId t = userId) -> I w -> I (set_db (drop_triggers p (db w)) w).

(** Deleting by an owned id drops owned rows only: ids are distinct. *)
Hypothesis ids_distinct : forall w, I w -> NoDup (t_id <$> triggers (db w)).

Lemma CreateTrigger_keeps dto w : admissible (Create dto) -> I w -> I (CreateTrigger userId dto w).2.
Proof.
  intros Ha. unfold CreateTrigger, isEmailVerified. apply (bind_run (preserves I)).
  { assert (keeps (preserves I) (isEmailVerified userId)) as Hk by (unfold isEmailVerified, findById; keeps_tac). apply Hk. }
  intros verified w1 _. destruct verified; cbn [negb]; [|apply (keeps_throw (preserves I))].
  apply (bind_run (preserves I)); [apply (keeps_query (preserves I))|]. intros count w2 Hc.
  destruct (Nat.leb_spec (maxTriggersPerUser API_LIMITS) count) as [|Hlt]; [apply (keeps_throw (preserves I))|].
  apply (bind_run (preserves I)); [|intros created w3 _; apply (keeps_ret (preserves I))]. intros Hw2.
  pose proof (tick_keeps w2 Hw2) as Ht2. apply io_keeps_at; [done|].
  destruct (existsb _ _); [|done]. cbn [snd]. apply create_keeps; [done..| |lia].
  destruct (tick_spec w1) as (_ & _ & _ & Hdb1 & _). destruct (tick_spec w2) as (_ & _ & _ & -> & _).
  apply io_effect in Hc as [[_ Hno]|[-> Hok]]; [by destruct (Hno count)|]. specialize (Hok count eq_refl). cbn in Hok.
  injection Hok as <-. exact Hlt.
Qed.

Lemma UpdateTrigger_keeps id dto w : admissible (Update id dto) -> I w -> I (UpdateTrigger userId id dto w).2.
Proof.
  intros Ha. apply guarded_write; [|intros a; apply (keeps_ret (preserves I))]. intros w1 Hw1 Hown. pose proof (tick_keeps w1 Hw1) as Ht.
  apply io_keeps_at; [done|]. destruct (find_first _ _); [|done]. cbn [snd]. apply update_keeps; [done..| |lia].
  by destruct (tick_spec w1) as (_ & _ & _ & -> & _).
Qed.

Lemma DeleteTrigger_keeps id w : I w -> I (DeleteTrigger userId id w).2.
Proof.
  apply guarded_write; [|intros a; apply (keeps_ret (preserves I))]. intros w1 Hw1 (t & Hin & Hid & Hu). pose proof (tick_keeps w1 Hw1) as Ht.
  apply io_keeps_at; [done|]. destruct (existsb _ _); [|done]. apply drop_keeps; [|done].
  intros t' Hin' Hid'%bool_decide_eq_true. rewrite <- Hu. f_equal. apply (key_unique t_id (triggers (db (tick w1)))); [by apply ids_distinct|done| |congruence].
  by destruct (tick_spec w1) as (_ & _ & _ & -> & _).
Qed.

Lemma SendTest_keeps id w : I w -> I (SendTestNotification userId id w).2.
Proof.
  assert (keeps (preserves I) (SendTestNotification userId id)) as Hk; [|apply Hk].
  assert (forall key event, keeps (preserves I) (publish key event)) as Hp.
  { intros key event. apply keeps_exec; [apply _|]. intros w' Hw'. by apply (tp_same (I:=I) w'). }
  unfold SendTestNotification. apply keeps_bind; [apply _|apply findOwned_preserves|]. keeps_tac; try apply Hp.
Qed.

(** Every command of the user keeps the property, whatever fails. *)
Lemma run_command_keeps c w : admissible c -> I w -> I (run_command userId c w).
Proof.
  destruct c; cbn [run_command]; intros Ha Hw;
    eauto using CreateTrigger_keeps, UpdateTrigger_keeps, DeleteTrigger_keeps, SendTest_keeps.
  pose proof (tick_keeps w Hw) as Ht. apply io_keeps_at; [done|]. apply drop_keeps; [|done].
  by intros t _ Ho%bool_decide_eq_true.
Qed.

End Commands.

(** ** The invariants *)

Section Invariants.
Context `{UuidSupply}.

#[global] Instance triggers_wf_property : TriggerProperty triggers_wf.
Proof.
  split. intros w w' Ht Hc Hu ((Hnd & Hd & Hr) & Hwf & Hlim). unfold triggers_wf, keys_ok, well_formed, conditions_of in *.
  rewrite Ht, Hc. split_and!; try done. intros t Hin. eauto using drawn_mono.
Qed.

(** Requests as the validator lets them through. *)
Definition valid_command (length_of : string -> nat) (c : TriggerCommand) : Prop :=
  match c with
  | Create dto => valid_create length_of dto = true
  | Update _ dto => valid_update length_of dto = true
  | _ => True
  end.

(** Commands of several users, one after another. *)
Definition run_commands (cs : list (string * TriggerCommand)) (w : World) : World :=
  fold_left (fun w uc => run_command uc.1 uc.2 w) cs w.

(** C34. Whatever validated requests users make, in any order and with any
    faults, the stored triggers stay well formed: every row has distinct
    channels, a cooldown and coordinates in range, between one and five
    conditions numbered from 0 in the order they were given, conditions
    always belong to an existing row, and no user has more than ten. *)
Theorem triggers_stay_well_formed length_of cs w :
  Forall (fun uc => valid_command length_of uc.2) cs -> triggers_wf w -> triggers_wf (run_commands cs w).
Proof.
  revert w. induction cs as [|[u c] cs IH]; intros w Hv Hw; [done|]. apply Forall_cons in Hv as [Hc Hv]. cbn.
  apply IH; [done|]. eapply (run_command_keeps triggers_wf u (valid_command length_of)); [..|exact Hc|exact Hw].
  - intros w' dto n Hdto Hw' Hlt Hn. by eapply create_wf.
  - intros w' id dto n Hdto Hw' (t & Hin & Hid & _) Hn. eapply update_wf; [done|exact Hdto| |done]. apply list_elem_of_fmap. eauto.
  - intros w' p _. apply drop_wf.
  - intros w' Hw'. apply Hw'.
Qed.

(** *** Isolation *)

(** What the other users have. *)
Definition others (userId : string) (d : Database) : list Trigger * list TriggerCondition :=
  let ts := find_many (fun t => negb (owned_by userId t)) (triggers d) in
  (ts, find_many (fun c => bool_decide (c_triggerId c ∈ t_id <$> ts)) (triggerConditions d)).

Definition isolated (userId : string) (o : list Trigger * list TriggerCondition) (w : World) : Prop :=
  keys_ok w /\ others userId (db w) = o.

#[global] Instance isolated_property userId o : TriggerProperty (isolated userId o).
Proof.
  split. intros w w' Ht Hc Hu [(Hnd & Hd & Hr) Ho]. unfold isolated, keys_ok, others in *. rewrite Ht, Hc.
  split_and!; try done. intros t Hin. eauto using drawn_mono.
Qed.

(** The ids of the others are no id of the user. *)
Lemma others_ids userId d t :
  NoDup (t_id <$> triggers d) -> t ∈ triggers d -> t_userId t = userId ->
  t_id t ∉ t_id <$> find_many (fun t => negb (owned_by userId t)) (triggers d).
Proof.
  intros Hnd Hin Hu (t' & Heq & [Hin' Ho]%elem_of_find_many)%list_elem_of_fmap.
  assert (t = t') as <- by by eapply (key_unique t_id). apply negb_true_iff, bool_decide_eq_false in Ho. done.
Qed.

Lemma others_create w userId dto n :
  keys_ok w ->
  others userId (insert_trigger (new_trigger (uuid (uuids w)) userId dto (now w)) (conditionRows (uuid (uuids w)) n (d_conditions dto)) (db w)) =
  others userId (db w).
Proof.
  intros (Hnd & Hd & Hc). unfold others. cbn [insert_trigger triggers triggerConditions set_triggers set_triggerConditions].
  set (new := new_trigger _ _ _ _).
  assert (find_many (fun t => negb (owned_by userId t)) (triggers (db w) ++ [new]) =
          find_many (fun t => negb (owned_by userId t)) (triggers (db w))) as ->.
  { rewrite find_many_app, (find_many_none _ [new]), app_nil_r; [done|]. intros t ->%list_elem_of_singleton.
    unfold owned_by. cbn. by rewrite bool_decide_true. }
  rewrite find_many_app, (find_many_none _ (conditionRows _ _ _)), app_nil_r; [done|].
  intros c (i & x & -> & _)%elem_of_lookup_imap. apply bool_decide_false. cbn.
  intros (t & Heq & [Hin _]%elem_of_find_many)%list_elem_of_fmap. apply (fresh_uuid w). rewrite Heq. by apply Hd.
Qed.

(** Conditions kept by a write that stays among the rows of the user. *)
Lemma others_conditions (ids : list string) (l l' : list TriggerCondition) (own : TriggerCondition -> bool) :
  (forall c, own c = true -> c_triggerId c ∉ ids) ->
  find_many (fun c => negb (own c)) l' = find_many (fun c => negb (own c)) l ->
  find_many (fun c => bool_decide (c_triggerId c ∈ ids)) l' = find_many (fun c => bool_decide (c_triggerId c ∈ ids)) l.
Proof.
  intros Hown Heq. set (p := fun c => bool_decide (c_triggerId c ∈ ids)).
  assert (forall l, find_many p l = find_many p (find_many (fun c => negb (own c)) l)) as Hp.
  { intros l0. rewrite find_many_find_many. apply find_many_ext. intros c _. destruct (own c) eqn:Ho; [|done].
    by apply bool_decide_false, Hown. }
  by rewrite (Hp l'), (Hp l), Heq.
Qed.

Lemma others_change w userId id dto n :
  keys_ok w -> (exists t, t ∈ triggers (db w) /\ t_id t = id /\ t_userId t = userId) ->
  others userId (change_trigger id dto n (db w)) = others userId (db w).
Proof.
  intros (Hnd & Hd & Hc) (t & Hin & Hid & Hu). unfold others.
  cbn [change_trigger triggers triggerConditions set_triggers set_triggerConditions].
  assert (find_many (fun t => negb (owned_by userId t)) (map (fun t => if trigger_is id t then patched dto t else t) (triggers (db w))) =
          find_many (fun t => negb (owned_by userId t)) (triggers (db w))) as ->.
  { apply find_many_update. intros t' Hin' Hid'%bool_decide_eq_true.
    assert (t' = t) as -> by (eapply (key_unique t_id); [exact Hnd|done|done|congruence]).
    unfold owned_by. cbn. by rewrite bool_decide_true. }
  f_equal. apply (others_conditions _ _ _ (of_trigger id)).
  - intros c Ho%bool_decide_eq_true. rewrite Ho, <- Hid. by apply others_ids.
  - destruct (p_conditions dto) as [cs|]; [|done]. cbn. rewrite find_many_app, (find_many_none _ (conditionRows _ _ _)), app_nil_r.
    + fold (find_many (fun r => negb (of_trigger id r)) (triggerConditions (db w))). rewrite find_many_find_many.
      apply find_many_ext. intros c _. by destruct (of_trigger id c).
    + intros c (i & x & -> & _)%elem_of_lookup_imap. unfold of_trigger. cbn. by rewrite bool_decide_true.
Qed.

Lemma others_drop w userId p :
  keys_ok w -> (forall t, t ∈ triggers (db w) -> p t = true -> t_userId t = userId) ->
  others userId (drop_triggers p (db w)) = others userId (db w).
Proof.
  intros (Hnd & Hd & Hc) Hp. unfold others. cbn [drop_triggers triggers triggerConditions set_triggers set_triggerConditions set_notifications].
  assert (find_many (fun t => negb (owned_by userId t)) (delete_many p (triggers (db w))).1 =
          find_many (fun t => negb (owned_by userId t)) (triggers (db w))) as ->.
  { cbn. fold (find_many (fun r => negb (p r)) (triggers (db w))). rewrite find_many_find_many. apply find_many_ext. intros t Hin.
    destruct (p t) eqn:E; [|done]. unfold owned_by. by rewrite bool_decide_true by auto. }
  f_equal. apply (others_conditions _ _ _ (fun c => bool_decide (c_triggerId c ∈ t_id <$> find_many p (triggers (db w))))).
  - intros c (t & -> & [Hin Hpt]%elem_of_find_many)%bool_decide_eq_true%list_elem_of_fmap. apply others_ids; auto.
  - cbn. set (q := fun c : TriggerCondition => bool_decide (c_triggerId c ∈ t_id <$> find_many p (triggers (db w)))). fold (find_many (fun r => negb (q r)) (triggerConditions (db w))).
    rewrite find_many_find_many. apply find_many_ext. intros c _. apply andb_diag.
Qed.

Lemma run_command_isolated userId c w :
  keys_ok w -> isolated userId (others userId (db w)) (run_command userId c w).
Proof.
  intros Hok.
  eapply (run_command_keeps (isolated userId (others userId (db w))) userId (fun _ => True)); [..|done|by split].
  - intros w' dto n _ [Hk Ho] _ Hn. split; [by apply keys_create|]. cbn. by rewrite others_create.
  - intros w' id dto n _ [Hk Ho] Hown Hn. split; [|cbn; by rewrite others_change].
    destruct Hown as (t & Hin & Hid & _). apply keys_change; [done|apply list_elem_of_fmap; eauto|done].
  - intros w' p Hp [Hk Ho]. split; [by apply keys_drop|]. cbn. by rewrite others_drop.
  - intros w' [Hk _]. apply Hk.
Qed.

(** Users are isolated: a command of one user, valid or not, on whatever
    id and with whatever faults, leaves every trigger and every condition of
    every other user exactly as it was. *)
Theorem commands_touch_own_triggers userId c w :
  keys_ok w -> others userId (db (run_command userId c w)) = others userId (db w).
Proof. intros Hok. by apply run_command_isolated. Qed.

(** *** A foreign id is an absent id *)

Lemma findOwned_absent userId id w :
  oracle w = [] -> (forall t, t ∈ triggers (db w) -> t_id t = id -> t_userId t <> userId) ->
  findOwned userId id w = (Throw (NotFound "Trigger not found"), w).
Proof.
  intros Ho Hno. unfold findOwned. erewrite bind_ok by by apply query_ok. destruct (find_first _ _) as [t|] eqn:Hf; [|done].
  apply find_first_Some in Hf as [Hin [Hi Hu]%andb_true_iff]. apply bool_decide_eq_true in Hi, Hu. by destruct (Hno t Hin Hi).
Qed.

(** C35. An id that belongs to somebody else answers exactly as one that does
    not exist, on every endpoint that takes an id: 404 and nothing changed. *)
Theorem foreign_id_is_absent userId id dto w :
  oracle w = [] -> (forall t, t ∈ triggers (db w) -> t_id t = id -> t_userId t <> userId) ->
  GetTrigger userId id w = (Throw (NotFound "Trigger not found"), w) /\
  UpdateTrigger userId id dto w = (Throw (NotFound "Trigger not found"), w) /\
  DeleteTrigger userId id w = (Throw (NotFound "Trigger not found"), w) /\
  SendTestNotification userId id w = (Throw (NotFound "Trigger not found"), w).
Proof.
  intros Ho Hno. pose proof (findOwned_absent userId id w Ho Hno) as Hf.
  unfold GetTrigger, UpdateTrigger, DeleteTrigger, SendTestNotification, bind at 1 2 4 6. by rewrite Hf.
Qed.

(** *** The stamp *)

(** A patch that moves a trigger carries both coordinates. *)
Definition moves_whole (c : TriggerCommand) : Prop :=
  match c with
  | Update _ dto => is_Some (p_latitude dto) <-> is_Some (p_longitude dto)
  | _ => True
  end.

Definition stamped_world (w : World) : Prop := keys_ok w /\ stamped (db w).

#[global] Instance stamped_property : TriggerProperty stamped_world.
Proof.
  split. intros w w' Ht Hc Hu [(Hnd & Hd & Hr) Hs]. unfold stamped_world, keys_ok, stamped in *. rewrite Ht, Hc.
  split_and!; try done. intros t Hin. eauto using drawn_mono.
Qed.

(** The commands keep the stamp the watcher's shards are selected by:
    every row carries the bucket of its coordinates, as long as a patch that
    moves a trigger carries both coordinates. *)
Theorem commands_keep_stamp cs w :
  Forall (fun uc => moves_whole uc.2) cs -> stamped_world w -> stamped_world (run_commands cs w).
Proof.
  revert w. induction cs as [|[u c] cs IH]; intros w Hv Hw; [done|]. apply Forall_cons in Hv as [Hc Hv]. cbn.
  apply IH; [done|]. eapply (run_command_keeps stamped_world u moves_whole); [..|exact Hc|exact Hw].
  - intros w' dto n _ [Hk Hs] _ Hn. split; [by apply keys_create|]. intros t. cbn. intros [Hin|Hin%list_elem_of_singleton]%elem_of_app; [auto|by subst].
  - intros w' id dto n Hm [Hk Hs] (t & Hin & Hid & _) Hn. split; [apply keys_change; [done|apply list_elem_of_fmap; eauto|done]|].
    intros t'. cbn. intros (t0 & -> & Hin0)%list_elem_of_fmap. case_match; [|auto]. cbn in *. unfold bucketPatch.
    destruct (p_latitude dto), (p_longitude dto); cbn; [done|destruct Hm as [Hm _]; by destruct Hm|destruct Hm as [_ Hm]; by destruct Hm|auto].
  - intros w' p _ [Hk Hs]. split; [by apply keys_drop|]. intros t. cbn -[delete_many]. intros [Hin _]%elem_of_delete_many. auto.
  - intros w' [Hk _]. apply Hk.
Qed.

End Invariants.

(** ** Functional behaviour *)

Section Behaviour.
Context `{UuidSupply}.

Lemma order_conditionRows id n cs : order_asc c_order (conditionRows id n cs) = conditionRows id n cs.
Proof.
  apply order_asc_id.
  assert (forall k, StronglySorted (fun a b => c_order a <= c_order b) (imap (fun i c =>
    {| c_id := uuid (n + (k + i)); c_triggerId := id; c_metric := cd_metric c; c_operator := cd_operator c;
       c_threshold := cd_threshold c; c_order := Z.of_nat (k + i); c_lastObservedValue := None; c_lastMatched := None |}) cs)) as Hs.
  { induction cs as [|c cs IH]; intros k; cbn; [constructor|]. constructor.
    - specialize (IH (S k)). erewrite imap_ext in IH; [exact IH|]. intros i x _. cbn. by replace (k + S i)%nat with (S (k + i)) by lia.
    - apply Forall_forall. intros x (i & c' & -> & _)%elem_of_lookup_imap. cbn. lia. }
  apply (Hs 0%nat).
Qed.

(** A request as it reads back. *)
Definition condition_view (c : TriggerConditionResponse) : Metric * Operator * number := (tcr_metric c, tcr_operator c, tcr_threshold c).
Definition dto_view (c : ConditionDto) : Metric * Operator * number := (cd_metric c, cd_operator c, cd_threshold c).

(** C12. What is created reads back. When calls answer, for a verified user below the limit,
    creation answers with a trigger that has exactly the requested columns
    (the schema's defaults where the request has none), armed, with the
    conditions in the order given; and fetching it by its id gives the same
    answer. *)
Theorem created_trigger_reads_back userId u dto w :
  oracle w = [] -> keys_ok w ->
  find_first (has_id userId) (users (db w)) = Some u -> u_emailVerified u = true ->
  (count_where (owned_by userId) (triggers (db w)) < maxTriggersPerUser API_LIMITS)%nat ->
  exists r w', CreateTrigger userId dto w = (Ok r, w') /\ GetTrigger userId (tr_id r) w' = (Ok r, w') /\
    tr_name r = d_name dto /\ tr_city r = d_city dto /\ tr_latitude r = d_latitude dto /\ tr_longitude r = d_longitude dto /\
    condition_view <$> tr_conditions r = dto_view <$> d_conditions dto /\ tr_conditionLogic r = default AND (d_conditionLogic dto) /\
    tr_channels r = d_channels dto /\ tr_cooldownMin r = default 60 (d_cooldownMin dto) /\
    tr_isActive r = default true (d_isActive dto) /\ tr_state r = ARMED /\ tr_lastFiredAt r = None.
Proof.
  intros Ho Hk Hu Hv Hcount. set (id := uuid (uuids w)). set (row := new_trigger id userId dto (now w)).
  set (cs := conditionRows id (S (uuids w)) (d_conditions dto)). set (d := insert_trigger row cs (db w)).
  set (w' := set_uuids (S (uuids w) + length (d_conditions dto)) (set_db d w)).
  assert (CreateTrigger userId dto w = (Ok (toTriggerResponse (include d row)), w')) as Hrun.
  { unfold CreateTrigger, isEmailVerified, findById, countForUser. erewrite bind_ok.
    2: { erewrite bind_ok by by apply query_ok. by rewrite Hu. }
    rewrite Hv. cbn [negb]. erewrite bind_ok by by apply query_ok.
    destruct (Nat.leb_spec (maxTriggersPerUser API_LIMITS) (count_where (owned_by userId) (triggers (db w)))); [lia|].
    erewrite bind_ok; [reflexivity|]. apply io_ok; [done|]. by rewrite existsb_find_first, Hu. }
  assert (include d row = (row, cs)) as Hinc.
  { unfold include. f_equal. cbn. fold id. rewrite find_many_app.
    pose proof (conditions_of_fresh w id Hk (fresh_uuid w)) as Hnone. unfold conditions_of in Hnone. rewrite Hnone. cbn.
    unfold cs. rewrite conditionRows_of. apply order_conditionRows. }
  rewrite Hinc in Hrun. exists (toTriggerResponse (row, cs)), w'. split_and!; try done.
  - unfold GetTrigger, findOwned. erewrite bind_ok; [reflexivity|]. erewrite bind_ok by by apply query_ok. cbn -[include].
    rewrite find_first_app. replace (find_first _ (triggers (db w))) with (@None Trigger).
    2: { symmetry. apply find_first_None, Forall_forall. intros t Hin. unfold trigger_is. rewrite bool_decide_false; [done|].
         intros Heq. apply (fresh_uuid w). fold id. rewrite <- Heq. by apply Hk. }
    cbn -[include]. unfold trigger_is, owned_by. cbn -[include]. rewrite !bool_decide_true by done. cbn -[include].
    by rewrite Hinc.
  - cbn. rewrite <- list_fmap_compose. unfold cs, conditionRows. rewrite fmap_imap. apply list_eq. intros i.
    rewrite list_lookup_imap, list_lookup_fmap. by destruct (d_conditions dto !! i).
Qed.

(** Paging is complete and free of overlaps: with any limit, the pages
    from the first on, put together, are the user's triggers, newest first,
    each once, as far as the number of pages reaches. *)
Theorem trigger_pages_cover userId l n w :
  oracle w = [] ->
  let all := order_desc t_createdAt (find_many (owned_by userId) (triggers (db w))) in
  let items i := match (ListTriggers userId (Some i) (Some l) w).1 with Ok p => pg_items p | _ => [] end in
  concat (map items (seq 1 n)) = map (fun t => toTriggerResponse (include (db w) t)) (take (n * l) all) /\
  all ≡ₚ find_many (owned_by userId) (triggers (db w)).
Proof.
  intros Ho all items. split; [|apply order_asc_perm]. rewrite <- pages_concat, concat_map, map_map. f_equal. apply map_ext.
  intros i. unfold items, ListTriggers, page. erewrite bind_ok by by apply query_ok. cbn. by rewrite map_map.
Qed.

(** A patch with one coordinate. *)
Definition latitude_patch (latitude : number) : UpdateTriggerDto :=
  {| p_name := None; p_city := None; p_latitude := Some latitude; p_longitude := None; p_conditions := None;
     p_conditionLogic := None; p_channels := None; p_cooldownMin := None; p_isActive := None |}.

(** A patch that moves a trigger by its latitude alone is accepted and
    stored, but the row keeps the bucket of where it was: the trigger stays
    with the shard of its old location. *)
Theorem partial_move_keeps_old_bucket userId id t latitude w :
  oracle w = [] -> keys_ok w -> t ∈ triggers (db w) -> t_id t = id -> t_userId t = userId ->
  t_locationBucket t = locationBucket (t_latitude t) (t_longitude t) ->
  exists r w' t', UpdateTrigger userId id (latitude_patch latitude) w = (Ok r, w') /\ t' ∈ triggers (db w') /\ t_id t' = id /\
    t_latitude t' = latitude /\ t_longitude t' = t_longitude t /\
    t_locationBucket t' = locationBucket (t_latitude t) (t_longitude t).
Proof.
  intros Ho (Hnd & _ & _) Hin Hid Hu Hst.
  assert (find_first (trigger_is id) (triggers (db w)) = Some t) as Hf by (rewrite <- Hid; by apply (find_first_key t_id)).
  assert (find_first (fun t => trigger_is id t && owned_by userId t) (triggers (db w)) = Some t) as Hf2.
  { destruct (find_first (fun t => trigger_is id t && owned_by userId t) (triggers (db w))) as [t'|] eqn:E.
    - apply find_first_Some in E as [Hin' [Hi _]%andb_true_iff]. apply bool_decide_eq_true in Hi. f_equal. eapply (key_unique t_id); eauto; congruence.
    - apply find_first_None in E. rewrite Forall_forall in E. specialize (E t Hin). unfold trigger_is, owned_by in E. by rewrite !bool_decide_true in E. }
  eexists _, _, (patched (latitude_patch latitude) t). split_and!; [| |done|done|done|done].
  - unfold UpdateTrigger, findOwned. erewrite bind_ok by (erewrite bind_ok by (by apply query_ok); by rewrite Hf2).
    erewrite bind_ok; [reflexivity|]. apply io_ok; [done|]. rewrite Hf. reflexivity.
  - cbn. apply list_elem_of_fmap. exists t. unfold trigger_is. by rewrite bool_decide_true.
Qed.

End Behaviour.

(** ** Test sends *)

Section TestSend.
Context `{UuidSupply}.

Lemma findOwned_finds userId t w :
  oracle w = [] -> keys_ok w -> t ∈ triggers (db w) -> t_userId t = userId ->
  findOwned userId (t_id t) w = (Ok (include (db w) t), w).
Proof.
  intros Ho (Hnd & _) Hin Hu. unfold findOwned. erewrite bind_ok by by apply query_ok.
  destruct (find_first _ _) as [t'|] eqn:E; cbn.
  - apply find_first_Some in E as [Hin' [Hi _]%andb_true_iff]. apply bool_decide_eq_true in Hi.
    by assert (t' = t) as -> by by eapply (key_unique t_id).
  - apply find_first_None in E. rewrite Forall_forall in E. specialize (E t Hin). unfold trigger_is, owned_by in E. by rewrite !bool_decide_true in E.
Qed.

Definition accept_all (ms : list Message) (w : World) : World := fold_left (fun w m => accept m w) ms w.

Lemma accept_all_frame ms w :
  published (broker (accept_all ms w)) = published (broker w) ++ ms /\ db (accept_all ms w) = db w /\
  redis (accept_all ms w) = redis w /\ now (accept_all ms w) = now w /\ oracle (accept_all ms w) = oracle w /\ uuids (accept_all ms w) = uuids w.
Proof.
  revert w. induction ms as [|m ms IH]; intros w; [cbn; by rewrite app_nil_r|].
  change (accept_all (m :: ms) w) with (accept_all ms (accept m w)). destruct (IH (accept m w)) as (-> & -> & -> & -> & -> & ->). cbn. by rewrite <- app_assoc.
Qed.

Lemma publish_all event channels w :
  oracle w = [] ->
  for_each channels (fun channel => publish (routingKeyFor channel) event) w =
  (Ok tt, accept_all ((fun c => publish_message (routingKeyFor c) event) <$> channels) w).
Proof.
  revert w. induction channels as [|c channels IH]; intros w Ho; cbn; [done|].
  erewrite bind_ok by by apply exec_ok. by apply IH.
Qed.

Lemma consumeCooldown_busy key ttl n d w :
  oracle w = [] -> 0 < ttl -> peek key w = Some {| e_value := n; e_expiresAt := Some d |} ->
  exists r, 0 < r /\ consumeCooldown key ttl w = (Ok r, w).
Proof.
  intros Ho Httl Hp. eexists. split; cycle 1.
  - unfold consumeCooldown. erewrite bind_ok.
    2: { apply io_ok; [done|]. unfold cmd_set_nx. replace (ttl <=? 0) with false by lia. by rewrite Hp. }
    cbv beta iota. erewrite bind_ok by by apply query_ok. reflexivity.
  - case_match; lia.
Qed.

Lemma consumeCooldown_free key ttl w :
  oracle w = [] -> 0 < ttl -> peek key w = None ->
  consumeCooldown key ttl w = (Ok 0, put key (RText "1") (Some (now w + ttl * 1000)) w).
Proof.
  intros Ho Httl Hp. unfold consumeCooldown. erewrite bind_ok; cycle 1.
  - apply io_ok; [done|]. unfold cmd_set_nx. replace (ttl <=? 0) with false by lia. by rewrite Hp.
  - done.
Qed.

(** A test send goes to every channel of the trigger once, flagged as a
    test, and uses up the user's budget: until the cooldown of ten minutes is
    over every further test send, on any of the user's triggers, is refused
    with 429 and changes nothing. *)
Theorem test_send_once_per_window userId t w :
  oracle w = [] -> keys_ok w -> t ∈ triggers (db w) -> t_userId t = userId ->
  peek (testCooldownKey userId) w = None ->
  exists w', SendTestNotification userId (t_id t) w = (Ok (t_channels t), w') /\
    published (broker w') = published (broker w) ++
      ((fun c => publish_message (routingKeyFor c) (test_event (uuid (uuids w)) (include (db w) t) (now w))) <$> t_channels t) /\
    forall t' ms, t' ∈ triggers (db w) -> t_userId t' = userId -> 0 <= ms < testCooldownSec API_LIMITS * 1000 ->
      exists message, SendTestNotification userId (t_id t') (sleep ms w').2 = (Throw (TooManyRequests message), (sleep ms w').2).
Proof.
  intros Ho Hk Hin Hu Hp. set (key := testCooldownKey userId) in *.
  set (w1 := put key (RText "1") (Some (now w + testCooldownSec API_LIMITS * 1000)) w).
  set (event := test_event (uuid (uuids w)) (include (db w) t) (now w)).
  set (ms := (fun c => publish_message (routingKeyFor c) event) <$> t_channels t).
  set (w2 := set_uuids (S (uuids w1)) w1). destruct (accept_all_frame ms w2) as (Hb & Hdb & Hr & Hn & Hor & Huu).
  exists (accept_all ms w2). split_and!.
  - unfold SendTestNotification. erewrite bind_ok by by apply findOwned_finds. cbn [fst].
    erewrite bind_ok by by apply consumeCooldown_free.
    cbn [Z.ltb Z.compare]. unfold bind at 1 2, randomUUID, get_now. cbn [now set_uuids]. fold w1 w2.
    erewrite bind_ok by (apply catch_ok; by apply publish_all). reflexivity.
  - exact Hb.
  - intros t' ms' Hin' Hu' Hms. set (w3 := (sleep ms' _).2).
    assert (db w3 = db w) as Hdb3 by (cbn; by rewrite Hdb).
    assert (keys_ok w3) as Hk3.
    { destruct Hk as (Hnd & Hd & Hc). split_and!; rewrite ?Hdb3; try done. intros x Hx. eapply drawn_mono, Hd; [|done]. cbn. rewrite Huu. cbn. lia. }
    destruct (consumeCooldown_busy key (testCooldownSec API_LIMITS) (RText "1") (now w + testCooldownSec API_LIMITS * 1000) w3) as (r & Hpos & Hbusy).
    { cbn. by rewrite Hor. }
    { done. }
    { unfold peek. cbn. rewrite Hr, Hn. cbn. rewrite lookup_insert_eq. unfold expired. change (testCooldownSec API_LIMITS) with 600 in *. cbn. match goal with |- context [?a <=? ?b] => replace (a <=? b) with false by lia end. done. }
    eexists. unfold SendTestNotification. erewrite bind_ok by (apply findOwned_finds; rewrite ?Hdb3; try done; cbn; by rewrite Hor).
    erewrite bind_ok by exact Hbusy. by replace (0 <? r) with true by lia.
Qed.

End TestSend.

(** ** Concrete runs *)

(** Two users with one trigger each. *)
Definition foreign_trigger : Trigger :=
  patched {| p_name := Some "Heat"; p_city := None; p_latitude := None; p_longitude := None; p_conditions := None;
             p_conditionLogic := None; p_channels := None; p_cooldownMin := None; p_isActive := None |}
    {| t_id := "uuid-1"; t_userId := "u2"; t_name := ""; t_city := "Rome"; t_latitude := Num.of_Z 41; t_longitude := Num.of_Z 12;
       t_conditionLogic := AND; t_channels := [EMAIL]; t_cooldownMin := 60; t_isActive := true; t_state := ARMED;
       t_lastFiredAt := None; t_lastEvaluatedAt := None; t_locationBucket := locationBucket (Num.of_Z 41) (Num.of_Z 12); t_createdAt := 0 |}.

Definition own_condition (id triggerId : string) : TriggerCondition :=
  {| c_id := id; c_triggerId := triggerId; c_metric := TEMPERATURE; c_operator := LT; c_threshold := Num.of_Z 0; c_order := 0;
     c_lastObservedValue := None; c_lastMatched := None |}.

Definition triggers_world : World :=
  set_uuids 4 (set_db (set_triggerConditions [own_condition "uuid-2" "uuid-0"; own_condition "uuid-3" "uuid-1"]
    (set_triggers [sample_trigger "uuid-0" 52 21; foreign_trigger] (set_users [sample_user] empty_db))) empty_world).

Definition sample_dto : CreateTriggerDto :=
  {| d_name := "Wind"; d_city := "Gdansk"; d_latitude := Num.lit 5435 100; d_longitude := Num.lit 1865 100;
     d_conditions := [{| cd_metric := WIND_SPEED; cd_operator := GT; cd_threshold := Num.of_Z 20 |};
                      {| cd_metric := TEMPERATURE; cd_operator := LTE; cd_threshold := Num.of_Z (-5) |}];
     d_conditionLogic := Some OR; d_channels := [TELEGRAM; WEB_PUSH]; d_cooldownMin := None; d_isActive := None |}.

Definition sample_commands : list (string * TriggerCommand) :=
  [("u1", Create sample_dto); ("u1", Delete "uuid-0"); ("u2", Delete "uuid-4");
   ("u1", Update "uuid-4" {| p_name := None; p_city := None; p_latitude := Some (Num.of_Z 1); p_longitude := Some (Num.of_Z 2);
     p_conditions := Some [{| cd_metric := HUMIDITY; cd_operator := GT; cd_threshold := Num.of_Z 90 |}]; p_conditionLogic := None;
     p_channels := None; p_cooldownMin := Some 30; p_isActive := Some false |})].

Lemma triggers_world_wf : triggers_wf (H:=sample_uuids) triggers_world.
Proof.
  assert (forall t, t ∈ triggers (db triggers_world) -> t = sample_trigger "uuid-0" 52 21 \/ t = foreign_trigger) as Hin.
  { intros t [->|[->|[]%elem_of_nil]%elem_of_cons]%elem_of_cons; auto. }
  split_and!; [split_and!| |].
  - cbn. repeat constructor; rewrite ?elem_of_cons, ?elem_of_nil; intuition congruence.
  - intros t [->| ->]%Hin; [exists 0%nat|exists 1%nat]; cbn; (split; [done|lia]).
  - intros c [->|[->|[]%elem_of_nil]%elem_of_cons]%elem_of_cons; cbn; rewrite !elem_of_cons; auto.
  - intros t [->| ->]%Hin; unfold well_formed; split_and!; vm_compute; (reflexivity || lia).
  - intros u. unfold count_where, owned_by. cbn. repeat case_match; cbn; lia.
Qed.

Lemma triggers_stay_well_formed_witness :
  length (triggers (db (run_commands (H:=sample_uuids) sample_commands triggers_world))) = 2%nat /\
  triggers_wf (H:=sample_uuids) (run_commands (H:=sample_uuids) sample_commands triggers_world).
Proof.
  split; [vm_compute; reflexivity|]. apply (triggers_stay_well_formed (H:=sample_uuids) String.length).
  - repeat (apply Forall_cons; split; [vm_compute; exact I || reflexivity|]). by apply Forall_nil.
  - exact triggers_world_wf.
Defined.

Lemma commands_touch_own_triggers_witness :
  others "u1" (db (run_command (H:=sample_uuids) "u1" Clear triggers_world)) = others "u1" (db triggers_world) /\
  length (triggers (db (run_command (H:=sample_uuids) "u1" Clear triggers_world))) = 1%nat.
Proof.
  split; [|vm_compute; reflexivity]. apply (commands_touch_own_triggers (H:=sample_uuids)). apply triggers_world_wf.
Defined.

Lemma foreign_id_is_absent_witness :
  GetTrigger "u1" "uuid-1" triggers_world = (Throw (NotFound "Trigger not found"), triggers_world) /\
  UpdateTrigger (H:=sample_uuids) "u1" "uuid-1" (latitude_patch (Num.of_Z 1)) triggers_world = (Throw (NotFound "Trigger not found"), triggers_world) /\
  DeleteTrigger "u1" "uuid-1" triggers_world = (Throw (NotFound "Trigger not found"), triggers_world) /\
  SendTestNotification (H:=sample_uuids) "u1" "uuid-1" triggers_world = (Throw (NotFound "Trigger not found"), triggers_world).
Proof.
  apply (foreign_id_is_absent (H:=sample_uuids) "u1" "uuid-1" (latitude_patch (Num.of_Z 1)) triggers_world); [reflexivity|].
  intros t [->|[->|[]%elem_of_nil]%elem_of_cons]%elem_of_cons; cbn; congruence.
Defined.

Lemma commands_keep_stamp_witness :
  stamped_world (H:=sample_uuids) (run_commands (H:=sample_uuids) sample_commands triggers_world).
Proof.
  apply (commands_keep_stamp (H:=sample_uuids)).
  - repeat (apply Forall_cons; split; [cbn; split; eauto|]). by apply Forall_nil.
  - split; [apply triggers_world_wf|].
    intros t [->|[->|[]%elem_of_nil]%elem_of_cons]%elem_of_cons; vm_compute; reflexivity.
Defined.

Lemma created_trigger_reads_back_witness :
  exists r w', CreateTrigger (H:=sample_uuids) "u1" sample_dto triggers_world = (Ok r, w') /\ GetTrigger "u1" (tr_id r) w' = (Ok r, w') /\
    tr_name r = "Wind" /\ condition_view <$> tr_conditions r = dto_view <$> d_conditions sample_dto /\ tr_cooldownMin r = 60.
Proof.
  destruct (created_trigger_reads_back (H:=sample_uuids) "u1" sample_user sample_dto triggers_world)
    as (r & w' & Hc & Hg & Hn & _ & _ & _ & Hcs & _ & _ & Hm & _);
    [reflexivity|apply triggers_world_wf|vm_compute; reflexivity|reflexivity|vm_compute; lia|].
  exists r, w'. split_and!; [exact Hc|exact Hg|exact Hn|exact Hcs|exact Hm].
Defined.

(** Three triggers of one user on pages of two. *)
Definition paged_world : World :=
  set_db (set_triggers [sample_trigger "uuid-0" 52 21; sample_trigger "uuid-1" 48 2; sample_trigger "uuid-2" 41 12] empty_db) empty_world.

Lemma trigger_pages_cover_witness :
  concat (map (fun i => match (ListTriggers "u1" (Some i) (Some 2%nat) paged_world).1 with Ok p => pg_items p | _ => [] end) (seq 1 2)) =
    map (fun t => toTriggerResponse (include (db paged_world) t)) (take 4 (order_desc t_createdAt (triggers (db paged_world)))) /\
  order_desc t_createdAt (triggers (db paged_world)) ≡ₚ triggers (db paged_world).
Proof. apply (trigger_pages_cover "u1" 2 2 paged_world). reflexivity. Defined.

Lemma partial_move_keeps_old_bucket_witness :
  locationBucket (Num.of_Z 60) (Num.of_Z 21) <> locationBucket (Num.of_Z 52) (Num.of_Z 21) /\
  exists r w' t', UpdateTrigger (H:=sample_uuids) "u1" "uuid-0" (latitude_patch (Num.of_Z 60)) triggers_world = (Ok r, w') /\
    t' ∈ triggers (db w') /\ t_id t' = "uuid-0" /\ t_latitude t' = Num.of_Z 60 /\ t_longitude t' = Num.of_Z 21 /\
    t_locationBucket t' = locationBucket (Num.of_Z 52) (Num.of_Z 21).
Proof.
  split; [vm_compute; discriminate|].
  apply (partial_move_keeps_old_bucket (H:=sample_uuids) "u1" "uuid-0" (sample_trigger "uuid-0" 52 21));
    [reflexivity|apply triggers_world_wf|by left|reflexivity..].
Defined.

Lemma test_send_once_per_window_witness :
  exists w', SendTestNotification (H:=sample_uuids) "u1" "uuid-0" triggers_world = (Ok [TELEGRAM; EMAIL], w') /\
    length (published (broker w')) = 2%nat /\
    exists message, SendTestNotification (H:=sample_uuids) "u1" "uuid-0" (sleep 599999 w').2 = (Throw (TooManyRequests message), (sleep 599999 w').2).
Proof.
  destruct (test_send_once_per_window (H:=sample_uuids) "u1" (sample_trigger "uuid-0" 52 21) triggers_world) as (w' & Hs & Hp & Hno);
    [reflexivity|apply triggers_world_wf|by left|reflexivity|vm_compute; reflexivity|].
  exists w'. split_and!; [exact Hs|rewrite Hp; reflexivity|].
  apply (Hno (sample_trigger "uuid-0" 52 21)); [by left|reflexivity|vm_compute; split; [discriminate|reflexivity]].
Defined.
