(* ===== verification/Users.v ===== *)
(** * Users and access control

    [apps/core-api/src/users/users.service.ts] and the guards of
    [apps/core-api/src/auth/guards]: the profile, Telegram linking, push
    subscriptions, erasing an account, and what a bearer token opens. *)

From S2P Require Import Prelude JsNumber Enums Contracts Table World Samples Effects RedisService Outbox Format Crypto Auth Triggers.

(** ** Responses ([dto/profile-response.dto.ts]) *)

Record ProfileResponse := {
  pr_id : string;
  pr_email : string;
  pr_role : Role;
  pr_telegramChatId : option string;
  pr_telegramLinked : bool;
  pr_emailVerified : bool;
  pr_quietHoursStart : option string;
  pr_quietHoursEnd : option string;
  pr_timezone : option string;
  pr_createdAt : Z;
}.

(** [Boolean(text)] of a nullable text. *)
Definition truthy (s : option string) : bool := match s with Some s => negb (String.eqb s "") | None => false end.

Definition toProfileResponse (user : User) : ProfileResponse :=
  {| pr_id := u_id user; pr_email := u_email user; pr_role := u_role user; pr_telegramChatId := u_telegramChatId user;
     pr_telegramLinked := truthy (u_telegramChatId user); pr_emailVerified := u_emailVerified user;
     pr_quietHoursStart := u_quietHoursStart user; pr_quietHoursEnd := u_quietHoursEnd user; pr_timezone := u_timezone user;
     pr_createdAt := u_createdAt user |}.

Record PushSubscriptionResponse := { psr_id : string; psr_endpoint : string; psr_createdAt : Z }.

Definition toPushSubscriptionResponse (row : PushSubscription) : PushSubscriptionResponse :=
  {| psr_id := s_id row; psr_endpoint := s_endpoint row; psr_createdAt := s_createdAt row |}.

(** ** Column updates *)

(** A field of a patch: absent, or a value that may be null. *)
Definition patch_field (old : option string) (patch : option (option string)) : option string := default old patch.

Record UpdateProfileDto := {
  up_quietHoursStart : option (option string);
  up_quietHoursEnd : option (option string);
  up_timezone : option (option string);
}.

Definition set_profile (dto : UpdateProfileDto) (u : User) : User :=
  {| u_id := u_id u; u_email := u_email u; u_passwordHash := u_passwordHash u; u_role := u_role u;
     u_telegramChatId := u_telegramChatId u; u_telegramLinkTokenHash := u_telegramLinkTokenHash u;
     u_telegramLinkTokenExpiresAt := u_telegramLinkTokenExpiresAt u;
     u_quietHoursStart := patch_field (u_quietHoursStart u) (up_quietHoursStart dto);
     u_quietHoursEnd := patch_field (u_quietHoursEnd u) (up_quietHoursEnd dto);
     u_timezone := patch_field (u_timezone u) (up_timezone dto); u_emailVerified := u_emailVerified u;
     u_emailVerificationTokenHash := u_emailVerificationTokenHash u;
     u_emailVerificationTokenExpiresAt := u_emailVerificationTokenExpiresAt u;
     u_passwordResetTokenHash := u_passwordResetTokenHash u;
     u_passwordResetTokenExpiresAt := u_passwordResetTokenExpiresAt u; u_createdAt := u_createdAt u |}.

Definition set_telegram (chat hash : option string) (exp : option Z) (u : User) : User :=
  {| u_id := u_id u; u_email := u_email u; u_passwordHash := u_passwordHash u; u_role := u_role u;
     u_telegramChatId := chat; u_telegramLinkTokenHash := hash; u_telegramLinkTokenExpiresAt := exp;
     u_quietHoursStart := u_quietHoursStart u; u_quietHoursEnd := u_quietHoursEnd u; u_timezone := u_timezone u;
     u_emailVerified := u_emailVerified u; u_emailVerificationTokenHash := u_emailVerificationTokenHash u;
     u_emailVerificationTokenExpiresAt := u_emailVerificationTokenExpiresAt u;
     u_passwordResetTokenHash := u_passwordResetTokenHash u;
     u_passwordResetTokenExpiresAt := u_passwordResetTokenExpiresAt u; u_createdAt := u_createdAt u |}.

(** [prisma.user.delete]: everything the user owns goes with the row. *)
Definition drop_user (id : string) (d : Database) : Database :=
  let d := drop_triggers (owned_by id) d in
  set_notifications (delete_many (fun n => bool_decide (n_userId n = id)) (notifications d)).1
  (set_pushSubs (delete_many (fun s => bool_decide (s_userId s = id)) (pushSubs d)).1
  (set_refreshTokens (delete_many (fun r => bool_decide (r_userId r = id)) (refreshTokens d)).1
  (set_pinnedCities (delete_many (fun c => bool_decide (pc_userId c = id)) (pinnedCities d)).1
  (set_users (delete_many (has_id id) (users d)).1 d)))).

Definition delete_user (id : string) : M unit :=
  io (fun w => if existsb (has_id id) (users (db w)) then (inl tt, set_db (drop_user id (db w)) w) else (inr RecordNotFound, w)).

(** ** The service *)

Definition TELEGRAM_LINK_TTL_MS : Z := 15 * 60 * 1000.

(** [Math.ceil(parseDurationMs(JWT_ACCESS_TTL) / 1000)] *)
Definition accessTtlSec (config : AuthConfig) : Z := (accessTtlMs config + 999) / 1000.

Section Service.
Context `{UuidSupply} `{Crypto} (config : AuthConfig).

Definition getProfile (userId : string) : M ProfileResponse :=
  let* user := findById userId in
  match user with Some u => ret (toProfileResponse u) | None => throw (NotFound "User not found") end.

Definition updateProfile (userId : string) (dto : UpdateProfileDto) : M ProfileResponse :=
  do* io (upd_user (has_id userId) (set_profile dto)) in
  getProfile userId.

Definition hashLinkToken (token : string) : string := to_hex (sha256 token).

Definition createTelegramLink (userId botUsername : string) : M (string * string) :=
  let* token := randomUUID in
  let* at_ := get_now in
  do* io (upd_user (has_id userId) (fun u =>
        set_telegram (u_telegramChatId u) (Some (hashLinkToken token)) (Some (at_ + TELEGRAM_LINK_TTL_MS)) u)) in
  ret ("https://t.me/" +:+ botUsername +:+ "?start=" +:+ token, token).

Definition unlinkTelegram (userId : string) : M bool :=
  do* io (upd_user (has_id userId) (set_telegram None None None)) in ret true.

Definition bindTelegram (token chatId : string) : M bool :=
  let* user := query (fun w => find_first (fun u => bool_decide (u_telegramLinkTokenHash u = Some (hashLinkToken token))) (users (db w))) in
  match user with
  | None => ret false
  | Some u =>
      let* at_ := get_now in
      if match u_telegramLinkTokenExpiresAt u with Some exp => exp <? at_ | None => true end
      then do* io (upd_user (has_id (u_id u)) (fun u => set_telegram (u_telegramChatId u) None None u)) in ret false
      else do* io (upd_user (has_id (u_id u)) (set_telegram (Some chatId) None None)) in ret true
  end.

Definition listPushSubscriptions (userId : string) : M (list PushSubscriptionResponse) :=
  let* rows := query (fun w => find_many (fun s => bool_decide (s_userId s = userId)) (pushSubs (db w))) in
  ret (map toPushSubscriptionResponse rows).

Record PushDto := { pd_endpoint : string; pd_p256dh : string; pd_auth : string }.

Definition set_keys (dto : PushDto) (s : PushSubscription) : PushSubscription :=
  {| s_id := s_id s; s_userId := s_userId s; s_endpoint := s_endpoint s; s_p256dh := pd_p256dh dto; s_auth := pd_auth dto;
     s_createdAt := s_createdAt s |}.

Definition at_endpoint (endpoint : string) (s : PushSubscription) : bool := bool_decide (s_endpoint s = endpoint).

(** [upsert] by the unique endpoint. *)
Definition upsert_push (userId : string) (dto : PushDto) : M PushSubscription :=
  io (fun w =>
    match find_first (at_endpoint (pd_endpoint dto)) (pushSubs (db w)) with
    | Some s => (inl (set_keys dto s),
                 set_db (set_pushSubs (update_many (at_endpoint (pd_endpoint dto)) (set_keys dto) (pushSubs (db w))).1 (db w)) w)
    | None =>
        if existsb (has_id userId) (users (db w)) then
          let row := {| s_id := uuid (uuids w); s_userId := userId; s_endpoint := pd_endpoint dto; s_p256dh := pd_p256dh dto;
                        s_auth := pd_auth dto; s_createdAt := now w |} in
          (inl row, set_uuids (S (uuids w)) (set_db (set_pushSubs (pushSubs (db w) ++ [row]) (db w)) w))
        else (inr (JsError "P2003"), w)
    end).

Definition addPushSubscription (userId : string) (dto : PushDto) : M PushSubscriptionResponse :=
  let* existing := query (fun w => find_first (at_endpoint (pd_endpoint dto)) (pushSubs (db w))) in
  if match existing with Some s => negb (bool_decide (s_userId s = userId)) | None => false end
  then throw (Forbidden "Endpoint already registered")
  else let* saved := upsert_push userId dto in ret (toPushSubscriptionResponse saved).

Definition removePushSubscription_ (userId endpoint : string) : M bool :=
  do* exec (fun w => set_db (set_pushSubs
        (delete_many (fun s => bool_decide (s_userId s = userId) && at_endpoint endpoint s) (pushSubs (db w))).1 (db w)) w) in
  ret true.

Definition is_admin (u : User) : bool := bool_decide (u_role u = ADMIN).

Definition deleteAccount (userId password : string) : M bool :=
  let* user := findById userId in
  match user with
  | None => throw (NotFound "User not found")
  | Some u =>
      let* ok := bcryptCompare password (u_passwordHash u) in
      if negb ok then throw (Unauthorized "Incorrect password")
      else
        let erase :=
          do* delete_user userId in
          do* revokeUserTokens userId (accessTtlSec config) in
          ret true in
        if is_admin u then
          let* admins := query (fun w => count_where is_admin (users (db w))) in
          if (admins =? 1)%nat then throw (Forbidden "You are the only admin — promote another account first") else erase
        else erase
  end.

(** ** Guards *)

Record AuthUser := { au_userId : string; au_email : string; au_role : option Role }.

(** [JwtStrategy.validate] *)
Definition validate (payload : JwtPayload) : AuthUser :=
  {| au_userId := sub payload; au_email := email payload; au_role := role payload |}.

(** The bearer token, verified with the access secret and not ignoring its
    expiry, then the deny marker. An empty id is not looked up. *)
Definition JwtAuthGuard (token : string) : M AuthUser :=
  let* at_ := get_now in
  match jwt_verify (accessSecret config) (at_ / 1000) token with
  | None => throw (Unauthorized "Unauthorized")
  | Some payload =>
      let user := validate payload in
      if String.eqb (au_userId user) "" then ret user
      else
        let* revoked := isUserRevoked (au_userId user) in
        if (revoked : bool) then throw (Unauthorized "This session is no longer valid") else ret user
  end.

Definition AdminGuard (user : option AuthUser) : M bool :=
  match user ≫= au_role with
  | Some ADMIN => ret true
  | _ => throw (Forbidden "Admin access required")
  end.

End Service.
