(* ===== verification/Admin.v ===== *)
(** * Administration ([apps/core-api/src/admin/admin.service.ts])

    Statistics, the list of users, role changes and deletions behind the
    last-administrator check. *)

From S2P Require Import Prelude JsNumber Enums Contracts Table World Samples Effects RedisService Outbox Format Crypto Auth Triggers Users.

Record AdminStats := {
  st_users : nat;
  st_verifiedUsers : nat;
  st_admins : nat;
  st_triggers : nat;
  st_activeTriggers : nat;
  st_pinnedCities : nat;
  st_notifications : nat;
  st_notificationsSent : nat;
  st_notificationsFailed : nat;
}.

(** One transaction. *)
Definition stats : M AdminStats :=
  query (fun w => let d := db w in
    {| st_users := length (users d); st_verifiedUsers := count_where u_emailVerified (users d);
       st_admins := count_where is_admin (users d); st_triggers := length (triggers d);
       st_activeTriggers := count_where t_isActive (triggers d); st_pinnedCities := length (pinnedCities d);
       st_notifications := length (notifications d);
       st_notificationsSent := count_where (fun n => bool_decide (n_status n = SENT)) (notifications d);
       st_notificationsFailed := count_where (fun n => bool_decide (n_status n = FAILED)) (notifications d) |}).

Record AdminUser := {
  ad_id : string;
  ad_email : string;
  ad_role : Role;
  ad_emailVerified : bool;
  ad_telegramLinked : bool;
  ad_triggerCount : nat;
  ad_notificationCount : nat;
  ad_createdAt : Z;
}.

Definition to_admin_user (d : Database) (u : User) : AdminUser :=
  {| ad_id := u_id u; ad_email := u_email u; ad_role := u_role u; ad_emailVerified := u_emailVerified u;
     ad_telegramLinked := truthy (u_telegramChatId u);
     ad_triggerCount := count_where (owned_by (u_id u)) (triggers d);
     ad_notificationCount := count_where (fun n => bool_decide (n_userId n = u_id u)) (notifications d);
     ad_createdAt := u_createdAt u |}.

Definition listUsers (page_ limit_ : option nat) : M (Page AdminUser) :=
  let p := default 1%nat page_ in
  let l := default 20%nat limit_ in
  query (fun w =>
    {| pg_items := map (to_admin_user (db w)) (page_of ((p - 1) * l) l (order_desc u_createdAt (users (db w))));
       pg_total := length (users (db w)); pg_page := p; pg_limit := l |}).

Record AdminUserDetail := {
  de_id : string;
  de_email : string;
  de_role : Role;
  de_emailVerified : bool;
  de_telegramLinked : bool;
  de_quietHoursStart : option string;
  de_quietHoursEnd : option string;
  de_timezone : option string;
  de_triggers : list TriggerResponse;
  de_notificationCount : nat;
  de_pinnedCityCount : nat;
  de_createdAt : Z;
}.

Definition to_admin_detail (d : Database) (u : User) : AdminUserDetail :=
  {| de_id := u_id u; de_email := u_email u; de_role := u_role u; de_emailVerified := u_emailVerified u;
     de_telegramLinked := truthy (u_telegramChatId u); de_quietHoursStart := u_quietHoursStart u;
     de_quietHoursEnd := u_quietHoursEnd u; de_timezone := u_timezone u;
     de_triggers := map (fun t => toTriggerResponse (include d t)) (order_desc t_createdAt (find_many (owned_by (u_id u)) (triggers d)));
     de_notificationCount := count_where (fun n => bool_decide (n_userId n = u_id u)) (notifications d);
     de_pinnedCityCount := count_where (fun c => bool_decide (pc_userId c = u_id u)) (pinnedCities d);
     de_createdAt := u_createdAt u |}.

Definition getUser (id : string) : M AdminUserDetail :=
  let* user := query (fun w => to_admin_detail (db w) <$> find_first (has_id id) (users (db w))) in
  match user with Some u => ret u | None => throw (NotFound "User not found") end.

Record UpdateUserDto := { uu_role : option Role; uu_emailVerified : option bool }.

Definition set_admin (dto : UpdateUserDto) (u : User) : User :=
  {| u_id := u_id u; u_email := u_email u; u_passwordHash := u_passwordHash u; u_role := default (u_role u) (uu_role dto);
     u_telegramChatId := u_telegramChatId u; u_telegramLinkTokenHash := u_telegramLinkTokenHash u;
     u_telegramLinkTokenExpiresAt := u_telegramLinkTokenExpiresAt u; u_quietHoursStart := u_quietHoursStart u;
     u_quietHoursEnd := u_quietHoursEnd u; u_timezone := u_timezone u;
     u_emailVerified := default (u_emailVerified u) (uu_emailVerified dto);
     u_emailVerificationTokenHash := u_emailVerificationTokenHash u;
     u_emailVerificationTokenExpiresAt := u_emailVerificationTokenExpiresAt u;
     u_passwordResetTokenHash := u_passwordResetTokenHash u;
     u_passwordResetTokenExpiresAt := u_passwordResetTokenExpiresAt u; u_createdAt := u_createdAt u |}.

Section Service.
Context (config : AuthConfig).

Definition assertExists (id : string) : M Role :=
  let* user := findById id in
  match user with Some u => ret (u_role u) | None => throw (NotFound "User not found") end.

Definition assertNotTheLastAdmin (id : string) : M unit :=
  let* others := query (fun w => count_where (fun u => is_admin u && negb (has_id id u)) (users (db w))) in
  if (others =? 0)%nat then throw (BadRequest "This is the last administrator — promote another account first") else ret tt.

Definition updateUser (id : string) (dto : UpdateUserDto) : M AdminUserDetail :=
  let* current := assertExists id in
  do* (if bool_decide (current = ADMIN) && bool_decide (uu_role dto = Some USER) then assertNotTheLastAdmin id else ret tt) in
  do* io (upd_user (has_id id) (set_admin dto)) in
  do* (match uu_role dto with
       | Some r => if bool_decide (r = current) then ret tt
                   else do* revokeUserTokens id (accessTtlSec config) in ret tt
       | None => ret tt
       end) in
  getUser id.

Definition deleteUser (actingUserId id : string) : M string :=
  if bool_decide (actingUserId = id) then throw (BadRequest "You cannot delete your own account here")
  else
    let* role := assertExists id in
    do* (if bool_decide (role = ADMIN) then assertNotTheLastAdmin id else ret tt) in
    do* delete_user id in
    do* revokeUserTokens id (accessTtlSec config) in
    ret id.

Definition admin_deleteTrigger (id : string) : M string :=
  let* count := io (fun w => (inl (count_where (trigger_is id) (triggers (db w))), set_db (drop_triggers (trigger_is id) (db w)) w)) in
  if (count =? 0)%nat then throw (NotFound "Trigger not found") else ret id.

End Service.
