(* ===== verification/AccountsProps.v ===== *)
(** * Accounts: administrators, deletion and revocation *)

From S2P Require Import Prelude JsNumber Enums Contracts Table World Samples Effects RedisService Outbox Format Crypto Auth AuthSessions Triggers TriggersProps Users Admin.

(** ** There is always an administrator *)

Section LastAdmin.
Context `{UuidSupply} `{Crypto} (config : AuthConfig).

Definition has_admin (d : Database) : Prop := exists u, u ∈ users d /\ u_role u = ADMIN.

Definition governed (w : World) : Prop :=
  NoDup (u_id <$> users (db w)) /\ (forall u, u ∈ users (db w) -> drawn w (u_id u)) /\ has_admin (db w).

Lemma governed_same w w' : users (db w') = users (db w) -> (uuids w <= uuids w')%nat -> preserves governed w w'.
Proof.
  intros Hus Hu (Hnd & Hd & Ha). unfold governed, has_admin in *. rewrite Hus. split_and!; try done.
  intros u Hin. eauto using drawn_mono.
Qed.

#[global] Instance governed_order : WorldOrder (preserves governed).
Proof.
  split; [split|].
  - intros w Hw. exact Hw.
  - intros w1 w2 w3 H12 H23 Hw. auto.
  - intros w. destruct (tick_spec w) as (_ & _ & Hu & Hdb & _). apply governed_same; [by rewrite Hdb|lia].
Qed.

#[global] Instance governed_redis : IgnoresRedis (preserves governed).
Proof. split; [intros w w' (r & ->)|intros w n Hn]; by apply governed_same. Qed.

Lemma upd_user_ids (p : User -> bool) (f : User -> User) w :
  (forall u, u_id (f u) = u_id u) ->
  NoDup (u_id <$> users (db w)) -> (forall u, u ∈ users (db w) -> drawn w (u_id u)) ->
  let l := map (fun u => if p u then f u else u) (users (db w)) in
  NoDup (u_id <$> l) /\ forall u, u ∈ l -> drawn w (u_id u).
Proof.
  intros Hid Hnd Hd. split.
  - rewrite <- list_fmap_compose. erewrite list_fmap_ext; [exact Hnd|]. intros i u _. cbn. destruct (p u); [apply Hid|done].
  - intros u' (u & -> & Hin)%list_elem_of_fmap. specialize (Hd u Hin). destruct (p u); [by rewrite Hid|done].
Qed.

(** A column update that keeps ids and roles. *)
Lemma upd_user_governed p f :
  (forall u, u_id (f u) = u_id u) -> (forall u, u_role (f u) = u_role u) -> keeps (preserves governed) (io (upd_user p f)).
Proof.
  intros Hid Hrole. apply keeps_io; [apply _|]. intros w (Hnd & Hd & u & Hin & Ha). unfold upd_user, update_one.
  destruct (existsb _ _); [|by split_and!; try done; exists u].
  destruct (upd_user_ids p f w Hid Hnd Hd) as [Hnd' Hd']. split_and!; [exact Hnd'|exact Hd'|].
  exists (if p u then f u else u). split; [apply list_elem_of_fmap; by exists u|]. destruct (p u); [by rewrite Hrole|done].
Qed.

Lemma create_user_governed email hash : keeps (preserves governed) (create_user email hash).
Proof.
  apply keeps_io; [apply _|]. intros w. cbv zeta. destruct (create _ _ _) as [t|] eqn:Hc; [|by intros Hw].
  apply create_Some in Hc as [_ ->]. intros (Hnd & Hd & u & Hin & Ha). split_and!; cbn.
  - rewrite fmap_app. apply NoDup_app. split_and!; [done| |apply NoDup_singleton].
    intros s (x & -> & Hx)%list_elem_of_fmap Hs%list_elem_of_singleton. apply (fresh_uuid w). cbn in Hs. rewrite <- Hs. by apply Hd.
  - intros x [Hx|Hx%list_elem_of_singleton]%elem_of_app; [eapply drawn_mono; [|by apply Hd]; cbn; lia|].
    subst x. exists (uuids w). cbn. split; [done|lia].
  - exists u. split; [apply elem_of_app; by left|done].
Qed.

(** Deleting keeps a governed world governed when another administrator
    remains. *)
Lemma delete_governed id w :
  governed w -> (exists u, u ∈ users (db w) /\ u_role u = ADMIN /\ u_id u <> id) -> governed (set_db (drop_user id (db w)) w).
Proof.
  intros (Hnd & Hd & _) (u & Hin & Ha & Hne). split_and!; cbn -[delete_many].
  - eapply sublist_NoDup; [exact Hnd|]. apply fmap_sublist, find_many_sublist.
  - intros x [Hx _]%elem_of_delete_many. by apply Hd.
  - exists u. split; [|done]. apply elem_of_delete_many. split; [done|]. by apply bool_decide_false.
Qed.

Lemma delete_user_governed id w :
  governed w -> (exists u, u ∈ users (db w) /\ u_role u = ADMIN /\ u_id u <> id) -> governed (delete_user id w).2.
Proof.
  intros Hw (u & Hin & Ha & Hne). assert (governed (tick w)) as Ht by by apply (wo_tick (R:=preserves governed)).
  unfold delete_user. apply (io_keeps_at governed); [done|]. destruct (existsb _ _); [|done]. apply delete_governed; [done|].
  exists u. by destruct (tick_spec w) as (_ & _ & _ & -> & _).
Qed.

(** What the reads before a deletion establish. *)
Lemma findById_Ok id w o w1 :
  findById id w = (Ok o, w1) -> w1 = tick w /\ db w1 = db w /\ o = find_first (has_id id) (users (db w)).
Proof.
  intros Hq. destruct (tick_spec w) as (_ & _ & _ & Hdb & _). apply io_effect in Hq as [[_ Hno]|[-> Hok]]; [by destruct (Hno o)|].
  specialize (Hok o eq_refl). cbn in *. rewrite Hdb in Hok. by injection Hok as <-.
Qed.

Lemma count_Ok {A} (f : World -> A) w n w1 : (forall w, f (tick w) = f w) -> query f w = (Ok n, w1) -> w1 = tick w /\ n = f w.
Proof.
  intros Hf Hq. apply io_effect in Hq as [[_ Hno]|[-> Hok]]; [by destruct (Hno n)|]. specialize (Hok n eq_refl). cbn in *.
  injection Hok as <-. split; [done|apply Hf].
Qed.

Lemma assertNotTheLastAdmin_Ok id w w1 :
  assertNotTheLastAdmin id w = (Ok tt, w1) ->
  db w1 = db w /\ exists u, u ∈ users (db w) /\ u_role u = ADMIN /\ u_id u <> id.
Proof.
  intros Hrun. apply bind_Ok in Hrun as (n & w2 & Hq & Hk). apply count_Ok in Hq as [-> ->].
  2: { intros w0. by destruct (tick_spec w0) as (_ & _ & _ & -> & _). }
  destruct (Nat.eqb_spec (count_where (fun u => is_admin u && negb (has_id id u)) (users (db w))) 0) as [|Hne]; [done|].
  injection Hk as <-. split; [by destruct (tick_spec w) as (_ & _ & _ & -> & _)|].
  assert (0 < count_where (fun u => is_admin u && negb (has_id id u)) (users (db w)))%nat as Hpos by lia.
  apply count_where_pos in Hpos as (u & Hin & [Ha Hi]%andb_true_iff). apply bool_decide_eq_true in Ha.
  apply negb_true_iff, bool_decide_eq_false in Hi. eauto.
Qed.

(** Two administrators: one of them is somebody else. *)
Lemma second_admin u d :
  NoDup (u_id <$> users d) -> u ∈ users d -> u_role u = ADMIN -> count_where is_admin (users d) <> 1%nat ->
  exists a, a ∈ users d /\ u_role a = ADMIN /\ u_id a <> u_id u.
Proof.
  intros Hnd Hin Hadm Hne. destruct (decide (Exists (fun a => u_role a = ADMIN /\ u_id a <> u_id u) (users d))) as [He|He].
  { apply Exists_exists in He as (a & Ha & ? & ?). eauto. }
  exfalso. apply Hne. apply not_Exists_Forall in He; [|intros x; apply _].
  rewrite Forall_forall in He. transitivity (count_where (has_id (u_id u)) (users d)).
  - unfold count_where. f_equal. apply (find_many_ext is_admin (has_id (u_id u))). intros a Ha. unfold is_admin, has_id.
    apply bool_decide_ext. split; [intros Hr; destruct (decide (u_id a = u_id u)); [done|by destruct (He a Ha)]|].
    intros Hi. by assert (a = u) as -> by by eapply (key_unique u_id).
  - clear He Hne. unfold count_where, has_id. induction (users d) as [|x l IH]; [by apply elem_of_nil in Hin|]. cbn.
    apply NoDup_cons in Hnd as [Hx Hnd]. apply elem_of_cons in Hin as [<-|Hin].
    + rewrite bool_decide_true by done. cbn. f_equal. apply length_zero_iff_nil, (find_many_none (fun y => bool_decide (u_id y = u_id u))).
      intros y Hy. apply bool_decide_false. intros Heq. apply Hx. rewrite <- Heq. by apply list_elem_of_fmap_2.
    + rewrite bool_decide_false; [by apply IH|]. intros Heq. apply Hx. rewrite Heq. by apply list_elem_of_fmap_2.
Qed.

(** A role change leaves an administrator when the check passed. *)
Lemma keeps_an_admin id dto u a d :
  NoDup (u_id <$> users d) -> u ∈ users d -> u_id u = id -> a ∈ users d -> u_role a = ADMIN ->
  (u_role u = ADMIN -> uu_role dto = Some USER -> exists b, b ∈ users d /\ u_role b = ADMIN /\ u_id b <> id) ->
  has_admin (set_users (map (fun x => if has_id id x then set_admin dto x else x) (users d)) d).
Proof.
  intros Hnd Hu Hid Ha Har Hother.
  assert (forall b, b ∈ users d -> u_role b = ADMIN -> u_id b <> id \/ uu_role dto <> Some USER ->
    has_admin (set_users (map (fun x => if has_id id x then set_admin dto x else x) (users d)) d)) as Hkeep.
  { intros b Hb Hbr Hcase. exists (if has_id id b then set_admin dto b else b). split; [apply list_elem_of_fmap; by exists b|].
    unfold has_id. destruct (bool_decide (u_id b = id)) eqn:E; [|done]. apply bool_decide_eq_true in E. cbn.
    destruct Hcase as [|Hr]; [done|]. destruct (uu_role dto) as [[]|]; [done|done|done]. }
  destruct (decide (u_id a = id)) as [Heq|]; [|eauto]. assert (a = u) as -> by (eapply (key_unique u_id); eauto; congruence).
  destruct (decide (uu_role dto = Some USER)) as [Hr|]; [|eauto]. destruct (Hother Har Hr) as (b & ? & ? & ?). eauto.
Qed.

#[local] Hint Resolve create_user_governed : keeps.

Lemma reads_governed id : keeps (preserves governed) (findById id).
Proof. apply keeps_query, _. Qed.

Lemma compare_Ok password hash w b w1 : bcryptCompare password hash w = (Ok b, w1) -> db w1 = db w.
Proof. intros Hq. destruct (tick_spec w) as (_ & _ & _ & Hdb & _). by apply io_effect in Hq as [[-> _]|[-> _]]. Qed.

Lemma deleteAccount_governed userId password : keeps (preserves governed) (deleteAccount config userId password).
Proof.
  intros w. unfold deleteAccount. apply (bind_run (preserves governed)); [apply reads_governed|]. intros o w1 Hf.
  destruct (findById_Ok _ _ _ _ Hf) as (_ & Hdb & ->). destruct (find_first _ _) as [u|] eqn:E; [|apply (keeps_throw (preserves governed))].
  apply find_first_Some in E as [Hin Hid%bool_decide_eq_true].
  apply (bind_run (preserves governed)); [apply (keeps_query (preserves governed))|]. intros ok w1' Hok%compare_Ok.
  rewrite Hdb in Hok. clear Hf Hdb w1. rename w1' into w1, Hok into Hdb.
  destruct (negb ok); [apply (keeps_throw (preserves governed))|].
  assert (forall w2, governed w2 -> (exists u, u ∈ users (db w2) /\ u_role u = ADMIN /\ u_id u <> userId) ->
    governed ((do* delete_user userId in do* revokeUserTokens userId (accessTtlSec config) in ret true) w2).2) as Herase.
  { intros w2 Hw2 Hother. apply (bind_run (preserves governed)); [intros _; by apply delete_user_governed| |done].
    intros [] w3 _. assert (keeps (preserves governed) (do* revokeUserTokens userId (accessTtlSec config) in ret true)) as Hk by keeps_tac. apply Hk. }
  unfold is_admin at 1. destruct (bool_decide (u_role u = ADMIN)) eqn:Hadm.
  - apply bool_decide_eq_true in Hadm. apply (bind_run (preserves governed)); [apply (keeps_query (preserves governed))|].
    intros n w2 Hq. apply count_Ok in Hq as [-> ->].
    2: { intros w0. by destruct (tick_spec w0) as (_ & _ & _ & -> & _). }
    destruct (Nat.eqb_spec (count_where is_admin (users (db w1))) 1) as [|Hne]; [apply (keeps_throw (preserves governed))|].
    intros Hw2. apply Herase; [done|]. destruct (tick_spec w1) as (_ & _ & _ & -> & _). rewrite Hdb in *.
    destruct Hw2 as (Hnd & _ & _). destruct (tick_spec w1) as (_ & _ & _ & Ht & _). rewrite Ht, Hdb in Hnd.
    rewrite <- Hid. by apply (second_admin u).
  - apply bool_decide_eq_false in Hadm. intros Hw1. apply Herase; [done|]. destruct Hw1 as (Hnd & _ & a & Ha & Har).
    exists a. split_and!; [done|done|]. intros Heq. rewrite Hdb in *.
    assert (a = u) as -> by (eapply (key_unique u_id); eauto; congruence). done.
Qed.

Lemma updateUser_governed id dto : keeps (preserves governed) (updateUser config id dto).
Proof.
  intros w. unfold updateUser, assertExists. apply (bind_run (preserves governed)).
  { assert (keeps (preserves governed) (assertExists id)) as Hk by (unfold assertExists, findById; keeps_tac). apply Hk. }
  intros current w1 Hc. apply bind_Ok in Hc as (o & w0 & Hf & Hc). destruct (findById_Ok _ _ _ _ Hf) as (_ & Hdb & ->).
  destruct (find_first _ _) as [u|] eqn:E; [|done]. injection Hc as <- <-.
  apply find_first_Some in E as [Hin Hid%bool_decide_eq_true].
  apply (bind_run (preserves governed)).
  { case_match; [|apply (keeps_ret (preserves governed))].
    assert (keeps (preserves governed) (assertNotTheLastAdmin id)) as Hk by (unfold assertNotTheLastAdmin; keeps_tac). apply Hk. }
  intros [] w2 Hcheck.
  apply (bind_run (preserves governed)); cycle 1.
  { intros [] w3 _. assert (keeps (preserves governed) (do* (match uu_role dto with
       | Some r => if bool_decide (r = u_role u) then ret tt else do* revokeUserTokens id (accessTtlSec config) in ret tt
       | None => ret tt end) in getUser id)) as Hk by (unfold getUser; keeps_tac). apply Hk. }
  intros Hw2. pose proof (wo_tick (R:=preserves governed) w2 Hw2) as Ht. apply (io_keeps_at governed); [done|].
  unfold upd_user, update_one. destruct (existsb _ _); [|done].
  assert (db w2 = db w /\ (u_role u = ADMIN -> uu_role dto = Some USER -> exists a, a ∈ users (db w) /\ u_role a = ADMIN /\ u_id a <> id)) as [Hdb2 Hother].
  { destruct (bool_decide (u_role u = ADMIN) && bool_decide (uu_role dto = Some USER)) eqn:Hb.
    - apply assertNotTheLastAdmin_Ok in Hcheck as [Heq Ho]. rewrite Heq, Hdb in *. eauto.
    - injection Hcheck as <-. split; [done|]. intros H1 H2. by rewrite !bool_decide_true in Hb. }
  destruct Ht as (Hnd & Hd & a & Ha & Har). destruct (upd_user_ids (has_id id) (set_admin dto) (tick w2) (fun _ => eq_refl) Hnd Hd) as [Hnd' Hd'].
  split_and!; [exact Hnd'|exact Hd'|]. destruct (tick_spec w2) as (_ & _ & _ & Htk & _). rewrite Htk, Hdb2 in *.
  apply (keeps_an_admin id dto u a); auto.
Qed.

Lemma deleteUser_governed acting id : keeps (preserves governed) (deleteUser config acting id).
Proof.
  intros w. unfold deleteUser, assertExists. destruct (bool_decide _); [apply (keeps_throw (preserves governed))|].
  apply (bind_run (preserves governed)).
  { assert (keeps (preserves governed) (assertExists id)) as Hk by (unfold assertExists, findById; keeps_tac). apply Hk. }
  intros current w1 Hc. apply bind_Ok in Hc as (o & w0 & Hf & Hc). destruct (findById_Ok _ _ _ _ Hf) as (_ & Hdb & ->).
  destruct (find_first _ _) as [u|] eqn:E; [|done]. injection Hc as <- <-.
  apply find_first_Some in E as [Hin Hid%bool_decide_eq_true].
  apply (bind_run (preserves governed)).
  { case_match; [|apply (keeps_ret (preserves governed))].
    assert (keeps (preserves governed) (assertNotTheLastAdmin id)) as Hk by (unfold assertNotTheLastAdmin; keeps_tac). apply Hk. }
  intros [] w2 Hcheck. apply (bind_run (preserves governed)); cycle 1.
  { intros [] w3 _. assert (keeps (preserves governed) (do* revokeUserTokens id (accessTtlSec config) in ret id)) as Hk by keeps_tac. apply Hk. }
  intros Hw2. apply delete_user_governed; [done|]. destruct (bool_decide (u_role u = ADMIN)) eqn:Hadm.
  - apply assertNotTheLastAdmin_Ok in Hcheck as [-> Ho]. done.
  - injection Hcheck as <-. apply bool_decide_eq_false in Hadm. destruct Hw2 as (Hnd & _ & a & Ha & Har). rewrite Hdb in *.
    exists a. split_and!; [done|done|]. intros Heq. assert (a = u) as -> by (eapply (key_unique u_id); eauto; congruence). done.
Qed.

#[global] Instance governed_effects : AuthEffects config (preserves governed).
Proof.
  split.
  - intros l w. by apply governed_same.
  - intros ms w Hms. by apply governed_same.
  - intros id hash exp verified. by apply upd_user_governed.
  - apply create_user_governed.
  - intros p w. by apply governed_same.
  - intros userId email. unfold issueTokens, findById. keeps_tac. apply keeps_io; [apply _|]. intros w.
    destruct (create _ _ _); [|reflexivity]. destruct (existsb _ _); [|reflexivity]. by apply governed_same.
  - intros id hash w. pose proof (upd_user_governed (has_id id) (set_reset hash None None true) (fun _ => eq_refl) (fun _ => eq_refl)) as Hu.
    intros Hw. pose proof (wo_tick (R:=preserves governed) w Hw) as Ht. apply (io_keeps_at governed); [done|].
    assert (governed (upd_user (has_id id) (set_reset hash None None true) (tick w)).2) as Hg.
    { set (w0 := {| now := now (tick w); uuids := uuids (tick w); oracle := []; db := db (tick w); redis := redis (tick w);
                    broker := broker (tick w); delivered := delivered (tick w) |}).
      assert (governed (io (upd_user (has_id id) (set_reset hash None None true)) w0).2) as Hio by (apply Hu; by apply (governed_same (tick w))).
      rewrite io_fine in Hio by done. unfold upd_user in *. cbn [db w0] in Hio.
      destruct (update_one _ _ _); [|done]. by apply (governed_same _ _ eq_refl (Nat.le_refl _) Hio). }
    destruct (upd_user _ _ (tick w)) as [[] w1]; [|done]. by apply (governed_same w1).
  - intros email. unfold forgotPassword, findByEmail, sendDetached. keeps_tac.
    + by apply upd_user_governed.
    + apply keeps_exec; [apply _|]. intros w. by apply governed_same.
  - unfold pruneStaleTokens. keeps_tac. apply keeps_exec; [apply _|]. intros w. by apply governed_same.
Qed.

(** Requests that touch accounts. *)
Inductive AccountOp :=
  | Auth (op : AuthOp)
  | UpdateProfile (userId : string) (dto : UpdateProfileDto)
  | CreateTelegramLink (userId botUsername : string)
  | UnlinkTelegram (userId : string)
  | BindTelegram (token chatId : string)
  | DeleteAccount (userId password : string)
  | UpdateUser (id : string) (dto : UpdateUserDto)
  | DeleteUser (actingUserId id : string).

Definition run_account (op : AccountOp) (w : World) : World :=
  match op with
  | Auth op => run_auth config op w
  | UpdateProfile userId dto => (updateProfile userId dto w).2
  | CreateTelegramLink userId botUsername => (createTelegramLink userId botUsername w).2
  | UnlinkTelegram userId => (unlinkTelegram userId w).2
  | BindTelegram token chatId => (bindTelegram token chatId w).2
  | DeleteAccount userId password => (deleteAccount config userId password w).2
  | UpdateUser id dto => (updateUser config id dto w).2
  | DeleteUser actingUserId id => (deleteUser config actingUserId id w).2
  end.

Definition run_accounts (ops : list AccountOp) (w : World) : World := fold_left (fun w op => run_account op w) ops w.

Lemma run_account_governed op : forall w, preserves governed w (run_account op w).
Proof.
  destruct op; cbn [run_account].
  - apply (run_auth_keeps config (preserves governed)).
  - change (keeps (preserves governed) (updateProfile userId dto)). unfold updateProfile, getProfile, findById. keeps_tac. by apply upd_user_governed.
  - change (keeps (preserves governed) (createTelegramLink userId botUsername)). unfold createTelegramLink. keeps_tac. by apply upd_user_governed.
  - change (keeps (preserves governed) (unlinkTelegram userId)). unfold unlinkTelegram. keeps_tac. by apply upd_user_governed.
  - change (keeps (preserves governed) (bindTelegram token chatId)). unfold bindTelegram. keeps_tac; by apply upd_user_governed.
  - apply deleteAccount_governed.
  - apply updateUser_governed.
  - apply deleteUser_governed.
Qed.

(** C21. The deployment never loses its last administrator: whatever requests
    are made to the account, profile and administration endpoints, one after
    another and with whatever faults, an administrator is left if there was
    one. *)
Theorem last_admin_is_kept ops w : governed w -> has_admin (db (run_accounts ops w)).
Proof.
  intros Hw. cut (governed (run_accounts ops w)); [by intros (_ & _ & Ha)|]. revert w Hw.
  induction ops as [|op ops IH]; intros w Hw; [done|]. apply IH. by apply run_account_governed.
Qed.

End LastAdmin.

(** ** Erasing an account *)

Section Erasure.
Context `{UuidSupply} `{Crypto} (config : AuthConfig).

(** Nothing in the database belongs to the user. *)
Definition erased (id : string) (d : Database) : Prop :=
  (forall u, u ∈ users d -> u_id u <> id) /\ (forall t, t ∈ triggers d -> t_userId t <> id) /\
  (forall c, c ∈ triggerConditions d -> c_triggerId c ∈ t_id <$> triggers d) /\
  (forall n, n ∈ notifications d -> n_userId n <> id) /\ (forall s, s ∈ pushSubs d -> s_userId s <> id) /\
  (forall r, r ∈ refreshTokens d -> r_userId r <> id) /\ (forall c, c ∈ pinnedCities d -> pc_userId c <> id).

(** The rows of everybody else are all there. *)
Definition spared (id : string) (d d' : Database) : Prop :=
  (forall u, u ∈ users d -> u_id u <> id -> u ∈ users d') /\ others id d' = others id d /\
  length (find_many (fun n => negb (bool_decide (n_userId n = id))) (notifications d')) =
    length (find_many (fun n => negb (bool_decide (n_userId n = id))) (notifications d)) /\
  (forall s, s ∈ pushSubs d -> s_userId s <> id -> s ∈ pushSubs d') /\
  (forall r, r ∈ refreshTokens d -> r_userId r <> id -> r ∈ refreshTokens d') /\
  (forall c, c ∈ pinnedCities d -> pc_userId c <> id -> c ∈ pinnedCities d').

(** Deleting by owner removes the owner's rows and no other. *)
Lemma elem_of_delete_owner {A} (owner : A -> string) (id : string) (l : list A) x :
  x ∈ (delete_many (fun r => bool_decide (owner r = id)) l).1 <-> x ∈ l /\ owner x <> id.
Proof. rewrite elem_of_delete_many. by rewrite bool_decide_eq_false. Qed.

Lemma drop_user_erases id w : keys_ok w -> erased id (drop_user id (db w)) /\ spared id (db w) (drop_user id (db w)).
Proof.
  intros Hk. pose proof (keys_drop w (owned_by id) Hk) as (_ & _ & Href). cbn -[delete_many] in Href.
  pose proof (others_drop w id (owned_by id) Hk) as Hoth.
  split; [split_and!|split_and!]; cbn -[delete_many]; unfold has_id, owned_by; intros *;
    rewrite ?(elem_of_delete_owner u_id), ?(elem_of_delete_owner t_userId), ?(elem_of_delete_owner n_userId),
      ?(elem_of_delete_owner s_userId), ?(elem_of_delete_owner r_userId), ?(elem_of_delete_owner pc_userId); try naive_solver.
  - apply Hoth. intros t _ Ho. by apply bool_decide_eq_true in Ho.
  - cbn. fold (find_many (fun r : Notification => negb (bool_decide (n_userId r = id)))
      (map (detach (t_id <$> find_many (owned_by id) (triggers (db w)))) (notifications (db w)))).
    rewrite find_many_find_many. induction (notifications (db w)) as [|n l IH]; cbn; [done|]. unfold find_many in *. cbn.
    destruct (bool_decide (n_userId n = id)); cbn; lia.
Qed.

Lemma delete_user_Ok id w w' : delete_user id w = (Ok tt, w') -> w' = set_db (drop_user id (db w)) (tick w).
Proof.
  intros Hd. destruct (tick_spec w) as (_ & _ & _ & Hdb & _). apply io_effect in Hd as [[_ Hno]|[-> Hok]]; [by destruct (Hno tt)|].
  specialize (Hok tt eq_refl). rewrite Hdb in *. by destruct (existsb _ _).
Qed.

Lemma revoke_tail {A} id (a : A) w r w' :
  (do* revokeUserTokens id (accessTtlSec config) in ret a) w = (Ok r, w') -> db w' = db w /\ r = a.
Proof.
  intros Hrun. apply bind_Ok in Hrun as (b & w1 & Hr & Hk). injection Hk as <- <-. split; [|done].
  pose proof (keeps_revokeUserTokens same_db id (accessTtlSec config) w) as Hkeep. by rewrite Hr in Hkeep.
Qed.

(** Both ways to delete: the rest of the request after the checks. *)
Definition erase {A} (id : string) (a : A) : M A :=
  do* delete_user id in do* revokeUserTokens id (accessTtlSec config) in ret a.

Lemma erase_Ok {A} id (a r : A) w w' : erase id a w = (Ok r, w') -> db w' = drop_user id (db w).
Proof.
  intros Hrun. apply bind_Ok in Hrun as ([] & w1 & Hd & Hk). apply revoke_tail in Hk as [-> _]. by apply delete_user_Ok in Hd as ->.
Qed.

Lemma read_only {A} (f : World -> A) w a w1 : query f w = (Ok a, w1) -> db w1 = db w.
Proof. intros Hq. destruct (tick_spec w) as (_ & _ & _ & Hdb & _). by apply io_effect in Hq as [[-> _]|[-> _]]. Qed.

Lemma deleteAccount_Ok userId password w r w' :
  deleteAccount config userId password w = (Ok r, w') -> db w' = drop_user userId (db w).
Proof.
  intros Hrun. apply bind_Ok in Hrun as (o & w1 & Hf & Hk). destruct (findById_Ok _ _ _ _ Hf) as (_ & Hdb & _).
  destruct o as [u|]; [|done]. apply bind_Ok in Hk as (ok & w1' & Hok%compare_Ok & Hk). rewrite <- Hdb, <- Hok. clear w1 Hf Hdb Hok.
  rename w1' into w1. destruct (negb ok); [done|]. fold (erase userId true) in Hk.
  destruct (is_admin u); [|by apply erase_Ok in Hk]. apply bind_Ok in Hk as (n & w2 & Hq & Hk). apply read_only in Hq.
  destruct (n =? 1)%nat; [done|]. apply erase_Ok in Hk. by rewrite Hk, Hq.
Qed.

Lemma deleteUser_Ok acting id w r w' : deleteUser config acting id w = (Ok r, w') -> db w' = drop_user id (db w).
Proof.
  unfold deleteUser. destruct (bool_decide _); [done|]. intros Hrun. apply bind_Ok in Hrun as (role & w1 & Ha & Hk).
  apply bind_Ok in Ha as (o & w0 & Hf & Ha). destruct (findById_Ok _ _ _ _ Hf) as (_ & Hdb & _).
  assert (w1 = w0) as -> by (destruct o; [by injection Ha as _ <-|done]).
  apply bind_Ok in Hk as ([] & w2 & Hc & Hk). assert (db w2 = db w0) as Hdb2.
  { destruct (bool_decide _); [by apply assertNotTheLastAdmin_Ok in Hc as [-> _]|by injection Hc as <-]. }
  apply (erase_Ok id id) in Hk. by rewrite Hk, Hdb2, Hdb.
Qed.

(** C22. Deleting an account, by its owner or by an administrator, erases
    everything the account owns and nothing else: afterwards no user,
    trigger, condition, notification, push subscription, session or pinned
    city of it is left, and everybody else's rows are all there. *)
Theorem deletion_erases_account userId w w' :
  keys_ok w ->
  (exists password r, deleteAccount config userId password w = (Ok r, w')) \/
  (exists acting r, deleteUser config acting userId w = (Ok r, w')) ->
  erased userId (db w') /\ spared userId (db w) (db w').
Proof.
  intros Hk Hrun. assert (db w' = drop_user userId (db w)) as ->; [|by apply drop_user_erases].
  destruct Hrun as [(password & r & Hrun)|(acting & r & Hrun)]; [by eapply deleteAccount_Ok|by eapply deleteUser_Ok].
Qed.

End Erasure.

(** ** Revocation *)

Section Revocation.
Context `{UuidSupply} `{CryptoLaws} (config : AuthConfig).

(** The marker the guard reads, up to its deadline. *)
Definition marked (id : string) (deadline : Z) (w : World) : Prop :=
  redis w !! revokedKey id = Some {| e_value := RText "1"; e_expiresAt := Some deadline |}.

Lemma isUserRevoked_marked id deadline w :
  oracle w = [] -> marked id deadline w -> now w < deadline -> isUserRevoked id w = (Ok true, w).
Proof.
  intros Ho Hm Hlt. unfold isUserRevoked. apply catch_ok. rewrite query_ok by done. unfold peek. rewrite Hm. unfold expired. cbn.
  by replace (deadline <=? now w) with false by lia.
Qed.

Lemma guard_denies id token payload deadline w :
  oracle w = [] -> marked id deadline w -> now w < deadline -> id <> "" ->
  jwt_verify (accessSecret config) (now w / 1000) token = Some payload -> sub payload = id ->
  JwtAuthGuard config token w = (Throw (Unauthorized "This session is no longer valid"), w).
Proof.
  intros Ho Hm Hlt Hne Hv Hs. unfold JwtAuthGuard, bind at 1, get_now. rewrite Hv. cbn [au_userId validate]. rewrite Hs.
  destruct (String.eqb_spec id ""); [done|]. by erewrite bind_ok by by eapply isUserRevoked_marked.
Qed.

Lemma revokeUserTokens_marks id w :
  oracle w = [] -> 0 < accessTtlSec config ->
  revokeUserTokens id (accessTtlSec config) w =
  (Ok true, put (revokedKey id) (RText "1") (Some (now w + accessTtlSec config * 1000)) w).
Proof.
  intros Ho Hpos. unfold revokeUserTokens. apply catch_ok. erewrite bind_ok; [reflexivity|]. apply io_ok; [done|].
  unfold cmd_set_px. by replace (accessTtlSec config * 1000 <=? 0) with false by lia.
Qed.

Lemma put_marked id d w : marked id d (put (revokedKey id) (RText "1") (Some d) w).
Proof. apply lookup_insert_eq. Qed.

(** Deleting when calls answer ends with the marker in place. *)
Lemma erase_marks {A} id (a r : A) w w' :
  oracle w = [] -> 0 < accessTtlSec config -> erase config id a w = (Ok r, w') ->
  oracle w' = [] /\ now w' = now w /\ marked id (now w + accessTtlSec config * 1000) w'.
Proof.
  intros Ho Hpos Hrun. apply bind_Ok in Hrun as ([] & w1 & Hd & Hk). apply delete_user_Ok in Hd as ->.
  assert (tick w = w) as Ht by (unfold tick; by rewrite Ho). rewrite Ht in Hk. cbv beta in Hk.
  erewrite bind_ok in Hk by by apply revokeUserTokens_marks. injection Hk as _ <-. split_and!; [done|done|apply put_marked].
Qed.

Lemma query_calm {A} (f : World -> A) w a w1 : oracle w = [] -> query f w = (Ok a, w1) -> w1 = w.
Proof. intros Ho Hq. rewrite query_ok in Hq by done. by injection Hq. Qed.

Lemma deleteAccount_marks userId password w r w' :
  oracle w = [] -> 0 < accessTtlSec config -> deleteAccount config userId password w = (Ok r, w') ->
  oracle w' = [] /\ now w' = now w /\ marked userId (now w + accessTtlSec config * 1000) w'.
Proof.
  intros Ho Hpos Hrun. apply bind_Ok in Hrun as (o & w1 & Hf & Hk). apply query_calm in Hf as ->; [|done].
  destruct o as [u|]; [|done]. apply bind_Ok in Hk as (ok & w1 & Hq & Hk). apply query_calm in Hq as ->; [|done].
  destruct (negb ok); [done|]. fold (erase config userId true) in Hk.
  destruct (is_admin u); [|by eapply erase_marks]. apply bind_Ok in Hk as (n & w2 & Hq & Hk). apply query_calm in Hq as ->; [|done].
  destruct (n =? 1)%nat; [done|]. by eapply erase_marks.
Qed.

Lemma accessTtl_covers : accessTtlMs config <= accessTtlSec config * 1000.
Proof. unfold accessTtlSec. zdivmod. Qed.

(** C23. Deleting an account signs it out everywhere: when calls answer, no
    access token the account was ever given opens a request again. Until the
    token expires the guard finds the deny marker, and from then on the token
    itself is refused: the marker outlives every token issued before. *)
Theorem deleted_account_is_denied userId password w r w' claims iat ms :
  oracle w = [] -> 0 < accessTtlMs config -> userId <> "" ->
  deleteAccount config userId password w = (Ok r, w') ->
  sub claims = userId -> iat <= now w / 1000 -> 0 <= ms ->
  let token := jwt_sign (accessSecret config) claims iat (iat + accessTtlMs config / 1000) in
  exists message, JwtAuthGuard config token (sleep ms w').2 = (Throw (Unauthorized message), (sleep ms w').2).
Proof.
  intros Ho Hpos Hne Hrun Hs Hiat Hms token. pose proof accessTtl_covers as Hcov.
  destruct (deleteAccount_marks userId password w r w' Ho) as (Ho' & Hn & Hm); [lia|done|]. set (w2 := (sleep ms w').2).
  assert (now w2 = now w + ms) as Hn2 by (cbn; lia).
  destruct (Z.lt_ge_cases (now w2 / 1000) (iat + accessTtlMs config / 1000)) as [Hlive|Hover].
  - eexists. eapply (guard_denies userId token claims (now w + accessTtlSec config * 1000) w2); try done.
    + rewrite Hn2 in *. zdivmod.
    + by apply jwt_verify_sign.
  - eexists. unfold JwtAuthGuard, bind at 1, get_now. unfold token. by rewrite jwt_expired.
Qed.

(** A role change when calls answer ends with the marker in place. *)
Lemma updateUser_marks id dto new u w r w' :
  oracle w = [] -> 0 < accessTtlSec config -> find_first (has_id id) (users (db w)) = Some u ->
  uu_role dto = Some new -> new <> u_role u -> updateUser config id dto w = (Ok r, w') ->
  oracle w' = [] /\ now w' = now w /\ marked id (now w + accessTtlSec config * 1000) w'.
Proof.
  intros Ho Hpos Hu Hnew Hdiff Hrun. unfold updateUser, assertExists in Hrun.
  assert (assertExists id w = (Ok (u_role u), w)) as He.
  { unfold assertExists, findById. erewrite bind_ok by by apply query_ok. by rewrite Hu. }
  erewrite bind_ok in Hrun by exact He. apply bind_Ok in Hrun as ([] & w1 & Hc & Hrun).
  assert (w1 = w) as ->.
  { destruct (_ && _); [|by injection Hc]. apply bind_Ok in Hc as (n & w2 & Hq & Hk). apply query_calm in Hq as ->; [|done].
    destruct (n =? 0)%nat; [done|]. by injection Hk. }
  apply bind_Ok in Hrun as ([] & w2 & Hupd & Hrun). rewrite io_fine in Hupd by done.
  assert (oracle w2 = [] /\ now w2 = now w) as [Ho2 Hn2].
  { unfold upd_user in Hupd. destruct (update_one _ _ _); [|done]. by injection Hupd as <-. }
  rewrite Hnew, bool_decide_false in Hrun by done. apply bind_Ok in Hrun as ([] & w3 & Hrev & Hget).
  erewrite bind_ok in Hrev by by apply revokeUserTokens_marks. injection Hrev as <-.
  unfold getUser in Hget. apply bind_Ok in Hget as (o & w4 & Hq & Hk). apply query_calm in Hq as ->; [|done].
  destruct o; [|done]. injection Hk as _ <-. rewrite Hn2. split_and!; [done|done|]. rewrite <- Hn2. apply put_marked.
Qed.

(** After a role change the guard refuses every access token of the user
    for a whole token lifetime, those issued by a later refresh included: the
    marker names the user and carries no time, so the request that went
    through refresh to pick up the new role is refused as well. *)
Theorem role_change_denies_refreshed id dto new u w r w' token payload w2 :
  oracle w = [] -> 0 < accessTtlSec config -> id <> "" -> find_first (has_id id) (users (db w)) = Some u ->
  uu_role dto = Some new -> new <> u_role u -> updateUser config id dto w = (Ok r, w') ->
  oracle w2 = [] -> redis w2 !! revokedKey id = redis w' !! revokedKey id ->
  now w' <= now w2 < now w' + accessTtlSec config * 1000 ->
  jwt_verify (accessSecret config) (now w2 / 1000) token = Some payload -> sub payload = id ->
  JwtAuthGuard config token w2 = (Throw (Unauthorized "This session is no longer valid"), w2).
Proof.
  intros Ho Hpos Hne Hu Hnew Hdiff Hrun Ho2 Hr Hn Hv Hs.
  destruct (updateUser_marks id dto new u w r w' Ho Hpos Hu Hnew Hdiff Hrun) as (_ & Hn' & Hm).
  eapply guard_denies; [done| |..]; [unfold marked; rewrite Hr; exact Hm|lia|done|done|done].
Qed.

End Revocation.

(** ** Concrete runs *)

(** Two accounts; the first administers. *)
Definition admin_user : User := set_admin {| uu_role := Some ADMIN; uu_emailVerified := Some true |} (new_user "uuid-0" "root@b.c" "$2b$root" 0).
Definition plain_user : User := new_user "uuid-1" "a@b.c" "$2b$pw" 0.

Definition accounts_world : World :=
  set_uuids 2 (set_db (set_refreshTokens [ {| r_id := "r1"; r_userId := "uuid-1"; r_tokenHash := ""; r_expiresAt := 10; r_revoked := false |} ]
    (set_users [admin_user; plain_user] empty_db)) empty_world).

Lemma accounts_world_governed : governed (H:=sample_uuids) accounts_world.
Proof.
  split_and!.
  - cbn. repeat constructor; rewrite ?elem_of_cons, ?elem_of_nil; intuition congruence.
  - intros u [->|[->|[]%elem_of_nil]%elem_of_cons]%elem_of_cons; [exists 0%nat|exists 1%nat]; cbn; (split; [done|lia]).
  - exists admin_user. split; [by left|done].
Qed.

Lemma accounts_world_keys : keys_ok (H:=sample_uuids) accounts_world.
Proof. split_and!; cbn; [constructor|by intros t []%elem_of_nil|by intros c []%elem_of_nil]. Qed.

Lemma last_admin_is_kept_witness :
  has_admin (db (run_accounts (H:=sample_uuids) (H0:=sample_crypto) sample_auth
    [DeleteAccount "uuid-0" "root"; UpdateUser "uuid-0" {| uu_role := Some USER; uu_emailVerified := None |};
     UpdateUser "uuid-1" {| uu_role := Some ADMIN; uu_emailVerified := None |}; DeleteUser "uuid-1" "uuid-0"] accounts_world)).
Proof. apply (last_admin_is_kept (H:=sample_uuids) (H0:=sample_crypto)). exact accounts_world_governed. Defined.

Lemma deletion_erases_account_witness :
  erased "uuid-1" (db (deleteAccount (H0:=sample_crypto) sample_auth "uuid-1" "pw" accounts_world).2) /\
  spared "uuid-1" (db accounts_world) (db (deleteAccount (H0:=sample_crypto) sample_auth "uuid-1" "pw" accounts_world).2).
Proof.
  eapply (deletion_erases_account (H:=sample_uuids) (H0:=sample_crypto) sample_auth); [exact accounts_world_keys|].
  left. exists "pw". eexists. vm_compute. reflexivity.
Defined.

Lemma deleted_account_is_denied_witness :
  exists message, JwtAuthGuard (H0:=sample_crypto) sample_auth
      (jwt_sign (Crypto:=sample_crypto) "access" {| sub := "uuid-1"; email := "a@b.c"; role := Some USER; jti := None |} 0 900)
      (sleep 899999 (deleteAccount (H0:=sample_crypto) sample_auth "uuid-1" "pw" accounts_world).2).2 =
    (Throw (Unauthorized message), (sleep 899999 (deleteAccount (H0:=sample_crypto) sample_auth "uuid-1" "pw" accounts_world).2).2).
Proof.
  apply (deleted_account_is_denied (H0:=sample_crypto) sample_auth "uuid-1" "pw" accounts_world true
    (deleteAccount (H0:=sample_crypto) sample_auth "uuid-1" "pw" accounts_world).2
    {| sub := "uuid-1"; email := "a@b.c"; role := Some USER; jti := None |} 0 899999);
    [reflexivity|reflexivity|discriminate|vm_compute; reflexivity|reflexivity|vm_compute; discriminate|lia].
Defined.

(** The promoted user signs in, refreshes after the promotion, and is refused. *)
Definition promotion : UpdateUserDto := {| uu_role := Some ADMIN; uu_emailVerified := None |}.
Definition signed_in := login (H:=sample_uuids) (H0:=sample_crypto) sample_auth "a@b.c" "pw" accounts_world.
Definition promoted : World := (updateUser sample_auth "uuid-1" promotion signed_in.2).2.
Definition refreshed :=
  refresh (H:=sample_uuids) (H0:=sample_crypto) sample_auth (match signed_in.1 with Ok t => refreshToken t | _ => "" end) promoted.
Definition fresh_access : string := match refreshed.1 with Ok t => accessToken t | _ => "" end.

Lemma role_change_denies_refreshed_witness :
  (exists payload, jwt_verify (Crypto:=sample_crypto) "access" (now refreshed.2 / 1000) fresh_access = Some payload /\ role payload = Some ADMIN) /\
  JwtAuthGuard (H0:=sample_crypto) sample_auth fresh_access refreshed.2 =
    (Throw (Unauthorized "This session is no longer valid"), refreshed.2).
Proof.
  split; [eexists; split; vm_compute; reflexivity|].
  eapply (role_change_denies_refreshed (H0:=sample_crypto) sample_auth "uuid-1" promotion ADMIN plain_user signed_in.2 _ promoted);
    try (vm_compute; reflexivity).
  - discriminate.
  - discriminate.
  - vm_compute. split; [discriminate|reflexivity].
Defined.
