(* ===== verification/Requests.v ===== *)
(** * Concurrent requests of the API

    [apps/core-api] serves requests next to each other. The handlers whose
    correctness depends on what happens between their calls, one call at a
    time: the rotation of a refresh token, the removal of administrators and
    the creation of triggers. *)

From S2P Require Import Prelude JsNumber Enums Location Contracts Table World Samples Effects RedisService Outbox Watcher Format Crypto Auth AuthSessions Triggers TriggersProps Users Admin AccountsProps Async.

(** ** The handlers, suspended at each call *)

Section Functions.
Context `{UuidSupply} `{Crypto} (config : AuthConfig).
Local Open Scope async_scope.

(** [issueTokens] behind its first call: the two tokens are signed and the
    row is inserted. *)
Definition sign_and_store (userId email : string) (user : option User) : M Tokens :=
  (let* at1 := get_now in
   let access := jwt_sign (accessSecret config)
     {| sub := userId; email := email; role := Some (match user with Some u => u_role u | None => USER end); jti := None |}
     (at1 / 1000) (at1 / 1000 + accessTtlMs config / 1000) in
   let* jti := randomUUID in
   let* at2 := get_now in
   let refresh := jwt_sign (refreshSecret config) {| sub := userId; email := email; role := None; jti := Some jti |}
     (at2 / 1000) (at2 / 1000 + refreshTtlMs config / 1000) in
   let* at3 := get_now in
   do* create_refresh {| r_id := jti; r_userId := userId; r_tokenHash := hashToken refresh;
                         r_expiresAt := at3 + refreshTtlMs config; r_revoked := false |} in
   ret {| accessToken := access; refreshToken := refresh |})%effect.

Definition async_issueTokens (userId email : string) : Proc Tokens :=
  let* user := await (findById userId) in
  await (sign_and_store userId email user).

(** [updateMany({ where: { id, revoked: false }, data: { revoked: true } })] *)
Definition spend_row (row : RefreshToken) : M nat :=
  io (fun w => let r := revoke_where (unspent row) w in (inl r.1, r.2)).

Definition async_revokeFamily (userId : string) : Proc Tokens :=
  do* await (revokeFamily userId) in reject InvalidRefresh.

Definition async_refresh_spend (payload : JwtPayload) (row : RefreshToken) : Proc Tokens :=
  if r_revoked row then async_revokeFamily (r_userId row)
  else
    let* count := await (spend_row row) in
    if (count =? 0)%nat then async_revokeFamily (r_userId row)
    else async_issueTokens (sub payload) (email payload).

Definition async_refresh (token : string) : Proc Tokens :=
  let* found := await (refresh_lookup config token) in
  async_refresh_spend found.1 found.2.

Definition async_assertExists (id : string) : Proc Role :=
  let* user := await (findById id) in
  match user with Some u => resolve (u_role u) | None => reject (NotFound "User not found") end.

Definition async_assertNotTheLastAdmin (id : string) : Proc unit :=
  let* others := await (query (fun w => count_where (fun u => is_admin u && negb (has_id id u)) (users (db w)))) in
  if (others =? 0)%nat then reject (BadRequest "This is the last administrator — promote another account first") else resolve tt.

Definition async_deleteUser (actingUserId id : string) : Proc string :=
  if bool_decide (actingUserId = id) then reject (BadRequest "You cannot delete your own account here")
  else
    let* role := async_assertExists id in
    do* (if bool_decide (role = ADMIN) then async_assertNotTheLastAdmin id else resolve tt) in
    do* await (delete_user id) in
    do* await (revokeUserTokens id (accessTtlSec config)) in
    resolve id.

Definition async_CreateTrigger (userId : string) (dto : CreateTriggerDto) : Proc TriggerResponse :=
  let* verified := await (isEmailVerified userId) in
  if negb verified then reject (Forbidden "Please verify your email before creating triggers")
  else
    let* count := await (countForUser userId) in
    if (maxTriggersPerUser API_LIMITS <=? count)%nat
    then reject (BadRequest ("Trigger limit reached (max " +:+ pretty (maxTriggersPerUser API_LIMITS) +:+ ")"))
    else let* created := await (create_trigger userId dto) in resolve (toTriggerResponse created).

(** *** Alone, they are the handlers of Auth.v, Admin.v and Triggers.v *)

Lemma alone_issueTokens userId email w : alone (async_issueTokens userId email) w = issueTokens config userId email w.
Proof. unfold async_issueTokens, issueTokens. alone_tac. Qed.

Lemma alone_refresh token w : alone (async_refresh token) w = refresh config token w.
Proof.
  unfold async_refresh, refresh, async_refresh_spend, refresh_spend, async_revokeFamily.
  alone_tac; auto using alone_issueTokens.
Qed.

Lemma alone_deleteUser actingUserId id w : alone (async_deleteUser actingUserId id) w = deleteUser config actingUserId id w.
Proof.
  unfold async_deleteUser, deleteUser, async_assertExists, assertExists, async_assertNotTheLastAdmin, assertNotTheLastAdmin.
  alone_tac.
Qed.

Lemma alone_CreateTrigger userId dto w : alone (async_CreateTrigger userId dto) w = CreateTrigger userId dto w.
Proof. unfold async_CreateTrigger, CreateTrigger. alone_tac. Qed.

End Functions.

(** ** Rotation under concurrency *)

Section Rotation.
Context `{UuidSupply} `{Crypto} (config : AuthConfig).

(** A request that may yet win the row [j], but only while nobody has; once it
    has won it may answer, otherwise it ends in an error. *)
Fixpoint gated (j : string) (p : Proc Tokens) : Prop :=
  match p with
  | Return r => exists e, r = inr e
  | Await call k => forall w, tokens_ok w ->
      tokens_evolve w (call w).2 /\
      match (call w).1 with
      | Ok b => gated j (k (inl b)) \/
                (~ spent j w /\ spent j (call w).2 /\ every_call tokens_evolve (k (inl b)))
      | Throw e => gated j (k (inr e))
      | Crash => True
      end
  end.

Definition answered (p : Proc Tokens) : bool := match p with Return (inl _) => true | _ => false end.

(** The requests being served for the tokens of one row, and the rest of the
    system. *)
Record Server := { sv_world : World; sv_requests : list (Proc Tokens) }.

(** What is left of the requests when a replica dies: what was answered stays
    answered. *)
Definition left_over (ps left : list (Proc Tokens)) : Prop :=
  left `sublist_of` ps /\ count_where answered left = count_where answered ps.

(** A token whose row is [j], whenever it verifies. *)
Definition names_row (j token : string) : Prop :=
  forall at_ payload, jwt_verify (refreshSecret config) at_ token = Some payload -> jti payload = Some j.

Inductive server_step (j : string) : Server -> Server -> Prop :=
  | arrives s token :
      names_row j token ->
      server_step j s {| sv_world := sv_world s; sv_requests := sv_requests s ++ [async_refresh config token] |}
  | goes_on s i p p' w' :
      sv_requests s !! i = Some p -> resume p (sv_world s) = (Some p', w') ->
      server_step j s {| sv_world := w'; sv_requests := <[i := p']> (sv_requests s) |}
  (* a replica dies, in a call or anywhere else, with the requests it serves *)
  | dies_calling s i p w' left :
      sv_requests s !! i = Some p -> resume p (sv_world s) = (None, w') -> left_over (sv_requests s) left ->
      server_step j s {| sv_world := w'; sv_requests := left |}
  | dies s left : left_over (sv_requests s) left -> server_step j s {| sv_world := sv_world s; sv_requests := left |}
  (* every other request to the service, sweeps and time *)
  | serves s w' : tokens_evolve (sv_world s) w' -> server_step j s {| sv_world := w'; sv_requests := sv_requests s |}.

(** *** A refresh is gated *)

Lemma every_call_issue userId email : every_call tokens_evolve (async_issueTokens config userId email).
Proof.
  unfold async_issueTokens. every_call_tac. intros w. unfold sign_and_store.
  unfold bind at 1 2 3 4, get_now, randomUUID. cbn [now set_uuids].
  set (row := {| r_id := _ |}). pose proof (create_refresh_evolves w row eq_refl) as Hc.
  unfold bind. by destruct (create_refresh row _) as [[]].
Qed.

Lemma gated_revoke j userId : gated j (async_revokeFamily userId).
Proof.
  intros w _. split; [apply revoke_exec_evolves|].
  destruct ((revokeFamily userId w).1); cbn; [left|..]; eauto.
Qed.

Lemma gated_spend j payload row : r_id row = j -> gated j (async_refresh_spend config payload row).
Proof.
  intros <-. unfold async_refresh_spend. destruct (r_revoked row); [apply gated_revoke|].
  intros w Hok. destruct (spend_row row w) as [r w'] eqn:Hs. cbn [fst snd].
  pose proof (io_effect _ _ _ _ Hs) as Hio.
  assert (tokens_evolve w w') as Hev.
  { destruct Hio as [[-> _]|[-> _]]; [apply wo_tick|]. etrans; [apply wo_tick|apply revoke_where_evolves]. }
  split; [done|]. destruct r as [n|e|]; cbn; [|eauto|done].
  destruct Hio as [[_ Hno]|[Hw Hn]]; [by destruct (Hno n)|]. specialize (Hn n eq_refl). injection Hn as Hn. cbn in Hw.
  cbn [then_ pbind]. destruct (Nat.eqb_spec n 0) as [_|Hpos]; [left; apply gated_revoke|right].
  destruct (cas_spends row w Hok) as [Hun Hsp]; [change (0 < count_where (unspent row) (refreshTokens (db (tick w))))%nat; lia|].
  split_and!; [done|by rewrite Hw|apply every_call_issue].
Qed.

Lemma gated_refresh j token : names_row j token -> gated j (async_refresh config token).
Proof.
  intros Hj w Hok. destruct (refresh_lookup config token w) as [r w'] eqn:Hl. cbn [fst snd].
  split; [pose proof (lookup_evolves config token w) as Hk; by rewrite Hl in Hk|].
  destruct r as [[payload row]|e|]; cbn; [left|by eexists|done]. apply gated_spend.
  unfold refresh_lookup in Hl. apply bind_Ok in Hl as (at1 & w1 & [= <- <-] & Hl).
  destruct (jwt_verify _ _ token) as [c|] eqn:Hv; [|done]. rewrite (Hj _ _ Hv) in Hl.
  apply bind_Ok in Hl as (found & w2 & Hq & Hl). apply bind_Ok in Hl as (at2 & w3 & [= <- <-] & Hl).
  destruct found as [x|]; [|done]. destruct (_ <? _); [done|]. destruct (negb _); [done|]. injection Hl as <- <- <-.
  apply io_effect in Hq as [[_ Hno]|[_ Hq]]; [by destruct (Hno (Some x))|]. specialize (Hq _ eq_refl). injection Hq as Hq.
  apply find_first_Some in Hq as [_ Hid]. by apply bool_decide_eq_true in Hid.
Qed.

(** *** At most one request wins *)

(** [b] says which requests have won. *)
Definition gates (j : string) (w : World) (ps : list (Proc Tokens)) (b : list bool) : Prop :=
  Forall2 (fun p (won : bool) => if won then every_call tokens_evolve p else gated j p) ps b /\
  (count_where id b <= 1)%nat /\ (true ∈ b -> spent j w).

Lemma gates_kept j w w' ps b : tokens_ok w -> tokens_evolve w w' -> gates j w ps b -> gates j w' ps b.
Proof. intros Hok Hev (Hall & Hone & Hsp). split_and!; [done|done|]. intros Hin. eapply spent_kept; eauto. Qed.

Lemma gates_sublist j w ps left b : left `sublist_of` ps -> gates j w ps b -> exists b', gates j w left b'.
Proof.
  intros Hl (Hall & Hone & Hsp).
  assert (exists b', b' `sublist_of` b /\ Forall2 (fun p (won : bool) => if won then every_call tokens_evolve p else gated j p) left b')
    as (b' & Hb & Hall').
  { clear Hone Hsp. revert b Hall. induction Hl as [|p left ps _ IH|p left ps _ IH]; intros b Hall;
      [apply Forall2_nil_inv_l in Hall as ->; by exists []|..].
    - apply Forall2_cons_inv_l in Hall as (x & b0 & Hx & Hall & ->). destruct (IH _ Hall) as (b' & Hb & Hall').
      exists (x :: b'). split; [by apply sublist_skip|by constructor].
    - apply Forall2_cons_inv_l in Hall as (x & b0 & Hx & Hall & ->). destruct (IH _ Hall) as (b' & Hb & Hall').
      exists b'. split; [by apply sublist_cons|done]. }
  exists b'. split_and!; [done| |].
  - etrans; [by apply count_where_sublist|done].
  - intros Hin. apply Hsp. by eapply sublist_subseteq.
Qed.

Lemma no_wins j w ps b : gates j w ps b -> ~ spent j w -> Forall (fun won => won = false) b.
Proof. intros (_ & _ & Hsp) Hno. apply Forall_forall. intros [] Hin; [by destruct Hno; apply Hsp|done]. Qed.

(** A request takes a step. *)
Lemma gates_step j w w' ps b i p p' :
  tokens_ok w -> gates j w ps b -> ps !! i = Some p -> resume p w = (Some p', w') ->
  tokens_evolve w w' /\ exists b', gates j w' (<[i := p']> ps) b'.
Proof.
  intros Hok Hg Hp Hr. destruct (Hg) as (Hall & Hone & Hsp).
  destruct (Forall2_lookup_l _ _ _ _ _ Hall Hp) as (won & Hb & Hi). cbn beta in Hi.
  assert (tokens_evolve w w' -> (if won then every_call tokens_evolve p' else gated j p') ->
    tokens_evolve w w' /\ exists b', gates j w' (<[i := p']> ps) b') as Hsame.
  { intros Hev Hi'. split; [done|]. exists b. apply (gates_kept j w); [done..|]. split_and!; [|done..].
    rewrite <- (list_insert_id b i won Hb). by apply Forall2_insert. }
  destruct won.
  { destruct (every_call_resume tokens_evolve p w Hi) as [Hev Hn]. rewrite Hr in Hev, Hn. apply Hsame; [done|by apply Hn]. }
  destruct p as [r|B call k].
  { injection Hr as <- <-. apply Hsame; [reflexivity|done]. }
  destruct (Hi w Hok) as [Hev Hn]. cbn in Hr. destruct (call w) as [[x|e|] w1] eqn:Hc; [..|done];
    injection Hr as <- <-; cbn [fst snd] in Hev, Hn; [|by apply Hsame].
  destruct Hn as [Hn|(Hno & Hspent & Hn)]; [by apply Hsame|]. split; [done|]. exists (<[i := true]> b).
  pose proof (no_wins _ _ _ _ Hg Hno) as Hf. split_and!; [by apply Forall2_insert| |done].
  clear -Hf. revert i. induction Hf as [|x b -> Hf IH]; intros [|i]; cbn; [lia..| |].
  - unfold count_where; cbn. assert (count_where id b = 0%nat) as Hz by by apply count_where_zero.
    unfold count_where in Hz. lia.
  - apply IH.
Qed.

(** What the requests answered so far have won. *)
Lemma gates_answered j w ps b : gates j w ps b -> (count_where answered ps <= 1)%nat.
Proof.
  intros (Hall & Hone & _). etrans; [|exact Hone]. clear Hone.
  induction Hall as [|p won ps b Hp _ IH]; [done|]. unfold count_where in *. cbn.
  destruct p as [[t|e]|]; cbn; destruct won; cbn; try lia. by destruct Hp.
Qed.

Definition rotating (j : string) (s : Server) : Prop :=
  tokens_ok (sv_world s) /\ exists b, gates j (sv_world s) (sv_requests s) b.

Lemma server_step_rotating j s s' : server_step j s s' -> rotating j s -> rotating j s'.
Proof.
  intros Hstep [Hok [b Hg]]. destruct Hstep as [s token Hj|s i p p' w' Hp Hr|s i p w' left Hp Hr [Hl _]|s left [Hl _]|s w' Hev].
  - split; [done|]. destruct Hg as (Hall & Hone & Hsp). exists (b ++ [false]). split_and!.
    + apply Forall2_app; [done|]. constructor; [by apply gated_refresh|constructor].
    + unfold count_where in *. rewrite List.filter_app, length_app. cbn. lia.
    + intros [Hin|Hin]%elem_of_app; [by apply Hsp|]. by apply list_elem_of_singleton in Hin.
  - destruct (gates_step _ _ _ _ _ _ _ _ Hok Hg Hp Hr) as [Hev Hg']. split; [by apply Hev|done].
  - assert (tokens_evolve (sv_world s) w') as Hev; [|split; [by apply Hev|]].
    { destruct Hg as (Hall & _). destruct (Forall2_lookup_l _ _ _ _ _ Hall Hp) as ([] & _ & Hi).
      - destruct (every_call_resume tokens_evolve p (sv_world s) Hi) as [Hev _]. by rewrite Hr in Hev.
      - destruct p as [|B call k]; [done|]. destruct (Hi _ Hok) as [Hev _]. cbn in Hr.
        by destruct (call (sv_world s)) as [[]]; simplify_eq. }
    destruct (gates_sublist j _ _ _ _ Hl Hg) as [b' Hg']. exists b'. by eapply gates_kept.
  - split; [done|]. by eapply gates_sublist.
  - split; [by apply Hev|]. exists b. by eapply gates_kept.
Qed.

(** C17. However many refresh requests carry tokens of one row, on however many
    replicas, and however their calls interleave with one another and with the
    rest of the service, whatever fails and whichever replicas die: at most
    one of them is ever answered with new tokens. *)
Theorem concurrent_refreshes_answer_once j w s :
  tokens_ok w -> rtc (server_step j) {| sv_world := w; sv_requests := [] |} s ->
  (count_where answered (sv_requests s) <= 1)%nat.
Proof.
  intros Hok Hrun. assert (rotating j s) as [_ [b Hg]]; [|by eapply gates_answered].
  assert (rotating j {| sv_world := w; sv_requests := [] |}) as Hinit.
  { split; [done|]. exists []. split_and!; [constructor|cbn; lia|]. by intros Hin%elem_of_nil. }
  clear Hok. induction Hrun as [|s s1 s2 Hstep _ IH]; [done|]. by apply IH, (server_step_rotating j s s1).
Qed.

End Rotation.

(** ** Schedules *)

(** The answer of each request that was answered. *)
Definition answer {A} (p : Proc A) : option A := match p with Return (inl a) => Some a | _ => None end.

Section Schedules.
Context `{UuidSupply} `{Crypto} (config : AuthConfig).

Lemma run_procs_steps j schedule s :
  rtc (server_step config j) s
    {| sv_world := (run_procs schedule (sv_world s) (sv_requests s)).1;
       sv_requests := (run_procs schedule (sv_world s) (sv_requests s)).2 |}.
Proof.
  revert s. induction schedule as [|i rest IH]; intros [w ps]; cbn; [done|].
  destruct (ps !! i) as [p|] eqn:Hp; [|apply (IH {| sv_world := w; sv_requests := ps |})].
  destruct (resume p w) as [[p'|] w'] eqn:Hr; [|done].
  eapply rtc_l; [by eapply goes_on|]. apply (IH {| sv_world := w'; sv_requests := <[i := p']> ps |}).
Qed.

End Schedules.

(** *** Two tabs of one browser refresh at once *)

Definition two_refreshes (schedule : list nat) : World * list (Proc Tokens) :=
  run_procs schedule session_w
    [async_refresh (H0:=sample_crypto) (H:=sample_uuids) sample_auth session_token;
     async_refresh (H0:=sample_crypto) (H:=sample_uuids) sample_auth session_token].

Lemma session_token_row : names_row (H0:=sample_crypto) sample_auth "uuid-0" session_token.
Proof.
  intros at_ payload Hv.
  assert (jwt_verify (Crypto:=sample_crypto) (refreshSecret sample_auth) 0 session_token = Some session_payload) as Hs by (vm_compute; reflexivity).
  by rewrite (jwt_claims_agree _ _ _ _ _ _ Hv Hs).
Qed.

(** Both read the row before either spends it. *)
Definition both_read : list nat := [0; 1; 0; 1; 0; 1; 0; 1]%nat.

Lemma concurrent_refreshes_answer_once_witness :
  count_where answered (two_refreshes both_read).2 = 1%nat /\
  (count_where answered (two_refreshes both_read).2 <= 1)%nat.
Proof.
  split; [vm_compute; reflexivity|].
  apply (concurrent_refreshes_answer_once (H:=sample_uuids) (H0:=sample_crypto) sample_auth "uuid-0" session_w
    {| sv_world := (two_refreshes both_read).1; sv_requests := (two_refreshes both_read).2 |}); [exact session_ok|].
  eapply rtc_l; [apply (arrives sample_auth "uuid-0" {| sv_world := session_w; sv_requests := [] |}), session_token_row|].
  eapply rtc_l; [apply arrives, session_token_row|].
  apply (run_procs_steps sample_auth "uuid-0" both_read).
Defined.

(** The loser takes the race for a replay and ends the sessions of the user.
    The winner stores its new row behind its last call: ended before that, the
    new session lives on; ended after it, none does. *)
Theorem detected_reuse_spares_winner :
  map (fun p => bool_decide (is_Some (answer p))) (two_refreshes both_read).2 = [true; false] /\
  count_where (live_of "u1") (refreshTokens (db (two_refreshes both_read).1)) = 1%nat /\
  map (fun p => bool_decide (is_Some (answer p))) (two_refreshes [0; 1; 0; 1; 0; 0; 1]%nat).2 = [true; false] /\
  count_where (live_of "u1") (refreshTokens (db (two_refreshes [0; 1; 0; 1; 0; 0; 1]%nat).1)) = 0%nat.
Proof. split_and!; vm_compute; reflexivity. Qed.

(** ** Checks that a concurrent request invalidates *)

(** Two administrators delete each other. *)
Definition other_admin : User := set_admin {| uu_role := Some ADMIN; uu_emailVerified := Some true |} plain_user.
Definition two_admins : World := set_uuids 2 (set_db (set_users [admin_user; other_admin] empty_db) empty_world).

Definition mutual_deletion (schedule : list nat) : World * list (Proc string) :=
  run_procs schedule two_admins [async_deleteUser sample_auth "uuid-0" "uuid-1"; async_deleteUser sample_auth "uuid-1" "uuid-0"].

(** One after the other, the second is refused; interleaved, both are answered
    and no administrator is left. *)
Theorem concurrent_deletions_leave_no_admin :
  map answer (mutual_deletion [0; 0; 0; 0; 1; 1; 1; 1]%nat).2 = [Some "uuid-1"; None] /\
  map answer (mutual_deletion [0; 1; 0; 1; 0; 1; 0; 1]%nat).2 = [Some "uuid-1"; Some "uuid-0"] /\
  users (db (mutual_deletion [0; 1; 0; 1; 0; 1; 0; 1]%nat).1) = [].
Proof. split_and!; vm_compute; reflexivity. Qed.

(** A user one short of the limit sends the form twice. *)
Definition one_short : World :=
  set_db (set_triggers ((fun n => sample_trigger ("t" +:+ pretty n) 52 21) <$> seq 0 9) (set_users [sample_user] empty_db)) empty_world.

Definition double_submission (schedule : list nat) : World * list (Proc TriggerResponse) :=
  run_procs schedule one_short
    [async_CreateTrigger (H:=sample_uuids) "u1" sample_dto; async_CreateTrigger (H:=sample_uuids) "u1" sample_dto].

Theorem concurrent_creations_exceed_limit :
  maxTriggersPerUser API_LIMITS = 10%nat /\
  count_where (owned_by "u1") (triggers (db (double_submission [0; 0; 0; 1; 1; 1]%nat).1)) = 10%nat /\
  count_where (owned_by "u1") (triggers (db (double_submission [0; 1; 0; 1; 0; 1]%nat).1)) = 11%nat.
Proof. split_and!; vm_compute; reflexivity. Qed.
