(* ===== verification/Resets.v ===== *)
(** * Reset links and guesses in flight together

    [resetPassword] and [login] of [apps/core-api/src/auth/auth.service.ts] one
    call at a time: the link that was looked up is spent only once the
    password has been hashed, and the failures that were counted when a guess
    began are not counted again before it is compared. *)

From S2P Require Import Prelude JsNumber Enums Contracts Table World Samples Effects RedisService Outbox Crypto Auth AuthSessions AuthAccounts Async Requests.

(** ** The handlers, suspended at each call *)

Section Functions.
Context `{UuidSupply} `{Crypto} (config : AuthConfig).
Local Open Scope async_scope.

Definition async_resetPassword (token password : string) : Proc bool :=
  let* user := await (reset_lookup token) in
  let* passwordHash := await (bcrypt password) in
  do* await (reset_commit (u_id user) passwordHash) in
  resolve true.

Definition async_login (email password : string) : Proc Tokens :=
  let failureKey := loginFailureKey email in
  let* locked := await (failureCount failureKey) in
  if LOGIN_MAX_FAILURES <=? fw_count locked
  then reject (TooManyRequests "Too many failed attempts. Try again later.")
  else
    let* user := await (findByEmail email) in
    let* passwordMatches := await (bcryptCompare password
      (match user with Some u => u_passwordHash u | None => absentUserHash config end)) in
    match user, passwordMatches with
    | Some u, true =>
        do* await (clearFailures failureKey) in
        async_issueTokens config (u_id u) (u_email u)
    | _, _ =>
        do* await (recordFailure failureKey LOGIN_LOCKOUT_SEC) in
        reject (Unauthorized "Invalid credentials")
    end.

Lemma alone_resetPassword token password w : alone (async_resetPassword token password) w = resetPassword token password w.
Proof. unfold async_resetPassword, resetPassword. alone_tac. Qed.

Lemma alone_login email password w : alone (async_login email password) w = login config email password w.
Proof. unfold async_login, login. alone_tac; auto using alone_issueTokens. Qed.

End Functions.

(** ** A spent link *)

Section Links.
Context `{UuidSupply} `{CryptoLaws} (token : string).

(** Where a presentation of the link waits. *)
Inductive Stage :=
  | Presented (password : string)
  | Hashing (userId password : string)
  | Committing (userId passwordHash : string)
  | Finished (r : bool + exn).

Definition stage_proc (st : Stage) : Proc bool :=
  match st with
  | Presented password => async_resetPassword token password
  | Hashing userId password =>
      pbind (await (bcrypt password)) (fun h => pbind (await (reset_commit userId h)) (fun _ => resolve true))
  | Committing userId h => pbind (await (reset_commit userId h)) (fun _ => resolve true)
  | Finished r => Return r
  end.

(** The presentations of the link, and the rest of the system: every other
    request to the service, sweeps and time ([links_evolve]), presentations
    that began elsewhere included. *)
Record Resets := { rs_world : World; rs_requests : list (Proc bool) }.

Inductive reset_step : Resets -> Resets -> Prop :=
  | presents s password :
      reset_step s {| rs_world := rs_world s; rs_requests := rs_requests s ++ [async_resetPassword token password] |}
  | resets_goes_on s i p p' w' :
      rs_requests s !! i = Some p -> resume p (rs_world s) = (Some p', w') ->
      reset_step s {| rs_world := w'; rs_requests := <[i := p']> (rs_requests s) |}
  | resets_dies_calling s i p w' left :
      rs_requests s !! i = Some p -> resume p (rs_world s) = (None, w') -> left `sublist_of` rs_requests s ->
      reset_step s {| rs_world := w'; rs_requests := left |}
  | resets_dies s left : left `sublist_of` rs_requests s -> reset_step s {| rs_world := rs_world s; rs_requests := left |}
  | resets_elsewhere s w' : links_evolve (rs_world s) w' -> reset_step s {| rs_world := w'; rs_requests := rs_requests s |}.

(** Only [id] can hold the link. *)
Definition only_holder (id : string) (w : World) : Prop :=
  drawn w token /\ forall u, u ∈ users (db w) -> u_passwordResetTokenHash u = Some (hashToken token) -> u_id u = id.

(** The link is gone. *)
Definition consumed (w : World) : Prop := drawn w token /\ no_link (hashToken token) w.

Definition stage_ok (w : World) (st : Stage) : Prop :=
  match st with
  | Presented _ | Finished (inr _) => True
  | Hashing id _ | Committing id _ => only_holder id w
  | Finished (inl _) => consumed w
  end.

Lemma only_holder_kept id w w' : links_ok w -> links_evolve w w' -> only_holder id w -> only_holder id w'.
Proof.
  intros Hok Hev [Hd Ho]. destruct (Hev Hok) as (_ & Hu & Hg). split; [by eapply drawn_mono|].
  intros u' Hin Hh. destruct (Hg token Hd u' Hin Hh) as (u & Hin' & <- & Hh'). by apply Ho.
Qed.

Lemma consumed_kept w w' : links_ok w -> links_evolve w w' -> consumed w -> consumed w'.
Proof.
  intros Hok Hev [Hd Hno]. destruct (Hev Hok) as (_ & Hu & Hg). split; [by eapply drawn_mono|].
  by eapply not_given_gone, Hno; apply Hg.
Qed.

Lemma stage_kept w w' st : links_ok w -> links_evolve w w' -> stage_ok w st -> stage_ok w' st.
Proof.
  intros Hok Hev. destruct st as [| | |[]]; cbn; [done|by apply only_holder_kept|by apply only_holder_kept|by apply consumed_kept|done].
Qed.

(** The account whose link was spent has none, and nobody else had it. *)
Lemma reset_consumes id hash w w' : links_ok w' -> (uuids w <= uuids w')%nat -> only_holder id w -> after_reset id hash w w' -> consumed w'.
Proof.
  intros _ Hu [Hd Ho] [Hus _]. split; [by eapply drawn_mono|]. intros u. rewrite Hus. intros (x & -> & Hx)%list_elem_of_fmap.
  unfold has_id. case_bool_decide as Hid; [done|]. intros Hh. by destruct Hid; apply Ho.
Qed.

(** A presentation takes a step. *)
Lemma stage_step st w r w' :
  links_ok w -> stage_ok w st -> resume (stage_proc st) w = (r, w') ->
  links_evolve w w' /\ forall p, r = Some p -> exists st', p = stage_proc st' /\ stage_ok w' st'.
Proof.
  intros Hok Hst Hr. destruct st as [password|id password|id h|a]; cbn in Hr.
  - destruct (reset_lookup token w) as [r1 w1] eqn:Hl. apply reset_lookup_run in Hl as [-> Hl].
    assert (links_evolve w (tick w)) as Hev by apply wo_tick.
    destruct r1 as [u|e|]; injection Hr as <- <-; (split; [done|]); intros p [= <-].
    + exists (Hashing (u_id u) password). split; [done|]. cbn. apply (only_holder_kept _ w); [done..|].
      destruct (Hl u eq_refl) as (Hin & Hh & _). destruct Hok as (_ & _ & Huniq).
      destruct (Huniq u _ Hin Hh) as [(t & Ht%(inj hashToken) & Hd) Hone]. subst t. by split.
    + by exists (Finished (inr e)).
  - pose proof (bcrypt_links password w) as Hev. destruct (bcrypt password w) as [[h|e|] w1]; injection Hr as <- <-; cbn [snd] in Hev;
      (split; [done|]); intros p [= <-]; [exists (Committing id h); split; [done|]; by eapply only_holder_kept|by exists (Finished (inr e))].
  - pose proof (reset_commit_links id h w) as Hev. destruct (reset_commit id h w) as [[[]|e|] w1] eqn:Hc; injection Hr as <- <-;
      cbn [snd] in Hev; (split; [done|]); intros p [= <-]; [|by exists (Finished (inr e))].
    exists (Finished (inl true)). split; [done|]. destruct (Hev Hok) as (Hok' & Hu & _).
    by eapply reset_consumes, reset_commit_Ok.
  - injection Hr as <- <-. split; [reflexivity|]. intros p [= <-]. by exists (Finished a).
Qed.

(** What holds of every presentation holds along a run: [Q] of each, in worlds
    of which [I] holds. *)
Section Along.
Context (Q : World -> Stage -> Prop) (I : World -> Prop).
Hypothesis Q_kept : forall w w' st, links_ok w -> I w -> links_evolve w w' -> Q w st -> Q w' st.
Hypothesis I_kept : forall w w', links_ok w -> links_evolve w w' -> I w -> I w'.
Hypothesis Q_presented : forall w password, Q w (Presented password).
Hypothesis Q_step : forall w st r w', links_ok w -> I w -> Q w st -> resume (stage_proc st) w = (r, w') ->
  links_evolve w w' /\ forall p, r = Some p -> exists st', p = stage_proc st' /\ Q w' st'.

Definition along (s : Resets) : Prop :=
  links_ok (rs_world s) /\ I (rs_world s) /\
  forall p, p ∈ rs_requests s -> exists st, p = stage_proc st /\ Q (rs_world s) st.

Lemma along_kept s w' ps :
  links_evolve (rs_world s) w' -> (forall p, p ∈ ps -> p ∈ rs_requests s) -> along s -> along {| rs_world := w'; rs_requests := ps |}.
Proof.
  intros Hev Hsub (Hok & Hi & Hall). split_and!; [by apply Hev|by eapply I_kept|]. cbn.
  intros p Hp. destruct (Hall p (Hsub p Hp)) as (st & -> & Hst). exists st. split; [done|]. by eapply Q_kept.
Qed.

Lemma reset_step_keeps s s' : reset_step s s' -> along s -> along s'.
Proof.
  intros Hstep Hinv. pose proof Hinv as (Hok & Hi & Hall).
  assert (forall i p, rs_requests s !! i = Some p -> exists st, p = stage_proc st /\ Q (rs_world s) st) as Hat
    by (intros i p Hp; by eapply Hall, list_elem_of_lookup_2).
  destruct Hstep as [s password|s i p p' w' Hp Hr|s i p w' left Hp Hr Hl|s left Hl|s w' Hev]; cbn in Hat.
  - split_and!; [done|done|]. intros p [Hp|Hp%list_elem_of_singleton]%elem_of_app; [by apply Hall|].
    exists (Presented password). by rewrite Hp.
  - destruct (Hat i p Hp) as (st & -> & Hst). destruct (Q_step _ _ _ _ Hok Hi Hst Hr) as [Hev Hnext].
    destruct (along_kept s w' (rs_requests s) Hev (fun p Hp => Hp) Hinv) as (Hok' & Hi' & Hall'). split_and!; [done|done|].
    intros q [j Hj]%list_elem_of_lookup. cbn in Hj. apply list_lookup_insert_Some in Hj as [(_ & <- & _)|[_ Hj]]; [by apply Hnext|].
    by eapply Hall', list_elem_of_lookup_2.
  - destruct (Hat i p Hp) as (st & -> & Hst). destruct (Q_step _ _ _ _ Hok Hi Hst Hr) as [Hev _].
    apply (along_kept s); [done| |done]. intros q Hq. by eapply sublist_subseteq.
  - apply (along_kept s); [reflexivity| |done]. intros q Hq. by eapply sublist_subseteq.
  - by apply (along_kept s).
Qed.

Lemma reset_run_keeps w s :
  links_ok w -> I w -> rtc reset_step {| rs_world := w; rs_requests := [] |} s -> along s.
Proof.
  intros Hok Hi Hrun. assert (along {| rs_world := w; rs_requests := [] |}) as Hinit by (split_and!; [done|done|by intros p []%elem_of_nil]).
  clear Hok Hi. induction Hrun as [|s s1 s2 Hstep _ IH]; [done|]. by apply IH, (reset_step_keeps s).
Qed.

End Along.

(** A presentation that began on a spent link: not looked up, or refused. *)
Definition turned_away (w : World) (st : Stage) : Prop := match st with Presented _ | Finished (inr _) => True | _ => False end.

Lemma turned_away_step w st r w' :
  links_ok w -> consumed w -> turned_away w st -> resume (stage_proc st) w = (r, w') ->
  (w' = w \/ w' = tick w) /\ forall p, r = Some p -> exists st', p = stage_proc st' /\ turned_away w' st'.
Proof.
  intros Hok [_ Hno] Hst Hr. destruct st as [password|id password|id h|[b|e]]; try done; cbn in Hr.
  - destruct (reset_lookup token w) as [r1 w1] eqn:Hl. apply reset_lookup_run in Hl as [-> Hl].
    destruct r1 as [u|e|]; injection Hr as <- <-; (split; [by right|]); intros p [= <-]; [|by exists (Finished (inr e))].
    destruct (Hl u eq_refl) as (Hin & Hh & _). by destruct (Hno u).
  - injection Hr as <- <-. split; [by left|]. intros p [= <-]. by exists (Finished (inr e)).
Qed.

(** C30. A reset link works once. Let any number of presentations of a link run,
    their calls interleaved with each other and with the rest of the service
    (new links included), failing and dying as they may; once one of them has
    been answered, a presentation that begins later is never answered, and
    none of its calls writes the database, whatever runs next to it.
    (Presentations already past their lookup at that moment are not covered:
    they are not stopped.) *)
Theorem reset_link_single_use w s1 s2 :
  links_ok w -> rtc reset_step {| rs_world := w; rs_requests := [] |} s1 ->
  (exists b, Return (inl b) ∈ rs_requests s1) ->
  rtc reset_step {| rs_world := rs_world s1; rs_requests := [] |} s2 ->
  forall p, p ∈ rs_requests s2 ->
    (forall b, p <> Return (inl b)) /\
    forall r w', resume p (rs_world s2) = (r, w') -> db w' = db (rs_world s2).
Proof.
  intros Hok Hrun1 [b Hb] Hrun2.
  destruct (reset_run_keeps stage_ok (fun _ => True)) with (w := w) (s := s1) as (Hok1 & _ & Hall1); try done.
  { intros ? ? ? ? _. by apply stage_kept. }
  { intros ? ? ? ? ? _. by apply stage_step. }
  assert (consumed (rs_world s1)) as Hcons.
  { destruct (Hall1 _ Hb) as ([password|id password|id h|[c|e]] & Heq & Hst); try discriminate Heq. done. }
  destruct (reset_run_keeps turned_away consumed) with (w := rs_world s1) (s := s2) as (Hok2 & Hcons2 & Hall2); try done.
  { apply consumed_kept. }
  { intros w0 st r w' Hok0 Hc Hst Hr. destruct (turned_away_step _ _ _ _ Hok0 Hc Hst Hr) as [Hw Hnext]. split; [|done].
    destruct Hw as [->| ->]; [reflexivity|apply wo_tick]. }
  intros p Hp. destruct (Hall2 p Hp) as (st & -> & Hst). split.
  - intros c Heq. destruct st as [password|id password|id h|[c'|e]]; done.
  - intros r w' Hr. destruct (turned_away_step _ _ _ _ Hok2 Hcons2 Hst Hr) as [[->| ->] _]; [done|].
    by destruct (tick_spec (rs_world s2)) as (_ & _ & _ & -> & _).
Qed.

End Links.

(** ** Concrete runs *)

(** Presentations of the link of [reset_world], with these passwords, resumed
    in the order of the schedule. *)
Definition presentations (passwords : list string) (schedule : list nat) (w : World) : World * list (Proc bool) :=
  run_procs schedule w (async_resetPassword (H0:=sample_crypto) "uuid-1" <$> passwords).

Lemma run_resets_steps schedule s :
  rtc (reset_step (H:=sample_uuids) (H0:=sample_crypto) "uuid-1") s
    {| rs_world := (run_procs schedule (rs_world s) (rs_requests s)).1; rs_requests := (run_procs schedule (rs_world s) (rs_requests s)).2 |}.
Proof.
  revert s. induction schedule as [|i rest IH]; intros [w ps]; cbn; [done|].
  destruct (ps !! i) as [p|] eqn:Hp; [|apply (IH {| rs_world := w; rs_requests := ps |})].
  destruct (resume p w) as [[p'|] w'] eqn:Hr; [|done].
  eapply rtc_l; [by eapply resets_goes_on|]. apply (IH {| rs_world := w'; rs_requests := <[i := p']> ps |}).
Qed.

Lemma presentations_steps passwords schedule w :
  rtc (reset_step (H:=sample_uuids) (H0:=sample_crypto) "uuid-1") {| rs_world := w; rs_requests := [] |}
    {| rs_world := (presentations passwords schedule w).1; rs_requests := (presentations passwords schedule w).2 |}.
Proof.
  pose proof (run_resets_steps schedule {| rs_world := w; rs_requests := async_resetPassword (H0:=sample_crypto) "uuid-1" <$> passwords |}) as Hrun.
  etrans; [|exact Hrun]. clear Hrun.
  induction passwords as [|password l IH] using rev_ind; [done|]. etrans; [exact IH|].
  rewrite fmap_app. apply rtc_once, presents.
Qed.

(** One after the other, the second is refused; presented together, the link
    is looked up twice before it is spent, both are answered, and the password
    of the second stands. *)
Theorem link_presented_twice_at_once :
  map answer (presentations ["new"; "other"] [0; 0; 0; 1; 1; 1]%nat reset_world).2 = [Some true; None] /\
  map answer (presentations ["new"; "other"] [0; 1; 0; 1; 0; 1]%nat reset_world).2 = [Some true; Some true] /\
  map u_passwordHash (users (db (presentations ["new"; "other"] [0; 1; 0; 1; 0; 1]%nat reset_world).1)) = ["$2b$other"].
Proof. split_and!; vm_compute; reflexivity. Qed.

(** A link answered once, presented again twice after a new one was asked for. *)
Lemma reset_link_single_use_witness :
  let w1 := (presentations ["new"] [0; 0; 0]%nat reset_world).1 in
  let w2 := run_auths (H:=sample_uuids) (H0:=sample_crypto) sample_auth [ForgotPassword "a@b.c"; Login "a@b.c" "new"] w1 in
  length (presentations ["other"; "third"] [0; 1]%nat w2).2 = 2%nat /\
  Forall (fun p => forall b, p <> Return (inl b)) (presentations ["other"; "third"] [0; 1]%nat w2).2.
Proof.
  intros w1 w2. split; [vm_compute; reflexivity|]. apply Forall_forall. intros p Hp.
  refine (proj1 (reset_link_single_use (H:=sample_uuids) (H0:=sample_crypto) "uuid-1" reset_world
    {| rs_world := w1; rs_requests := (presentations ["new"] [0; 0; 0]%nat reset_world).2 |}
    {| rs_world := (presentations ["other"; "third"] [0; 1]%nat w2).1; rs_requests := (presentations ["other"; "third"] [0; 1]%nat w2).2 |}
    reset_world_ok (presentations_steps _ _ _) _ _ p Hp)).
  - exists true. apply (list_elem_of_lookup_2 _ 0%nat). reflexivity.
  - eapply rtc_l; [|apply presentations_steps].
    apply (resets_elsewhere "uuid-1" {| rs_world := w1; rs_requests := [] |}), (run_auths_keeps sample_auth links_evolve).
Defined.

(** *** Guesses in flight together *)

Definition guess (email : string) : Proc Tokens := async_login (H:=sample_uuids) (H0:=sample_crypto) sample_auth email "guess".

(** Eleven guesses at one address. *)
Definition eleven (schedule : list nat) : World * list (Proc Tokens) :=
  run_procs schedule auth_world (replicate 11 (guess "a@b.c")).

Definition refusal (p : Proc Tokens) : option Z :=
  match p with Return (inr (HttpException status _)) => Some status | _ => None end.

(** One after the other, the eleventh is refused before it is compared; sent
    together, all of them read the counter before any of them has failed, and
    all eleven are compared. *)
Theorem parallel_guesses_exceed_limit :
  LOGIN_MAX_FAILURES = 10 /\
  map refusal (eleven (concat (map (replicate 4) (seq 0 11)))).2 = replicate 10 (Some 401) ++ [Some 429] /\
  map refusal (eleven (concat (replicate 4 (seq 0 11)))).2 = replicate 11 (Some 401).
Proof. split_and!; vm_compute; reflexivity. Qed.
