(* ===== verification/History.v ===== *)
(** * Notification history and pinned cities

    [apps/core-api/src/notifications/notifications.service.ts] and
    [apps/core-api/src/pinned-cities/pinned-cities.service.ts]: reading and
    clearing the history, the nightly sweep that works through it in bounded
    chunks under a lock, and the short list of pinned cities. *)

From S2P Require Import Prelude JsNumber Enums Contracts Table World Samples Effects RedisService Outbox Format Crypto Auth Triggers.

(** ** History *)

Record NotificationResponse := {
  nr_id : string;
  nr_triggerId : option string;
  nr_channel : Channel;
  nr_status : NotifStatus;
  nr_payload : TriggerFiredEvent;
  nr_error : option string;
  nr_createdAt : Z;
}.

Definition toNotificationResponse (row : Notification) : NotificationResponse :=
  {| nr_id := n_id row; nr_triggerId := n_triggerId row; nr_channel := n_channel row; nr_status := n_status row;
     nr_payload := n_payload row; nr_error := n_error row; nr_createdAt := n_createdAt row |}.

Definition received_by (userId : string) (n : Notification) : bool := bool_decide (n_userId n = userId).

(** One transaction: the page and the total. *)
Definition findAll_notifications (userId : string) (page_ limit_ : option nat) : M (Page NotificationResponse) :=
  let p := default 1%nat page_ in
  let l := default 20%nat limit_ in
  query (fun w =>
    {| pg_items := map toNotificationResponse
         (page_of ((p - 1) * l) l (order_desc n_createdAt (find_many (received_by userId) (notifications (db w)))));
       pg_total := count_where (received_by userId) (notifications (db w)); pg_page := p; pg_limit := l |}).

(** [deleteMany], returning the rows matched. *)
Definition drop_notifications (p : Notification -> bool) : M nat :=
  io (fun w => let r := delete_many p (notifications (db w)) in (inl r.2, set_db (set_notifications r.1 (db w)) w)).

Definition remove_notification (userId id : string) : M string :=
  let* count := drop_notifications (fun n => bool_decide (n_id n = id) && received_by userId n) in
  if (count =? 0)%nat then throw (NotFound "Notification not found") else ret id.

Definition clear_notifications (userId : string) : M nat := drop_notifications (received_by userId).

(** ** The sweep *)

Definition DEFAULT_RETENTION_DAYS : number := Num.of_Z 90.
Definition PRUNE_LOCK_KEY : string := "core-api:notifications:prune".
Definition PRUNE_LOCK_TTL_SEC : Z := 600.
Definition PRUNE_CHUNK : nat := N.to_nat 5000.

(** What the setting reads as; NaN when it is not set. *)
Definition retentionDays (configured : number) : number :=
  if Num.is_finite configured && Num.gtb configured (Num.of_Z 0) then configured else DEFAULT_RETENTION_DAYS.

(** [new Date(ms)]: the integer part, if it is a date at all. *)
Definition time_clip (x : number) : option Z :=
  t ← (if Num.ltb x (Num.of_Z 0) then Z.opp <$> Num.floor (Num.abs x) else Num.floor x);
  if Z.abs t <=? 8640000000000000 then Some t else None.

Definition retention_cutoff (configured : number) (at_ : Z) : option Z :=
  time_clip (Num.sub (Num.of_Z at_) (Num.mul (Num.mul (retentionDays configured) (Num.of_Z 24)) (Num.of_Z 3600000))).

Section Sweep.
Context `{UuidSupply}.

Definition renewPruneLock (token : string) : M bool :=
  catch (extendLock PRUNE_LOCK_KEY token PRUNE_LOCK_TTL_SEC) (fun _ => ret false).

Definition older_than (before : Z) (n : Notification) : bool := n_createdAt n <? before.

(** A filter on an invalid date is refused by the client. *)
Definition doomed_ids (before : option Z) : M (list string) :=
  match before with
  | Some b => query (fun w => n_id <$> take PRUNE_CHUNK (find_many (older_than b) (notifications (db w))))
  | None => throw (JsError "PrismaClientValidationError")
  end.

Definition out_of_fuel : exn := JsError "out of fuel".

(** [for (;;)]; every round but the last deletes a row. *)
Fixpoint prune_loop (fuel : nat) (token : string) (before : option Z) : M unit :=
  match fuel with
  | O => throw out_of_fuel
  | S fuel =>
      let* held := renewPruneLock token in
      if negb held then ret tt
      else
        let* doomed := doomed_ids before in
        match doomed with
        | [] => ret tt
        | _ => do* drop_notifications (fun n => bool_decide (n_id n ∈ doomed)) in prune_loop fuel token before
        end
  end.

(** Rounds enough for the history there is. *)
Definition prune_fuel : M nat := fun w => (Ok (S (length (notifications (db w)))), w).

Definition pruneExpired (configured : number) : M unit :=
  let* token := acquireLock PRUNE_LOCK_KEY PRUNE_LOCK_TTL_SEC in
  match token with
  | None => ret tt
  | Some token =>
      let* at_ := get_now in
      let before := retention_cutoff configured at_ in
      let* fuel := prune_fuel in
      finally (prune_loop fuel token before) (do* releaseLock PRUNE_LOCK_KEY token in ret tt)
  end.

End Sweep.

(** ** Pinned cities *)

Record CreatePinnedCityDto := {
  cp_name : string;
  cp_country : option string;
  cp_admin1 : option string;
  cp_latitude : number;
  cp_longitude : number;
}.

Record PinnedCityResponse := {
  pcr_id : string;
  pcr_name : string;
  pcr_country : option string;
  pcr_admin1 : option string;
  pcr_latitude : number;
  pcr_longitude : number;
  pcr_order : Z;
  pcr_createdAt : Z;
}.

Definition toPinnedCityResponse (row : PinnedCity) : PinnedCityResponse :=
  {| pcr_id := pc_id row; pcr_name := pc_name row; pcr_country := pc_country row; pcr_admin1 := pc_admin1 row;
     pcr_latitude := pc_latitude row; pcr_longitude := pc_longitude row; pcr_order := pc_order row; pcr_createdAt := pc_createdAt row |}.

Definition pinned_by (userId : string) (c : PinnedCity) : bool := bool_decide (pc_userId c = userId).

(** [orderBy: [{ order: 'asc' }, { createdAt: 'asc' }]]: sorting is stable. *)
Definition findAll_cities (userId : string) : M (list PinnedCityResponse) :=
  let* rows := query (fun w => order_asc pc_order (order_asc pc_createdAt (find_many (pinned_by userId) (pinnedCities (db w))))) in
  ret (map toPinnedCityResponse rows).

Definition MAX_PINNED_PER_USER : nat := maxPinnedCities API_LIMITS.

(** The unique index [[userId, latitude, longitude]]. *)
Definition same_pin (userId : string) (latitude longitude : number) (c : PinnedCity) : bool :=
  bool_decide (pc_userId c = userId) && Num.eqb (pc_latitude c) latitude && Num.eqb (pc_longitude c) longitude.

Section Pins.
Context `{UuidSupply}.

Definition new_pin (id userId : string) (dto : CreatePinnedCityDto) (order at_ : Z) : PinnedCity :=
  {| pc_id := id; pc_userId := userId; pc_name := cp_name dto; pc_country := cp_country dto; pc_admin1 := cp_admin1 dto;
     pc_latitude := cp_latitude dto; pc_longitude := cp_longitude dto; pc_order := order; pc_createdAt := at_ |}.

Definition insert_pin (userId : string) (dto : CreatePinnedCityDto) (order : Z) : M PinnedCity :=
  io (fun w =>
    let row := new_pin (uuid (uuids w)) userId dto order (now w) in
    match create (same_pin userId (cp_latitude dto) (cp_longitude dto)) row (pinnedCities (db w)) with
    | None => (inr UniqueViolation, w)
    | Some t =>
        if existsb (has_id userId) (users (db w))
        then (inl row, set_uuids (S (uuids w)) (set_db (set_pinnedCities t (db w)) w))
        else (inr (JsError "P2003"), w)
    end).

Definition create_city (userId : string) (dto : CreatePinnedCityDto) : M PinnedCityResponse :=
  let* count := query (fun w => count_where (pinned_by userId) (pinnedCities (db w))) in
  if (MAX_PINNED_PER_USER <=? count)%nat
  then throw (BadRequest ("Pinned city limit reached (max " +:+ pretty MAX_PINNED_PER_USER +:+ ")"))
  else
    catch
      (let* created := insert_pin userId dto (Z.of_nat count) in ret (toPinnedCityResponse created))
      (fun err => match err with UniqueViolation => throw (BadRequest "City is already pinned") | _ => throw err end).

Definition remove_city (userId id : string) : M string :=
  do* exec (fun w => set_db (set_pinnedCities
        (delete_many (fun c => bool_decide (pc_id c = id) && pinned_by userId c) (pinnedCities (db w))).1 (db w)) w) in
  ret id.

End Pins.

(** ** What the sweep does *)

Section SweepProps.
Context `{UuidSupply}.

Definition history (w : World) : list Notification := notifications (db w).

(** Rows are only removed, and none that is recent enough. *)
Definition history_shrinks (recent : Notification -> Prop) (w w' : World) : Prop :=
  NoDup (n_id <$> history w) ->
  NoDup (n_id <$> history w') /\ history w' `sublist_of` history w /\ forall n, n ∈ history w -> recent n -> n ∈ history w'.

Lemma history_same recent w w' : notifications (db w') = notifications (db w) -> history_shrinks recent w w'.
Proof. intros Hn Hnd. unfold history. by rewrite Hn. Qed.

#[global] Instance history_shrinks_order recent : WorldOrder (history_shrinks recent).
Proof.
  split; [split|].
  - intros w. by apply history_same.
  - intros w1 w2 w3 H12 H23 Hnd. destruct (H12 Hnd) as (Hnd2 & Hs2 & Hk2). destruct (H23 Hnd2) as (Hnd3 & Hs3 & Hk3).
    split_and!; [done|by etrans|auto].
  - intros w. apply history_same. by destruct (tick_spec w) as (_ & _ & _ & -> & _).
Qed.

#[global] Instance history_shrinks_redis recent : IgnoresRedis (history_shrinks recent).
Proof. split; [intros w w' (r & ->)|intros w n _]; by apply history_same. Qed.

Lemma keeps_renewPruneLock R `{!WorldOrder R} `{!IgnoresRedis R} token : keeps R (renewPruneLock token).
Proof. unfold renewPruneLock. keeps_tac. apply keeps_redis_io; [done..|]. intros w. apply EXTEND_redis_only. Qed.

Lemma drop_shrinks recent (ids : list string) w :
  NoDup (n_id <$> history w) -> (forall n, n ∈ history w -> recent n -> n_id n ∉ ids) ->
  let w' := set_db (set_notifications (delete_many (fun n => bool_decide (n_id n ∈ ids)) (history w)).1 (db w)) w in
  NoDup (n_id <$> history w') /\ history w' `sublist_of` history w /\ forall n, n ∈ history w -> recent n -> n ∈ history w'.
Proof.
  intros Hnd Hids. split_and!.
  - eapply sublist_NoDup; [exact Hnd|]. apply fmap_sublist, find_many_sublist.
  - apply find_many_sublist.
  - intros n Hin Hr. apply elem_of_delete_many. split; [done|]. by apply bool_decide_false, Hids.
Qed.

(** What a round read before it deletes. *)
Lemma doomed_Ok b ids w w1 :
  doomed_ids (Some b) w = (Ok ids, w1) ->
  db w1 = db w /\ ids = n_id <$> take PRUNE_CHUNK (find_many (older_than b) (history w)).
Proof.
  intros Hq. destruct (tick_spec w) as (_ & _ & _ & Hdb & _). apply io_effect in Hq as [[_ Hno]|[-> Hok]]; [by destruct (Hno ids)|].
  specialize (Hok ids eq_refl). cbn in Hok. unfold history. rewrite Hdb in *. by injection Hok as <-.
Qed.

(** A row that is not old is not among the doomed. *)
Lemma doomed_old b w n :
  NoDup (n_id <$> history w) -> n ∈ history w -> b <= n_createdAt n ->
  n_id n ∉ n_id <$> take PRUNE_CHUNK (find_many (older_than b) (history w)).
Proof.
  intros Hnd Hin Hr (n' & Heq & Hin')%list_elem_of_fmap.
  apply (subseteq_take PRUNE_CHUNK), elem_of_find_many in Hin' as [Hin' Hold].
  assert (n = n') as <- by by eapply (key_unique n_id). unfold older_than in Hold. lia.
Qed.

Lemma prune_loop_shrinks fuel token before :
  keeps (history_shrinks (fun n => forall b, before = Some b -> b <= n_createdAt n)) (prune_loop fuel token before).
Proof.
  induction fuel as [|fuel IH]; cbn [prune_loop]; [apply keeps_throw, _|].
  apply keeps_bind; [apply _|apply keeps_renewPruneLock; apply _|]. intros []; [|apply keeps_ret, _].
  destruct before as [b|]; [|intros w; reflexivity]. intros w. apply (bind_run (history_shrinks _)); [apply (keeps_query (history_shrinks _))|]. intros ids w1 Hd.
  apply doomed_Ok in Hd as [Hdb Hids]. destruct ids as [|id ids]; [apply (keeps_ret (history_shrinks _))|].
  apply (bind_run (history_shrinks _)); [|intros n w2 _; apply IH].
  intros Hnd. destruct (tick_spec w1) as (_ & _ & _ & Ht & _).
  destruct (drop_notifications _ w1) as [r w'] eqn:E. apply io_effect in E as [[-> _]|[-> _]].
  { by apply (wo_tick (R:=history_shrinks _)). }
  cbn [snd]. unfold history in *. rewrite Ht. apply (drop_shrinks _ (id :: ids) (set_db (db w1) (tick w1))); [done|].
  cbn. intros n Hin Hr. rewrite Hids, <- Hdb. apply doomed_old; [done|done|by apply Hr].
Qed.

(** Every round that goes on has deleted a row. *)
Lemma drop_doomed_fewer b w n w' :
  find_many (older_than b) (history w) <> [] ->
  drop_notifications (fun n => bool_decide (n_id n ∈ n_id <$> take PRUNE_CHUNK (find_many (older_than b) (history w)))) w = (Ok n, w') ->
  (length (history w') < length (history w))%nat.
Proof.
  intros Hne Hd. destruct (tick_spec w) as (_ & _ & _ & Ht & _). apply io_effect in Hd as [[_ Hno]|[-> _]]; [by destruct (Hno n)|].
  unfold history at 1. cbn [snd db set_db notifications set_notifications]. rewrite Ht. fold (history w).
  set (ids := n_id <$> _). destruct (find_many (older_than b) (history w)) as [|x l] eqn:E; [done|].
  assert (x ∈ history w) as Hx by (apply (elem_of_find_many (older_than b)); rewrite E; by left).
  assert (n_id x ∈ ids) as Hid by (apply list_elem_of_fmap_2; unfold PRUNE_CHUNK; by left).
  clear E. induction (history w) as [|y h IH]; [by apply elem_of_nil in Hx|]. cbn.
  assert (length (List.filter (fun n => negb (bool_decide (n_id n ∈ ids))) h) <= length h)%nat as Hle by apply sublist_length, find_many_sublist.
  apply elem_of_cons in Hx as [<-|Hx]; [rewrite bool_decide_true by done; cbn; lia|].
  specialize (IH Hx). cbn in IH. destruct (bool_decide _); cbn; lia.
Qed.

Lemma renew_db token w r w1 : renewPruneLock token w = (r, w1) -> db w1 = db w.
Proof. intros Hr. pose proof (keeps_renewPruneLock same_db token w) as Hk. by rewrite Hr in Hk. Qed.

Lemma renew_total token w e : (renewPruneLock token w).1 <> Throw e.
Proof. unfold renewPruneLock, catch. by destruct (extendLock _ _ _ w) as [[]]. Qed.

Lemma io_no_fuel {A} (op : World -> (A + exn) * World) w :
  (forall w, (op w).1 <> inr out_of_fuel) -> (io op w).1 <> Throw out_of_fuel.
Proof.
  intros Hop. unfold io. destruct (next_fault w) as [|c []|[]]; cbn; try discriminate.
  specialize (Hop (tick w)). destruct (op (tick w)) as [[] ?]; cbn in *; congruence.
Qed.

Lemma drop_no_fuel p w : (drop_notifications p w).1 <> Throw out_of_fuel.
Proof. by apply io_no_fuel. Qed.

Lemma doomed_no_fuel before w : (doomed_ids before w).1 <> Throw out_of_fuel.
Proof. destruct before; [by apply io_no_fuel|discriminate]. Qed.

Lemma prune_loop_total fuel token before w :
  (length (history w) < fuel)%nat -> (prune_loop fuel token before w).1 <> Throw out_of_fuel.
Proof.
  revert w. induction fuel as [|fuel IH]; intros w Hlen; [lia|]. cbn [prune_loop]. unfold bind at 1.
  pose proof (renew_total token w) as Hnt. pose proof (renew_db token w) as Hdb.
  destruct (renewPruneLock token w) as [[held|e|] w1]; [|by destruct (Hnt e)|done]. specialize (Hdb _ _ eq_refl).
  destruct held; cbn [negb]; [|done]. destruct before as [b|]; [|done]. unfold bind at 1.
  pose proof (doomed_no_fuel (Some b) w1) as Hq. destruct (doomed_ids (Some b) w1) as [[ids|e|] w2] eqn:Hd; [|cbn; intros [= ->]; by apply Hq|done].
  apply doomed_Ok in Hd as [Hdb2 Hids]. destruct ids as [|id ids]; [done|]. rewrite Hids. unfold bind at 1.
  assert (history w1 = history w2) as Hh by (unfold history; by rewrite Hdb2). rewrite Hh in *.
  set (p := fun n => bool_decide _).
  pose proof (drop_no_fuel p w2) as Hx. destruct (drop_notifications p w2) as [[n|e|] w3] eqn:Hdrop; [|cbn; intros [= ->]; by apply Hx|done].
  apply IH. apply drop_doomed_fewer in Hdrop; [unfold history in *; rewrite Hdb2, Hdb in Hdrop; lia|].
  intros Hnil. by rewrite Hnil in Hids.
Qed.

(** Time only moves on. *)
Definition later (w w' : World) : Prop := now w <= now w'.

#[local] Instance later_order : WorldOrder later.
Proof.
  unfold later. split; [split|].
  - by intros w.
  - intros w1 w2 w3 H12 H23. lia.
  - intros w. by destruct (tick_spec w).
Qed.

#[local] Instance later_redis : IgnoresRedis later.
Proof. split; [intros w w' (r & ->)|intros w n _]; unfold later; cbn; lia. Qed.

Lemma prune_loop_later fuel token before : keeps later (prune_loop fuel token before).
Proof.
  induction fuel as [|fuel IH]; cbn [prune_loop]; [apply (keeps_throw later)|].
  assert (forall p, keeps later (drop_notifications p)) as Hd by (intros p; apply keeps_io; [apply _|intros w; unfold later; cbn; lia]).
  unfold doomed_ids. keeps_tac; [apply keeps_renewPruneLock; apply _|done..].
Qed.

Definition give_back (token : string) : M unit := do* releaseLock PRUNE_LOCK_KEY token in ret tt.

Lemma give_back_no_fuel token w : (give_back token w).1 <> Throw out_of_fuel.
Proof.
  unfold give_back, bind. pose proof (io_no_fuel (fun w => let r := RELEASE_IF_OWNED PRUNE_LOCK_KEY token w in (inl r.1, r.2)) w) as Hx.
  unfold releaseLock. destruct (io _ w) as [[]]; cbn in *; [done|intros [= ->]; by apply Hx|done].
Qed.

(** What becomes of a sweep that has the lock. *)
Lemma locked_sweep fuel token before w :
  (length (history w) < fuel)%nat -> NoDup (n_id <$> history w) ->
  let r := finally (prune_loop fuel token before) (give_back token) w in
  r.1 <> Throw out_of_fuel /\ now w <= now r.2 /\ history r.2 `sublist_of` history w /\
  forall n, n ∈ history w -> n ∉ history r.2 -> exists b, before = Some b /\ n_createdAt n < b.
Proof.
  intros Hlen Hnd r. subst r. set (recent := fun n => forall b, before = Some b -> b <= n_createdAt n).
  assert (keeps (history_shrinks recent) (finally (prune_loop fuel token before) (give_back token))) as Hk.
  { apply keeps_finally; [apply _|apply prune_loop_shrinks|unfold give_back; keeps_tac]. }
  assert (keeps later (finally (prune_loop fuel token before) (give_back token))) as Hl.
  { apply keeps_finally; [apply _|apply prune_loop_later|unfold give_back; keeps_tac]. }
  destruct (Hk w Hnd) as (_ & Hsub & Hkeep). split_and!; [|apply Hl|exact Hsub|].
  - pose proof (prune_loop_total fuel token before w Hlen) as Htot. unfold finally.
    destruct (prune_loop fuel token before w) as [r w2]. cbn in Htot. pose proof (give_back_no_fuel token w2) as Hfin.
    destruct r as [u|e|]; [| |done]; destruct (give_back token w2) as [[]]; cbn in *; congruence.
  - intros n Hin Hout. destruct before as [b|].
    + exists b. split; [done|]. destruct (Z.lt_ge_cases (n_createdAt n) b) as [|Hge]; [done|]. destruct Hout. apply Hkeep; [done|]. by intros ? [= <-].
    + destruct Hout. by apply Hkeep.
Qed.

Lemma acquire_no_fuel key ttl w : (acquireLock key ttl w).1 <> Throw out_of_fuel.
Proof.
  unfold acquireLock, bind, randomUUID.
  pose proof (io_no_fuel (cmd_set_nx key (RText (uuid (uuids w))) ttl) (set_uuids (S (uuids w)) w)) as Hx.
  destruct (io _ _) as [[b|e|] w0]; cbn in *; [done| |done]. intros [= ->]. apply Hx; [|done].
  intros w'. unfold cmd_set_nx. destruct (ttl <=? 0); [done|]. by destruct (peek _ w').
Qed.

(** C29. The nightly sweep always ends, and whatever fails while it runs it
    only removes rows, and only expired ones: a notification that is gone was
    older than the retention window counted back from a moment within the
    run. *)
Theorem prune_ends_and_spares_recent configured w :
  NoDup (n_id <$> history w) ->
  let r := pruneExpired configured w in
  r.1 <> Throw out_of_fuel /\ history r.2 `sublist_of` history w /\
  forall n, n ∈ history w -> n ∉ history r.2 ->
    exists at_ b, now w <= at_ <= now r.2 /\ retention_cutoff configured at_ = Some b /\ n_createdAt n < b.
Proof.
  intros Hnd. pose proof (acquire_no_fuel PRUNE_LOCK_KEY PRUNE_LOCK_TTL_SEC w) as Ho.
  pose proof (keeps_acquireLock same_db PRUNE_LOCK_KEY PRUNE_LOCK_TTL_SEC w) as Hdb.
  pose proof (keeps_acquireLock later PRUNE_LOCK_KEY PRUNE_LOCK_TTL_SEC w) as Hn.
  cbn zeta. assert (pruneExpired configured w = match acquireLock PRUNE_LOCK_KEY PRUNE_LOCK_TTL_SEC w with
    | (Ok (Some token), w1) =>
        finally (prune_loop (S (length (history w1))) token (retention_cutoff configured (now w1))) (give_back token) w1
    | (Ok None, w1) => (Ok tt, w1)
    | (Throw e, w1) => (Throw e, w1)
    | (Crash, w1) => (Crash, w1)
    end) as -> by (unfold pruneExpired, bind at 1; by destruct (acquireLock _ _ w) as [[[]| |] w1]).
  destruct (acquireLock _ _ w) as [o w1]. unfold same_db, later in *. cbn [fst snd] in *.
  assert (history w1 = history w) as Hh by (unfold history; by rewrite Hdb).
  destruct o as [[token|]|e|]; cycle 1.
  1-3: cbn [fst snd ret]; rewrite ?Hh; split_and!; [discriminate || (intros [= ->]; by apply Ho)|reflexivity|by intros n Hin []].
  destruct (locked_sweep (S (length (history w1))) token (retention_cutoff configured (now w1)) w1) as (Hend & Hl & Hsub & Hgone);
    [lia|by rewrite Hh|]. rewrite <- Hh.
  split_and!; [exact Hend|exact Hsub|]. intros n Hin Hout. destruct (Hgone n Hin Hout) as (b & Hb & Hlt).
  exists (now w1), b. by split_and!.
Qed.

(** The lock in the hands of [token], and calls that answer. *)
Definition holding (token : string) (w : World) : Prop :=
  oracle w = [] /\ exists d, redis w !! PRUNE_LOCK_KEY = Some {| e_value := RText token; e_expiresAt := Some d |} /\ now w < d.

Lemma holding_owned token w : holding token w -> owned PRUNE_LOCK_KEY token w = true.
Proof.
  intros (_ & d & Hk & Hlt). unfold owned, cmd_get, peek. rewrite Hk. unfold expired. cbn.
  replace (d <=? now w) with false by lia. by apply bool_decide_true.
Qed.

Lemma renew_holds token w :
  holding token w -> exists w', renewPruneLock token w = (Ok true, w') /\ holding token w' /\ db w' = db w /\ now w' = now w.
Proof.
  intros Hh. pose proof (holding_owned token w Hh) as Hown. destruct Hh as (Ho & d & Hk & Hlt).
  exists (put PRUNE_LOCK_KEY (RText token) (Some (now w + PRUNE_LOCK_TTL_SEC * 1000)) w). split_and!; [|split; [done|]|done|done].
  - unfold renewPruneLock. apply catch_ok, io_ok; [done|]. unfold EXTEND_IF_OWNED. rewrite Hown. cbn [fst snd].
    unfold cmd_pexpire, peek. rewrite Hk. unfold expired. cbn. by replace (d <=? now w) with false by lia.
  - eexists. split; [apply lookup_insert_eq|]. cbn. unfold PRUNE_LOCK_TTL_SEC. lia.
Qed.

Definition kept (b : Z) (h : list Notification) : list Notification := find_many (fun n => negb (older_than b n)) h.

Lemma kept_after_drop b w :
  NoDup (n_id <$> history w) ->
  kept b (find_many (fun n => negb (bool_decide (n_id n ∈ n_id <$> take PRUNE_CHUNK (find_many (older_than b) (history w))))) (history w)) =
  kept b (history w).
Proof.
  intros Hnd. unfold kept. rewrite find_many_find_many. apply find_many_ext. intros n Hin.
  destruct (older_than b n) eqn:Hold; [by rewrite andb_false_r|]. rewrite bool_decide_false; [done|].
  apply doomed_old; [done|done|]. unfold older_than in Hold. lia.
Qed.

Lemma prune_loop_sweeps fuel token b w :
  holding token w -> NoDup (n_id <$> history w) -> (length (history w) < fuel)%nat ->
  exists w', prune_loop fuel token (Some b) w = (Ok tt, w') /\ holding token w' /\ history w' = kept b (history w).
Proof.
  revert w. induction fuel as [|fuel IH]; intros w Hh Hnd Hlen; [lia|]. cbn [prune_loop].
  destruct (renew_holds token w Hh) as (w1 & Hr & Hh1 & Hdb & _). erewrite bind_ok by exact Hr. cbn [negb doomed_ids].
  assert (history w1 = history w) as Heq by (unfold history; by rewrite Hdb).
  erewrite bind_ok by (apply query_ok; apply Hh1). fold (history w1). rewrite Heq.
  destruct (find_many (older_than b) (history w)) as [|x l] eqn:E.
  { exists w1. rewrite take_nil. split_and!; [done|done|]. rewrite Heq. symmetry. apply find_many_all. intros n Hin.
    destruct (older_than b n) eqn:Hold; [|done]. assert (n ∈ find_many (older_than b) (history w)) as Hn by by apply elem_of_find_many.
    rewrite E in Hn. by apply elem_of_nil in Hn. }
  rewrite <- E. set (ids := n_id <$> take PRUNE_CHUNK _). assert (exists i is_, ids = i :: is_) as (i & is_ & Hids).
  { unfold ids. rewrite E. unfold PRUNE_CHUNK. destruct (N.to_nat 5000) eqn:HN; [lia|]. cbn. eauto. }
  assert (match ids with [] => ret tt | _ => do* drop_notifications (fun n => bool_decide (n_id n ∈ ids)) in prune_loop fuel token (Some b) end =
    (do* drop_notifications (fun n => bool_decide (n_id n ∈ ids)) in prune_loop fuel token (Some b))) as -> by by rewrite Hids.
  set (w2 := set_db (set_notifications (delete_many (fun n => bool_decide (n_id n ∈ ids)) (history w1)).1 (db w1)) w1).
  assert (drop_notifications (fun n => bool_decide (n_id n ∈ ids)) w1 =
          (Ok (delete_many (fun n => bool_decide (n_id n ∈ ids)) (history w1)).2, w2)) as Hdrop by (apply io_ok; [apply Hh1|done]).
  erewrite bind_ok by exact Hdrop.
  assert (history w2 = find_many (fun n => negb (bool_decide (n_id n ∈ ids))) (history w)) as Hh2 by (unfold w2; cbn; by rewrite Heq).
  destruct (IH w2) as (w' & Hrun & Hhold & Hrest).
  - destruct Hh1 as (Ho & d & Hk & Hlt). split; [done|]. by exists d.
  - rewrite Hh2. eapply sublist_NoDup; [exact Hnd|]. apply fmap_sublist, find_many_sublist.
  - unfold ids in Hdrop. rewrite <- Heq in Hdrop. apply drop_doomed_fewer in Hdrop; [rewrite Heq in Hdrop; lia|]. by rewrite Heq, E.
  - exists w'. split_and!; [done|done|]. rewrite Hrest, Hh2. by apply kept_after_drop.
Qed.

(** When calls answer and nobody else is sweeping, one run removes
    exactly the notifications older than the retention window, however many
    chunks that takes, and gives the lock back. *)
Theorem prune_sweeps_history configured b w :
  oracle w = [] -> peek PRUNE_LOCK_KEY w = None -> NoDup (n_id <$> history w) ->
  retention_cutoff configured (now w) = Some b ->
  exists w', pruneExpired configured w = (Ok tt, w') /\
    history w' = find_many (fun n => b <=? n_createdAt n) (history w) /\ redis w' !! PRUNE_LOCK_KEY = None.
Proof.
  intros Ho Hp Hnd Hb. unfold pruneExpired. set (token := uuid (uuids w)).
  set (w1 := put PRUNE_LOCK_KEY (RText token) (Some (now w + PRUNE_LOCK_TTL_SEC * 1000)) (set_uuids (S (uuids w)) w)).
  assert (acquireLock PRUNE_LOCK_KEY PRUNE_LOCK_TTL_SEC w = (Ok (Some token), w1)) as Hacq.
  { unfold acquireLock, bind at 1, randomUUID. fold token. erewrite bind_ok; cycle 1.
    - apply io_ok; [done|]. unfold cmd_set_nx. cbn -[put]. change (peek PRUNE_LOCK_KEY (set_uuids (S (uuids w)) w)) with (peek PRUNE_LOCK_KEY w).
      by rewrite Hp.
    - done. }
  erewrite bind_ok by exact Hacq. unfold bind at 1 2, get_now, prune_fuel. change (now w1) with (now w). rewrite Hb.
  assert (holding token w1) as Hh1 by (split; [done|]; eexists; split; [apply lookup_insert_eq|cbn; unfold PRUNE_LOCK_TTL_SEC; lia]).
  destruct (prune_loop_sweeps (S (length (history w1))) token b w1 Hh1) as (w2 & Hrun & Hh2 & Hrest); [done|lia|].
  pose proof (holding_owned token w2 Hh2) as Hown. exists (cmd_del PRUNE_LOCK_KEY w2). split_and!.
  - eapply finally_ok; [exact Hrun|]. erewrite bind_ok; [reflexivity|]. apply io_ok; [apply Hh2|].
    unfold RELEASE_IF_OWNED. by rewrite Hown.
  - change (history (cmd_del PRUNE_LOCK_KEY w2)) with (history w2). rewrite Hrest. apply find_many_ext. intros n _.
    unfold older_than. by rewrite Z.leb_antisym.
  - apply lookup_delete_eq.
Qed.

End SweepProps.

(** ** What the pins keep *)

Section PinProps.
Context `{UuidSupply}.

(** A later pin is of another user or of another place. *)
Fixpoint distinct_pins (l : list PinnedCity) : Prop :=
  match l with
  | [] => True
  | c :: l => Forall (fun c' => same_pin (pc_userId c') (pc_latitude c') (pc_longitude c') c = false) l /\ distinct_pins l
  end.

Lemma distinct_pins_sublist l l' : l `sublist_of` l' -> distinct_pins l' -> distinct_pins l.
Proof.
  induction 1 as [|c l l' Hs IH|c l l' Hs IH]; cbn; [done|intros [Hc Hl]..]; [|auto].
  split; [|auto]. rewrite Forall_forall in *. intros x Hx. apply Hc. by eapply elem_of_sublist.
Qed.

Lemma distinct_pins_snoc l c :
  distinct_pins l -> Forall (fun x => same_pin (pc_userId c) (pc_latitude c) (pc_longitude c) x = false) l -> distinct_pins (l ++ [c]).
Proof.
  induction l as [|x l IH]; cbn; [done|]. intros [Hx Hl] [Hc Hall]%Forall_cons. split; [|auto].
  apply Forall_app. split; [done|]. by apply Forall_singleton.
Qed.

(** No more than twelve per user, and a place at most once. *)
Definition pins_ok (w : World) : Prop :=
  (forall userId, (count_where (pinned_by userId) (pinnedCities (db w)) <= MAX_PINNED_PER_USER)%nat) /\
  distinct_pins (pinnedCities (db w)).

Definition keeps_pins (w w' : World) : Prop := pins_ok w -> pins_ok w'.

Lemma pins_same w w' : pinnedCities (db w') = pinnedCities (db w) -> keeps_pins w w'.
Proof. intros Hp. unfold keeps_pins, pins_ok. by rewrite Hp. Qed.

#[global] Instance keeps_pins_order : WorldOrder keeps_pins.
Proof.
  split; [split|].
  - intros w Hw. exact Hw.
  - intros w1 w2 w3 H12 H23 Hw. auto.
  - intros w. apply pins_same. by destruct (tick_spec w) as (_ & _ & _ & -> & _).
Qed.

Lemma insert_pin_ok userId dto order w :
  pins_ok w -> (count_where (pinned_by userId) (pinnedCities (db w)) < MAX_PINNED_PER_USER)%nat ->
  pins_ok (insert_pin userId dto order w).2.
Proof.
  intros Hok Hcount. destruct (tick_spec w) as (_ & _ & _ & Ht & _).
  assert (pins_ok (tick w)) as Hokt by by apply (wo_tick (R:=keeps_pins)).
  destruct (insert_pin userId dto order w) as [r w'] eqn:E. apply io_effect in E as [[-> _]|[-> _]]; [done|]. cbn [snd].
  destruct (create _ _ _) as [t|] eqn:Hc; [|done]. destruct (existsb _ _); [|done]. apply create_Some in Hc as [Hfree ->].
  rewrite Ht in *. destruct Hok as [Hlim Huniq]. split; cbn.
  - intros u. specialize (Hlim u). unfold count_where in *. rewrite List.filter_app, length_app. cbn [List.filter].
    destruct (pinned_by u (new_pin _ _ _ _ _)) eqn:Hu; cbn in *; [|lia]. apply bool_decide_eq_true in Hu. cbn in Hu. subst u. lia.
  - by apply distinct_pins_snoc.
Qed.

Lemma create_city_pins userId dto : keeps keeps_pins (create_city userId dto).
Proof.
  intros w. unfold create_city. apply (bind_run keeps_pins); [apply (keeps_query keeps_pins)|]. intros n w1 Hq.
  destruct (Nat.leb_spec MAX_PINNED_PER_USER n) as [|Hlt]; [apply (keeps_throw keeps_pins)|].
  intros Hok. destruct (tick_spec w) as (_ & _ & _ & Ht & _). apply io_effect in Hq as [[_ Hno]|[-> Hval]]; [by destruct (Hno n)|].
  specialize (Hval n eq_refl). cbn in Hval. injection Hval as <-. cbn [snd] in *.
  unfold catch, bind. pose proof (insert_pin_ok userId dto (Z.of_nat (count_where (pinned_by userId) (pinnedCities (db (tick w))))) (tick w) Hok Hlt) as Hins.
  destruct (insert_pin _ _ _ (tick w)) as [[row|e|] w2]; [done| |done]. by destruct e.
Qed.

Lemma remove_city_pins userId id : keeps keeps_pins (remove_city userId id).
Proof.
  unfold remove_city. keeps_tac. apply keeps_exec; [apply _|]. intros w [Hlim Huniq]. split; cbn -[delete_many].
  - intros u. etrans; [|exact (Hlim u)]. apply count_where_sublist, find_many_sublist.
  - eapply distinct_pins_sublist, Huniq. apply find_many_sublist.
Qed.

(** Whatever a user pins and unpins, with whatever faults, the list stays
    within its limit and names no place twice. *)
Theorem pins_stay_ok userId (ops : list (CreatePinnedCityDto + string)) w :
  pins_ok w ->
  pins_ok (fold_left (fun w op => match op with inl dto => (create_city userId dto w).2 | inr id => (remove_city userId id w).2 end) ops w).
Proof.
  revert w. induction ops as [|op ops IH]; intros w Hw; [done|]. cbn. apply IH. destruct op; [by apply create_city_pins|by apply remove_city_pins].
Qed.

End PinProps.

(** ** Concrete runs *)

Definition note (id : string) (at_ : Z) : Notification :=
  {| n_id := id; n_eventId := Some id; n_triggerId := None; n_userId := "u1"; n_channel := EMAIL; n_status := SENT;
     n_payload := sample_event id; n_error := None; n_claimedAt := None; n_deliveredTo := []; n_createdAt := at_ |}.

(** A hundred days in, the retention setting absent. *)
Definition history_world : World :=
  (sleep 8640000000 (set_db (set_notifications [note "a" 5; note "b" 863999999; note "c" 864000000; note "d" 8000000000] empty_db) empty_world)).2.

Definition not_set : number := SpecFloat.S754_nan.

Lemma history_world_ids : NoDup (n_id <$> history history_world).
Proof. cbn. repeat constructor; rewrite ?elem_of_cons, ?elem_of_nil; intuition congruence. Qed.

Lemma prune_sweeps_history_witness :
  exists w', pruneExpired (H:=sample_uuids) not_set history_world = (Ok tt, w') /\
    n_id <$> history w' = ["c"; "d"] /\ redis w' !! PRUNE_LOCK_KEY = None.
Proof.
  destruct (prune_sweeps_history (H:=sample_uuids) not_set 864000000 history_world) as (w' & Hrun & Hrest & Hlock);
    [reflexivity|reflexivity|exact history_world_ids|vm_compute; reflexivity|].
  exists w'. split_and!; [exact Hrun|rewrite Hrest; vm_compute; reflexivity|exact Hlock].
Defined.

(** The second deletion never answers. *)
Definition failing_history : World :=
  {| now := 8640000000; uuids := 0; oracle := [ {| k_elapsed := 0; k_fault := Fine |}; {| k_elapsed := 0; k_fault := Fine |};
       {| k_elapsed := 0; k_fault := Fine |}; {| k_elapsed := 5; k_fault := Die true |} ]; db := db history_world; redis := ∅;
     broker := broker history_world; delivered := [] |}.

Lemma prune_ends_and_spares_recent_witness :
  let r := pruneExpired (H:=sample_uuids) not_set failing_history in
  r.1 <> Throw out_of_fuel /\ history r.2 `sublist_of` history failing_history /\
  forall n, n ∈ history failing_history -> n ∉ history r.2 ->
    exists at_ b, now failing_history <= at_ <= now r.2 /\ retention_cutoff not_set at_ = Some b /\ n_createdAt n < b.
Proof. apply (prune_ends_and_spares_recent (H:=sample_uuids)). exact history_world_ids. Defined.
