(* ===== verification/TelegramBot.v ===== *)
(** * The Telegram bot ([apps/core-api/src/users/telegram-bot.service.ts])

    One replica at a time long-polls for updates, handles each, and stores in
    Redis how far it got. What the Bot API serves is a parameter. *)

From stdpp Require Import sorting.
From S2P Require Import Prelude JsNumber JsParse Enums Contracts Table World Samples Effects RedisService Outbox Format Crypto Auth Triggers Users.
From Stdlib Require Import Ascii.

(** ** Cursors ([libs/common/src/redis/redis.service.ts]) *)

(** Only [setCursor] writes these keys: the value is the text of an integer. *)
Definition getCursor (key : string) : M (option Z) :=
  query (fun w => match cmd_get key w with Some (RInt n) => Some n | _ => None end).

Definition setCursor (key : string) (value : Z) : M unit := exec (put key (RInt value) None).

(** ** Updates *)

Record TelegramMessageIn := { tm_chat : Z; tm_text : option string }.
Record TelegramUpdate := { tu_id : Z; tu_message : option TelegramMessageIn }.

Definition LONG_POLL_SEC : Z := 30.
Definition POLL_LOCK_KEY : string := "core-api:telegram:poller".
Definition POLL_LOCK_TTL_SEC : Z := 90.
Definition POLL_OFFSET_KEY : string := "core-api:telegram:offset".
Definition LEADER_RETRY_MS : Z := 15000.
Definition MIN_PASS_MS : Z := 1000.

(** The text up to, and from, the first white space. *)
Fixpoint word (s : string) : string :=
  match s with String c s' => if is_space c then "" else String c (word s') | EmptyString => "" end.
Fixpoint after_word (s : string) : string :=
  match s with String c s' => if is_space c then s else after_word s' | EmptyString => "" end.

(** [text.split(/\s+/)[1]] of a trimmed text; nothing when there is no second
    part. *)
Definition second_word (s : string) : option string :=
  match word (trim_left (after_word s)) with "" => None | t => Some t end.

Fixpoint starts_with (p s : string) : bool :=
  match p, s with
  | EmptyString, _ => true
  | String a p', String b s' => bool_decide (a = b) && starts_with p' s'
  | _, _ => false
  end.

Definition GREETING : string :=
  "Hi! To receive weather notifications, open the " +:+ quoted "Settings" +:+ " section in Weather Notify and tap " +:+ quoted "Link Telegram." .
Definition LINKED : string := "✅ Telegram linked! You will now receive weather notifications here.".
Definition NOT_LINKED : string := "⚠️ The link is invalid or expired. Generate a new one in the Weather Notify settings.".

Section Bot.
Context `{UuidSupply} `{Crypto}.

Definition reply (chatId : Z) (text : string) : M unit :=
  exec (fun w => set_delivered (delivered w ++ [TelegramMessage (pretty chatId) text]) w).

Definition handle_update (update : TelegramUpdate) : M unit :=
  match tu_message update with
  | Some {| tm_chat := chatId; tm_text := Some raw |} =>
      let text := trim raw in
      if String.eqb text "" || negb (starts_with "/start" text) then ret tt
      else
        match second_word text with
        | None => reply chatId GREETING
        | Some linkToken =>
            let* bound := bindTelegram linkToken (pretty chatId) in
            reply chatId (if (bound : bool) then LINKED else NOT_LINKED)
        end
  | _ => ret tt
  end.

(** ** Polling *)

(** What a replica remembers. *)
Record BotState := { b_offset : Z; b_persistedOffset : Z }.

Definition bot_init : BotState := {| b_offset := 0; b_persistedOffset := 0 |}.

(** What the Bot API answers to a poll from an offset: [ok] and [result]. *)
Context (serve : World -> Z -> bool * list TelegramUpdate).

Definition getUpdates (b : BotState) : M (list TelegramUpdate) :=
  query (fun w => let data := serve w (b_offset b) in if data.1 then data.2 else []).

(** A handler that fails does not hold the offset back. *)
Fixpoint handle_all (b : BotState) (updates : list TelegramUpdate) : M BotState :=
  match updates with
  | [] => ret b
  | u :: rest =>
      do* catch (handle_update u) (fun _ => ret tt) in
      handle_all {| b_offset := tu_id u + 1; b_persistedOffset := b_persistedOffset b |} rest
  end.

Definition persistOffset (b : BotState) : M BotState :=
  if b_offset b =? b_persistedOffset b then ret b
  else catch (do* setCursor POLL_OFFSET_KEY (b_offset b) in ret {| b_offset := b_offset b; b_persistedOffset := b_offset b |})
             (fun _ => ret b).

Definition loadOffset (b : BotState) : M BotState :=
  catch (let* stored := getCursor POLL_OFFSET_KEY in
         ret (match stored with
              | Some n => if b_offset b <? n then {| b_offset := n; b_persistedOffset := n |} else b
              | None => b
              end))
        (fun _ => ret b).

Definition extendLease (lock : string) : M bool :=
  catch (extendLock POLL_LOCK_KEY lock POLL_LOCK_TTL_SEC) (fun _ => ret false).

(** One pass, and the updates it handled. Nothing after the poll itself
    rejects, so an error leaves the offset where it was. *)
Definition poll_pass (b : BotState) : M (BotState * list TelegramUpdate) :=
  catch (let* updates := getUpdates b in
         let* b' := handle_all b updates in
         let* b'' := persistOffset b' in
         ret (b'', updates))
        (fun _ => do* sleep 5000 in ret (b, [])).

(** The loop of a leader; [passes] is how many it begins before it is told to
    stop. *)
Fixpoint pollWhileLeader (passes : nat) (lock : string) (b : BotState) : M (BotState * list TelegramUpdate) :=
  match passes with
  | O => ret (b, [])
  | S passes =>
      let* startedAt := get_now in
      let* r := poll_pass b in
      let* held := extendLease lock in
      if negb held then ret r
      else
        let* at_ := get_now in
        do* (if at_ - startedAt <? MIN_PASS_MS then sleep (MIN_PASS_MS - (at_ - startedAt)) else ret tt) in
        let* rest := pollWhileLeader passes lock r.1 in
        ret (rest.1, r.2 ++ rest.2)
  end.

(** One round of the outer loop: stand by, or lead. *)
Definition lead (passes : nat) (b : BotState) : M (BotState * list TelegramUpdate) :=
  let* lock := catch (acquireLock POLL_LOCK_KEY POLL_LOCK_TTL_SEC) (fun _ => ret None) in
  match lock with
  | None => do* sleep LEADER_RETRY_MS in ret (b, [])
  | Some lock =>
      finally (let* b' := loadOffset b in pollWhileLeader passes lock b')
              (catch (do* releaseLock POLL_LOCK_KEY lock in ret tt) (fun _ => ret tt))
  end.

End Bot.

(** ** Updates are handled in order, none skipped *)

Section InOrder.
Context `{UuidSupply} `{Crypto} (serve : World -> Z -> bool * list TelegramUpdate).

(** Everything sent to the bot, with increasing identifiers. *)
Context (inbox : list TelegramUpdate).
Hypothesis inbox_sorted : StronglySorted (fun u v => tu_id u < tu_id v) inbox.

Definition pending (offset : Z) : list TelegramUpdate := find_many (fun u => offset <=? tu_id u) inbox.

(** The Bot API serves the earliest updates from the offset on. *)
Hypothesis serve_prefix : forall w offset l, serve w offset = (true, l) -> l `prefix_of` pending offset.

Definition end_offset (offset : Z) (l : list TelegramUpdate) : Z :=
  match last l with Some u => tu_id u + 1 | None => offset end.

Lemma sorted_app_last {A} (R : A -> A -> Prop) l1 x l2 y :
  StronglySorted R (l1 ++ [x] ++ l2) -> y ∈ l2 -> R x y.
Proof.
  induction l1 as [|a l1 IH]; cbn; intros Hs Hy; apply StronglySorted_inv in Hs as [Hs Hall]; [|auto].
  rewrite Forall_forall in Hall. by apply Hall.
Qed.

Lemma sorted_app_before {A} (R : A -> A -> Prop) l1 x l2 y :
  StronglySorted R (l1 ++ [x] ++ l2) -> y ∈ l1 -> R y x.
Proof.
  induction l1 as [|a l1 IH]; cbn; intros Hs Hy; [by apply elem_of_nil in Hy|]. apply StronglySorted_inv in Hs as [Hs Hall].
  apply elem_of_cons in Hy as [->|Hy]; [|auto]. rewrite Forall_forall in Hall. apply Hall. rewrite elem_of_app. set_solver.
Qed.

Lemma find_many_sorted {A} (R : A -> A -> Prop) p l : StronglySorted R l -> StronglySorted R (find_many p l).
Proof.
  unfold find_many. induction 1 as [|u l Hs IH Hall]; cbn; [constructor|]. destruct (p u); [|done].
  constructor; [done|]. rewrite Forall_forall in *. intros v Hv. apply Hall. by apply (elem_of_find_many p) in Hv as [? _].
Qed.

Lemma pending_sorted offset : StronglySorted (fun u v => tu_id u < tu_id v) (pending offset).
Proof. by apply find_many_sorted. Qed.

Lemma pending_later o o' : o <= o' -> pending o' = find_many (fun u => o' <=? tu_id u) (pending o).
Proof.
  intros Hle. unfold pending. rewrite find_many_find_many. apply find_many_ext. intros u _.
  destruct (Z.leb_spec o' (tu_id u)); [|by rewrite andb_false_r]. by replace (o <=? tu_id u) with true by lia.
Qed.

(** Past a batch the rest is pending. *)
Lemma pending_past o l : l `prefix_of` pending o -> pending o = l ++ pending (end_offset o l).
Proof.
  intros [r Hr]. pose proof (pending_sorted o) as Hs. unfold end_offset. destruct (last l) as [u|] eqn:Hl.
  2: { apply last_None in Hl as ->. done. }
  apply last_Some in Hl as [l' ->]. rewrite Hr in Hs. rewrite <- app_assoc in Hs.
  assert (o <= tu_id u) as Hou.
  { assert (u ∈ pending o) as Hu by (rewrite Hr; rewrite !elem_of_app; left; right; by apply list_elem_of_singleton).
    apply elem_of_find_many in Hu as [_ Hu]. lia. }
  rewrite (pending_later o (tu_id u + 1)) by lia. rewrite Hr. f_equal. rewrite !find_many_app.
  rewrite (find_many_none _ l'), (find_many_none _ [u]), find_many_all; [done|..].
  - intros v Hv. pose proof (sorted_app_last _ _ _ _ _ Hs Hv). cbn in *. lia.
  - intros v ->%list_elem_of_singleton. lia.
  - intros v Hv. pose proof (sorted_app_before _ _ _ _ _ Hs Hv). cbn in *. lia.
Qed.

Lemma handle_all_Ok b us w b' w' :
  handle_all b us w = (Ok b', w') -> b_offset b' = end_offset (b_offset b) us /\ b_persistedOffset b' = b_persistedOffset b.
Proof.
  revert b w. induction us as [|u us IH]; intros b w Hrun; [by injection Hrun as <- _|].
  apply bind_Ok in Hrun as ([] & w1 & _ & Hrun). apply IH in Hrun as [-> ->]. split; [|done].
  unfold end_offset. rewrite last_cons. by destruct (last us).
Qed.

Lemma persistOffset_Ok b w b' w' : persistOffset b w = (Ok b', w') -> b_offset b' = b_offset b.
Proof.
  unfold persistOffset, catch, bind. destruct (_ =? _); [by intros [= <- _]|].
  destruct (setCursor _ _ w) as [[]]; cbn; unfold ret; by intros [= <- _].
Qed.

Lemma getUpdates_Ok b w us w1 : getUpdates serve b w = (Ok us, w1) -> us `prefix_of` pending (b_offset b).
Proof.
  intros Hq. apply io_effect in Hq as [[_ Hno]|[-> Hok]]; [by destruct (Hno us)|]. specialize (Hok us eq_refl). cbn in Hok.
  injection Hok as <-. destruct (serve _ _) as [[] l] eqn:E; cbn; [by eapply serve_prefix|apply prefix_nil].
Qed.

Lemma poll_pass_Ok b w b' us w' :
  poll_pass serve b w = (Ok (b', us), w') -> pending (b_offset b) = us ++ pending (b_offset b').
Proof.
  unfold poll_pass, catch. intros Hrun. destruct (bind _ _ w) as [[r|e|] w1] eqn:E; [|by injection Hrun as <- <- _|done].
  injection Hrun as -> _. apply bind_Ok in E as (l & w2 & Hg & E). apply bind_Ok in E as (b1 & w3 & Hh & E).
  apply bind_Ok in E as (b2 & w4 & Hp & E). injection E as <- <- _.
  apply getUpdates_Ok in Hg. apply handle_all_Ok in Hh as [Hoff _]. apply persistOffset_Ok in Hp. rewrite Hp, Hoff. by apply pending_past.
Qed.

(** While one replica leads, updates are handled in the order they were
    sent, each exactly once and none skipped: however many passes it makes,
    whatever polls or handlers fail, what was pending when it began is what
    it handled followed by what is still pending when it stops. *)
Theorem updates_handled_in_order passes lock b w b' us w' :
  pollWhileLeader serve passes lock b w = (Ok (b', us), w') -> pending (b_offset b) = us ++ pending (b_offset b').
Proof.
  revert b w b' us w'. induction passes as [|passes IH]; intros b w b' us w' Hrun; [by injection Hrun as <- <- _|].
  cbn [pollWhileLeader] in Hrun. unfold bind at 1, get_now in Hrun. apply bind_Ok in Hrun as ([b1 us1] & w1 & Hpass & Hrun).
  apply poll_pass_Ok in Hpass. apply bind_Ok in Hrun as (held & w2 & _ & Hrun). cbn [fst snd] in Hrun.
  destruct held; cbn [negb] in Hrun; [|by injection Hrun as <- <- _]. unfold bind at 1 in Hrun.
  apply bind_Ok in Hrun as ([] & w3 & _ & Hrun). apply bind_Ok in Hrun as ([b2 us2] & w4 & Hrest & Hrun).
  apply IH in Hrest. injection Hrun as <- <- _. by rewrite Hpass, Hrest, app_assoc.
Qed.

(** ** The stored offset *)

Definition same_cursor (w w' : World) : Prop := redis w' !! POLL_OFFSET_KEY = redis w !! POLL_OFFSET_KEY.

#[global] Instance same_cursor_order : WorldOrder same_cursor.
Proof.
  unfold same_cursor. split; [split|].
  - by intros w.
  - intros w1 w2 w3 H12 H23. congruence.
  - intros w. by destruct (tick_spec w) as (_ & -> & _).
Qed.

Lemma upd_user_cursor p f : keeps same_cursor (io (upd_user p f)).
Proof. apply keeps_io; [apply _|]. intros w. unfold upd_user, same_cursor. by destruct (update_one p f _). Qed.

Lemma reply_cursor chatId text : keeps same_cursor (reply chatId text).
Proof. apply keeps_exec; [apply _|]. by intros w. Qed.

Lemma handle_update_cursor u : keeps same_cursor (handle_update u).
Proof. unfold handle_update, bindTelegram. keeps_tac; (apply upd_user_cursor || apply reply_cursor). Qed.

Lemma handle_all_cursor us b : keeps same_cursor (handle_all b us).
Proof.
  revert b. induction us as [|u us IH]; intros b; cbn [handle_all]; [apply (keeps_ret same_cursor)|].
  keeps_tac. apply handle_update_cursor.
Qed.

(** Storing the offset takes effect or not, and never throws. *)
Lemma persistOffset_cases b w r w' :
  persistOffset b w = (r, w') ->
  (same_cursor w w' \/ redis w' !! POLL_OFFSET_KEY = Some {| e_value := RInt (b_offset b); e_expiresAt := None |}) /\
  (forall e, r <> Throw e).
Proof.
  unfold persistOffset. destruct (_ =? _); [intros [= <- <-]; split; [by left|done]|].
  unfold catch, bind. destruct (setCursor _ _ w) as [[[]|e|] w1] eqn:E; cbn; intros [= <- <-]; (split; [|done]).
  all: apply io_effect in E as [[-> _]|[-> _]]; [left; apply wo_tick|right; apply lookup_insert_eq].
Qed.

(** The offset kept for the next leader never runs ahead of the work: in
    a pass that ends in any way, a crash at any call included, either the
    stored offset is untouched, or every update the poll returned had been
    handled first, and what the stored offset leaves pending is all that was
    pending after them. *)
Theorem cursor_moves_after_handling b w r w' :
  poll_pass serve b w = (r, w') ->
  redis w' !! POLL_OFFSET_KEY = redis w !! POLL_OFFSET_KEY \/
  exists us b' w1 w2,
    getUpdates serve b w = (Ok us, w1) /\ handle_all b us w1 = (Ok b', w2) /\
    redis w' !! POLL_OFFSET_KEY = Some {| e_value := RInt (b_offset b'); e_expiresAt := None |} /\
    pending (b_offset b) = us ++ pending (b_offset b').
Proof.
  intros Hrun. unfold poll_pass, catch, bind in Hrun.
  destruct (getUpdates serve b w) as [rg w1] eqn:Eg. assert (same_cursor w w1) as Hg.
  { pose proof (keeps_query same_cursor _ w : same_cursor w (getUpdates serve b w).2) as Hk. by rewrite Eg in Hk. }
  destruct rg as [us|e|]; [|injection Hrun as _ <-; by left..].
  destruct (handle_all b us w1) as [rh w2] eqn:Eh. assert (same_cursor w w2) as Hh.
  { etrans; [exact Hg|]. pose proof (handle_all_cursor us b w1) as Hk. by rewrite Eh in Hk. }
  destruct rh as [b'|e|]; [|injection Hrun as _ <-; by left..].
  destruct (persistOffset b' w2) as [rp w3] eqn:Ep. apply persistOffset_cases in Ep as [Hc Hno].
  destruct rp as [b''|e|]; [|by destruct (Hno e)|]; injection Hrun as _ <-.
  all: destruct Hc as [Hc|Hc]; [left; by transitivity (redis w2 !! POLL_OFFSET_KEY)|right].
  all: exists us, b', w1, w2; split_and!; try done; apply handle_all_Ok in Eh as [-> _]; apply pending_past; by eapply getUpdates_Ok.
Qed.

End InOrder.

(** ** Concrete runs *)

Definition sample_update (id : Z) (text : string) : TelegramUpdate :=
  {| tu_id := id; tu_message := Some {| tm_chat := 7; tm_text := Some text |} |}.

Definition sample_inbox : list TelegramUpdate :=
  [sample_update 5 "/start"; sample_update 6 "hello"; sample_update 9 "/start link"].

(** Two updates at a time. *)
Definition sample_serve (w : World) (offset : Z) : bool * list TelegramUpdate := (true, take 2 (pending sample_inbox offset)).

Lemma sample_inbox_sorted : StronglySorted (fun u v => tu_id u < tu_id v) sample_inbox.
Proof. repeat constructor. Qed.

Lemma sample_serve_prefix w offset l : sample_serve w offset = (true, l) -> l `prefix_of` pending sample_inbox offset.
Proof. intros [= <-]. exists (drop 2 (pending sample_inbox offset)). by rewrite take_drop. Qed.

(** The first poll fails; the lock is held throughout. *)
Definition bot_world : World :=
  (acquireLock (H:=sample_uuids) POLL_LOCK_KEY POLL_LOCK_TTL_SEC
    {| now := 0; uuids := 0; oracle := [ {| k_fault := Fine; k_elapsed := 1 |}; {| k_fault := Fail None false; k_elapsed := 9 |} ];
       db := empty_db; redis := ∅; broker := {| published := []; acked := [] |}; delivered := [] |}).2.

Definition bot_run := pollWhileLeader (H0:=sample_crypto) sample_serve 3 "uuid-0" bot_init bot_world.

(** The failed pass handles nothing, the next two everything. *)
Lemma updates_handled_in_order_witness :
  match bot_run.1 with
  | Ok (b, us) => pending sample_inbox 0 = us ++ pending sample_inbox (b_offset b) /\ tu_id <$> us = [5; 6; 9] /\ b_offset b = 10
  | _ => False
  end.
Proof.
  destruct bot_run as [[[b us]|e|] w'] eqn:E; [|exfalso; vm_compute in E; discriminate..].
  split.
  - apply (updates_handled_in_order (H0:=sample_crypto) sample_serve sample_inbox sample_inbox_sorted sample_serve_prefix
      3 "uuid-0" bot_init bot_world b us w' E).
  - vm_compute in E. injection E as <- <- _. split; reflexivity.
Defined.

(** The pass dies on the reply to the write, after the write took effect. *)
Definition dying_world : World :=
  {| now := 0; uuids := 0; oracle := [ {| k_fault := Fine; k_elapsed := 1 |}; {| k_fault := Fine; k_elapsed := 1 |}; {| k_fault := Die true; k_elapsed := 1 |} ];
     db := empty_db; redis := ∅; broker := {| published := []; acked := [] |}; delivered := [] |}.

Definition dying_pass := poll_pass (H0:=sample_crypto) sample_serve bot_init dying_world.

Lemma cursor_moves_after_handling_witness :
  dying_pass.1 = Crash /\ e_value <$> redis dying_pass.2 !! POLL_OFFSET_KEY = Some (RInt 7) /\
  (redis dying_pass.2 !! POLL_OFFSET_KEY = redis dying_world !! POLL_OFFSET_KEY \/
   exists us b' w1 w2,
     getUpdates sample_serve bot_init dying_world = (Ok us, w1) /\ handle_all (H0:=sample_crypto) bot_init us w1 = (Ok b', w2) /\
     redis dying_pass.2 !! POLL_OFFSET_KEY = Some {| e_value := RInt (b_offset b'); e_expiresAt := None |} /\
     pending sample_inbox 0 = us ++ pending sample_inbox (b_offset b')).
Proof.
  split; [vm_compute; reflexivity|]. split; [vm_compute; reflexivity|].
  apply (cursor_moves_after_handling (H0:=sample_crypto) sample_serve sample_inbox sample_inbox_sorted sample_serve_prefix
    bot_init dying_world dying_pass.1). apply surjective_pairing.
Defined.
