(* ===== verification/Bots.v ===== *)
(** * The bot's replicas

    [TelegramBotService] of [apps/core-api/src/users/telegram-bot.service.ts],
    one [await] at a time: [onModuleInit], [run], [pollWhileLeader] and
    [onModuleDestroy] of any number of replicas around one cursor. *)

From stdpp Require Import sorting.
From S2P Require Import Prelude JsNumber JsParse Enums Contracts Table World Samples Effects RedisService Outbox Async Format Crypto Auth Triggers Users TelegramBot.
From Stdlib Require Import Ascii.

(** ** Handling an update, suspended at each call *)

Section Functions.
Context `{UuidSupply} `{Crypto}.
Local Open Scope async_scope.

Definition async_bindTelegram (token chatId : string) : Proc bool :=
  let* user := await (query (fun w => find_first (fun u => bool_decide (u_telegramLinkTokenHash u = Some (hashLinkToken token))) (users (db w)))) in
  match user with
  | None => resolve false
  | Some u => await (fun w =>
      (if match u_telegramLinkTokenExpiresAt u with Some exp => exp <? now w | None => true end
       then (do* io (upd_user (has_id (u_id u)) (fun u => set_telegram (u_telegramChatId u) None None u)) in ret false)%effect
       else (do* io (upd_user (has_id (u_id u)) (set_telegram (Some chatId) None None)) in ret true)%effect) w)
  end.

Definition async_handle_update (update : TelegramUpdate) : Proc unit :=
  match tu_message update with
  | Some {| tm_chat := chatId; tm_text := Some raw |} =>
      let text := trim raw in
      if String.eqb text "" || negb (starts_with "/start" text) then resolve tt
      else
        match second_word text with
        | None => await (reply chatId GREETING)
        | Some linkToken =>
            let* bound := async_bindTelegram linkToken (pretty chatId) in
            await (reply chatId (if (bound : bool) then LINKED else NOT_LINKED))
        end
  | _ => resolve tt
  end.

Lemma alone_bindTelegram token chatId w : alone (async_bindTelegram token chatId) w = bindTelegram token chatId w.
Proof.
  unfold async_bindTelegram, bindTelegram. apply alone_bind_eq; [intros ?; apply alone_await|].
  intros [u|] w1; [|done]. rewrite alone_await. unfold bind at 3, get_now. by destruct (u_telegramLinkTokenExpiresAt u).
Qed.

Lemma alone_handle_update u w : alone (async_handle_update u) w = handle_update u w.
Proof.
  unfold async_handle_update, handle_update. destruct (tu_message u) as [[chatId [raw|]]|]; [|done..].
  cbv zeta. destruct (_ || _); [done|]. destruct (second_word _) as [t|]; [|apply alone_await].
  apply alone_bind_eq; [intros ?; apply alone_bindTelegram|]. intros b w1. apply alone_await.
Qed.

End Functions.

(** ** A replica *)

Section Replica.
Context `{UuidSupply} `{Crypto}.
Context (serve : World -> Z -> bool * list TelegramUpdate).

(** Where [run] is suspended. A delay that begins after the abort does not
    hear of it: its listener is added to a signal that has already fired. *)
Inductive BotPhase :=
  | Acquiring
  | Resting (deaf : bool) (wake : Z)
  | Loading (lock : string)
  | Getting (lock : string) (startedAt : Z)
  | Handling (lock : string) (startedAt : Z) (u : TelegramUpdate) (p : Proc unit) (rest : list TelegramUpdate)
  | Persisting (lock : string) (startedAt : Z)
  | Retrying (lock : string) (startedAt : Z) (deaf : bool) (wake : Z)
  | Extending (lock : string) (startedAt : Z)
  | Pacing (lock : string) (deaf : bool) (wake : Z)
  | Releasing (lock : string)
  | Ended.

(** The fields of the service; the aborter has fired when it is no longer
    [running]. *)
Record Replica := { running : bool; bot : BotState; phase : BotPhase }.

(** [onModuleInit], which does nothing without a token, and what
    [onModuleDestroy] does before it waits for [run] to end. *)
Definition onModuleInit (token : string) : Replica :=
  if String.eqb token "" then {| running := false; bot := bot_init; phase := Ended |}
  else {| running := true; bot := bot_init; phase := Acquiring |}.
Definition onModuleDestroy (r : Replica) : Replica := {| running := false; bot := bot r; phase := phase r |}.

Definition at_phase (p : BotPhase) (r : Replica) : Replica := {| running := running r; bot := bot r; phase := p |}.
Definition set_bot (b : BotState) (r : Replica) : Replica := {| running := running r; bot := b; phase := phase r |}.

(** The head of the loop of [run], and of [pollWhileLeader]. *)
Definition again (r : Replica) : Replica := at_phase (if running r then Acquiring else Ended) r.
Definition next_pass (lock : string) (w : World) (r : Replica) : Replica :=
  at_phase (if running r then Getting lock (now w) else Releasing lock) r.

(** The rest of the [for] over the updates, and [persistOffset] after it. *)
Definition go_through (lock : string) (startedAt : Z) (updates : list TelegramUpdate) (r : Replica) : Replica :=
  at_phase match updates with
           | u :: rest => Handling lock startedAt u (async_handle_update u) rest
           | [] => if b_offset (bot r) =? b_persistedOffset (bot r) then Extending lock startedAt else Persisting lock startedAt
           end r.

(** [delay(ms)] *)
Definition awake (deaf : bool) (wake : Z) (r : Replica) (w : World) : bool :=
  (wake <=? now w) || (negb deaf && negb (running r)).

(** A step: the replica goes on, having finished an update or not, waits for
    a timer or for nothing, or dies in its call. *)
Inductive Turned := Goes (r : Replica) (w : World) (done_ : option TelegramUpdate) | Waiting | Died (w : World).

Definition bot_step (r : Replica) (w : World) : Turned :=
  match phase r with
  | Acquiring =>
      match acquireLock POLL_LOCK_KEY POLL_LOCK_TTL_SEC w with
      | (Ok (Some lock), w') => Goes (at_phase (Loading lock) r) w' None
      | (Ok None, w') | (Throw _, w') => Goes (at_phase (Resting (negb (running r)) (now w' + LEADER_RETRY_MS)) r) w' None
      | (Crash, w') => Died w'
      end
  | Resting deaf wake => if awake deaf wake r w then Goes (again r) w None else Waiting
  | Loading lock =>
      match getCursor POLL_OFFSET_KEY w with
      | (Ok (Some n), w') =>
          Goes (next_pass lock w' (if b_offset (bot r) <? n then set_bot {| b_offset := n; b_persistedOffset := n |} r else r)) w' None
      | (Ok None, w') | (Throw _, w') => Goes (next_pass lock w' r) w' None
      | (Crash, w') => Died w'
      end
  | Getting lock startedAt =>
      if running r then
        match getUpdates serve (bot r) w with
        | (Ok updates, w') => Goes (go_through lock startedAt updates r) w' None
        | (Throw _, w') => Goes (at_phase (Retrying lock startedAt false (now w' + 5000)) r) w' None
        | (Crash, w') => Died w'
        end
      else Goes (at_phase (Releasing lock) r) w None
  | Handling lock startedAt u p rest =>
      match p with
      | Return _ =>
          Goes (go_through lock startedAt rest
                  (set_bot {| b_offset := tu_id u + 1; b_persistedOffset := b_persistedOffset (bot r) |} r)) w (Some u)
      | _ =>
          match resume p w with
          | (Some p', w') => Goes (at_phase (Handling lock startedAt u p' rest) r) w' None
          | (None, w') => Died w'
          end
      end
  | Persisting lock startedAt =>
      match setCursor POLL_OFFSET_KEY (b_offset (bot r)) w with
      | (Ok _, w') =>
          Goes (at_phase (Extending lock startedAt)
                  (set_bot {| b_offset := b_offset (bot r); b_persistedOffset := b_offset (bot r) |} r)) w' None
      | (Throw _, w') => Goes (at_phase (Extending lock startedAt) r) w' None
      | (Crash, w') => Died w'
      end
  | Retrying lock startedAt deaf wake =>
      if awake deaf wake r w then Goes (at_phase (Extending lock startedAt) r) w None else Waiting
  | Extending lock startedAt =>
      match extendLock POLL_LOCK_KEY lock POLL_LOCK_TTL_SEC w with
      | (Ok true, w') =>
          let elapsed := now w' - startedAt in
          Goes (if elapsed <? MIN_PASS_MS
                then at_phase (Pacing lock (negb (running r)) (now w' + (MIN_PASS_MS - elapsed))) r
                else next_pass lock w' r) w' None
      | (Ok false, w') | (Throw _, w') => Goes (at_phase (Releasing lock) r) w' None
      | (Crash, w') => Died w'
      end
  | Pacing lock deaf wake => if awake deaf wake r w then Goes (next_pass lock w r) w None else Waiting
  | Releasing lock =>
      match releaseLock POLL_LOCK_KEY lock w with
      | (Ok _, w') | (Throw _, w') => Goes (again r) w' None
      | (Crash, w') => Died w'
      end
  | Ended => Waiting
  end.

End Replica.

(** ** Replicas around one cursor *)

Section Fleet.
Context `{UuidSupply} `{Crypto}.
Context (serve : World -> Z -> bool * list TelegramUpdate) (inbox : list TelegramUpdate).
Hypothesis inbox_sorted : StronglySorted (fun u v => tu_id u < tu_id v) inbox.
Hypothesis serve_prefix : forall w offset l, serve w offset = (true, l) -> l `prefix_of` pending inbox offset.

(** Identifiers are not negative. *)
Hypothesis inbox_nonneg : forall u, u ∈ inbox -> 0 <= tu_id u.

(** The replicas that are alive and the updates that were handled, by
    whichever of them, in order. *)
Record Bots := { bots_world : World; bots : list Replica; bots_handled : list TelegramUpdate }.

Inductive bots_step : Bots -> Bots -> Prop :=
  | starts s token :
      bots_step s {| bots_world := bots_world s; bots := bots s ++ [onModuleInit token]; bots_handled := bots_handled s |}
  | goes_on s i r r' w' done_ :
      bots s !! i = Some r -> bot_step serve r (bots_world s) = Goes r' w' done_ ->
      bots_step s {| bots_world := w'; bots := <[i := r']> (bots s); bots_handled := bots_handled s ++ option_list done_ |}
  | dies_calling s i r w' :
      bots s !! i = Some r -> bot_step serve r (bots_world s) = Died w' ->
      bots_step s {| bots_world := w'; bots := delete i (bots s); bots_handled := bots_handled s |}
  | dies s i : bots_step s {| bots_world := bots_world s; bots := delete i (bots s); bots_handled := bots_handled s |}
  | told_to_stop s i r :
      bots s !! i = Some r ->
      bots_step s {| bots_world := bots_world s; bots := <[i := onModuleDestroy r]> (bots s); bots_handled := bots_handled s |}
  (* everything else that happens, which leaves the cursor alone *)
  | elsewhere s w' :
      same_cursor (bots_world s) w' ->
      bots_step s {| bots_world := w'; bots := bots s; bots_handled := bots_handled s |}.

(** *** No gap below an offset *)

(** Every update sent to the bot below an offset was handled. *)
Definition covered (l : list TelegramUpdate) (offset : Z) : Prop := forall u, u ∈ inbox -> tu_id u < offset -> u ∈ l.

Lemma covered_more l l' offset : l ⊆ l' -> covered l offset -> covered l' offset.
Proof. intros Hl Hc u Hu Hlt. by apply Hl, Hc. Qed.

(** The next pending update, once handled, moves the offset. *)
Lemma covered_next l offset u rest :
  covered l offset -> u :: rest `prefix_of` pending inbox offset ->
  covered (l ++ [u]) (tu_id u + 1) /\ rest `prefix_of` pending inbox (tu_id u + 1).
Proof.
  intros Hc [r Hr]. assert ([u] `prefix_of` pending inbox offset) as Hu by (exists (rest ++ r); by rewrite Hr).
  pose proof (pending_past serve inbox inbox_sorted serve_prefix offset [u] Hu) as Hp. cbn in Hp. split.
  - intros v Hv Hlt. apply elem_of_app. destruct (decide (tu_id v < offset)); [left; by apply Hc|right].
    assert (v ∈ pending inbox offset) as Hin by (apply elem_of_find_many; split; [done|by apply Z.leb_le; lia]).
    rewrite Hp in Hin. apply elem_of_cons in Hin as [->|Hin]; [by apply list_elem_of_singleton|].
    apply elem_of_find_many in Hin as [_ Hle]. lia.
  - exists r. rewrite Hp in Hr. by injection Hr.
Qed.

(** The updates a replica has fetched are the next ones. *)
Definition in_order (r : Replica) : Prop :=
  match phase r with
  | Handling _ _ u p rest => u :: rest `prefix_of` pending inbox (b_offset (bot r)) /\ every_call same_cursor p
  | _ => True
  end.

Definition cursor_covered (l : list TelegramUpdate) (w : World) : Prop :=
  forall e n, redis w !! POLL_OFFSET_KEY = Some e -> e_value e = RInt n -> covered l n.

Definition no_gap (s : Bots) : Prop :=
  Forall (fun r => covered (bots_handled s) (b_offset (bot r)) /\ in_order r) (bots s) /\
  cursor_covered (bots_handled s) (bots_world s) /\
  forall u, u ∈ bots_handled s -> covered (bots_handled s) (tu_id u).

(** *** What the calls of a replica do to the cursor *)

Lemma acquire_cursor : keeps same_cursor (acquireLock POLL_LOCK_KEY POLL_LOCK_TTL_SEC).
Proof.
  apply keeps_bind; [apply _|by intros w|]. intros token. keeps_tac. apply keeps_io; [apply _|].
  intros w. unfold cmd_set_nx, same_cursor. case_all; cbn; rewrite ?lookup_insert_ne by done; done.
Qed.

Lemma extend_cursor token : keeps same_cursor (extendLock POLL_LOCK_KEY token POLL_LOCK_TTL_SEC).
Proof.
  apply keeps_io; [apply _|]. intros w. unfold EXTEND_IF_OWNED, cmd_pexpire, same_cursor.
  case_all; cbn; rewrite ?lookup_insert_ne, ?lookup_delete_ne by done; done.
Qed.

Lemma release_cursor token : keeps same_cursor (releaseLock POLL_LOCK_KEY token).
Proof.
  apply keeps_io; [apply _|]. intros w. unfold RELEASE_IF_OWNED, same_cursor. case_all; cbn; rewrite ?lookup_delete_ne by done; done.
Qed.

Lemma handling_cursor u : every_call same_cursor (async_handle_update u).
Proof.
  unfold async_handle_update, async_bindTelegram. every_call_tac; auto using reply_cursor.
  intros w. case_match; (apply (keeps_bind same_cursor); [apply upd_user_cursor|keeps_tac]).
Qed.

(** What a step leaves of the cursor: as it was, or the offset of the one
    that stored it. *)
Definition cursor_step (b : BotState) (w w' : World) : Prop :=
  same_cursor w w' \/ redis w' !! POLL_OFFSET_KEY = Some {| e_value := RInt (b_offset b); e_expiresAt := None |}.

Lemma setCursor_step b w : cursor_step b w (setCursor POLL_OFFSET_KEY (b_offset b) w).2.
Proof.
  unfold setCursor, exec. destruct (io _ w) as [r w'] eqn:Hio. apply io_effect in Hio as [[-> _]|[-> _]]; cbn.
  - left. apply wo_tick.
  - right. apply lookup_insert_eq.
Qed.

Lemma cursor_covered_step l b w w' :
  cursor_step b w w' -> covered l (b_offset b) -> cursor_covered l w -> cursor_covered l w'.
Proof. intros [Hs|Hs] Hb Hc e n He Hn; [rewrite Hs in He; by eapply Hc|]. rewrite Hs in He. injection He as <-. cbn in Hn. by injection Hn as <-. Qed.

Lemma cursor_covered_more l l' w : l ⊆ l' -> cursor_covered l w -> cursor_covered l' w.
Proof. intros Hl Hc e n He Hn. eapply covered_more; [exact Hl|by eapply Hc]. Qed.

(** Reading the cursor: what was stored. *)
Lemma getCursor_reads w n w' :
  getCursor POLL_OFFSET_KEY w = (Ok (Some n), w') -> exists e, redis w' !! POLL_OFFSET_KEY = Some e /\ e_value e = RInt n.
Proof.
  intros [[-> Hno]|[-> Hok]]%io_effect; [by destruct (Hno (Some n))|]. specialize (Hok (Some n) eq_refl). cbn [fst snd] in *.
  injection Hok as Hok. unfold cmd_get, peek in Hok.
  destruct (redis (tick w) !! POLL_OFFSET_KEY) as [e|]; [|done]. destruct (expired _ e); [done|]. cbn in Hok.
  exists e. split; [done|]. destruct (e_value e); by simplify_eq.
Qed.

(** *** A step keeps the order *)

Definition replica_ok (l : list TelegramUpdate) (r : Replica) : Prop := covered l (b_offset (bot r)) /\ in_order r.

Lemma again_ok l r : covered l (b_offset (bot r)) -> replica_ok l (again r).
Proof. unfold again, replica_ok, in_order. cbn. by destruct (running r). Qed.

Lemma next_pass_ok l lock w r : covered l (b_offset (bot r)) -> replica_ok l (next_pass lock w r).
Proof. unfold next_pass, replica_ok, in_order. cbn. by destruct (running r). Qed.

Lemma go_through_ok l lock startedAt us r :
  covered l (b_offset (bot r)) -> us `prefix_of` pending inbox (b_offset (bot r)) -> replica_ok l (go_through lock startedAt us r).
Proof.
  intros Hc Hp. unfold go_through, replica_ok, in_order. cbn. destruct us as [|u rest]; [by destruct (_ =? _)|].
  split_and!; [done|done|apply handling_cursor].
Qed.

Lemma replica_ok_more l l' r : l ⊆ l' -> replica_ok l r -> replica_ok l' r.
Proof. intros Hl [Hc Ho]. split; [by eapply covered_more|done]. Qed.

Lemma bot_step_ok l r w :
  replica_ok l r -> cursor_covered l w ->
  match bot_step serve r w with
  | Goes r' w' done_ => replica_ok (l ++ option_list done_) r' /\ cursor_covered (l ++ option_list done_) w'
  | Waiting => True
  | Died w' => cursor_covered l w'
  end.
Proof.
  intros [Hc Ho] Hw.
  assert (forall w', cursor_step (bot r) w w' -> cursor_covered l w') as Hcur by (intros w' Hs; by eapply cursor_covered_step).
  assert (forall w', same_cursor w w' -> cursor_covered l w') as Hsame by (intros w' Hs; apply Hcur; by left).
  assert (forall r' w', replica_ok l r' -> same_cursor w w' ->
    replica_ok (l ++ option_list None) r' /\ cursor_covered (l ++ option_list None) w') as Hgo
    by (intros r' w' Hr Hs; cbn; rewrite app_nil_r; auto).
  assert (forall p, match p with Handling _ _ _ _ _ => False | _ => True end -> replica_ok l (at_phase p r)) as Hat
    by (intros p Hp; split; [done|]; unfold in_order; cbn; by destruct p).
  unfold bot_step. unfold in_order in Ho.
  destruct (phase r) as [|deaf wake|lock|lock at_|lock at_ u p rest|lock at_|lock at_ deaf wake|lock at_|lock deaf wake|lock|].
  - pose proof (acquire_cursor w) as Hk. destruct (acquireLock _ _ w) as [[[token|]|e|] w']; cbn [snd] in Hk;
      [by apply Hgo; [apply Hat|]..|by apply Hsame].
  - destruct (awake _ _ _ _); [|done]. apply Hgo; [by apply again_ok|done].
  - pose proof (keeps_query same_cursor _ w : same_cursor w (getCursor POLL_OFFSET_KEY w).2) as Hk.
    destruct (getCursor _ w) as [[[n|]|e|] w'] eqn:Hg; cbn [snd] in Hk;
      [|by apply Hgo; [apply next_pass_ok|]..|by apply Hsame].
    apply Hgo; [|done]. apply next_pass_ok. case_match; [|done]. cbn.
    apply getCursor_reads in Hg as (e & He & Hn). by apply (Hsame w' Hk e n).
  - destruct (running r); [|by apply Hgo; [apply Hat|]].
    pose proof (keeps_query same_cursor _ w : same_cursor w (getUpdates serve (bot r) w).2) as Hk.
    destruct (getUpdates _ _ w) as [[us|e|] w'] eqn:Hg; cbn [snd] in Hk; [|by apply Hgo; [apply Hat|]|by apply Hsame]. apply Hgo; [|done].
    apply go_through_ok; [done|]. by eapply getUpdates_Ok.
  - destruct Ho as [Hp Hk]. destruct p as [res|B call k].
    + destruct (covered_next _ _ _ _ Hc Hp) as [Hc' Hrest]. split; [by apply go_through_ok|].
      cbn [option_list]. eapply cursor_covered_more; [|done]. set_solver.
    + destruct (every_call_resume same_cursor _ w Hk) as [Hs Hn].
      destruct (resume (Await call k) w) as [[p'|] w'] eqn:Hr; [|by apply Hsame]. cbn [fst snd] in *.
      apply Hgo; [|done]. split; [done|]. split; [done|by apply Hn].
  - pose proof (setCursor_step (bot r) w) as Hk. destruct (setCursor _ _ w) as [[x|e|] w']; cbn [snd] in Hk; [..|by apply Hcur];
      cbn [option_list]; rewrite app_nil_r; (split; [|by apply Hcur]); by apply (Hat (Extending lock at_)).
  - destruct (awake _ _ _ _); [|done]. apply Hgo; [by apply Hat|done].
  - pose proof (extend_cursor lock w) as Hk. destruct (extendLock _ _ _ w) as [[[]|e|] w']; cbn [snd] in Hk; [|by apply Hgo; [apply Hat|]..|by apply Hsame].
    apply Hgo; [|done]. cbv zeta. case_match; [by apply Hat|by apply next_pass_ok].
  - destruct (awake _ _ _ _); [|done]. apply Hgo; [by apply next_pass_ok|done].
  - pose proof (release_cursor lock w) as Hk. destruct (releaseLock _ _ w) as [[x|e|] w']; cbn [snd] in Hk;
      [by apply Hgo; [apply again_ok|]..|by apply Hsame].
  - done.
Qed.

(** The update a step finishes is the next one. *)
Lemma bot_step_finishes l r w r' w' u :
  replica_ok l r -> bot_step serve r w = Goes r' w' (Some u) -> covered (l ++ [u]) (tu_id u).
Proof.
  intros [Hc Ho] Hb. unfold in_order in Ho. unfold bot_step in Hb. case_in Hb. destruct Ho as [Hp _].
  destruct (covered_next _ _ _ _ Hc Hp) as [Hc' _]. intros v Hv Hlt. apply Hc'; [done|lia].
Qed.

Lemma bots_step_no_gap s s' : bots_step s s' -> no_gap s -> no_gap s'.
Proof.
  intros Hstep (Hall & Hcur & Hclosed). fold (replica_ok (bots_handled s)) in Hall.
  destruct Hstep as [s token|s i r r' w' d Hi Hb|s i r w' Hi Hb|s i|s i r Hi|s w' Hs].
  - split; [|done]. apply Forall_app. split; [done|]. apply Forall_singleton.
    unfold onModuleInit. case_match; (split; [|done]); intros u Hu Hlt; pose proof (inbox_nonneg u Hu); cbn in Hlt; lia.
  - pose proof (Forall_lookup_1 _ _ _ _ Hall Hi) as Hri. pose proof (bot_step_ok _ r _ Hri Hcur) as Hok. rewrite Hb in Hok.
    destruct Hok as [Hr Hc]. split_and!; [|done|].
    + apply Forall_insert; [|done]. eapply Forall_impl; [exact Hall|]. intros x. apply replica_ok_more. set_solver.
    + intros u [Hu|Hu]%elem_of_app; [eapply covered_more; [|by apply Hclosed]; set_solver|].
      destruct d as [v|]; [|by apply elem_of_nil in Hu]. apply list_elem_of_singleton in Hu as ->.
      by apply (bot_step_finishes _ r (bots_world s) r' w').
  - pose proof (bot_step_ok _ r _ (Forall_lookup_1 _ _ _ _ Hall Hi) Hcur) as Hok. rewrite Hb in Hok.
    split; [by apply Forall_delete|done].
  - split; [by apply Forall_delete|done].
  - split; [|done]. apply Forall_insert; [done|]. exact (Forall_lookup_1 _ _ _ _ Hall Hi).
  - split_and!; [done| |done]. intros e n He Hn. cbn in He. rewrite Hs in He. by eapply Hcur.
Qed.

(** Before the first replica starts. *)
Definition bots_initial (s : Bots) : Prop :=
  bots s = [] /\ bots_handled s = [] /\ redis (bots_world s) !! POLL_OFFSET_KEY = None.

(** C28. No update is skipped. However many replicas start, lead, lose the
    lock, are told to stop or die, interleaved call by call, and whatever
    calls fail: the updates below the offset of any replica, which is what its
    next poll confirms to Telegram, and below the stored cursor, were all
    handled, and an update is handled after all of those sent before it. *)
Theorem no_update_skipped s s' :
  bots_initial s -> rtc bots_step s s' ->
  (forall i r, bots s' !! i = Some r -> covered (bots_handled s') (b_offset (bot r))) /\
  (forall n, cmd_get POLL_OFFSET_KEY (bots_world s') = Some (RInt n) -> covered (bots_handled s') n) /\
  (forall u, u ∈ bots_handled s' -> covered (bots_handled s') (tu_id u)).
Proof.
  intros (Hb & Hl & Hr) Hsteps. assert (no_gap s) as Hinv.
  { unfold no_gap, cursor_covered. rewrite Hb, Hl, Hr. split_and!; [constructor|done|by intros u []%elem_of_nil]. }
  assert (no_gap s') as (Hall & Hcur & Hclosed).
  { clear Hb Hl Hr. induction Hsteps as [|s1 s2 s3 Hstep _ IH]; [done|]. apply IH. by eapply bots_step_no_gap. }
  split_and!; [|  |done].
  - intros i r Hi. by apply (Forall_lookup_1 _ _ _ _ Hall Hi).
  - intros n Hn. apply fmap_Some in Hn as (e & He & Hn). apply (Hcur e n); [|done].
    unfold peek in He. destruct (redis (bots_world s') !! POLL_OFFSET_KEY) as [e'|]; [|done]. destruct (expired _ e'); [done|exact He].
Qed.

End Fleet.

(** ** Told to stop, a replica ends *)

Section Stop.
Context `{UuidSupply} `{Crypto}.
Context (serve : World -> Z -> bool * list TelegramUpdate).

(** A step of a replica that was told to stop, in any world. *)
Definition stopping (r' r : Replica) : Prop :=
  running r = false /\ exists w w' d, bot_step serve r w = Goes r' w' d.

Notation stops r := (Acc stopping r).

(** The cases of a step from a known phase. *)
Ltac step_from Hp :=
  constructor; intros ? (_ & w & w' & d & Hb); unfold bot_step in Hb; rewrite Hp in Hb; cbv iota beta zeta in Hb; case_in Hb; simplify_eq.

(** *** The phases, from the last to the first *)

Lemma ended_stops r : phase r = Ended -> stops r.
Proof. intros Hp. by step_from Hp. Qed.

Lemma again_stops r : running r = false -> stops (again r).
Proof. intros Hr. apply ended_stops. unfold again. by rewrite Hr. Qed.

Lemma releasing_stops r lock : running r = false -> phase r = Releasing lock -> stops r.
Proof. intros Hr Hp. step_from Hp; by apply again_stops. Qed.

Lemma next_pass_stops r lock w : running r = false -> stops (next_pass lock w r).
Proof. intros Hr. apply (releasing_stops _ lock); [done|]. unfold next_pass. by rewrite Hr. Qed.

Lemma pacing_stops r lock deaf wake : running r = false -> phase r = Pacing lock deaf wake -> stops r.
Proof. intros Hr Hp. step_from Hp. by apply next_pass_stops. Qed.

Lemma extending_stops r lock startedAt : running r = false -> phase r = Extending lock startedAt -> stops r.
Proof.
  intros Hr Hp. step_from Hp; [case_match; [by eapply pacing_stops|by apply next_pass_stops]|by eapply releasing_stops..].
Qed.

Lemma persisting_stops r lock startedAt : running r = false -> phase r = Persisting lock startedAt -> stops r.
Proof. intros Hr Hp. step_from Hp; by eapply extending_stops. Qed.

Lemma retrying_stops r lock startedAt deaf wake : running r = false -> phase r = Retrying lock startedAt deaf wake -> stops r.
Proof. intros Hr Hp. step_from Hp. by eapply extending_stops. Qed.

(** The batch in hand is finished first. *)
Lemma handling_stops rest :
  (forall r lock startedAt, running r = false -> stops (go_through lock startedAt rest r)) ->
  forall p r lock startedAt u, running r = false -> phase r = Handling lock startedAt u p rest -> stops r.
Proof.
  intros Hrest p. induction (resumed_wf p) as [p _ IH]. intros r lock startedAt u Hr Hp.
  step_from Hp; [by apply Hrest|]. match goal with He : _ = (Some ?q, ?w1) |- _ =>
    by eapply (IH q); [apply (resume_resumed (Await call k) q w w1); [done|exact He]|..] end.
Qed.

Lemma go_through_stops rest r lock startedAt : running r = false -> stops (go_through lock startedAt rest r).
Proof.
  revert r lock startedAt. induction rest as [|u rest IH]; intros r lock startedAt Hr; [|by eapply (handling_stops rest IH)].
  destruct (b_offset (bot r) =? b_persistedOffset (bot r)) eqn:Ho.
  - apply (extending_stops _ lock startedAt); [done|]. unfold go_through. by rewrite Ho.
  - apply (persisting_stops _ lock startedAt); [done|]. unfold go_through. by rewrite Ho.
Qed.

Lemma resting_stops r deaf wake : running r = false -> phase r = Resting deaf wake -> stops r.
Proof. intros Hr Hp. step_from Hp. by apply again_stops. Qed.

Lemma getting_stops r lock startedAt : running r = false -> phase r = Getting lock startedAt -> stops r.
Proof. intros Hr Hp. step_from Hp. by eapply releasing_stops. Qed.

Lemma loading_stops r lock : running r = false -> phase r = Loading lock -> stops r.
Proof. intros Hr Hp. step_from Hp; apply next_pass_stops; [by case_match|done..]. Qed.

Lemma acquiring_stops r : running r = false -> phase r = Acquiring -> stops r.
Proof. intros Hr Hp. step_from Hp; [by eapply loading_stops|by eapply resting_stops..]. Qed.

(** The timer a replica sits on, if it does, and whether it began after the
    abort. *)
Definition timer (p : BotPhase) : option (bool * Z) :=
  match p with Resting deaf wake | Retrying _ _ deaf wake | Pacing _ deaf wake => Some (deaf, wake) | _ => None end.

(** Told to stop, a replica ends: whatever it is doing and whatever its
    calls answer it makes finitely many steps, and until it has ended nothing
    but a delay that began after the abort can keep it waiting. *)
Theorem stopped_replica_ends r :
  running r = false ->
  stops r /\ forall w, bot_step serve r w = Waiting ->
    phase r = Ended \/ exists wake, timer (phase r) = Some (true, wake) /\ now w < wake.
Proof.
  intros Hr. split.
  - destruct (phase r) eqn:Hp;
      eauto using acquiring_stops, resting_stops, loading_stops, getting_stops, handling_stops, go_through_stops, persisting_stops,
        retrying_stops, extending_stops, pacing_stops, releasing_stops, ended_stops.
  - intros w Hw. unfold bot_step in Hw. destruct (phase r) eqn:Hp; cbn [timer]; [..|by left]; case_in Hw.
    all: unfold awake in *; rewrite Hr in *; right; eexists; bool_to_prop; by destruct deaf.
Qed.

(** [onModuleDestroy] promises to hand the lock back promptly; a replica
    that is told to stop while it asks for the lock, and does not get it,
    begins the delay of a standby after the abort and sleeps it out. *)
Theorem stop_while_acquiring_waits token w w' :
  token <> "" -> acquireLock POLL_LOCK_KEY POLL_LOCK_TTL_SEC w = (Ok None, w') ->
  exists r, bot_step serve (onModuleDestroy (onModuleInit token)) w = Goes r w' None /\
    forall w1, now w1 < now w' + LEADER_RETRY_MS -> bot_step serve r w1 = Waiting.
Proof.
  intros Ht Hl. unfold onModuleInit. rewrite (proj2 (String.eqb_neq _ _) Ht).
  eexists. split; [unfold bot_step; cbn [phase onModuleDestroy]; by rewrite Hl|].
  intros w1 Hlt. unfold bot_step, awake. cbn. by rewrite (proj2 (Z.leb_gt _ _) Hlt).
Qed.

End Stop.

(** ** A concrete run *)

(** Runs of a fleet: replica [i] makes a step, or dies; one joins; time
    passes. *)
Inductive BotMove := Turns (i : nat) | Dies (i : nat) | Joins | Passes (ms : Z).

Definition bots_move (m : BotMove) (s : Bots) : Bots :=
  match m with
  | Joins => {| bots_world := bots_world s; bots := bots s ++ [onModuleInit "123:abc"]; bots_handled := bots_handled s |}
  | Dies i => {| bots_world := bots_world s; bots := delete i (bots s); bots_handled := bots_handled s |}
  | Passes ms => {| bots_world := (sleep ms (bots_world s)).2; bots := bots s; bots_handled := bots_handled s |}
  | Turns i =>
      match bots s !! i with
      | Some r =>
          match bot_step (H:=sample_uuids) (H0:=sample_crypto) sample_serve r (bots_world s) with
          | Goes r' w' d => {| bots_world := w'; bots := <[i := r']> (bots s); bots_handled := bots_handled s ++ option_list d |}
          | Waiting => s
          | Died w' => {| bots_world := w'; bots := delete i (bots s); bots_handled := bots_handled s |}
          end
      | None => s
      end
  end.

Definition bots_moves (ms : list BotMove) (s : Bots) : Bots := fold_left (fun s m => bots_move m s) ms s.

Lemma bots_moves_steps ms s : rtc (bots_step (H:=sample_uuids) (H0:=sample_crypto) sample_serve) s (bots_moves ms s).
Proof.
  revert s. induction ms as [|m ms IH]; intros s; [apply rtc_refl|]. transitivity (bots_move m s); [|apply IH].
  destruct m as [i|i| |d]; [|apply rtc_once, dies|apply rtc_once, starts|by apply rtc_once, elsewhere]. cbn.
  destruct (bots s !! i) as [r|] eqn:Hi; [|apply rtc_refl].
  destruct (bot_step _ r _) as [r' w' d| |w'] eqn:Hb; [|apply rtc_refl|]; apply rtc_once; by econstructor.
Qed.

Definition no_bots : Bots :=
  {| bots_world := {| now := 0; uuids := 0; oracle := []; db := empty_db; redis := ∅;
       broker := {| published := []; acked := [] |}; delivered := [] |}; bots := []; bots_handled := [] |}.

Lemma sample_inbox_nonneg u : u ∈ sample_inbox -> 0 <= tu_id u.
Proof. intros [->|[->|[->|[]%elem_of_nil]%elem_of_cons]%elem_of_cons]%elem_of_cons; cbn; lia. Qed.

(** The first leader handles two updates, stores the cursor and is never
    heard of again; once its lease is over another one goes on. *)
Definition handover : list BotMove :=
  [Joins] ++ replicate 7 (Turns 0) ++ [Dies 0; Passes 90000; Joins] ++ replicate 8 (Turns 0).

Lemma no_update_skipped_witness :
  tu_id <$> bots_handled (bots_moves handover no_bots) = [5; 6; 9] /\
  covered sample_inbox (bots_handled (bots_moves handover no_bots)) 10.
Proof.
  destruct (no_update_skipped (H:=sample_uuids) (H0:=sample_crypto) sample_serve sample_inbox sample_inbox_sorted sample_serve_prefix
    sample_inbox_nonneg no_bots (bots_moves handover no_bots)) as (_ & Hcursor & _).
  - split_and!; reflexivity.
  - apply bots_moves_steps.
  - split; [vm_compute; reflexivity|]. apply Hcursor. vm_compute. reflexivity.
Defined.
