(* ===== verification/Http.v ===== *)
(** * The HTTP surface of the API ([apps/core-api/src])

    Every route of the controllers, with what stands in front of it in the
    order the framework runs it: the global rate limiter, the guards of the
    controller, the validation of the request, the handler. What libraries
    decide (the key a client is tracked under, the shape of an address, the
    host of a URL, the time zones of the runtime) is a parameter. *)

From S2P Require Import Prelude JsNumber Enums QuietHours Contracts OpenMeteoTypes Table World Effects RedisService Throttler Crypto Auth Triggers Users Admin History OpenMeteo.

(** ** Cookies ([auth/refresh-cookie.ts]) *)

Definition REFRESH_COOKIE : string := "rt".

Record CookieOptions := { co_httpOnly : bool; co_secure : bool; co_sameSite : string; co_path : string }.

(** The settings the controllers read. *)
Record HttpConfig := { NODE_ENV : string; COOKIE_SAMESITE : option string; TELEGRAM_BOT_USERNAME : option string }.

Definition refreshCookieOptions (env : HttpConfig) : CookieOptions :=
  {| co_httpOnly := true; co_secure := String.eqb (NODE_ENV env) "production";
     co_sameSite := default "lax" (COOKIE_SAMESITE env); co_path := "/auth" |}.

(** What a response does to the cookies of the browser. *)
Inductive CookieOp :=
  | SetCookie (name value : string) (options : CookieOptions) (maxAge : Z)
  | ClearCookie (name : string) (options : CookieOptions).

(** ** Routes *)

Inductive AuthRoute :=
  | PostRegister (email password : string)
  | PostLogin (email password : string)
  | PostRefresh
  | PostLogout
  | GetAuthMe
  | PostVerifyEmail (token : string)
  | PostForgotPassword (email : string)
  | PostResetPassword (token password : string)
  | PostResendVerification.

Inductive UsersRoute :=
  | GetMe
  | PatchMe (dto : UpdateProfileDto)
  | DeleteMe (password : string)
  | PostTelegramLink
  | DeleteTelegram
  | GetPush
  | PostPush (dto : PushDto)
  | DeletePush (endpoint : string).

Inductive TriggersRoute :=
  | PostTrigger (dto : CreateTriggerDto)
  | GetTriggers (page limit : option nat)
  | GetOneTrigger (id : string)
  | PatchTrigger (id : string) (dto : UpdateTriggerDto)
  | DeleteTriggers
  | DeleteOneTrigger (id : string)
  | PostTest (id : string).

Inductive AdminRoute :=
  | GetStats
  | GetUsers (page limit : option nat)
  | GetOneUser (id : string)
  | PatchUser (id : string) (dto : UpdateUserDto)
  | DeleteOneUser (id : string)
  | DeleteUserTrigger (id : string).

Inductive NotificationsRoute :=
  | GetNotifications (page limit : option nat)
  | DeleteNotifications
  | DeleteNotification (id : string).

Inductive PinnedRoute :=
  | GetCities
  | PostCity (dto : CreatePinnedCityDto)
  | DeleteCity (id : string).

Inductive Route :=
  | RAuth (r : AuthRoute)
  | RUsers (r : UsersRoute)
  | RTriggers (r : TriggersRoute)
  | RAdmin (r : AdminRoute)
  | RNotifications (r : NotificationsRoute)
  | RPinned (r : PinnedRoute)
  | RWeather (latitude longitude : number)
  | RGeocode (q : string)
  | RMeta
  | RHealth.

(** Who sent it, the bearer token, the refresh cookie, and what is asked. *)
Record Request := { rq_client : string; rq_bearer : option string; rq_cookie : option string; rq_route : Route }.

(** The bodies of the answers. *)
Inductive Reply :=
  | AccessToken (accessToken : string)
  | UserReply (user : AuthUser)
  | Success (success : bool)
  | Profile (p : ProfileResponse)
  | Link (url token : string)
  | PushList (l : list PushSubscriptionResponse)
  | PushOne (s : PushSubscriptionResponse)
  | TriggerReply (t : TriggerResponse)
  | TriggerPage (p : Page TriggerResponse)
  | IdResult (id : string)
  | CountResult (count : nat)
  | TestResult (channels : list Channel)
  | StatsReply (s : AdminStats)
  | UserPage (p : Page AdminUser)
  | UserDetail (u : AdminUserDetail)
  | NotificationPage (p : Page NotificationResponse)
  | CityList (l : list PinnedCityResponse)
  | CityReply (c : PinnedCityResponse)
  | WeatherReply (r : ForecastResponse)
  | PlaceList (l : list GeocodeResult)
  | Limits (l : ApiLimits)
  | Status (status : string).

(** ** Handlers *)

(** A handler answers, and may set or clear cookies, which stay on the
    response when it throws afterwards. *)
Definition Handler := World -> outcome Reply * list CookieOp * World.

Definition answer {A} (m : M A) (f : A -> Reply) (cookies : A -> list CookieOp) : Handler := fun w =>
  match m w with
  | (Ok a, w') => (Ok (f a), cookies a, w')
  | (Throw e, w') => (Throw e, [], w')
  | (Crash, w') => (Crash, [], w')
  end.

Definition reply_with {A} (m : M A) (f : A -> Reply) : Handler := answer m f (fun _ => []).

(** A check in front of a handler. *)
Definition behind {A} (check : M A) (h : A -> Handler) : Handler := fun w =>
  match check w with
  | (Ok a, w') => h a w'
  | (Throw e, w') => (Throw e, [], w')
  | (Crash, w') => (Crash, [], w')
  end.

Section Api.
Context `{UuidSupply} `{Crypto} (config : AuthConfig) (env : HttpConfig) (up : Upstream).

Definition respondWithTokens (m : M Tokens) : Handler :=
  answer m (fun t => AccessToken (accessToken t))
    (fun t => [SetCookie REFRESH_COOKIE (refreshToken t) (refreshCookieOptions env) (refreshTtlMs config)]).

(** The cookie is empty or absent. *)
Definition readRefreshCookie (rq : Request) : option string :=
  match rq_cookie rq with Some "" | None => None | Some t => Some t end.

Definition AuthController (rq : Request) (user : AuthUser) (r : AuthRoute) : Handler :=
  match r with
  | PostRegister email password => respondWithTokens (register config email password)
  | PostLogin email password => respondWithTokens (login config email password)
  | PostRefresh =>
      match readRefreshCookie rq with
      | None => reply_with (throw (Unauthorized "Invalid refresh token")) Success
      | Some token => respondWithTokens (refresh config token)
      end
  | PostLogout => fun w =>
      let r := match readRefreshCookie rq with
               | None => reply_with (ret true) Success w
               | Some token => reply_with (logout config token) Success w
               end in
      (r.1.1, [ClearCookie REFRESH_COOKIE (refreshCookieOptions env)], r.2)
  | GetAuthMe => reply_with (ret user) UserReply
  | PostVerifyEmail token => reply_with (verifyEmail token) Success
  | PostForgotPassword email => reply_with (forgotPassword config email) Success
  | PostResetPassword token password => reply_with (resetPassword token password) Success
  | PostResendVerification => reply_with (resendVerification config (au_userId user)) Success
  end.

Definition UsersController (user : AuthUser) (r : UsersRoute) : Handler :=
  match r with
  | GetMe => reply_with (getProfile (au_userId user)) Profile
  | PatchMe dto => reply_with (updateProfile (au_userId user) dto) Profile
  | DeleteMe password =>
      answer (deleteAccount config (au_userId user) password) Success
        (fun _ => [ClearCookie REFRESH_COOKIE (refreshCookieOptions env)])
  | PostTelegramLink =>
      reply_with (createTelegramLink (au_userId user) (default "" (TELEGRAM_BOT_USERNAME env))) (fun l => Link l.1 l.2)
  | DeleteTelegram => reply_with (unlinkTelegram (au_userId user)) Success
  | GetPush => reply_with (listPushSubscriptions (au_userId user)) PushList
  | PostPush dto => reply_with (addPushSubscription (au_userId user) dto) PushOne
  | DeletePush endpoint => reply_with (removePushSubscription_ (au_userId user) endpoint) Success
  end.

Definition TriggersController (user : AuthUser) (r : TriggersRoute) : Handler :=
  match r with
  | PostTrigger dto => reply_with (CreateTrigger (au_userId user) dto) TriggerReply
  | GetTriggers page limit => reply_with (ListTriggers (au_userId user) page limit) TriggerPage
  | GetOneTrigger id => reply_with (GetTrigger (au_userId user) id) TriggerReply
  | PatchTrigger id dto => reply_with (UpdateTrigger (au_userId user) id dto) TriggerReply
  | DeleteTriggers => reply_with (ClearTriggers (au_userId user)) CountResult
  | DeleteOneTrigger id => reply_with (DeleteTrigger (au_userId user) id) IdResult
  | PostTest id => reply_with (SendTestNotification (au_userId user) id) TestResult
  end.

Definition AdminController (user : AuthUser) (r : AdminRoute) : Handler :=
  match r with
  | GetStats => reply_with stats StatsReply
  | GetUsers page limit => reply_with (listUsers page limit) UserPage
  | GetOneUser id => reply_with (getUser id) UserDetail
  | PatchUser id dto => reply_with (updateUser config id dto) UserDetail
  | DeleteOneUser id => reply_with (deleteUser config (au_userId user) id) IdResult
  | DeleteUserTrigger id => reply_with (admin_deleteTrigger id) IdResult
  end.

Definition NotificationsController (user : AuthUser) (r : NotificationsRoute) : Handler :=
  match r with
  | GetNotifications page limit => reply_with (findAll_notifications (au_userId user) page limit) NotificationPage
  | DeleteNotifications => reply_with (clear_notifications (au_userId user)) CountResult
  | DeleteNotification id => reply_with (remove_notification (au_userId user) id) IdResult
  end.

Definition PinnedCitiesController (user : AuthUser) (r : PinnedRoute) : Handler :=
  match r with
  | GetCities => reply_with (findAll_cities (au_userId user)) CityList
  | PostCity dto => reply_with (create_city (au_userId user) dto) CityReply
  | DeleteCity id => reply_with (remove_city (au_userId user) id) IdResult
  end.

(** What the guards left on the request; public routes do not read it. *)
Definition controller (rq : Request) (user : AuthUser) : Handler :=
  match rq_route rq with
  | RAuth r => AuthController rq user r
  | RUsers r => UsersController user r
  | RTriggers r => TriggersController user r
  | RAdmin r => AdminController user r
  | RNotifications r => NotificationsController user r
  | RPinned r => PinnedCitiesController user r
  | RWeather latitude longitude => reply_with (forecast_get up latitude longitude) WeatherReply
  | RGeocode q => reply_with (geocode_search up q) PlaceList
  | RMeta => reply_with (ret API_LIMITS) Limits
  | RHealth => reply_with (ret "ok") Status
  end.

(** ** In front of the handlers *)

(** The limits of [@Throttle]; the module's own where there is none. *)
Definition throttle_limit (r : Route) : Z :=
  match r with
  | RAuth (PostRegister _ _) | RAuth (PostLogin _ _) | RAuth (PostVerifyEmail _) | RAuth (PostResetPassword _ _) => 10
  | RAuth PostRefresh | RAuth PostLogout => 20
  | RAuth (PostForgotPassword _) | RAuth PostResendVerification => 3
  | RUsers (DeleteMe _) => 5
  | RTriggers (PostTest _) => 20
  | RWeather _ _ | RGeocode _ => 30
  | _ => 60
  end.

Definition THROTTLE_TTL : Z := 60000.

(** The key the limiter's guard tracks a client of a route under. *)
Context (track : Route -> string -> string).

Definition ThrottlerGuard (rq : Request) : M unit :=
  let* record := increment (track (rq_route rq) (rq_client rq)) THROTTLE_TTL (throttle_limit (rq_route rq)) THROTTLE_TTL "default" in
  if isBlocked record then throw (HttpException 429 "ThrottlerException: Too Many Requests") else ret tt.

(** [@UseGuards] of the controllers and routes. *)
Inductive Access := Public | Bearer | AdminOnly.

Definition access (r : Route) : Access :=
  match r with
  | RAuth GetAuthMe | RAuth PostResendVerification => Bearer
  | RAuth _ | RMeta | RHealth => Public
  | RAdmin _ => AdminOnly
  | _ => Bearer
  end.

Definition anonymous : AuthUser := {| au_userId := ""; au_email := ""; au_role := None |}.

Definition authenticate (rq : Request) : M AuthUser :=
  match rq_bearer rq with Some token => JwtAuthGuard config token | None => throw (Unauthorized "Unauthorized") end.

Definition guards (rq : Request) : M AuthUser :=
  match access (rq_route rq) with
  | Public => ret anonymous
  | Bearer => authenticate rq
  | AdminOnly => let* user := authenticate rq in do* AdminGuard (Some user) in ret user
  end.

(** What the validation library decides on a text or a number. *)
Record Validators := {
  is_email : string -> bool;
  is_https_url : string -> bool;
  url_hostname : string -> option string;      (** [new URL(value).hostname] *)
  length_of : string -> nat;
  is_time_zone : string -> bool;               (** [Intl.supportedValuesOf('timeZone')] *)
  is_latitude : number -> bool;
  is_longitude : number -> bool;
}.

Context (v : Validators).

Definition PUSH_HOSTS : list string :=
  ["fcm.googleapis.com"; "updates.push.services.mozilla.com"; "push.services.mozilla.com"; "notify.windows.com"; "push.apple.com"].

Definition ends_with (suffix s : string) : bool :=
  existsb (fun k => String.eqb (String.substring k (String.length s - k) s) suffix) (seq 0 (S (String.length s))).

Definition isKnownPushHost (value : string) : bool :=
  match url_hostname v value with
  | None => false
  | Some hostname =>
      let host := toLowerCase hostname in
      existsb (fun allowed => String.eqb host allowed || ends_with ("." +:+ allowed) host) PUSH_HOSTS
  end.

Definition valid_length (lo hi : nat) (s : string) : bool := (lo <=? length_of v s)%nat && (length_of v s <=? hi)%nat.
Definition not_empty (s : string) : bool := negb (String.eqb s "").

Definition valid_pagination (page limit : option nat) : bool :=
  optional (fun p => (1 <=? p)%nat) page && optional (fun l => (1 <=? l)%nat && (l <=? 100)%nat) limit.

Definition valid_profile (dto : UpdateProfileDto) : bool :=
  optional (optional HHMM) (up_quietHoursStart dto) && optional (optional HHMM) (up_quietHoursEnd dto) &&
  optional (optional (is_time_zone v)) (up_timezone dto).

Definition valid_city (dto : CreatePinnedCityDto) : bool :=
  valid_length 1 120 (cp_name dto) && optional (valid_length 1 120) (cp_country dto) && optional (valid_length 1 120) (cp_admin1 dto) &&
  valid_degrees 90 (cp_latitude dto) && valid_degrees 180 (cp_longitude dto).

Definition valid_route (r : Route) : bool :=
  match r with
  | RAuth (PostRegister email password) => is_email v email && valid_length 8 72 password
  | RAuth (PostLogin email _) | RAuth (PostForgotPassword email) => is_email v email
  | RAuth (PostVerifyEmail token) => not_empty token
  | RAuth (PostResetPassword token password) => not_empty token && valid_length 8 72 password
  | RUsers (PatchMe dto) => valid_profile dto
  | RUsers (DeleteMe password) => not_empty password
  | RUsers (PostPush dto) => is_https_url v (pd_endpoint dto) && isKnownPushHost (pd_endpoint dto)
  | RTriggers (PostTrigger dto) => valid_create (length_of v) dto
  | RTriggers (PatchTrigger _ dto) => valid_update (length_of v) dto
  | RTriggers (GetTriggers page limit) | RAdmin (GetUsers page limit) | RNotifications (GetNotifications page limit) =>
      valid_pagination page limit
  | RPinned (PostCity dto) => valid_city dto
  | RWeather latitude longitude => is_latitude v latitude && is_longitude v longitude
  | RGeocode q => valid_length 2 100 q
  | _ => true
  end.

Definition ValidationPipe (r : Route) : M unit :=
  if valid_route r then ret tt else throw (HttpException 400 "Bad Request").

(** One request. *)
Definition serve_request (rq : Request) : Handler :=
  behind (ThrottlerGuard rq) (fun _ =>
  behind (guards rq) (fun user =>
  behind (ValidationPipe (rq_route rq)) (fun _ =>
  controller rq user))).

End Api.
