(* ===== verification/HttpProps.v ===== *)
(** * What the HTTP surface guarantees

    Nobody gets past a guard without a token that verifies, and a request
    stays within the account of its token, on every route. *)

From S2P Require Import Prelude JsNumber Enums QuietHours Contracts OpenMeteoTypes Table World Samples Effects RedisService Throttler Outbox Crypto Auth AuthSessions Triggers TriggersProps Users Admin AccountsProps History OpenMeteo Http.

(** ** Access *)

Section Access.
Context `{UuidSupply} `{Crypto} (config : AuthConfig) (env : HttpConfig) (up : Upstream).
Context (track : Route -> string -> string) (v : Validators).

(** Nothing that lasts has changed. *)
Definition untouched (w w' : World) : Prop :=
  db w' = db w /\ broker w' = broker w /\ delivered w' = delivered w /\ now w <= now w'.

#[local] Instance untouched_order : WorldOrder untouched.
Proof.
  unfold untouched. split; [split|].
  - intros w. split_and!; done || lia.
  - intros w1 w2 w3 (? & ? & ? & ?) (? & ? & ? & ?). split_and!; congruence || lia.
  - intros w. destruct (tick_spec w) as (? & _ & _ & ? & ? & ?). done.
Qed.

#[local] Instance untouched_redis : IgnoresRedis untouched.
Proof. split; [intros w w' (r & ->)|intros w n _]; split_and!; cbn; done || lia. Qed.

Lemma INCREMENT_redis_only hk bk ttl limit bd w : redis_only w (INCREMENT hk bk ttl limit bd w).2.
Proof.
  unfold INCREMENT. destruct (cmd_incr hk w) as [[hits|e] w1] eqn:E.
  2: { unfold cmd_incr in E. case_in E; apply redis_only_refl. }
  assert (redis_only w w1) as H1 by (unfold cmd_incr in E; case_in E; apply put_redis_only).
  set (w2 := if hits =? 1 then cmd_pexpire hk ttl w1 else w1).
  assert (redis_only w w2) as H2 by (unfold w2; destruct (hits =? 1); [eapply redis_only_trans; [done|apply pexpire_redis_only]|done]).
  destruct (0 <? _); [done|]. destruct (limit <? hits); [|done].
  pose proof (set_px_redis_only bk (RText "1") bd w2) as H3. destruct (cmd_set_px _ _ _ w2) as [[] w3]; cbn in *; by eapply redis_only_trans.
Qed.

Lemma keeps_increment R `{!WorldOrder R} `{!IgnoresRedis R} key ttl limit bd name : keeps R (increment key ttl limit bd name).
Proof. unfold increment. keeps_tac. apply keeps_redis_io; [done..|]. intros w. apply INCREMENT_redis_only. Qed.

Lemma keeps_ThrottlerGuard R `{!WorldOrder R} `{!IgnoresRedis R} rq : keeps R (ThrottlerGuard track rq).
Proof. unfold ThrottlerGuard. keeps_tac. by apply keeps_increment. Qed.

Lemma keeps_authenticate R `{!WorldOrder R} rq : keeps R (authenticate config rq).
Proof. unfold authenticate, JwtAuthGuard, isUserRevoked. keeps_tac. Qed.

Lemma keeps_guards R `{!WorldOrder R} rq : keeps R (guards config rq).
Proof. unfold guards, AdminGuard. keeps_tac; by apply keeps_authenticate. Qed.

(** Who the guards let through. *)
Lemma authenticate_Ok rq w user w1 :
  authenticate config rq w = (Ok user, w1) ->
  exists token payload, rq_bearer rq = Some token /\ jwt_verify (accessSecret config) (now w / 1000) token = Some payload /\ user = validate payload.
Proof.
  unfold authenticate. destruct (rq_bearer rq) as [token|]; [|done]. unfold JwtAuthGuard. intros Hrun.
  apply bind_Ok in Hrun as (at_ & w2 & Hn & Hrun). injection Hn as <- <-.
  destruct (jwt_verify _ _ token) as [payload|] eqn:Hv; [|done]. exists token, payload. split_and!; [done..|].
  destruct (String.eqb _ _); [by injection Hrun as <- _|]. apply bind_Ok in Hrun as (b & w3 & _ & Hrun).
  destruct b; [done|]. by injection Hrun as <- _.
Qed.

Lemma guards_Ok rq w user w1 :
  access (rq_route rq) <> Public -> guards config rq w = (Ok user, w1) ->
  exists token payload, rq_bearer rq = Some token /\ jwt_verify (accessSecret config) (now w / 1000) token = Some payload /\
    user = validate payload /\ (access (rq_route rq) = AdminOnly -> role payload = Some ADMIN).
Proof.
  unfold guards. intros Ha Hrun. destruct (access (rq_route rq)); [done| |].
  - apply authenticate_Ok in Hrun as (token & payload & ? & ? & ?). by exists token, payload.
  - apply bind_Ok in Hrun as (u & w2 & Hauth & Hrun). apply bind_Ok in Hrun as (b & w3 & Hadm & Hrun). injection Hrun as <- _.
    apply authenticate_Ok in Hauth as (token & payload & ? & ? & ->). exists token, payload. split_and!; [done..|]. intros _.
    unfold AdminGuard, validate in Hadm. cbn in Hadm. case_in Hadm; done.
Qed.

(** C20. Every route outside the public ones is closed: a request that gets an
    answer, sets a cookie, or leaves any trace in the database, the broker or
    the outside, carried a bearer token that verified with the access secret
    at a moment after it arrived, with the ADMIN role on an administration
    route; whatever fails in front of the handler. *)
Theorem access_is_controlled rq w res cookies w' :
  serve_request config env up track v rq w = (res, cookies, w') -> access (rq_route rq) <> Public ->
  (db w' = db w /\ broker w' = broker w /\ delivered w' = delivered w /\ cookies = [] /\ forall r, res <> Ok r) \/
  exists token payload t, rq_bearer rq = Some token /\ now w <= t /\
    jwt_verify (accessSecret config) (t / 1000) token = Some payload /\ (access (rq_route rq) = AdminOnly -> role payload = Some ADMIN).
Proof.
  unfold serve_request, behind. intros Hrun Ha.
  pose proof (keeps_ThrottlerGuard untouched rq w) as Ht. destruct (ThrottlerGuard track rq w) as [[[]|e|] w1]; cbn in Ht.
  2-3: injection Hrun as <- <- <-; left; destruct Ht as (? & ? & ? & _); by split_and!.
  pose proof (keeps_guards untouched rq w1) as Hg. destruct (guards config rq w1) as [[user|e|] w2] eqn:E; cbn in Hg.
  2-3: injection Hrun as <- <- <-; left; destruct Ht as (? & ? & ? & _), Hg as (? & ? & ? & _); split_and!; congruence.
  right. apply guards_Ok in E as (token & payload & ? & ? & _ & ?); [|done]. exists token, payload, (now w1).
  destruct Ht as (_ & _ & _ & ?). by split_and!.
Qed.

End Access.

(** ** Accounts do not touch each other *)

Section Isolation.
Context `{UuidSupply} `{Crypto} (config : AuthConfig) (env : HttpConfig) (up : Upstream).
Context (track : Route -> string -> string) (v : Validators) (me : string).

(** What everybody else has, triggers aside. *)
Definition foreign {A} (owner : A -> string) (l : list A) : list A := find_many (fun x => negb (bool_decide (owner x = me))) l.

Definition rest (d : Database) :=
  (foreign u_id (users d), foreign n_userId (notifications d), foreign s_userId (pushSubs d),
   foreign r_userId (refreshTokens d), foreign pc_userId (pinnedCities d), outbox d).

Definition endpoints_ok (d : Database) : Prop := NoDup (s_endpoint <$> pushSubs d).

(** The notifications of the others come from triggers of the others, where
    they name one. *)
Definition refers_home (d : Database) : Prop :=
  forall n id, n ∈ foreign n_userId (notifications d) -> n_triggerId n = Some id -> id ∈ t_id <$> (others me d).1.

Definition rest_kept (w w' : World) : Prop :=
  endpoints_ok (db w) -> endpoints_ok (db w') /\ rest (db w') = rest (db w).

Definition confined (w w' : World) : Prop :=
  keys_ok w -> endpoints_ok (db w) -> refers_home (db w) ->
  keys_ok w' /\ endpoints_ok (db w') /\ others me (db w') = others me (db w) /\ rest (db w') = rest (db w).

#[local] Instance rest_kept_order : WorldOrder rest_kept.
Proof.
  split; [split|].
  - by intros w.
  - intros w1 w2 w3 H12 H23 He. destruct (H12 He) as [He2 Hr2]. destruct (H23 He2) as [He3 Hr3]. split; [done|congruence].
  - intros w He. destruct (tick_spec w) as (_ & _ & _ & -> & _). done.
Qed.

#[local] Instance rest_kept_redis : IgnoresRedis rest_kept.
Proof. by split; [intros w w' (r & ->) He|intros w n _ He]. Qed.

(** A step that leaves the triggers alone. *)
Lemma confined_rest w w' :
  triggers (db w') = triggers (db w) -> triggerConditions (db w') = triggerConditions (db w) -> (uuids w <= uuids w')%nat ->
  rest_kept w w' -> confined w w'.
Proof.
  intros Ht Hc Hu Hr (Hnd & Hd & Href) He _. destruct (Hr He) as [He' Hr']. unfold keys_ok, others. rewrite Ht, Hc.
  split_and!; try done. intros t Hin. eauto using drawn_mono.
Qed.

Lemma refers_kept w w' :
  others me (db w') = others me (db w) -> rest (db w') = rest (db w) -> refers_home (db w) -> refers_home (db w').
Proof. intros Ho [= _ Hn _ _ _ _] Hh n id. rewrite Hn, Ho. apply Hh. Qed.

#[local] Instance confined_order : WorldOrder confined.
Proof.
  split; [split|].
  - intros w. by apply confined_rest.
  - intros w1 w2 w3 H12 H23 Hk He Hh. destruct (H12 Hk He Hh) as (Hk2 & He2 & Ho2 & Hr2).
    destruct (H23 Hk2 He2 (refers_kept _ _ Ho2 Hr2 Hh)) as (Hk3 & He3 & Ho3 & Hr3). split_and!; [done..|congruence|congruence].
  - intros w. destruct (tick_spec w) as (_ & _ & Hu & Hdb & _). apply confined_rest; rewrite ?Hdb, ?Hu; try done. apply wo_tick.
Qed.

#[local] Instance confined_redis : IgnoresRedis confined.
Proof. split; [intros w w' (r & ->)|intros w n Hn]; by apply confined_rest. Qed.

(** *** Writes by owner *)

Lemma foreign_delete {A} (owner : A -> string) p l :
  (forall x, x ∈ l -> p x = true -> owner x = me) -> foreign owner (delete_many p l).1 = foreign owner l.
Proof.
  intros Hp. unfold foreign, delete_many. cbn. fold (find_many (fun x => negb (p x)) l). rewrite find_many_find_many.
  apply find_many_ext. intros x Hx. destruct (p x) eqn:E; cbn; [|done]. by rewrite bool_decide_true by auto.
Qed.

Lemma foreign_update {A} (owner : A -> string) p (f : A -> A) l :
  (forall x, x ∈ l -> p x = true -> owner x = me /\ owner (f x) = me) ->
  foreign owner (map (fun x => if p x then f x else x) l) = foreign owner l.
Proof. intros Hp. apply find_many_update. intros x Hx Hpx. destruct (Hp x Hx Hpx) as [-> ->]. by rewrite bool_decide_true. Qed.

Lemma foreign_snoc {A} (owner : A -> string) l x : owner x = me -> foreign owner (l ++ [x]) = foreign owner l.
Proof. intros Hx. unfold foreign. rewrite find_many_app. cbn. rewrite bool_decide_true by done. cbn. by rewrite app_nil_r. Qed.

Lemma update_endpoints dto (p : PushSubscription -> bool) (l : list PushSubscription) :
  s_endpoint <$> map (fun s => if p s then set_keys dto s else s) l = s_endpoint <$> l.
Proof. induction l as [|s l IH]; cbn; [done|]. rewrite <- IH. by destruct (p s). Qed.

Lemma upd_user_rest f : (forall u, u_id (f u) = u_id u) -> forall w, rest_kept w (upd_user (has_id me) f w).2.
Proof.
  intros Hf w He. unfold upd_user, update_one. destruct (existsb _ _); [|done]. split; [done|]. unfold rest. cbn -[foreign].
  rewrite foreign_update; [done|]. intros u _ Hu%bool_decide_eq_true. by rewrite Hf.
Qed.

Lemma keeps_upd_me f : (forall u, u_id (f u) = u_id u) -> keeps confined (io (upd_user (has_id me) f)).
Proof.
  intros Hf. apply keeps_io; [apply _|]. intros w. apply confined_rest; [| | |by apply upd_user_rest];
    unfold upd_user; by destruct (update_one _ _ _).
Qed.

Lemma keeps_confined_exec (f : World -> World) :
  (forall w, triggers (db (f w)) = triggers (db w) /\ triggerConditions (db (f w)) = triggerConditions (db w) /\ (uuids w <= uuids (f w))%nat /\
             rest_kept w (f w)) -> keeps confined (exec f).
Proof. intros Hf. apply keeps_exec; [apply _|]. intros w. destruct (Hf w) as (? & ? & ? & ?). by apply confined_rest. Qed.

(** *** The operations *)

(** Rows of the caller's triggers go, and no notification of another user
    pointed at them. *)
Lemma detached_foreign p w :
  keys_ok w -> refers_home (db w) -> (forall t, t ∈ triggers (db w) -> p t = true -> t_userId t = me) ->
  foreign n_userId (map (detach (t_id <$> find_many p (triggers (db w)))) (notifications (db w))) = foreign n_userId (notifications (db w)).
Proof.
  intros (Hnd & _) Hh Hp. set (ids := t_id <$> _).
  assert (forall n, n ∈ foreign n_userId (notifications (db w)) -> detach ids n = n) as Hsame.
  { intros n Hn. specialize (Hh n). destruct n as [? ? [id|] ? ? ? ? ? ? ? ?]; [|done]. unfold detach. cbn in *.
    rewrite bool_decide_false; [done|]. intros (t & -> & [Ht Hpt]%elem_of_find_many)%list_elem_of_fmap.
    destruct (list_elem_of_fmap_1 _ _ _ (Hh _ Hn eq_refl)) as (t' & Hid & [Ht' Ho]%elem_of_find_many).
    rewrite (key_unique t_id _ t t' Hnd Ht Ht' Hid) in *. unfold owned_by in Ho. by rewrite bool_decide_true in Ho by auto. }
  revert Hsame. clearbody ids. clear. unfold foreign, find_many. induction (notifications (db w)) as [|n l IH]; intros Hsame; [done|].
  cbn in *. destruct (bool_decide (n_userId n = me)) eqn:E; cbn in *; rewrite ?E; cbn; [by apply IH|].
  rewrite Hsame by apply list_elem_of_here. f_equal. apply IH. intros m Hm. by apply Hsame, list_elem_of_further.
Qed.

Lemma confined_drop p w :
  (forall t, t ∈ triggers (db w) -> p t = true -> t_userId t = me) -> confined w (set_db (drop_triggers p (db w)) w).
Proof.
  intros Hp Hk He Hh. split_and!; [by apply keys_drop|done|by apply others_drop|].
  unfold rest, drop_triggers. cbn -[foreign]. by rewrite detached_foreign.
Qed.

(** Deleting the account removes its own rows. *)
Lemma confined_drop_user w : confined w (set_db (drop_user me (db w)) w).
Proof.
  assert (forall t, t ∈ triggers (db w) -> owned_by me t = true -> t_userId t = me) as Hp
    by (intros t _ Ho; by apply bool_decide_eq_true in Ho).
  etrans; [by apply (confined_drop (owned_by me))|]. apply confined_rest; [done..|]. intros He.
  unfold endpoints_ok, rest. cbn -[foreign delete_many]. split.
  - eapply sublist_NoDup; [exact He|]. apply fmap_sublist, find_many_sublist.
  - by rewrite !foreign_delete by (intros x _ Hx; by apply bool_decide_eq_true in Hx).
Qed.

Lemma keeps_delete_me : keeps confined (delete_user me).
Proof. apply keeps_io; [apply _|]. intros w. destruct (existsb _ _); [apply confined_drop_user|reflexivity]. Qed.

Lemma keeps_findById R `{!WorldOrder R} id : keeps R (findById id).
Proof. unfold findById. keeps_tac. Qed.

Lemma keeps_deleteAccount password : keeps confined (deleteAccount config me password).
Proof.
  unfold deleteAccount. apply keeps_bind; [apply _|apply keeps_findById, _|]. intros [u|]; [|apply (keeps_throw confined)].
  keeps_tac; apply keeps_delete_me.
Qed.

Lemma keeps_resend : keeps confined (resendVerification config me).
Proof.
  unfold resendVerification. intros w. apply (bind_run confined); [apply (keeps_findById confined)|]. intros o w1 Ho.
  destruct o as [u|]; [|apply (keeps_throw confined)]. destruct (u_emailVerified u); [apply (keeps_ret confined)|].
  assert (u_id u = me) as ->. { unfold findById in Ho. apply io_effect in Ho as [[_ Hno]|[_ Hok]]; [by destruct (Hno (Some u))|].
    specialize (Hok _ eq_refl). injection Hok as Hf. by apply find_first_Some in Hf as [_ ?%bool_decide_eq_true]. }
  assert (keeps confined (do* sendVerificationEmail config me (u_email u) in ret true)) as Hk; [|apply Hk].
  unfold sendVerificationEmail, sendDetached. keeps_tac; [by apply keeps_upd_me|].
  apply keeps_confined_exec. intros w'. by split_and!.
Qed.

(** Trigger commands leave the other tables alone, but for the reference of a
    notification of the caller to a trigger that goes. *)
Lemma confined_delete id w : confined w (DeleteTrigger me id w).2.
Proof.
  unfold DeleteTrigger. apply (bind_run confined); [unfold findOwned; apply keeps_bind; [apply _|apply (keeps_query confined)|]|intros row w1 Hrow].
  { intros []; [apply (keeps_ret confined)|apply (keeps_throw confined)]. }
  destruct (findOwned_Ok _ _ _ _ _ Hrow) as (_ & Hdb & t & Hin & Hid & Hown & _).
  apply (bind_run confined); [|intros ? w2 _; apply (keeps_ret confined)].
  enough (keys_ok w1 -> confined w1 (delete_trigger id w1).2) as Hc by (intros Hk; by apply Hc). intros (Hnd & _).
  destruct (tick_spec w1) as (_ & _ & _ & Hdb1 & _). destruct (delete_trigger id w1) as [r w2] eqn:Hd. cbn [snd].
  apply io_effect in Hd as [[-> _]|[-> _]]; [apply (wo_tick (R:=confined))|]. etrans; [apply (wo_tick (R:=confined))|].
  destruct (existsb _ _); [|reflexivity]. apply confined_drop. intros t' Ht' Hp%bool_decide_eq_true.
  rewrite Hdb1 in Ht'. rewrite <- Hdb in Hin. assert (t' = t) as ->; [|done].
  eapply (key_unique t_id); [exact Hnd|done|done|congruence].
Qed.

Lemma confined_command c w : confined w (run_command me c w).
Proof.
  assert (rest_kept w (run_command me c w) -> confined w (run_command me c w)) as Hrest.
  { intros Hr Hk He _. destruct (run_command_isolated me c w Hk) as [Hk' Ho]. destruct (Hr He) as [He' Hr']. by split_and!. }
  destruct c as [dto|id dto|id| |id]; cbn [run_command] in *; [apply Hrest|apply Hrest|..].
  - assert (keeps rest_kept (CreateTrigger me dto)) as Hk; [|apply Hk].
    unfold CreateTrigger, isEmailVerified, countForUser, create_trigger, findById. keeps_tac. apply keeps_io; [apply _|]. intros w'. by destruct (existsb _ _).
  - assert (keeps rest_kept (UpdateTrigger me id dto)) as Hk; [|apply Hk].
    unfold UpdateTrigger, findOwned, update_trigger. keeps_tac. apply keeps_io; [apply _|]. intros w'. by destruct (find_first _ _).
  - apply confined_delete.
  - assert (keeps confined (ClearTriggers me)) as Hk; [|apply Hk]. apply keeps_io; [apply _|]. intros w'. apply confined_drop.
    intros t _ Ho. by apply bool_decide_eq_true in Ho.
  - apply Hrest. assert (keeps rest_kept (SendTestNotification me id)) as Hk; [|apply Hk].
    unfold SendTestNotification, findOwned. keeps_tac. apply keeps_exec; [apply _|]. by intros w'.
Qed.

Lemma keeps_addPush dto : keeps confined (addPushSubscription me dto).
Proof.
  intros w. unfold addPushSubscription. apply (bind_run confined); [apply (keeps_query confined)|]. intros existing w1 Hq.
  destruct (match existing with Some s => _ | None => false end) eqn:Hforeign; [apply (keeps_throw confined)|].
  assert (existing = find_first (at_endpoint (pd_endpoint dto)) (pushSubs (db w1))) as ->.
  { apply io_effect in Hq as [[_ Hno]|[-> Hok]]; [by destruct (Hno existing)|]. specialize (Hok _ eq_refl). by injection Hok. }
  apply (bind_run confined); [|intros s w2 _; apply (keeps_ret confined)].
  destruct (tick_spec w1) as (_ & _ & Hu & Hdb & _). destruct (upsert_push me dto w1) as [r w'] eqn:E.
  apply io_effect in E as [[-> _]|[-> _]]; [apply (wo_tick (R:=confined))|]. etrans; [apply (wo_tick (R:=confined))|].
  set (w2 := tick w1) in *. rewrite <- Hdb in Hforeign. destruct (find_first _ (pushSubs (db w2))) as [s|] eqn:Hf.
  - apply confined_rest; [done..|]. intros He. apply find_first_Some in Hf as [Hin Hs%bool_decide_eq_true].
    apply negb_false_iff, bool_decide_eq_true in Hforeign. split.
    + unfold endpoints_ok, update_many. cbn. by rewrite update_endpoints.
    + unfold rest, update_many. cbn -[foreign]. rewrite foreign_update; [done|]. intros x Hx Hx'%bool_decide_eq_true. cbn.
      assert (x = s) as -> by (eapply (key_unique s_endpoint); [exact He|done..|congruence]). done.
  - destruct (existsb _ _); [|reflexivity]. apply confined_rest; cbn; [done|done|lia|]. intros He. split.
    + unfold endpoints_ok. cbn. rewrite fmap_app. apply NoDup_app. split_and!; [done| |apply NoDup_singleton].
      intros e (x & -> & Hx)%list_elem_of_fmap Hin%list_elem_of_singleton. rewrite find_first_None in Hf. rewrite Forall_forall in Hf.
      specialize (Hf x Hx). unfold at_endpoint in Hf. by rewrite Hin, bool_decide_true in Hf.
    + unfold rest. cbn -[foreign]. by rewrite foreign_snoc.
Qed.

Lemma keeps_removePush endpoint : keeps confined (removePushSubscription_ me endpoint).
Proof.
  unfold removePushSubscription_. keeps_tac. apply keeps_confined_exec. intros w. split_and!; [done..|]. intros He. split.
  - eapply sublist_NoDup; [exact He|]. apply fmap_sublist, find_many_sublist.
  - unfold rest. cbn -[foreign delete_many]. rewrite foreign_delete; [done|]. by intros x _ [Hx%bool_decide_eq_true _]%andb_true_iff.
Qed.

Lemma keeps_drop_notifications p : (forall n, p n = true -> n_userId n = me) -> keeps confined (drop_notifications p).
Proof.
  intros Hp. apply keeps_io; [apply _|]. intros w. apply confined_rest; [done..|]. intros He. split; [done|].
  unfold rest. cbn -[foreign delete_many]. by rewrite foreign_delete by auto.
Qed.

Lemma keeps_create_city dto : keeps confined (create_city me dto).
Proof.
  unfold create_city, insert_pin. keeps_tac. apply keeps_io; [apply _|]. intros w. unfold create.
  destruct (existsb (same_pin _ _ _) _); [reflexivity|]. destruct (existsb _ _); [|reflexivity].
  apply confined_rest; cbn; [done|done|lia|]. intros He. split; [done|]. unfold rest. cbn -[foreign]. by rewrite foreign_snoc.
Qed.

Lemma keeps_remove_city id : keeps confined (remove_city me id).
Proof.
  unfold remove_city. keeps_tac. apply keeps_confined_exec. intros w. split_and!; [done..|]. intros He. split; [done|].
  unfold rest. cbn -[foreign delete_many]. rewrite foreign_delete; [done|]. by intros x _ [_ Hx%bool_decide_eq_true]%andb_true_iff.
Qed.

Lemma keeps_setJson R `{!WorldOrder R} `{!IgnoresRedis R} key x ttlSec : keeps R (setJson_of key x ttlSec).
Proof. apply keeps_redis_io; [done..|]. intros w. apply set_px_redis_only. Qed.

Lemma keeps_forecast lat lon : keeps confined (forecast_get up lat lon).
Proof. unfold forecast_get, getJson_as. keeps_tac; by apply keeps_setJson; apply _. Qed.

Lemma keeps_geocode q : keeps confined (geocode_search up q).
Proof. unfold geocode_search, getJson_as. keeps_tac; by apply keeps_setJson; apply _. Qed.

Lemma answer_world {A} (m : M A) f c w : (answer m f c w).2 = (m w).2.
Proof. unfold answer. by destruct (m w) as [[]]. Qed.

Lemma confined_answer {A} (m : M A) f c w : keeps confined m -> confined w (answer m f c w).2.
Proof. intros Hm. rewrite answer_world. apply Hm. Qed.

(** Every handler behind the bearer guard alone. *)
Lemma controller_confined rq user w :
  access (rq_route rq) = Bearer -> au_userId user = me -> confined w (controller config env up rq user w).2.
Proof.
  intros Ha Hme. unfold controller. destruct (rq_route rq) as [r|r|r|r|r|r|lat lon|q| |]; try discriminate Ha.
  - destruct r; try discriminate Ha; cbn [AuthController]; apply confined_answer; [apply (keeps_ret confined)|]. rewrite Hme. apply keeps_resend.
  - destruct r; cbn [UsersController]; rewrite ?Hme; apply confined_answer.
    + unfold getProfile. keeps_tac.
    + unfold updateProfile, getProfile. keeps_tac. by apply keeps_upd_me.
    + apply keeps_deleteAccount.
    + unfold createTelegramLink. keeps_tac. by apply keeps_upd_me.
    + unfold unlinkTelegram. keeps_tac. by apply keeps_upd_me.
    + unfold listPushSubscriptions. keeps_tac.
    + apply keeps_addPush.
    + apply keeps_removePush.
  - destruct r as [dto|pg lim|id|id dto| |id|id]; cbn [TriggersController]; rewrite ?Hme; unfold reply_with; rewrite answer_world.
    + apply (confined_command (Create dto)).
    + assert (keeps confined (ListTriggers me pg lim)) as Hk; [unfold ListTriggers, page; keeps_tac|apply Hk].
    + assert (keeps confined (GetTrigger me id)) as Hk; [unfold GetTrigger, findOwned; keeps_tac|apply Hk].
    + apply (confined_command (Update id dto)).
    + apply (confined_command Clear).
    + apply (confined_command (Delete id)).
    + apply (confined_command (SendTest id)).
  - destruct r; cbn [NotificationsController]; rewrite ?Hme; apply confined_answer.
    + apply (keeps_query confined).
    + apply keeps_drop_notifications. by intros n Hn%bool_decide_eq_true.
    + unfold remove_notification. keeps_tac. apply keeps_drop_notifications. by intros n [_ Hn%bool_decide_eq_true]%andb_true_iff.
  - destruct r; cbn [PinnedCitiesController]; rewrite ?Hme; apply confined_answer.
    + unfold findAll_cities. keeps_tac.
    + apply keeps_create_city.
    + apply keeps_remove_city.
  - apply confined_answer, keeps_forecast.
  - apply confined_answer, keeps_geocode.
Qed.

(** C19. A request stays within its account. On every route that asks for a
    signed-in user, the administration apart (the public routes of /auth,
    which act on the account their body names, are not among them), with
    whatever identifiers, bodies and faults, a request leaves every row of
    every other account (its profile, triggers and conditions, history,
    devices, sessions and pinned cities) and the outbox exactly as they were,
    where the history of the others points at no trigger but theirs. *)
Theorem requests_stay_in_account rq w :
  access (rq_route rq) = Bearer -> keys_ok w -> endpoints_ok (db w) -> refers_home (db w) ->
  (forall token payload t, rq_bearer rq = Some token -> jwt_verify (accessSecret config) t token = Some payload -> sub payload = me) ->
  let w' := (serve_request config env up track v rq w).2 in
  others me (db w') = others me (db w) /\ rest (db w') = rest (db w).
Proof.
  intros Ha Hk He Hh Hme. cut (confined w (serve_request config env up track v rq w).2); [intros Hc; by destruct (Hc Hk He Hh) as (_ & _ & ?)|].
  clear Hk He Hh. unfold serve_request, behind.
  pose proof (keeps_ThrottlerGuard track confined rq w) as Ht. destruct (ThrottlerGuard track rq w) as [[[]|e|] w1]; [|exact Ht..].
  etrans; [exact Ht|]. pose proof (keeps_guards config confined rq w1) as Hg.
  destruct (guards config rq w1) as [[user|e|] w2] eqn:E; [|exact Hg..]. etrans; [exact Hg|].
  apply guards_Ok in E as (token & payload & Hb & Hv & -> & _); [|by rewrite Ha].
  unfold ValidationPipe. destruct (valid_route v (rq_route rq)); [|reflexivity].
  apply controller_confined; [done|]. by eapply Hme.
Qed.

End Isolation.

(** ** Concrete runs *)

Definition sample_validators : Validators :=
  {| is_email := fun _ => true; is_https_url := fun _ => true; url_hostname := fun s => Some s; length_of := String.length;
     is_time_zone := fun _ => true; is_latitude := fun _ => true; is_longitude := fun _ => true |}.

Definition sample_env : HttpConfig := {| NODE_ENV := "production"; COOKIE_SAMESITE := None; TELEGRAM_BOT_USERNAME := None |}.

Definition sample_track (r : Route) (client : string) : string := client.

(** An access token of the plain user, and what it is used for. *)
Definition plain_token : string :=
  jwt_sign (Crypto:=sample_crypto) "access" {| sub := "uuid-1"; email := "a@b.c"; role := Some USER; jti := None |} 0 900.

Definition plain_request (r : Route) : Request :=
  {| rq_client := "10.0.0.1"; rq_bearer := Some plain_token; rq_cookie := None; rq_route := r |}.

Definition sample_served (rq : Request) :=
  serve_request (H:=sample_uuids) (H0:=sample_crypto) sample_auth sample_env dead_upstream sample_track sample_validators rq accounts_world.

(** A token without the role is turned away from the administration. *)
Lemma access_is_controlled_witness :
  (sample_served (plain_request (RAdmin (DeleteOneUser "uuid-0")))).1.1 = Throw (Forbidden "Admin access required") /\
  db (sample_served (plain_request (RAdmin (DeleteOneUser "uuid-0")))).2 = db accounts_world.
Proof.
  destruct (access_is_controlled (H:=sample_uuids) (H0:=sample_crypto) sample_auth sample_env dead_upstream sample_track sample_validators
    (plain_request (RAdmin (DeleteOneUser "uuid-0"))) accounts_world
    (sample_served (plain_request (RAdmin (DeleteOneUser "uuid-0")))).1.1 (sample_served (plain_request (RAdmin (DeleteOneUser "uuid-0")))).1.2
    (sample_served (plain_request (RAdmin (DeleteOneUser "uuid-0")))).2) as [(Hdb & _)|(token & payload & t & Hb & _ & Hv & Hadmin)].
  - unfold sample_served. destruct (serve_request _ _ _ _ _ _ _) as [[? ?] ?]. reflexivity.
  - discriminate.
  - split; [vm_compute; reflexivity|exact Hdb].
  - split; vm_compute; reflexivity.
Defined.

(** The user deletes the account; the administrator's row stays. *)
Lemma requests_stay_in_account_witness :
  (sample_served (plain_request (RUsers (DeleteMe "pw")))).1.1 = Ok (Success true) /\
  rest "uuid-1" (db (sample_served (plain_request (RUsers (DeleteMe "pw")))).2) = rest "uuid-1" (db accounts_world).
Proof.
  split; [vm_compute; reflexivity|].
  apply (requests_stay_in_account (H:=sample_uuids) (H0:=sample_crypto) sample_auth sample_env dead_upstream sample_track sample_validators
    "uuid-1" (plain_request (RUsers (DeleteMe "pw"))) accounts_world); [reflexivity|exact accounts_world_keys|constructor|by intros n id []%elem_of_nil|].
  intros token payload t [= <-] Hv. destruct (decide (t < 900)) as [Hlt|Hge].
  - unfold plain_token in Hv. rewrite (jwt_verify_sign (H:=sample_crypto)) in Hv by exact Hlt. by injection Hv as <-.
  - unfold plain_token in Hv. rewrite (jwt_expired (H:=sample_crypto)) in Hv by lia. discriminate.
Defined.
