(* ===== verification/Session.v ===== *)
(** * A browser session

    A client that signed in and keeps refreshing: the rate limiter, the
    controller, the refresh cookie and the rotation, request after request. *)

From S2P Require Import Prelude JsNumber Enums Contracts Table World Samples Effects RedisService Throttler Outbox Crypto Auth AuthSessions Triggers Users Admin History OpenMeteo Http HttpProps.

Section Session.
Context `{UuidSupply} `{CryptoLaws} (config : AuthConfig) (env : HttpConfig) (up : Upstream).
Context (track : Route -> string -> string) (v : Validators).

(** *** The client *)

Definition refresh_request (client cookie : string) : Request :=
  {| rq_client := client; rq_bearer := None; rq_cookie := Some cookie; rq_route := RAuth PostRefresh |}.

(** The value the client holds for a cookie after a response. *)
Definition stored (name : string) (ops : list CookieOp) (cookie : string) : string :=
  fold_left (fun c op => match op with
                         | SetCookie n value _ _ => if String.eqb n name then value else c
                         | ClearCookie n _ => if String.eqb n name then "" else c
                         end) ops cookie.

(** It refreshes after each of the given waits, with the cookie it was last
    given. *)
Fixpoint keep_alive (client cookie : string) (waits : list Z) (w : World) : list (outcome Reply * Z) :=
  match waits with
  | [] => []
  | d :: rest =>
      let r := serve_request config env up track v (refresh_request client cookie) (sleep d w).2 in
      (r.1.1, now r.2) :: keep_alive client (stored REFRESH_COOKIE r.1.2 cookie) rest r.2
  end.

(** The access token of an answer names the user at the time it was given. *)
Definition signed_in (userId : string) (answer : outcome Reply * Z) : Prop :=
  exists token payload, answer.1 = Ok (AccessToken token) /\
    jwt_verify (accessSecret config) (answer.2 / 1000) token = Some payload /\ sub payload = userId.

(** *** One request *)

(** Only Redis and the supply of identifiers move. *)
Definition store_kept (w w' : World) : Prop := db w' = db w /\ (uuids w <= uuids w')%nat.

#[local] Instance store_kept_order : WorldOrder store_kept.
Proof.
  unfold store_kept. split; [split|].
  - done.
  - intros w1 w2 w3 [? ?] [? ?]. split; [congruence|lia].
  - intros w. destruct (tick_spec w) as (_ & _ & -> & -> & _). done.
Qed.

#[local] Instance store_kept_redis : IgnoresRedis store_kept.
Proof. split; [intros w w' (r & ->); done|intros w n Hn; split; cbn; done || lia]. Qed.

(** A minute without a request of the client passes the limiter. *)
Lemma throttler_passes client cookie b w :
  represents (track (RAuth PostRefresh) client) "default" b w -> window_end b <= now w -> blocked_until b <= now w ->
  exists w1 b1, ThrottlerGuard track (refresh_request client cookie) w = (Ok tt, w1) /\
    represents (track (RAuth PostRefresh) client) "default" b1 w1 /\
    window_end b1 <= now w + 60000 /\ blocked_until b1 <= now w + 60000 /\ now w1 = now w /\ store_kept w w1.
Proof.
  intros Hrep Hw Hb. unfold ThrottlerGuard. cbn [rq_route rq_client refresh_request throttle_limit].
  destruct (increment_arrive (track (RAuth PostRefresh) client) "default" THROTTLE_TTL 20 THROTTLE_TTL b w) as (r & w1 & Hrun & Hblk & Hrep1 & Hnow);
    [done..|].
  pose proof (keeps_increment store_kept (track (RAuth PostRefresh) client) THROTTLE_TTL 20 THROTTLE_TTL "default" w) as Hk.
  rewrite Hrun in Hk. rewrite (bind_ok _ _ _ _ _ Hrun). unfold arrive in *. cbn in Hblk, Hrep1.
  replace (now w <? window_end b) with false in * by lia. cbn in Hblk, Hrep1.
  replace (now w <? blocked_until b) with false in * by lia. cbn in Hblk, Hrep1. rewrite Hblk.
  exists w1. eexists. split_and!; [done|exact Hrep1|cbn; unfold THROTTLE_TTL; lia|cbn; lia|done|exact Hk].
Qed.

(** The session of [userId] was last given a token in [w0]. *)
Definition session (userId email : string) (w0 w : World) : Prop :=
  oracle w = [] /\ tokens_ok w /\ existsb (has_id userId) (users (db w)) = true /\
  issued_row config userId email w0 ∈ tokens w /\ now w0 = now w.

Lemma session_issued userId email w :
  oracle w = [] -> tokens_ok w -> existsb (has_id userId) (users (db w)) = true ->
  session userId email w (issued config userId email w).
Proof.
  intros Ho Hok Hu. pose proof (issueTokens_evolves config userId email w Hok) as (Hok1 & _).
  rewrite (issueTokens_run config userId email w Ho Hok Hu) in Hok1.
  split_and!; [done|exact Hok1|done|apply issued_row_there|done].
Qed.

(** A refresh after a minute or more, within the lifetime of the token. *)
Lemma refresh_step client userId email b w0 w d :
  session userId email w0 w ->
  represents (track (RAuth PostRefresh) client) "default" b w ->
  window_end b <= now w + 60000 -> blocked_until b <= now w + 60000 -> 60000 <= d -> d + 2000 <= refreshTtlMs config ->
  exists w1 w' b',
    serve_request config env up track v (refresh_request client (refresh_text config userId email w0)) (sleep d w).2 =
      (Ok (AccessToken (access_text config userId email w1)),
       [SetCookie REFRESH_COOKIE (refresh_text config userId email w1) (refreshCookieOptions env) (refreshTtlMs config)], w') /\
    now w1 = now w' /\ session userId email w1 w' /\
    represents (track (RAuth PostRefresh) client) "default" b' w' /\
    window_end b' <= now w' + 60000 /\ blocked_until b' <= now w' + 60000.
Proof.
  intros (Ho & Hok & Hu & Hin & Hnow) Hrep Hwin Hblk Hd Hexp. set (w2 := (sleep d w).2).
  destruct (throttler_passes client (refresh_text config userId email w0) b w2) as (w3 & b3 & Hrun & Hrep3 & Hw3 & Hb3 & Hnow3 & Hdb & Huu);
    [apply represents_sleep; [lia|done]|cbn; lia..|].
  assert (now w2 = now w + d) as Hnow2 by done.
  assert (oracle w3 = []) as Ho3 by apply Hrep3.
  assert (tokens_ok w3) as Hok3.
  { destruct Hok as [Hnd Hdr]. unfold tokens_ok, tokens. rewrite Hdb. split; [exact Hnd|]. intros r Hr.
    eapply drawn_mono; [|exact (Hdr r Hr)]. exact Huu. }
  assert (existsb (has_id userId) (users (db w3)) = true) as Hu3 by (rewrite Hdb; exact Hu).
  pose proof (refresh_run config userId email w0 w3 Ho3 Hok3 Hu3) as Href. cbv zeta in Href.
  set (w4 := spent_row config userId email w0 w3) in *.
  pose proof (revoke_where_evolves (unspent (issued_row config userId email w0)) w3 Hok3) as (Hok4 & _).
  exists w4, (issued config userId email w4), b3. split_and!.
  - unfold serve_request, behind. rewrite Hrun. cbn [guards access rq_route refresh_request ret valid_route ValidationPipe].
    unfold controller, AuthController, readRefreshCookie. cbn [rq_route rq_cookie refresh_request].
    pose proof (jwt_sign_not_empty (refreshSecret config) (refresh_claims userId email w0) (now w0 / 1000)
      (now w0 / 1000 + refreshTtlMs config / 1000)) as Hne.
    change (jwt_sign _ _ _ _) with (refresh_text config userId email w0) in Hne.
    destruct (refresh_text config userId email w0) as [|c s] eqn:Htext; [done|]. unfold respondWithTokens, answer.
    rewrite Href; [done|unfold tokens; rewrite Hdb; exact Hin|lia|]. rewrite Hnow3, Hnow2, Hnow. zdivmod.
  - done.
  - by apply session_issued.
  - exact Hrep3.
  - cbn. lia.
  - cbn. lia.
Qed.

(** C37. A session lives as long as it is used: a client that was given a token
    pair and refreshes again and again, at least a minute and at most the
    lifetime of a refresh token (less the seconds its stamps are rounded by)
    apart, is answered every time, through the limiter, the cookie and the
    rotation, with an access token that verifies and names the user. *)
Theorem session_stays_open client userId email w b t w1 waits :
  oracle w = [] -> tokens_ok w -> existsb (has_id userId) (users (db w)) = true -> 1000 <= accessTtlMs config ->
  represents (track (RAuth PostRefresh) client) "default" b w -> window_end b <= now w -> blocked_until b <= now w ->
  issueTokens config userId email w = (Ok t, w1) ->
  Forall (fun d => 60000 <= d /\ d + 2000 <= refreshTtlMs config) waits ->
  Forall (signed_in userId) (keep_alive client (refreshToken t) waits w1).
Proof.
  intros Ho Hok Hu Hacc Hrep Hwin Hblk Hrun Hwaits. rewrite (issueTokens_run config userId email w Ho Hok Hu) in Hrun.
  injection Hrun as <- <-. cbn [refreshToken].
  assert (forall w0 w' b', session userId email w0 w' -> represents (track (RAuth PostRefresh) client) "default" b' w' ->
    window_end b' <= now w' + 60000 -> blocked_until b' <= now w' + 60000 ->
    Forall (signed_in userId) (keep_alive client (refresh_text config userId email w0) waits w')) as Hloop.
  { clear Ho Hok Hu Hrep Hwin Hblk. induction Hwaits as [|d waits [Hlo Hhi] _ IH]; intros w0 w' b' Hs Hrep Hwin Hblk; [constructor|].
    destruct (refresh_step client userId email b' w0 w' d) as (w1 & w2 & b2 & Hrun & Hnow & Hs2 & Hrep2 & Hw2 & Hb2); [done..|].
    cbn [keep_alive]. rewrite Hrun. cbn [fst snd]. constructor; [|cbn; by apply (IH w1 w2 b2)].
    eexists _, _. split_and!; [done| |].
    - cbn [snd]. rewrite <- Hnow. apply jwt_verify_sign. zdivmod.
    - done. }
  apply (Hloop w (issued config userId email w) b); [by apply session_issued|exact Hrep|cbn; lia..].
Qed.

End Session.

(** *** A day in a session *)

Definition session_tokens : outcome Tokens * World := issueTokens (H:=sample_uuids) (H0:=sample_crypto) sample_auth "u1" "a@b.c" auth_world.

Definition session_waits : list Z := [60000; 900000; 604798000; 60000].

Definition session_answers : list (outcome Reply * Z) :=
  keep_alive (H:=sample_uuids) (H0:=sample_crypto) sample_auth sample_env dead_upstream sample_track sample_validators "10.0.0.1"
    (match session_tokens.1 with Ok t => refreshToken t | _ => "" end) session_waits session_tokens.2.

Lemma session_stays_open_witness :
  length session_answers = 4%nat /\ Forall (signed_in (H0:=sample_crypto) sample_auth "u1") session_answers.
Proof.
  split; [reflexivity|].
  apply (session_stays_open (H:=sample_uuids) (H0:=sample_crypto) sample_auth sample_env dead_upstream sample_track sample_validators
    "10.0.0.1" "u1" "a@b.c" auth_world no_bucket
    (match session_tokens.1 with Ok t => t | _ => {| accessToken := ""; refreshToken := "" |} end) session_tokens.2 session_waits).
  - reflexivity.
  - split; [apply NoDup_nil_2|intros r Hr; by apply elem_of_nil in Hr].
  - reflexivity.
  - cbn. lia.
  - by split_and!; try reflexivity.
  - cbn. lia.
  - cbn. lia.
  - vm_compute. reflexivity.
  - repeat constructor; cbn; lia.
Defined.
