(* ===== verification/Settings.v ===== *)
(** * Settings

    What the services read from the validated configuration when they are
    constructed: every default, every conversion, and what they guarantee to
    the code that uses them. *)

From S2P Require Import Prelude JsNumber QuietHours JsParse Regex Location Enums Contracts Table World Effects RedisService Outbox Env Format Channels Consumer Shutdown Crypto Auth History Http.
From Stdlib Require Import Ascii SpecFloat.

(** ** [ConfigService] *)

(** [config.get(key)], and [config.get<string>(key)] of a variable that no
    schema converts. *)
Definition get (config : Config) (key : string) : option EnvValue := config !! key.
Definition get_string (config : Config) (key : string) : option string :=
  match get config key with Some (Text s) => Some s | _ => None end.

(** [Number(value)]. *)
Definition to_number (v : option EnvValue) : number :=
  match v with None => S754_nan | Some (Text s) => Number s | Some (Numeric x) => x end.

(** [Number.isFinite(configured) && configured > 0 ? configured : fallback]. *)
Definition positive_or (fallback configured : number) : number :=
  if Num.is_finite configured && Num.gtb configured (Num.of_Z 0) then configured else fallback.

(** ** The watcher *)

Definition DEFAULT_CONCURRENCY : number := Num.of_Z 5.
Definition DEFAULT_CACHE_TTL_SEC : number := Num.of_Z 240.
Definition DEFAULT_BATCH : Z := 200.

(** [WatcherService], [OpenMeteoWeatherProvider], [OutboxRelayService]. *)
Definition concurrency (config : Config) : number := positive_or DEFAULT_CONCURRENCY (to_number (get config "WATCHER_CONCURRENCY")).
Definition weather_ttl (config : Config) : number := positive_or DEFAULT_CACHE_TTL_SEC (to_number (get config "WEATHER_CACHE_TTL_SEC")).
Definition batchSize (config : Config) : number :=
  to_number (Some (default (Text (pretty DEFAULT_BATCH)) (get config "OUTBOX_BATCH_SIZE"))).

(** What [Array.from({ length })] and [take] make of a number. *)
Definition rows_of (x : number) : nat := Z.to_nat (whole_of x).

(** [process.env.WATCHER_CRON || CronExpression.EVERY_5_MINUTES]. *)
Definition schedule (EVERY_5_MINUTES : string) (env : Env) : string :=
  match env !! "WATCHER_CRON" with None | Some "" => EVERY_5_MINUTES | Some cron => cron end.

(** ** The notifier *)

Definition DEFAULT_RETRY_DELAYS_MS : list number := Num.of_Z <$> [5000; 30000; 300000].
Definition DEFAULT_DEAD_QUEUE_MAX : number := Num.of_Z 10000.

Definition parseDelays (raw : option string) : list number :=
  match raw with
  | None | Some "" => DEFAULT_RETRY_DELAYS_MS
  | Some raw =>
      let parsed := List.filter (fun v => Num.is_finite v && Num.gtb v (Num.of_Z 0))
                      (map (fun v => Number (trim v)) (split_on "," raw)) in
      match parsed with [] => DEFAULT_RETRY_DELAYS_MS | _ => parsed end
  end.

Definition positiveInt (raw : option string) (fallback : number) : number :=
  let parsed := match raw with None => S754_nan | Some s => Number s end in
  if isInteger parsed && Num.gtb parsed (Num.of_Z 0) then parsed else fallback.

Definition prefetch (config : Config) : number :=
  match get config "NOTIFIER_PREFETCH" with None => Num.of_Z 10 | Some v => to_number (Some v) end.
Definition retryDelaysMs (config : Config) : list number := parseDelays (get_string config "NOTIFIER_RETRY_DELAYS_MS").
Definition deadQueueMaxLength (config : Config) : number :=
  positiveInt (get_string config "NOTIFIER_DEAD_QUEUE_MAX") DEFAULT_DEAD_QUEUE_MAX.

(** [MailService]: no transport without a host. *)
Record MailTransport := {
  mt_host : string;
  mt_port : number;
  mt_secure : bool;
  mt_auth : option (string * string);
  mt_from : string;
}.

Definition mail_transport (config : Config) : option MailTransport :=
  let host := default "" (get_string config "SMTP_HOST") in
  let from := default "alerts@example.com" (get_string config "MAIL_FROM") in
  if decide (host = "") then None else
  let port := Number (default "587" (get_string config "SMTP_PORT")) in
  let user := default "" (get_string config "SMTP_USER") in
  let pass := default "" (get_string config "SMTP_PASS") in
  Some {| mt_host := host; mt_port := port;
          mt_secure := bool_decide (get_string config "SMTP_SECURE" = Some "true") || Num.eqb port (Num.of_Z 465);
          mt_auth := if decide (user = "") then None else Some (user, pass); mt_from := from |}.

(** [TelegramChannel], [EmailChannel] and [WebPushChannel]. *)
Definition channel_config (config : Config) : ChannelConfig :=
  {| telegram_token := default "" (get_string config "TELEGRAM_BOT_TOKEN");
     smtp_configured := bool_decide (is_Some (mail_transport config));
     vapid_configured := negb (bool_decide (default "" (get_string config "VAPID_PUBLIC_KEY") = "")) &&
                         negb (bool_decide (default "" (get_string config "VAPID_PRIVATE_KEY") = "")) |}.

(** ** The API *)

Definition http_config (config : Config) : HttpConfig :=
  {| NODE_ENV := default "" (get_string config "NODE_ENV");
     COOKIE_SAMESITE := get_string config "COOKIE_SAMESITE";
     TELEGRAM_BOT_USERNAME := get_string config "TELEGRAM_BOT_USERNAME" |}.

(** [AuthService]: [None] when a secret is missing or a lifetime malformed,
    which stops the start. *)
Definition auth_config (config : Config) (absentUserHash : string) : option AuthConfig :=
  accessSecret ← get_string config "JWT_ACCESS_SECRET";
  refreshSecret ← get_string config "JWT_REFRESH_SECRET";
  accessTtlMs ← parseDurationMs (default "15m" (get_string config "JWT_ACCESS_TTL"));
  refreshTtlMs ← parseDurationMs (default "7d" (get_string config "JWT_REFRESH_TTL"));
  Some {| accessSecret := accessSecret; refreshSecret := refreshSecret;
          accessTtlMs := accessTtlMs; refreshTtlMs := refreshTtlMs;
          frontUrl := default "http://localhost:3001" (get_string config "FRONT_URL");
          mailConfigured := bool_decide (is_Some (mail_transport config));
          absentUserHash := absentUserHash |}.

(** [NotificationsService]. *)
Definition retention (config : Config) : number := retentionDays (to_number (get config "NOTIFICATION_RETENTION_DAYS")).

(** [bootstrap]: the origins let through, and how many proxies are trusted. *)
Definition corsOrigins (config : Config) : list string :=
  List.filter (fun origin => negb (bool_decide (origin = "")))
    (map trim (split_on "," (default "http://localhost:3001" (get_string config "CORS_ORIGIN")))).

Inductive TrustProxy := NotSet | Hops (n : number) | Address (s : string).

Definition trustProxy (config : Config) : TrustProxy :=
  match get_string config "TRUST_PROXY" with
  | None | Some "" => NotSet
  | Some raw => let hops := Number raw in if Num.is_finite hops then Hops hops else Address raw
  end.

(** ** Numbers that are kept in range *)

Lemma positive_or_ok fallback x :
  Num.is_finite fallback = true -> Num.gtb fallback (Num.of_Z 0) = true ->
  Num.is_finite (positive_or fallback x) = true /\ Num.gtb (positive_or fallback x) (Num.of_Z 0) = true.
Proof. unfold positive_or. intros Hf Hp. destruct (_ && _) eqn:E; [by apply andb_true_iff in E|done]. Qed.

(** A positive whole number is at least one. *)
Lemma rows_of_positive z :
  0 <= z -> Num.is_finite (Num.of_Z z) = true -> Num.gtb (Num.of_Z z) (Num.of_Z 0) = true -> (0 < rows_of (Num.of_Z z))%nat.
Proof.
  intros Hz Hf Hp. destruct (Num.ltb_of_Z 0 z) as (x & y & Hx & Hy & Hxy); [done..|].
  unfold rows_of, whole_of. rewrite Hy. cbn. lia.
Qed.

(** Whatever the text, the queue limit is a positive whole number. *)
Lemma positiveInt_ok raw fallback :
  isInteger fallback = true -> Num.gtb fallback (Num.of_Z 0) = true ->
  isInteger (positiveInt raw fallback) = true /\ Num.gtb (positiveInt raw fallback) (Num.of_Z 0) = true.
Proof. unfold positiveInt. intros Hi Hp. destruct (_ && _) eqn:E; [by apply andb_true_iff in E|done]. Qed.

Lemma parseDelays_ok raw :
  parseDelays raw <> [] /\ Forall (fun d => Num.is_finite d = true /\ Num.gtb d (Num.of_Z 0) = true) (parseDelays raw).
Proof.
  assert (DEFAULT_RETRY_DELAYS_MS <> [] /\
    Forall (fun d => Num.is_finite d = true /\ Num.gtb d (Num.of_Z 0) = true) DEFAULT_RETRY_DELAYS_MS) as Hdefault.
  { split; [done|]. repeat constructor. }
  unfold parseDelays. destruct raw as [[|c raw]|]; [done| |done].
  set (parsed := List.filter _ _). destruct parsed as [|d ds] eqn:Hp; [done|]. split; [done|].
  rewrite <- Hp. apply Forall_forall. intros x Hx. unfold parsed in Hx.
  apply list_elem_of_In, List.filter_In in Hx as [_ Hx]. by apply andb_true_iff in Hx.
Qed.

(** ** Decimal numbers read back *)

Lemma pretty_N_go_digits x s : digits_value 0 (pretty_N_go x s) = digits_value (Z.of_N x) s.
Proof.
  revert s. induction (N.lt_wf_0 x) as [x _ IH]. intros s.
  destruct (decide (0 < x)%N) as [Hx|Hx]; [|by replace x with 0%N by lia].
  rewrite pretty_N_go_step by done. rewrite IH by (by apply N.div_lt).
  assert (digit (pretty_N_char (x `mod` 10)) = Some (Z.of_N (x `mod` 10))) as Hd.
  { assert (x `mod` 10 < 10)%N as Hm by by apply N.mod_lt.
    revert Hm. generalize (x `mod` 10)%N. intros m Hm.
    assert (m = 0 \/ m = 1 \/ m = 2 \/ m = 3 \/ m = 4 \/ m = 5 \/ m = 6 \/ m = 7 \/ m = 8 \/ m = 9)%N as Hcases by lia.
    by repeat destruct Hcases as [->|Hcases]; [..|subst]. }
  cbn [digits_value]. rewrite Hd. cbn [mbind option_bind]. f_equal.
  rewrite N2Z.inj_div, N2Z.inj_mod. change (Z.of_N 10) with 10. zdivmod.
Qed.

Lemma pretty_digits z : 0 <= z -> pretty z <> "" /\ Number_digits (pretty z) = Some z.
Proof.
  intros Hz. destruct z as [|p|p]; [done| |lia]. unfold Number_digits.
  assert (pretty (Z.pos p) = pretty_N_go (N.pos p) "") as -> by done. split; [|by rewrite pretty_N_go_digits].
  intros He. pose proof (pretty_N_go_digits (N.pos p) "") as Hd. rewrite He in Hd. done.
Qed.

Lemma pretty_chars (q : ascii -> bool) z :
  0 <= z -> forallb q decimal_digits = true -> all_chars q (pretty z) = true.
Proof.
  intros [_ Hd]%pretty_digits Hq. unfold Number_digits in Hd. apply digits_chars in Hd. eapply all_chars_impl; [|exact Hd].
  intros c Hc%bool_decide_eq_true. rewrite forallb_forall in Hq. by apply Hq, list_elem_of_In.
Qed.

Lemma split_on_last sep s : all_chars (fun c => negb (Ascii.eqb c sep)) s = true -> split_on sep s = [s].
Proof.
  induction s as [|c s IH]; cbn -[Ascii.eqb]; [done|]. intros [Hc Hs]%andb_true_iff. apply negb_true_iff in Hc. by rewrite Hc, IH.
Qed.

Lemma split_on_app sep s rest :
  all_chars (fun c => negb (Ascii.eqb c sep)) s = true -> split_on sep (s +:+ String sep rest) = s :: split_on sep rest.
Proof.
  induction s as [|c s IH].
  - change ("" +:+ String sep rest) with (String sep rest). cbn -[Ascii.eqb]. by rewrite Ascii.eqb_refl.
  - change (String c s +:+ String sep rest) with (String c (s +:+ String sep rest)). cbn -[Ascii.eqb].
    intros [Hc Hs]%andb_true_iff. apply negb_true_iff in Hc. by rewrite Hc, (IH Hs).
Qed.

Lemma split_concat sep l :
  l <> [] -> Forall (fun s => all_chars (fun c => negb (Ascii.eqb c sep)) s = true) l ->
  split_on sep (String.concat (String sep "") l) = l.
Proof.
  intros Hne Hl. destruct l as [|s l]; [done|]. clear Hne. revert s Hl.
  induction l as [|t l IH]; intros s [Hs Hl]%Forall_cons_1; [by apply split_on_last|].
  change (String.concat (String sep "") (s :: t :: l)) with (s +:+ String sep (String.concat (String sep "") (t :: l))).
  rewrite split_on_app by done. f_equal. by apply IH.
Qed.

Lemma whole_of_of_Z z : 0 < z < 2 ^ 53 -> whole_of (Num.of_Z z) = z.
Proof.
  intros Hz. destruct (Num.of_Z_value z) as [[_ ?]|(m & e & v & _ & _ & _ & Hv & _ & Heq)]; [lia|exfalso; lia|].
  unfold whole_of. rewrite Hv. cbn. apply Heq. lia.
Qed.

(** C38. The retry ladder read from the environment is the one written there:
    delays printed as whole numbers of milliseconds and separated by commas
    are read back in order, the same integers, and whatever the variable holds the consumer
    starts with at least one stage and every delay is finite and positive. *)
Theorem retry_delays_read_back ds raw :
  ds <> [] -> Forall (fun d => 0 < d < 2 ^ 53) ds ->
  parseDelays (Some (String.concat "," (pretty <$> ds))) = Num.of_Z <$> ds /\
  whole_of <$> parseDelays (Some (String.concat "," (pretty <$> ds))) = ds /\
  parseDelays raw <> [] /\
  Forall (fun d => Num.is_finite d = true /\ Num.gtb d (Num.of_Z 0) = true) (parseDelays raw).
Proof.
  intros Hne Hds.
  assert (whole_of <$> (Num.of_Z <$> ds) = ds) as Hback.
  { clear Hne. induction Hds as [|d ds Hd _ IH]; cbn; [done|]. by rewrite whole_of_of_Z, IH. }
  enough (parseDelays (Some (String.concat "," (pretty <$> ds))) = Num.of_Z <$> ds) as Hparsed.
  { rewrite Hparsed. split; [done|]. split; [done|]. apply parseDelays_ok. }
  assert (split_on "," (String.concat "," (pretty <$> ds)) = pretty <$> ds) as Hsplit.
  { apply split_concat; [by destruct ds|]. apply Forall_fmap. eapply Forall_impl; [exact Hds|]. intros d [Hd _].
    apply (pretty_chars (fun c => negb (Ascii.eqb c ","))); [lia|done]. }
  assert (map (fun v => Number (trim v)) (pretty <$> ds) = Num.of_Z <$> ds) as Hread.
  { clear Hne Hsplit Hback. induction Hds as [|d ds Hd _ IH]; cbn; [done|]. f_equal; [|exact IH].
    rewrite trim_id by (apply (pretty_chars (fun c => negb (is_space c))); [lia|done]).
    destruct (pretty_digits d) as [Hp Hv]; [lia|]. by apply Number_of_digits. }
  assert (List.filter (fun v => Num.is_finite v && Num.gtb v (Num.of_Z 0)) (Num.of_Z <$> ds) = Num.of_Z <$> ds) as Hkeep.
  { clear -Hds. induction Hds as [|d ds Hd _ IH]; cbn; [done|].
    destruct (Num.of_Z_shape d) as [[_ ?]|(m & e & E & _)]; [lia| |].
    { exfalso. lia. }
    rewrite E. cbn. f_equal. exact IH. }
  revert Hsplit. generalize (String.concat "," (pretty <$> ds)). intros joined Hsplit.
  unfold parseDelays. rewrite Hsplit, Hread, Hkeep. destruct joined as [|c s]; [|by destruct ds].
  exfalso. destruct ds as [|d ds]; [done|]. apply Forall_cons_1 in Hds as [Hd _].
  destruct (pretty_digits d) as [Hp _]; [lia|]. by injection Hsplit.
Qed.

(** ** What an accepted environment configures *)

Section Accepted.
Context `{Zod}.

(** A declared variable of an accepted environment, through [get]. *)
Lemma accepted_get schema env c f :
  NoDup (f_name <$> s_fields schema) -> createEnvValidator schema env = inl c -> f ∈ s_fields schema ->
  field_value f (env !! f_name f) = Some (get c (f_name f)).
Proof.
  intros Hnd Hc Hf. destruct (accepted _ _ _ Hnd Hc) as (data & _ & Hin & _). by apply Hin.
Qed.

(** The API starts only with settings under which a session can be kept:
    the refresh cookie has a [SameSite] browsers know and is [Secure] when it
    is to be sent across sites, and both signing secrets are at least 32
    characters long and not the placeholder. *)
Theorem accepted_session_settings env c :
  createEnvValidator coreApiEnvSchema env = inl c ->
  let o := refreshCookieOptions (http_config c) in
  co_sameSite o ∈ ["lax"; "strict"; "none"] /\
  (co_sameSite o = "none" -> co_secure o = true) /\
  Forall (fun key => exists s, get_string c key = Some s /\ (32 <= js_length s)%nat /\ startsWith "change-me" s = false)
    ["JWT_ACCESS_SECRET"; "JWT_REFRESH_SECRET"].
Proof.
  intros Hc. cbv zeta. destruct (accepted _ _ _ core_names Hc) as (data & Hsame & Hget & Hr).
  assert (not_none_outside_production c = true) as Hnone.
  { specialize (Hr _ ltac:(apply list_elem_of_here)). cbn [fst] in Hr. unfold not_none_outside_production in *.
    pose proof (Hsame (optional cookieSameSite) ltac:(in_list)) as Hc1. pose proof (Hsame node_env ltac:(in_list)) as Hc2.
    cbn in Hc1, Hc2. rewrite Hc1, Hc2. exact Hr. }
  pose proof (Hget (optional cookieSameSite) ltac:(in_list)) as Hsite.
  unfold refreshCookieOptions, http_config. cbn [co_sameSite co_secure Http.COOKIE_SAMESITE Http.NODE_ENV].
  split_and!.
  - cbn in Hsite. unfold get_string, get. destruct (env !! "COOKIE_SAMESITE") as [s|]; [|injection Hsite as <-; cbn; set_solver].
    unfold field_value in Hsite. destruct (forallb _ _) eqn:Hv in Hsite; [|done]. injection Hsite as <-. cbn [default].
    cbn [forallb rule_ok f_rules optional cookieSameSite field] in Hv. by apply andb_true_iff in Hv as [Hv%bool_decide_eq_true _].
  - unfold get_string, get. intros Hn. unfold not_none_outside_production in Hnone.
    destruct (c !! "COOKIE_SAMESITE") as [[s|x]|]; try done. cbn in Hn. subst s. rewrite bool_decide_true in Hnone by done.
    cbn in Hnone. apply bool_decide_eq_true in Hnone. by rewrite Hnone.
  - assert (forall name, jwtSecret name ∈ s_fields coreApiEnvSchema ->
      exists s, get_string c name = Some s /\ (32 <= js_length s)%nat /\ startsWith "change-me" s = false) as Hs.
    { intros name Hin. pose proof (Hget _ Hin) as Hv. unfold get_string, get. cbn [jwtSecret field f_name] in Hv. unfold field_value in Hv.
      cbn [jwtSecret field f_rules f_presence f_transform] in Hv. destruct (env !! name) as [s|]; [|done].
      destruct (forallb _ _) eqn:Hrules; [|done]. injection Hv as <-. exists s. split; [done|].
      cbn [forallb rule_ok] in Hrules. rewrite andb_true_r in Hrules. apply andb_true_iff in Hrules as [Hl%Nat.leb_le Hp%negb_true_iff]. done. }
    repeat constructor; apply Hs; in_list.
Qed.

(** A watcher that starts polls its slice: it runs at least one worker,
    and its shard index is below the number of shards, unless that number is
    too large for a double. *)
Theorem accepted_watcher_polls env c :
  createEnvValidator watcherEnvSchema env = inl c ->
  let count_ := env !! "WATCHER_SHARD_COUNT" in
  let shard := shardFromEnv count_ (env !! "WATCHER_SHARD_INDEX") in
  (0 < rows_of (concurrency c))%nat /\
  (Num.is_finite (Number (default "1" count_)) = true -> 0 <= index shard < count shard).
Proof.
  intros Hc. cbv zeta. split; [|by eapply accepted_shard_in_range].
  pose proof (accepted_get watcherEnvSchema env c (optional (nonNegativeInt "WATCHER_CONCURRENCY")) watcher_names Hc ltac:(in_list)) as Hv.
  cbn [optional nonNegativeInt f_name] in Hv.
  assert (some_worker c = true) as Hsome.
  { destruct (accepted _ _ _ watcher_names Hc) as (data & Hsame & _ & Hr).
    specialize (Hr _ ltac:(apply list_elem_of_here)). cbn [fst] in Hr. unfold some_worker in *.
    pose proof (Hsame (optional (nonNegativeInt "WATCHER_CONCURRENCY")) ltac:(in_list)) as Hw. cbn in Hw. rewrite Hw. exact Hr. }
  destruct (whole_setting "WATCHER_CONCURRENCY" env c 1) as (z & Hz & Hn & _); [done|by vm_compute|exact Hv|].
  unfold some_worker in Hsome. rewrite Hn in Hsome. unfold concurrency, positive_or.
  destruct (_ && _) eqn:Hok; [|by vm_compute; lia].
  unfold get in *. destruct (c !! "WATCHER_CONCURRENCY") as [v|] eqn:Hcv; [|by cbn in Hok].
  assert (to_number (Some v) = Num.of_Z z) as Hv' by (by destruct v). rewrite Hv' in *.
  apply andb_true_iff in Hok as [Hf Hp]. by apply rows_of_positive.
Qed.

End Accepted.

(** ** An empty variable is not an unset one *)

Section NoBatch.
Context `{UuidSupply}.

#[local] Instance broker_ignores_redis : IgnoresRedis broker_same.
Proof. split; [|done]. by intros w w' [r ->]. Qed.

(** A relay that reads batches of no row leaves the broker as it is. *)
Lemma relay_of_nothing : keeps broker_same (runRelay 0).
Proof.
  pose proof (keeps_acquireLock broker_same) as Hacquire. pose proof (keeps_releaseLock broker_same) as Hrelease.
  assert (keeps broker_same (publishPending 0)) as Hpublish.
  { intros w. pose proof (keeps_query broker_same (fun w => map to_pending (take 0 (staged w))) w) as Hk.
    unfold publishPending, bind. unfold findPending. destruct (query _ w) as [r w1] eqn:Hq. cbn in Hk.
    apply io_effect in Hq as [[_ Hno]|[_ Hq]]; destruct r as [l|e|]; try done; [by destruct (Hno l)|].
    specialize (Hq l eq_refl). by injection Hq as <-. }
  unfold runRelay, flush. keeps_tac; auto.
Qed.

End NoBatch.

(** [Number('')] is 0: a variable that is set and left empty turns the relay
    off for good and lifts the limit on unacknowledged messages. *)
Theorem empty_settings_are_zero config :
  get config "OUTBOX_BATCH_SIZE" = Some (Text "") -> get config "NOTIFIER_PREFETCH" = Some (Text "") ->
  rows_of (batchSize config) = 0%nat /\ (forall s, has_room (rows_of (prefetch config)) s = true) /\
  forall `{UuidSupply} w, broker (runRelay (rows_of (batchSize config)) w).2 = broker w.
Proof.
  intros Hb Hp. unfold batchSize, prefetch. rewrite Hb, Hp.
  assert (rows_of (to_number (Some (default (Text (pretty DEFAULT_BATCH)) (Some (Text ""))))) = 0%nat) as -> by by vm_compute.
  assert (rows_of (to_number (Some (Text ""))) = 0%nat) as -> by by vm_compute.
  split_and!; [done|done|]. intros ? w. apply relay_of_nothing.
Qed.

(** ** Concrete settings *)

Lemma retry_delays_read_back_witness :
  parseDelays (Some "5000,30000,300000") = Num.of_Z <$> [5000; 30000; 300000] /\ parseDelays (Some "0, -1,soon") <> [].
Proof.
  destruct (retry_delays_read_back [5000; 30000; 300000] (Some "0, -1,soon")) as (Hread & _ & Hne & _);
    [discriminate|repeat constructor; lia|]. split; [exact Hread|exact Hne].
Defined.

Lemma accepted_session_settings_witness :
  exists c, createEnvValidator coreApiEnvSchema (<["NODE_ENV" := "production"]> (<["COOKIE_SAMESITE" := "none"]> sample_core_env)) = inl c /\
    co_secure (refreshCookieOptions (http_config c)) = true.
Proof.
  set (env := <["NODE_ENV" := "production"]> _).
  assert (core_accepts env = true) as Hok by (vm_compute; reflexivity).
  unfold core_accepts in Hok. apply bool_decide_eq_true in Hok as [data Hd].
  pose proof (validator_valid coreApiEnvSchema env data Hd) as Hc. eexists. split; [exact Hc|].
  destruct (accepted_session_settings env _ Hc) as (_ & Hsecure & _). apply Hsecure.
  destruct (accepted _ _ _ core_names Hc) as (_ & _ & Hget & _).
  pose proof (Hget (optional cookieSameSite) ltac:(in_list)) as Hv. cbn [f_name optional cookieSameSite field] in Hv.
  unfold refreshCookieOptions, http_config, get_string, get. cbn [co_sameSite Http.COOKIE_SAMESITE].
  change (env !! "COOKIE_SAMESITE") with (Some "none") in Hv.
  destruct ((data ∪ (Text <$> env)) !! "COOKIE_SAMESITE") as [v|]; [|discriminate Hv].
  cbv in Hv. injection Hv as <-. reflexivity.
Defined.

Lemma accepted_watcher_polls_witness :
  exists c, createEnvValidator watcherEnvSchema sample_watcher_env = inl c /\ (0 < rows_of (concurrency c))%nat /\
    0 <= index (shardFromEnv (Some "4") (Some "3")) < count (shardFromEnv (Some "4") (Some "3")).
Proof.
  assert (watcher_accepts sample_watcher_env = true) as Hok by (vm_compute; reflexivity).
  unfold watcher_accepts in Hok. apply bool_decide_eq_true in Hok as [data Hd].
  pose proof (validator_valid watcherEnvSchema _ data Hd) as Hc. eexists. split; [exact Hc|].
  destruct (accepted_watcher_polls sample_watcher_env _ Hc) as [Hw Hs]. split; [exact Hw|].
  apply Hs. vm_compute. reflexivity.
Defined.
