(* ===== verification/Health.v ===== *)
(** * Liveness and readiness

    [libs/common/src/health/health-server.ts] and the probes the services
    give it. Each probe is a remote call or a look at a client; a probe that
    throws counts as a dependency that is down. *)

From S2P Require Import Prelude JsNumber Enums Contracts Table World Effects RedisService Outbox Format Channels Settings.

(** ** The probes *)

(** [PrismaService.isReachable]: [SELECT 1]. *)
Definition isReachable : M bool := catch (do* query (fun _ => tt) in ret true) (fun _ => ret false).

(** [connection?.isConnected() ?? false] of the two RabbitMQ services; [None]
    before there is a connection. *)
Definition isConnected (connection : option bool) : bool := default false connection.

(** [RedisService.isConnected]: [client.status]. *)
Definition redis_isConnected (status : string) : bool := String.eqb status "ready".

(** ** The server *)

Inductive Body :=
  | Alive
  | Readiness (ready : bool) (checks : list (string * bool))
  | Rendered (metrics : string)
  | NoBody.

Record Reply := { status : Z; body : Body }.

(** The checks one after another, in their order. *)
Fixpoint probe (checks : list (string * M bool)) (details : list (string * bool)) : M (list (string * bool)) :=
  match checks with
  | [] => ret details
  | (dependency, check) :: rest =>
      let* up := catch check (fun _ => ret false) in
      probe rest (details ++ [(dependency, up)])
  end.

Definition reportReadiness (checks : list (string * M bool)) : M Reply :=
  let* details := probe checks [] in
  let ready := forallb snd details in
  ret {| status := if ready then 200 else 503; body := Readiness ready details |}.

(** A request to [startHealthServer]; [metrics] renders the registry. *)
Definition health_server (checks : list (string * M bool)) (metrics : M string) (url : string) : M Reply :=
  if String.eqb url "/health" then ret {| status := 200; body := Alive |}
  else if String.eqb url "/ready" then reportReadiness checks
  else if String.eqb url "/metrics" then
    catch (let* text := metrics in ret {| status := 200; body := Rendered text |})
          (fun _ => ret {| status := 500; body := NoBody |})
  else ret {| status := 404; body := NoBody |}.

(** The checks of the three services ([main.ts]). *)
Definition core_api_checks (redis_status : string) : list (string * M bool) :=
  [("postgres", isReachable); ("redis", ret (redis_isConnected redis_status))].
Definition watcher_checks (rabbitmq : option bool) (redis_status : string) : list (string * M bool) :=
  [("rabbitmq", ret (isConnected rabbitmq)); ("redis", ret (redis_isConnected redis_status))].
Definition notifier_checks (rabbitmq : option bool) : list (string * M bool) := [("rabbitmq", ret (isConnected rabbitmq))].

(** ** Mail ([libs/common/src/mail/mail.service.ts]) *)

Definition mail_send (transport : option MailTransport) (to subject html : string) : M unit :=
  match transport with
  | None => throw (JsError "SMTP is not configured (SMTP_HOST is unset)")
  | Some _ => deliver (Mail to subject html)
  end.

(** ** Properties *)

(** What the probes see, each at its turn; [None] when one kills the process. *)
Inductive seen : list (string * M bool) -> World -> list (string * bool) -> World -> Prop :=
  | seen_nil w : seen [] w [] w
  | seen_up name check rest w up w1 l w' :
      check w = (Ok up, w1) -> seen rest w1 l w' -> seen ((name, check) :: rest) w ((name, up) :: l) w'
  | seen_threw name check rest w e w1 l w' :
      check w = (Throw e, w1) -> seen rest w1 l w' -> seen ((name, check) :: rest) w ((name, false) :: l) w'.

Lemma probe_seen checks acc w r w' :
  probe checks acc w = (r, w') ->
  (exists l, r = Ok (acc ++ l) /\ seen checks w l w') \/ r = Crash.
Proof.
  revert acc w. induction checks as [|[name check] rest IH]; intros acc w; cbn [probe].
  - intros [= <- <-]. left. exists []. rewrite app_nil_r. split; [done|constructor].
  - unfold bind, catch. destruct (check w) as [[up|e|] w1] eqn:Hc; cbn.
    + intros [(l & -> & Hs)|?]%IH; [left|by right]. exists ((name, up) :: l). rewrite <- app_assoc. split; [done|by econstructor].
    + intros [(l & -> & Hs)|?]%IH; [left|by right]. exists ((name, false) :: l). rewrite <- app_assoc. split; [done|by econstructor].
    + intros [= <- _]. by right.
Qed.

(** Readiness is the truth about the dependencies: the answer never fails,
    lists every dependency with what its probe saw, a throwing probe as down
    and without hiding the ones behind it, and is 200 exactly when all are
    up. *)
Theorem readiness_reports checks w r w' :
  reportReadiness checks w = (r, w') ->
  r = Crash \/
  exists l, seen checks w l w' /\ map fst l = map fst checks /\
    r = Ok {| status := if forallb snd l then 200 else 503; body := Readiness (forallb snd l) l |}.
Proof.
  unfold reportReadiness, bind. destruct (probe checks [] w) as [r1 w1] eqn:Hp.
  apply probe_seen in Hp as [(l & -> & Hs)| ->]; intros [= <- <-]; [right|by left].
  exists l. split; [done|]. split; [|done]. clear -Hs. induction Hs; cbn; congruence.
Qed.

(** Liveness does not depend on anything. *)
Theorem liveness_is_unconditional checks metrics w :
  health_server checks metrics "/health" w = (Ok {| status := 200; body := Alive |}, w).
Proof. done. Qed.

(** A database that answers is reported up, one that does not is reported
    down; the probe never throws. *)
Theorem isReachable_answers w r w' :
  isReachable w = (r, w') -> r = Crash \/ exists up, r = Ok up /\ (oracle w = [] -> up = true).
Proof.
  unfold isReachable, catch, bind, ret. destruct (query _ w) as [[u|e|] w1] eqn:Hq; intros [= <- _]; [right..|by left].
  - by exists true.
  - exists false. split; [done|]. intros Ho. rewrite query_ok in Hq by done. discriminate Hq.
Qed.
