(* ===== verification/Metrics.v ===== *)
(** * Metrics and log context

    [libs/common/src/metrics/metrics.ts], the series each service declares,
    the request timer of the API, and [libs/common/src/logging]. Nothing the
    services decide depends on them; what is shown is that declaring and
    counting never throws and that contexts do not leak. *)

From S2P Require Import Prelude JsNumber Enums.

(** ** The registry *)

Inductive MetricKind := Counter | Gauge | Histogram.

#[global] Instance MetricKind_eq_dec : EqDecision MetricKind.
Proof. solve_decision. Defined.

(** What a metric was constructed with; [None] buckets are the library's. *)
Record RegisteredMetric := { mt_kind : MetricKind; mt_help : string; mt_labels : list string; mt_buckets : option (list number) }.

(** Metrics by name. *)
Notation Registry := (gmap string RegisteredMetric).

(** [registry.getSingleMetric(name) ?? new …]: constructing a metric under a
    name that is taken throws. *)
Definition get_or_create (name : string) (m : RegisteredMetric) (reg : Registry) : RegisteredMetric * Registry :=
  match reg !! name with
  | Some old => (old, reg)
  | None => (m, <[name := m]> reg)
  end.

Definition getCounter (name help : string) (labelNames : list string) : Registry -> RegisteredMetric * Registry :=
  get_or_create name {| mt_kind := Counter; mt_help := help; mt_labels := labelNames; mt_buckets := None |}.
Definition getGauge (name help : string) (labelNames : list string) : Registry -> RegisteredMetric * Registry :=
  get_or_create name {| mt_kind := Gauge; mt_help := help; mt_labels := labelNames; mt_buckets := None |}.
Definition getHistogram (name help : string) (buckets : option (list number)) (labelNames : list string) : Registry -> RegisteredMetric * Registry :=
  get_or_create name {| mt_kind := Histogram; mt_help := help; mt_labels := labelNames; mt_buckets := buckets |}.

(** [defaultsStarted] and the registry. [collectDefaultMetrics] is the
    library's: [None] when it throws, as it does where its metrics exist. *)
Definition initDefaultMetrics (collectDefaultMetrics : Registry -> option Registry) (s : bool * Registry) : option (bool * Registry) :=
  if s.1 then Some s else reg ← collectDefaultMetrics s.2; Some (true, reg).

(** ** The series of the services *)

(** The call a module makes as it is loaded, and the name it asks for. *)
Record Series := { sr_name : string; sr_get : Registry -> RegisteredMetric * Registry; sr_kind : MetricKind; sr_labels : list string }.

Definition counter (name help : string) (labels : list string) : Series :=
  {| sr_name := name; sr_get := getCounter name help labels; sr_kind := Counter; sr_labels := labels |}.
Definition gauge (name help : string) : Series :=
  {| sr_name := name; sr_get := getGauge name help []; sr_kind := Gauge; sr_labels := [] |}.
Definition histogram (name help : string) (buckets : option (list number)) (labels : list string) : Series :=
  {| sr_name := name; sr_get := getHistogram name help buckets labels; sr_kind := Histogram; sr_labels := labels |}.

Definition cacheLookups := counter "watcher_weather_cache_total" "Weather snapshot lookups by cache result" ["result"].
Definition fetchFailures := counter "watcher_weather_fetch_failures_total" "Failed Open-Meteo snapshot fetches" [].
Definition relayed_total := counter "watcher_outbox_relayed_total" "Staged events handed to the broker" [].
Definition relayFailures := counter "watcher_outbox_failures_total" "Publish attempts that left an event staged for the next pass" [].
Definition backlog := gauge "watcher_outbox_pending" "Events staged but not yet handed to the broker".
Definition cycleDuration := histogram "watcher_cycle_duration_seconds" "Duration of a watcher poll cycle in seconds" None [].
Definition triggersEvaluated := counter "watcher_triggers_evaluated_total" "Total number of trigger evaluations" [].
Definition triggersFired := counter "watcher_triggers_fired_total" "Total number of triggers fired" [].
Definition triggersSuppressed := counter "watcher_suppressed_total" "Total number of matched triggers whose delivery was withheld" ["reason"].

Definition watcher_series : list Series :=
  [cacheLookups; fetchFailures; relayed_total; relayFailures; backlog; cycleDuration; triggersEvaluated; triggersFired; triggersSuppressed].

Definition notificationsTotal := counter "notifier_notifications_total" "Total notifications logged by channel and status" ["channel"; "status"].
Definition deliveryDuration :=
  histogram "notifier_delivery_duration_seconds" "Time spent delivering a notification through a channel"
    (Some [Num.lit 5 100; Num.lit 1 10; Num.lit 25 100; Num.lit 5 10; Num.of_Z 1; Num.of_Z 2; Num.of_Z 5; Num.of_Z 10; Num.of_Z 30])
    ["channel"; "outcome"].
Definition duplicatesSkipped := counter "notifier_duplicates_skipped_total" "Redelivered events that were already sent on this channel" ["channel"].
Definition retriesTotal := counter "notifier_retries_total" "Total notification delivery retries by channel" ["channel"].
Definition deadLetteredTotal := counter "notifier_dead_lettered_total" "Messages parked in the dead queue by channel and reason" ["channel"; "reason"].
Definition handlerFailures :=
  counter "notifier_handler_failures_total" "Deliveries left unacked because the handler could not record their outcome" ["channel"].

Definition notifier_series : list Series :=
  [notificationsTotal; deliveryDuration; duplicatesSkipped; retriesTotal; deadLetteredTotal; handlerFailures].

Definition authEvents := counter "core_api_auth_events_total" "Authentication events by type" ["type"].
Definition httpDuration :=
  histogram "core_api_http_request_duration_seconds" "HTTP request duration in seconds"
    (Some [Num.lit 1 100; Num.lit 5 100; Num.lit 1 10; Num.lit 3 10; Num.of_Z 1; Num.of_Z 3]) ["method"; "route"; "status"].
Definition forecast_lookups := counter "core_api_forecast_total" "Forecast lookups by cache result" ["result"].
Definition geocode_lookups := counter "core_api_geocode_total" "City lookups by cache result" ["result"].

Definition core_api_series : list Series := [authEvents; httpDuration; forecast_lookups; geocode_lookups].

(** The modules of a process, loaded one after another. *)
Definition load (series : list Series) (reg : Registry) : Registry := fold_left (fun reg s => (sr_get s reg).2) series reg.

(** ** Using them *)

(** [inc], [set], [observe]: the library throws on a label the metric was not
    constructed with, and on a method another kind has. *)
Definition accepts (m : RegisteredMetric) (kind : MetricKind) (labels : list string) : bool :=
  bool_decide (mt_kind m = kind) && forallb (fun l => existsb (String.eqb l) (mt_labels m)) labels.

(** Every call of the services: the series and the labels it gives. *)
Definition watcher_uses : list (Series * list string) :=
  [(cacheLookups, ["result"]); (fetchFailures, []); (relayed_total, []); (relayFailures, []); (backlog, []); (cycleDuration, []);
   (triggersEvaluated, []); (triggersFired, []); (triggersSuppressed, ["reason"])].
Definition notifier_uses : list (Series * list string) :=
  [(notificationsTotal, ["channel"; "status"]); (deliveryDuration, ["channel"; "outcome"]); (duplicatesSkipped, ["channel"]);
   (retriesTotal, ["channel"]); (deadLetteredTotal, ["channel"; "reason"]); (handlerFailures, ["channel"])].
Definition core_api_uses : list (Series * list string) :=
  [(authEvents, ["type"]); (httpDuration, ["method"; "route"; "status"]); (forecast_lookups, ["result"]); (geocode_lookups, ["result"])].

(** *** The events of the API *)

Inductive AuthEvent := register_event | login_event | login_locked | refresh_event | password_reset | account_deleted.

Definition AuthEvent_text (e : AuthEvent) : string :=
  match e with
  | register_event => "register" | login_event => "login" | login_locked => "login_locked"
  | refresh_event => "refresh" | password_reset => "password_reset" | account_deleted => "account_deleted"
  end.

(** [recordAuth] on the counts by type. *)
Definition recordAuth (e : AuthEvent) (counts : gmap string Z) : gmap string Z :=
  <[AuthEvent_text e := default 0 (counts !! AuthEvent_text e) + 1]> counts.

(** *** The request timer *)

Record Observation := { ob_method : string; ob_route : string; ob_status : Z }.

Record Exchange := {
  ex_method : string;
  ex_routePath : option string;   (** [req.route?.path] *)
  ex_path : string;
  ex_status : Z;                  (** [res.statusCode] while the handler runs *)
}.

(** [intercept]: what is observed when the handler answers or throws. The
    filter that turns an error into a response comes after it. *)
Definition intercept (contextType : string) (x : Exchange) : list Observation :=
  if negb (String.eqb contextType "http") then []
  else [{| ob_method := ex_method x; ob_route := default (ex_path x) (ex_routePath x); ob_status := ex_status x |}].

(** ** Log context ([log-context.ts], [rejection-guard.ts]) *)

Inductive LogValue := LText (s : string) | LNumber (n : number) | LBool (b : bool).
Notation LogContext := (gmap string LogValue).

(** Code that reads and extends the context of its run, [None] outside one. *)
Definition Logged (A : Type) : Type := option LogContext -> A * option LogContext.

Definition runWithLogContext {A} (context : LogContext) (fn : Logged A) : Logged A := fun store => ((fn (Some context)).1, store).
Definition addLogContext (fields : LogContext) : Logged unit := fun store => (tt, (fun c => fields ∪ c) <$> store).
Definition currentLogContext : Logged LogContext := fun store => (default ∅ store, store).

(** A reason nobody handled: an [Error], or anything else as text. *)
Inductive Reason := ErrorReason (stack : option string) (name message : string) | OtherReason (text : string).

Definition stringify (reason : Reason) : string :=
  match reason with
  | ErrorReason stack name message => default (name +:+ ": " +:+ message) stack
  | OtherReason text => text
  end.

Definition installRejectionGuard (reason : Reason) : string :=
  "Unhandled promise rejection — a failure escaped its handler: " +:+ stringify reason.

(** ** What holds *)

Lemma get_or_create_again name m reg :
  let r := get_or_create name m reg in get_or_create name m r.2 = r.
Proof.
  cbv zeta. unfold get_or_create. destruct (reg !! name) as [old|] eqn:Hn; cbn [snd]; [by rewrite Hn|]. by rewrite lookup_insert_eq.
Qed.

(** A series finds itself as it was declared, whoever declares what in
    between under other names. *)
Definition own (s : Series) (reg : Registry) : Prop :=
  exists m, reg !! sr_name s = Some m /\ mt_kind m = sr_kind s /\ mt_labels m = sr_labels s.

Definition well_declared (s : Series) : Prop :=
  (forall reg, reg !! sr_name s = None -> own s (sr_get s reg).2) /\
  (forall reg name, reg !! name <> None \/ name <> sr_name s -> (sr_get s reg).2 !! name = reg !! name).

Lemma declared name m :
  well_declared {| sr_name := name; sr_get := get_or_create name m; sr_kind := mt_kind m; sr_labels := mt_labels m |}.
Proof.
  split; unfold own, get_or_create; cbn [sr_name sr_get sr_kind sr_labels].
  - intros reg ->. exists m. cbn [snd]. by rewrite lookup_insert_eq.
  - intros reg name' Hn. destruct (reg !! name) as [old|] eqn:Hold; [done|]. cbn [snd]. destruct (decide (name = name')) as [<-|Hne].
    + rewrite Hold in Hn. by destruct Hn.
    + by rewrite lookup_insert_ne.
Qed.

Lemma load_keeps series reg name :
  Forall well_declared series -> reg !! name <> None \/ name ∉ sr_name <$> series -> load series reg !! name = reg !! name.
Proof.
  intros Hw. revert reg. induction Hw as [|s series [Hs Hk] _ IH]; intros reg Hn; [done|]. cbn.
  rewrite IH; [apply Hk; destruct Hn; [by left|right; set_solver]|].
  destruct (reg !! name) eqn:Hreg; [left|right; destruct Hn; [done|set_solver]].
  rewrite Hk by (left; by rewrite Hreg). by rewrite Hreg.
Qed.

(** Every module finds the metrics it declared, in whatever order the modules
    of the process are loaded. *)
Theorem series_are_own series reg s :
  Forall well_declared series -> NoDup (sr_name <$> series) -> (forall x, x ∈ series -> reg !! sr_name x = None) ->
  s ∈ series -> own s (load series reg).
Proof.
  intros Hw. revert reg. induction Hw as [|x series [Hx Hk] Hw IH]; intros reg Hnd Hreg Hin; [by apply elem_of_nil in Hin|].
  cbn in Hnd. apply NoDup_cons in Hnd as [Hno Hnd]. cbn. apply elem_of_cons in Hin as [->|Hin].
  - destruct (Hx reg) as (m & Hm & Hkind & Hlabels); [apply Hreg, list_elem_of_here|].
    exists m. split; [|done]. change (load series (sr_get x reg).2 !! sr_name x = Some m).
    rewrite load_keeps; [exact Hm|done|]. left. by rewrite Hm.
  - apply IH; [done| |done]. intros y Hy. rewrite Hk; [apply Hreg; set_solver|]. right. intros Heq. apply Hno.
    rewrite <- Heq. by apply list_elem_of_fmap_2.
Qed.

(** The services declare different names, and count with the labels they
    declared: no call on a metric throws. *)
Theorem counting_never_throws :
  Forall (fun '(series, uses) => Forall (fun '(s, labels) => exists m,
    load series ∅ !! sr_name s = Some m /\ accepts m (sr_kind s) labels = true) uses)
    [(watcher_series, watcher_uses); (notifier_series, notifier_uses); (core_api_series, core_api_uses)].
Proof. repeat constructor; eexists; split; vm_compute; reflexivity. Qed.

(** Starting the health server twice does not construct the defaults twice. *)
Lemma defaults_once collect s s' : initDefaultMetrics collect s = Some s' -> initDefaultMetrics collect s' = Some s'.
Proof.
  unfold initDefaultMetrics. destruct s as [[] reg]; cbn; [by intros [= <-]|]. destruct (collect reg); cbn; by intros [= <-].
Qed.

(** A run starts from its own fields, sees what it adds, and leaves the
    surrounding context as it was. *)
Lemma context_does_not_leak {A} context fields (fn : Logged A) store :
  (runWithLogContext context fn store).2 = store /\
  (runWithLogContext context (fun c => currentLogContext (addLogContext fields c).2) store).1 = fields ∪ context /\
  (currentLogContext (addLogContext fields None).2).1 = ∅.
Proof. done. Qed.
